(** * grabr: a shallow embedding of the selection-to-prompt pipeline

    The development follows the TypeScript sources: [serializable.ts],
    [dom.ts], [heuristics.ts], [prompt.ts] and the client/controller
    module.  JavaScript strings are sequences of UTF-16 code units,
    32-bit integer operators have their wrap-around written out, records
    that reach [JSON.stringify] are JSON-like value trees, and the
    asynchronous parts are small-step machines whose only freedom is the
    order in which pending promises settle.

    The first half of the file holds the definitions, the second half the
    lemmas and theorems about them. *)

From Stdlib Require Import ZArith QArith Qround Lia List String Ascii Bool.
From stdpp Require Import base list option numbers.
Import ListNotations.

#[local] Open Scope Z_scope.
#[local] Set Warnings "-register-all".

(** ** JavaScript values *)

Module JS.

(** A string is its sequence of UTF-16 code units ([charCodeAt]). *)
Definition jsstring := list Z.

(** ASCII literals of the sources. *)
Definition js (s : string) : jsstring :=
  map (fun a => Z.of_nat (nat_of_ascii a)) (list_ascii_of_string s).

Definition strcat (parts : list jsstring) : jsstring := concat parts.

(** [Array.prototype.join]. *)
Fixpoint join (sep : jsstring) (parts : list jsstring) : jsstring :=
  match parts with
  | [] => []
  | [p] => p
  | p :: rest => p ++ sep ++ join sep rest
  end.

(** [String.prototype.startsWith], [endsWith], [includes]. *)
Fixpoint startsWith (s pat : jsstring) : bool :=
  match pat, s with
  | [], _ => true
  | _ :: _, [] => false
  | p :: pat', c :: s' => (c =? p) && startsWith s' pat'
  end.

Definition endsWith (s pat : jsstring) : bool :=
  startsWith (rev s) (rev pat).

Fixpoint includes (s pat : jsstring) : bool :=
  startsWith s pat ||
  match s with
  | [] => false
  | _ :: s' => includes s' pat
  end.

(** [s.split(sep)] for a one-character separator: the pieces between
    separators, empty pieces included. *)
Fixpoint split_on (sep : Z) (s : jsstring) : list jsstring :=
  match s with
  | [] => [[]]
  | c :: s' =>
      if c =? sep then [] :: split_on sep s'
      else match split_on sep s' with
           | [] => [[c]]
           | piece :: pieces => (c :: piece) :: pieces
           end
  end.

(** *** Lower-casing

    [String.prototype.toLowerCase] reads the string as code points (a
    high surrogate followed by a low one is one code point), maps them
    by the default case conversion of the Unicode Character Database
    and writes the result back as code units.  The tables are those of
    Unicode 14.0.0: the simple lower-case mappings of UnicodeData.txt,
    the properties Case_Ignorable and Cased of
    DerivedCoreProperties.txt, and the two lower-case mappings of
    SpecialCasing.txt that hold in every locale: U+0130, and U+03A3 in
    the context Final_Sigma. *)

Definition isHighSurrogate (c : Z) : bool := (55296 <=? c) && (c <=? 56319).
Definition isLowSurrogate (c : Z) : bool := (56320 <=? c) && (c <=? 57343).

Fixpoint codePoints (s : jsstring) : list Z :=
  match s with
  | [] => []
  | c :: rest =>
      match rest with
      | d :: rest' =>
          if isHighSurrogate c && isLowSurrogate d
          then (65536 + (c - 55296) * 1024 + (d - 56320)) :: codePoints rest'
          else c :: codePoints rest
      | [] => [c]
      end
  end.

Definition codeUnits (cp : Z) : jsstring :=
  if cp <? 65536 then [cp]
  else [55296 + (cp - 65536) / 1024; 56320 + (cp - 65536) mod 1024].

(** The simple lower-case mappings, in runs: every [step]-th code point
    from [first] to [last] maps to the code point [delta] further on. *)
Definition LOWERCASE_MAPPING : list (Z * Z * Z * Z) :=
  [ (65, 90, 1, 32); (192, 214, 1, 32); (216, 222, 1, 32); (256, 302, 2, 1);
   (306, 310, 2, 1); (313, 327, 2, 1); (330, 374, 2, 1);
   (376, 376, 1, (-121)); (377, 381, 2, 1); (385, 385, 1, 210);
   (386, 388, 2, 1); (390, 390, 1, 206); (391, 391, 1, 1); (393, 394, 1, 205);
   (395, 395, 1, 1); (398, 398, 1, 79); (399, 399, 1, 202);
   (400, 400, 1, 203); (401, 401, 1, 1); (403, 403, 1, 205);
   (404, 404, 1, 207); (406, 406, 1, 211); (407, 407, 1, 209);
   (408, 408, 1, 1); (412, 412, 1, 211); (413, 413, 1, 213);
   (415, 415, 1, 214); (416, 420, 2, 1); (422, 422, 1, 218); (423, 423, 1, 1);
   (425, 425, 1, 218); (428, 428, 1, 1); (430, 430, 1, 218); (431, 431, 1, 1);
   (433, 434, 1, 217); (435, 437, 2, 1); (439, 439, 1, 219); (440, 440, 1, 1);
   (444, 444, 1, 1); (452, 452, 1, 2); (453, 453, 1, 1); (455, 455, 1, 2);
   (456, 456, 1, 1); (458, 458, 1, 2); (459, 475, 2, 1); (478, 494, 2, 1);
   (497, 497, 1, 2); (498, 500, 2, 1); (502, 502, 1, (-97));
   (503, 503, 1, (-56)); (504, 542, 2, 1); (544, 544, 1, (-130));
   (546, 562, 2, 1); (570, 570, 1, 10795); (571, 571, 1, 1);
   (573, 573, 1, (-163)); (574, 574, 1, 10792); (577, 577, 1, 1);
   (579, 579, 1, (-195)); (580, 580, 1, 69); (581, 581, 1, 71);
   (582, 590, 2, 1); (880, 882, 2, 1); (886, 886, 1, 1); (895, 895, 1, 116);
   (902, 902, 1, 38); (904, 906, 1, 37); (908, 908, 1, 64); (910, 911, 1, 63);
   (913, 929, 1, 32); (931, 939, 1, 32); (975, 975, 1, 8); (984, 1006, 2, 1);
   (1012, 1012, 1, (-60)); (1015, 1015, 1, 1); (1017, 1017, 1, (-7));
   (1018, 1018, 1, 1); (1021, 1023, 1, (-130)); (1024, 1039, 1, 80);
   (1040, 1071, 1, 32); (1120, 1152, 2, 1); (1162, 1214, 2, 1);
   (1216, 1216, 1, 15); (1217, 1229, 2, 1); (1232, 1326, 2, 1);
   (1329, 1366, 1, 48); (4256, 4293, 1, 7264); (4295, 4295, 1, 7264);
   (4301, 4301, 1, 7264); (5024, 5103, 1, 38864); (5104, 5109, 1, 8);
   (7312, 7354, 1, (-3008)); (7357, 7359, 1, (-3008)); (7680, 7828, 2, 1);
   (7838, 7838, 1, (-7615)); (7840, 7934, 2, 1); (7944, 7951, 1, (-8));
   (7960, 7965, 1, (-8)); (7976, 7983, 1, (-8)); (7992, 7999, 1, (-8));
   (8008, 8013, 1, (-8)); (8025, 8031, 2, (-8)); (8040, 8047, 1, (-8));
   (8072, 8079, 1, (-8)); (8088, 8095, 1, (-8)); (8104, 8111, 1, (-8));
   (8120, 8121, 1, (-8)); (8122, 8123, 1, (-74)); (8124, 8124, 1, (-9));
   (8136, 8139, 1, (-86)); (8140, 8140, 1, (-9)); (8152, 8153, 1, (-8));
   (8154, 8155, 1, (-100)); (8168, 8169, 1, (-8)); (8170, 8171, 1, (-112));
   (8172, 8172, 1, (-7)); (8184, 8185, 1, (-128)); (8186, 8187, 1, (-126));
   (8188, 8188, 1, (-9)); (8486, 8486, 1, (-7517)); (8490, 8490, 1, (-8383));
   (8491, 8491, 1, (-8262)); (8498, 8498, 1, 28); (8544, 8559, 1, 16);
   (8579, 8579, 1, 1); (9398, 9423, 1, 26); (11264, 11311, 1, 48);
   (11360, 11360, 1, 1); (11362, 11362, 1, (-10743));
   (11363, 11363, 1, (-3814)); (11364, 11364, 1, (-10727));
   (11367, 11371, 2, 1); (11373, 11373, 1, (-10780));
   (11374, 11374, 1, (-10749)); (11375, 11375, 1, (-10783));
   (11376, 11376, 1, (-10782)); (11378, 11378, 1, 1); (11381, 11381, 1, 1);
   (11390, 11391, 1, (-10815)); (11392, 11490, 2, 1); (11499, 11501, 2, 1);
   (11506, 11506, 1, 1); (42560, 42604, 2, 1); (42624, 42650, 2, 1);
   (42786, 42798, 2, 1); (42802, 42862, 2, 1); (42873, 42875, 2, 1);
   (42877, 42877, 1, (-35332)); (42878, 42886, 2, 1); (42891, 42891, 1, 1);
   (42893, 42893, 1, (-42280)); (42896, 42898, 2, 1); (42902, 42920, 2, 1);
   (42922, 42922, 1, (-42308)); (42923, 42923, 1, (-42319));
   (42924, 42924, 1, (-42315)); (42925, 42925, 1, (-42305));
   (42926, 42926, 1, (-42308)); (42928, 42928, 1, (-42258));
   (42929, 42929, 1, (-42282)); (42930, 42930, 1, (-42261));
   (42931, 42931, 1, 928); (42932, 42946, 2, 1); (42948, 42948, 1, (-48));
   (42949, 42949, 1, (-42307)); (42950, 42950, 1, (-35384));
   (42951, 42953, 2, 1); (42960, 42960, 1, 1); (42966, 42968, 2, 1);
   (42997, 42997, 1, 1); (65313, 65338, 1, 32); (66560, 66599, 1, 40);
   (66736, 66771, 1, 40); (66928, 66938, 1, 39); (66940, 66954, 1, 39);
   (66956, 66962, 1, 39); (66964, 66965, 1, 39); (68736, 68786, 1, 64);
   (71840, 71871, 1, 32); (93760, 93791, 1, 32); (125184, 125217, 1, 34)].

(** The code points with the property Case_Ignorable, in ranges. *)
Definition CASE_IGNORABLE : list (Z * Z) :=
  [ (39, 39); (46, 46); (58, 58); (94, 94); (96, 96); (168, 168); (173, 173);
   (175, 175); (180, 180); (183, 184); (688, 879); (884, 885); (890, 890);
   (900, 901); (903, 903); (1155, 1161); (1369, 1369); (1375, 1375);
   (1425, 1469); (1471, 1471); (1473, 1474); (1476, 1477); (1479, 1479);
   (1524, 1524); (1536, 1541); (1552, 1562); (1564, 1564); (1600, 1600);
   (1611, 1631); (1648, 1648); (1750, 1757); (1759, 1768); (1770, 1773);
   (1807, 1807); (1809, 1809); (1840, 1866); (1958, 1968); (2027, 2037);
   (2042, 2042); (2045, 2045); (2070, 2093); (2137, 2139); (2184, 2184);
   (2192, 2193); (2200, 2207); (2249, 2306); (2362, 2362); (2364, 2364);
   (2369, 2376); (2381, 2381); (2385, 2391); (2402, 2403); (2417, 2417);
   (2433, 2433); (2492, 2492); (2497, 2500); (2509, 2509); (2530, 2531);
   (2558, 2558); (2561, 2562); (2620, 2620); (2625, 2626); (2631, 2632);
   (2635, 2637); (2641, 2641); (2672, 2673); (2677, 2677); (2689, 2690);
   (2748, 2748); (2753, 2757); (2759, 2760); (2765, 2765); (2786, 2787);
   (2810, 2815); (2817, 2817); (2876, 2876); (2879, 2879); (2881, 2884);
   (2893, 2893); (2901, 2902); (2914, 2915); (2946, 2946); (3008, 3008);
   (3021, 3021); (3072, 3072); (3076, 3076); (3132, 3132); (3134, 3136);
   (3142, 3144); (3146, 3149); (3157, 3158); (3170, 3171); (3201, 3201);
   (3260, 3260); (3263, 3263); (3270, 3270); (3276, 3277); (3298, 3299);
   (3328, 3329); (3387, 3388); (3393, 3396); (3405, 3405); (3426, 3427);
   (3457, 3457); (3530, 3530); (3538, 3540); (3542, 3542); (3633, 3633);
   (3636, 3642); (3654, 3662); (3761, 3761); (3764, 3772); (3782, 3782);
   (3784, 3789); (3864, 3865); (3893, 3893); (3895, 3895); (3897, 3897);
   (3953, 3966); (3968, 3972); (3974, 3975); (3981, 3991); (3993, 4028);
   (4038, 4038); (4141, 4144); (4146, 4151); (4153, 4154); (4157, 4158);
   (4184, 4185); (4190, 4192); (4209, 4212); (4226, 4226); (4229, 4230);
   (4237, 4237); (4253, 4253); (4348, 4348); (4957, 4959); (5906, 5908);
   (5938, 5939); (5970, 5971); (6002, 6003); (6068, 6069); (6071, 6077);
   (6086, 6086); (6089, 6099); (6103, 6103); (6109, 6109); (6155, 6159);
   (6211, 6211); (6277, 6278); (6313, 6313); (6432, 6434); (6439, 6440);
   (6450, 6450); (6457, 6459); (6679, 6680); (6683, 6683); (6742, 6742);
   (6744, 6750); (6752, 6752); (6754, 6754); (6757, 6764); (6771, 6780);
   (6783, 6783); (6823, 6823); (6832, 6862); (6912, 6915); (6964, 6964);
   (6966, 6970); (6972, 6972); (6978, 6978); (7019, 7027); (7040, 7041);
   (7074, 7077); (7080, 7081); (7083, 7085); (7142, 7142); (7144, 7145);
   (7149, 7149); (7151, 7153); (7212, 7219); (7222, 7223); (7288, 7293);
   (7376, 7378); (7380, 7392); (7394, 7400); (7405, 7405); (7412, 7412);
   (7416, 7417); (7468, 7530); (7544, 7544); (7579, 7679); (8125, 8125);
   (8127, 8129); (8141, 8143); (8157, 8159); (8173, 8175); (8189, 8190);
   (8203, 8207); (8216, 8217); (8228, 8228); (8231, 8231); (8234, 8238);
   (8288, 8292); (8294, 8303); (8305, 8305); (8319, 8319); (8336, 8348);
   (8400, 8432); (11388, 11389); (11503, 11505); (11631, 11631);
   (11647, 11647); (11744, 11775); (11823, 11823); (12293, 12293);
   (12330, 12333); (12337, 12341); (12347, 12347); (12441, 12446);
   (12540, 12542); (40981, 40981); (42232, 42237); (42508, 42508);
   (42607, 42610); (42612, 42621); (42623, 42623); (42652, 42655);
   (42736, 42737); (42752, 42785); (42864, 42864); (42888, 42890);
   (42994, 42996); (43000, 43001); (43010, 43010); (43014, 43014);
   (43019, 43019); (43045, 43046); (43052, 43052); (43204, 43205);
   (43232, 43249); (43263, 43263); (43302, 43309); (43335, 43345);
   (43392, 43394); (43443, 43443); (43446, 43449); (43452, 43453);
   (43471, 43471); (43493, 43494); (43561, 43566); (43569, 43570);
   (43573, 43574); (43587, 43587); (43596, 43596); (43632, 43632);
   (43644, 43644); (43696, 43696); (43698, 43700); (43703, 43704);
   (43710, 43711); (43713, 43713); (43741, 43741); (43756, 43757);
   (43763, 43764); (43766, 43766); (43867, 43871); (43881, 43883);
   (44005, 44005); (44008, 44008); (44013, 44013); (64286, 64286);
   (64434, 64450); (65024, 65039); (65043, 65043); (65056, 65071);
   (65106, 65106); (65109, 65109); (65279, 65279); (65287, 65287);
   (65294, 65294); (65306, 65306); (65342, 65342); (65344, 65344);
   (65392, 65392); (65438, 65439); (65507, 65507); (65529, 65531);
   (66045, 66045); (66272, 66272); (66422, 66426); (67456, 67461);
   (67463, 67504); (67506, 67514); (68097, 68099); (68101, 68102);
   (68108, 68111); (68152, 68154); (68159, 68159); (68325, 68326);
   (68900, 68903); (69291, 69292); (69446, 69456); (69506, 69509);
   (69633, 69633); (69688, 69702); (69744, 69744); (69747, 69748);
   (69759, 69761); (69811, 69814); (69817, 69818); (69821, 69821);
   (69826, 69826); (69837, 69837); (69888, 69890); (69927, 69931);
   (69933, 69940); (70003, 70003); (70016, 70017); (70070, 70078);
   (70089, 70092); (70095, 70095); (70191, 70193); (70196, 70196);
   (70198, 70199); (70206, 70206); (70367, 70367); (70371, 70378);
   (70400, 70401); (70459, 70460); (70464, 70464); (70502, 70508);
   (70512, 70516); (70712, 70719); (70722, 70724); (70726, 70726);
   (70750, 70750); (70835, 70840); (70842, 70842); (70847, 70848);
   (70850, 70851); (71090, 71093); (71100, 71101); (71103, 71104);
   (71132, 71133); (71219, 71226); (71229, 71229); (71231, 71232);
   (71339, 71339); (71341, 71341); (71344, 71349); (71351, 71351);
   (71453, 71455); (71458, 71461); (71463, 71467); (71727, 71735);
   (71737, 71738); (71995, 71996); (71998, 71998); (72003, 72003);
   (72148, 72151); (72154, 72155); (72160, 72160); (72193, 72202);
   (72243, 72248); (72251, 72254); (72263, 72263); (72273, 72278);
   (72281, 72283); (72330, 72342); (72344, 72345); (72752, 72758);
   (72760, 72765); (72767, 72767); (72850, 72871); (72874, 72880);
   (72882, 72883); (72885, 72886); (73009, 73014); (73018, 73018);
   (73020, 73021); (73023, 73029); (73031, 73031); (73104, 73105);
   (73109, 73109); (73111, 73111); (73459, 73460); (78896, 78904);
   (92912, 92916); (92976, 92982); (92992, 92995); (94031, 94031);
   (94095, 94111); (94176, 94177); (94179, 94180); (110576, 110579);
   (110581, 110587); (110589, 110590); (113821, 113822); (113824, 113827);
   (118528, 118573); (118576, 118598); (119143, 119145); (119155, 119170);
   (119173, 119179); (119210, 119213); (119362, 119364); (121344, 121398);
   (121403, 121452); (121461, 121461); (121476, 121476); (121499, 121503);
   (121505, 121519); (122880, 122886); (122888, 122904); (122907, 122913);
   (122915, 122916); (122918, 122922); (123184, 123197); (123566, 123566);
   (123628, 123631); (125136, 125142); (125252, 125259); (127995, 127999);
   (917505, 917505); (917536, 917631); (917760, 917999)].

(** The code points with the property Cased, in ranges. *)
Definition CASED : list (Z * Z) :=
  [ (65, 90); (97, 122); (170, 170); (181, 181); (186, 186); (192, 214);
   (216, 246); (248, 442); (444, 447); (452, 659); (661, 696); (704, 705);
   (736, 740); (837, 837); (880, 883); (886, 887); (890, 893); (895, 895);
   (902, 902); (904, 906); (908, 908); (910, 929); (931, 1013); (1015, 1153);
   (1162, 1327); (1329, 1366); (1376, 1416); (4256, 4293); (4295, 4295);
   (4301, 4301); (4304, 4346); (4349, 4351); (5024, 5109); (5112, 5117);
   (7296, 7304); (7312, 7354); (7357, 7359); (7424, 7615); (7680, 7957);
   (7960, 7965); (7968, 8005); (8008, 8013); (8016, 8023); (8025, 8025);
   (8027, 8027); (8029, 8029); (8031, 8061); (8064, 8116); (8118, 8124);
   (8126, 8126); (8130, 8132); (8134, 8140); (8144, 8147); (8150, 8155);
   (8160, 8172); (8178, 8180); (8182, 8188); (8305, 8305); (8319, 8319);
   (8336, 8348); (8450, 8450); (8455, 8455); (8458, 8467); (8469, 8469);
   (8473, 8477); (8484, 8484); (8486, 8486); (8488, 8488); (8490, 8493);
   (8495, 8500); (8505, 8505); (8508, 8511); (8517, 8521); (8526, 8526);
   (8544, 8575); (8579, 8580); (9398, 9449); (11264, 11492); (11499, 11502);
   (11506, 11507); (11520, 11557); (11559, 11559); (11565, 11565);
   (42560, 42605); (42624, 42653); (42786, 42887); (42891, 42894);
   (42896, 42954); (42960, 42961); (42963, 42963); (42965, 42969);
   (42997, 42998); (43000, 43002); (43824, 43866); (43868, 43880);
   (43888, 43967); (64256, 64262); (64275, 64279); (65313, 65338);
   (65345, 65370); (66560, 66639); (66736, 66771); (66776, 66811);
   (66928, 66938); (66940, 66954); (66956, 66962); (66964, 66965);
   (66967, 66977); (66979, 66993); (66995, 67001); (67003, 67004);
   (67456, 67456); (67459, 67461); (67463, 67504); (67506, 67514);
   (68736, 68786); (68800, 68850); (71840, 71903); (93760, 93823);
   (119808, 119892); (119894, 119964); (119966, 119967); (119970, 119970);
   (119973, 119974); (119977, 119980); (119982, 119993); (119995, 119995);
   (119997, 120003); (120005, 120069); (120071, 120074); (120077, 120084);
   (120086, 120092); (120094, 120121); (120123, 120126); (120128, 120132);
   (120134, 120134); (120138, 120144); (120146, 120485); (120488, 120512);
   (120514, 120538); (120540, 120570); (120572, 120596); (120598, 120628);
   (120630, 120654); (120656, 120686); (120688, 120712); (120714, 120744);
   (120746, 120770); (120772, 120779); (122624, 122633); (122635, 122654);
   (125184, 125251); (127280, 127305); (127312, 127337); (127344, 127369)].

Definition inRanges (ranges : list (Z * Z)) (cp : Z) : bool :=
  existsb (fun r => (fst r <=? cp) && (cp <=? snd r)) ranges.

Definition isCaseIgnorable (cp : Z) : bool := inRanges CASE_IGNORABLE cp.
Definition isCased (cp : Z) : bool := inRanges CASED cp.

Fixpoint mappedBy (runs : list (Z * Z * Z * Z)) (cp : Z) : Z :=
  match runs with
  | [] => cp
  | (first, last, step, delta) :: rest =>
      if (first <=? cp) && (cp <=? last) && ((cp - first) mod step =? 0)
      then cp + delta
      else mappedBy rest cp
  end.

Definition simpleLowercase (cp : Z) : Z := mappedBy LOWERCASE_MAPPING cp.

(** Final_Sigma: a capital sigma becomes the final small sigma when,
    case-ignorable code points passed over, a cased letter comes before
    it and none comes after it. *)
Fixpoint followedByCased (after : list Z) : bool :=
  match after with
  | [] => false
  | cp :: rest =>
      if isCaseIgnorable cp then followedByCased rest else isCased cp
  end.

(** [precededByCased] tells that, case-ignorable code points passed
    over, the code point before the current one is cased. *)
Fixpoint lowerFrom (precededByCased : bool) (cps : list Z) : list Z :=
  match cps with
  | [] => []
  | cp :: rest =>
      (if cp =? 931
       then if precededByCased && negb (followedByCased rest)
            then [962] else [963]
       else if cp =? 304 then [105; 775]
       else [simpleLowercase cp])
      ++ lowerFrom
           (if isCaseIgnorable cp then precededByCased else isCased cp) rest
  end.

Definition toLowerCase (s : jsstring) : jsstring :=
  flat_map codeUnits (lowerFrom false (codePoints s)).

(** A regular expression with the flag [i] and without the flag [u]
    compares code units by their upper-casing, and never takes a unit
    above 127 for an ASCII letter: an ASCII letter of the pattern
    matches itself in either case and nothing else.  [fold_unit] takes
    the two cases of an ASCII letter to the lower one. *)
Definition fold_unit (c : Z) : Z :=
  if (65 <=? c) && (c <=? 90) then c + 32 else c.

Definition foldCase (s : jsstring) : jsstring := map fold_unit s.

(** The white space of [String.prototype.trim] and of the regular
    expression class [\s] (WhiteSpace and LineTerminator code points). *)
Definition isWhiteSpace (c : Z) : bool :=
  ((9 <=? c) && (c <=? 13)) || (c =? 32) || (c =? 160) || (c =? 5760)
  || ((8192 <=? c) && (c <=? 8202)) || (c =? 8232) || (c =? 8233)
  || (c =? 8239) || (c =? 8287) || (c =? 12288) || (c =? 65279).

(** Digits of a non-negative integer in a radix, most significant first
    ([Number.prototype.toString(radix)] on such a number). *)
Definition digit_unit (d : Z) : Z :=
  if d <? 10 then 48 + d else 87 + d.

Fixpoint digits_loop (radix : Z) (fuel : nat) (n : Z) (acc : jsstring)
  : jsstring :=
  match fuel with
  | O => acc
  | S fuel' =>
      let acc' := digit_unit (n mod radix) :: acc in
      if n / radix =? 0 then acc' else digits_loop radix fuel' (n / radix) acc'
  end.

Definition toStringRadix (radix n : Z) : jsstring :=
  digits_loop radix (S (Z.to_nat (Z.log2 n))) n [].

Definition natToString (n : nat) : jsstring := toStringRadix 10 (Z.of_nat n).

(** *** 32-bit integer operators *)

(** [ToInt32]: reduce modulo 2^32 into the signed range. *)
Definition toInt32 (z : Z) : Z :=
  let m := z mod 2 ^ 32 in
  if m <? 2 ^ 31 then m else m - 2 ^ 32.

(** [ToUint32], the conversion behind [x >>> 0]. *)
Definition toUint32 (z : Z) : Z := z mod 2 ^ 32.

(** [a << n] *)
Definition shl (a n : Z) : Z :=
  toInt32 (Z.shiftl (toInt32 a) (Z.land n 31)).

(** [a | b] *)
Definition bitor (a b : Z) : Z := Z.lor (toInt32 a) (toInt32 b).

(** [a >>> n] *)
Definition ushr (a n : Z) : Z := Z.shiftr (toUint32 a) (Z.land n 31).

(** *** Trimming, replacing and slicing *)

Fixpoint dropWhile (p : Z -> bool) (s : jsstring) : jsstring :=
  match s with
  | [] => []
  | c :: s' => if p c then dropWhile p s' else s
  end.

(** [String.prototype.trim]. *)
Definition trim (s : jsstring) : jsstring :=
  rev (dropWhile isWhiteSpace (rev (dropWhile isWhiteSpace s))).

(** [s.replace(/\s+/g, " ")]: every maximal run of white space becomes
    one space.  [in_run] tells that the previous unit was white space. *)
Fixpoint replaceRuns (in_run : bool) (s : jsstring) : jsstring :=
  match s with
  | [] => []
  | c :: s' =>
      if isWhiteSpace c
      then if in_run then replaceRuns true s' else 32 :: replaceRuns true s'
      else c :: replaceRuns false s'
  end.

Definition replaceWhiteSpaceRuns (s : jsstring) : jsstring :=
  replaceRuns false s.

(** [String.prototype.slice(start, end)]: a negative index counts from
    the end, and both are clamped to the string. *)
Definition slice_index (len i : Z) : Z :=
  if i <? 0 then Z.max (len + i) 0 else Z.min i len.

Definition slice (s : jsstring) (start end_ : Z) : jsstring :=
  let len := Z.of_nat (length s) in
  let from := slice_index len start in
  let to := slice_index len end_ in
  take (Z.to_nat (to - from)) (drop (Z.to_nat from) s).

End JS.

(** ** serializable.ts *)

Module Serializable.
Import JS.

(** The horizontal ellipsis U+2026 of the template literal. *)
Definition ELLIPSIS : Z := 8230.

Definition truncateText (text : jsstring) (limit : Z) : jsstring :=
  let trimmed := replaceWhiteSpaceRuns (trim text) in
  if Z.of_nat (length trimmed) <=? limit then trimmed
  else slice trimmed 0 limit ++ [ELLIPSIS].

End Serializable.

(** ** dom.ts *)

Module Dom.
Import JS Serializable.

Definition MAX_TEXT_SNIPPET : Z := 80.
Definition MAX_PARENT_DEPTH : Z := 4.
Definition MAX_CHILD_SAMPLES : Z := 5.

(** [summarizeTextContent(node)]; the argument is [node.textContent],
    [None] standing for [null]. *)
Definition summarizeTextContent (textContent : option jsstring)
  : option jsstring :=
  match textContent with
  | None => None
  | Some text =>
      let summarized := truncateText text MAX_TEXT_SNIPPET in
      if (length summarized =? 0)%nat then None else Some summarized
  end.

(** Elements are compared by identity; [seen] is the [Set] of the loop
    and [out] the array it fills. *)
Fixpoint dedupeLoop {Element} `{EqDecision Element}
  (elements seen out : list Element) : list Element :=
  match elements with
  | [] => out
  | el :: rest =>
      if bool_decide (el ∈ seen) then dedupeLoop rest seen out
      else dedupeLoop rest (el :: seen) (out ++ [el])
  end.

Definition dedupeElementsPreserveOrder {Element} `{EqDecision Element}
  (elements : list Element) : list Element :=
  dedupeLoop elements [] [].


End Dom.

(** ** Shapes of strings *)

Module StringShape.
Import JS.

(** A string is white-space collapsed when every white-space unit in it
    is a single U+0020 between two other units: none leads, none
    trails, no two are adjacent. *)
Fixpoint single_spaces (after_space : bool) (s : jsstring) : bool :=
  match s with
  | [] => true
  | c :: s' =>
      if isWhiteSpace c
      then (c =? 32) && negb after_space && single_spaces true s'
      else single_spaces false s'
  end.

Definition starts_in_space (s : jsstring) : bool :=
  match s with
  | [] => false
  | c :: _ => isWhiteSpace c
  end.

Definition ends_in_space (s : jsstring) : bool :=
  match rev s with
  | [] => false
  | c :: _ => isWhiteSpace c
  end.

Definition whitespace_collapsed (s : jsstring) : bool :=
  single_spaces true s && negb (ends_in_space s).

End StringShape.

(** ** Run-time values and schema.ts *)

Module Schema.
Import JS.

(** A number is not-a-number, an infinity, or finite; a finite number is
    given by its exact rational value. *)
Inductive jsnum :=
| NaN
| Infinity (negative : bool)
| Finite (q : Q).

(** Values as they exist at run time, once the TypeScript types are
    erased.  An object lists its own enumerable properties in
    enumeration order. *)
Inductive jsval :=
| JUndefined
| JNull
| JBoolean (b : bool)
| JNumber (n : jsnum)
| JString (s : jsstring)
| JArray (items : list jsval)
| JObject (props : list (jsstring * jsval)).

Definition numberOfNat (n : nat) : jsnum := Finite (inject_Z (Z.of_nat n)).

(** [obj[key] = value] on an object whose keys are not array indices:
    an existing property keeps its place, a new one is added last. *)
Fixpoint setProperty {A} (props : list (jsstring * A)) (key : jsstring)
  (value : A) : list (jsstring * A) :=
  match props with
  | [] => [(key, value)]
  | (k, v) :: rest =>
      if bool_decide (k = key) then (k, value) :: rest
      else (k, v) :: setProperty rest key value
  end.

Inductive SourceConfidence := ConfidenceNone | ConfidenceLow | ConfidenceMedium | ConfidenceHigh.

Inductive SourceOrigin := OriginBippy | OriginSourcemap | OriginInline | OriginUnknown.

Record SourceLocation := {
  fileName : jsstring;
  lineNumber : option jsnum;
  columnNumber : option jsnum;
  confidence : SourceConfidence;
  origin : SourceOrigin;
}.

Record ComponentFlags := {
  flag_isHost : bool;
  flag_isComposite : bool;
  isSuspenseBoundary : option bool;
  isErrorBoundary : option bool;
  isServerComponent : option bool;
  isLayoutLike : option bool;
}.

Record PropHighlight := {
  name : jsstring;
  value : jsval;
  reason : jsstring;
}.

Record PropsSnapshot := {
  totalProps : jsnum;
  highlighted : list PropHighlight;
}.

Record ReactComponentFrame := {
  displayName : option jsstring;
  isHost : bool;
  source : option SourceLocation;
  flags : ComponentFlags;
}.

(** The state and context snapshots are carried as values; nothing in
    the heuristics looks inside them. *)
Record ReactTreeSlice := {
  stack : list ReactComponentFrame;
  ownerIndex : option jsnum;
  ownerProps : option PropsSnapshot;
  ownerState : jsval;
  ownerContexts : jsval;
}.

Inductive DataSourceKind :=
| KindReactQuery | KindSwr | KindRedux | KindTrpc | KindCustom | KindUnknown.

Record DataSourceHint := {
  kind : DataSourceKind;
  identifier : option jsstring;
  description : option jsstring;
}.

Inductive InferredFramework :=
| NextApp | NextPages | Remix | ReactRouter | UnknownFramework.

Record FrameworkDetectionResult := {
  framework : InferredFramework;
  routePatternGuess : option jsstring;
  routeParamsGuess : option (list (jsstring * jsstring));
  pageComponent : option SourceLocation;
  layoutComponents : list SourceLocation;
}.

Record AppContext := {
  app_url : jsstring;
  app_pathname : jsstring;
  app_search : jsstring;
  app_hash : jsstring;
  app_framework : InferredFramework;
  app_routePatternGuess : option jsstring;
  app_routeParamsGuess : option (list (jsstring * jsstring));
  app_pageComponent : option SourceLocation;
  app_layoutComponents : list SourceLocation;
  dataSources : list DataSourceHint;
}.

Record FrameworkDetectionInput := {
  reactSlice : option ReactTreeSlice;
  url : jsstring;
  pathname : jsstring;
}.

Record FrameworkDetectionStrategy := {
  framework_strategy_id : jsstring;
  detect_framework : FrameworkDetectionInput -> option FrameworkDetectionResult;
}.

Record DataSourceDetectionInput := {
  input_ownerProps : option PropsSnapshot;
}.

Record DataSourceDetectionStrategy := {
  data_strategy_id : jsstring;
  detect_data_sources : DataSourceDetectionInput -> list DataSourceHint;
}.

Record GrabrHeuristics := {
  frameworkStrategies : list FrameworkDetectionStrategy;
  dataSourceStrategies : list DataSourceDetectionStrategy;
}.

(** [reactInspectorMode] and [maxReactStackFrames] are checked at run
    time, so a configuration holds whatever value the caller passed. *)
Record GrabrRuntimeConfig := {
  reactInspectorMode : jsval;
  maxReactStackFrames : jsval;
  heuristics : GrabrHeuristics;
}.

(** [Partial<GrabrRuntimeConfig>]: an absent property reads as
    [undefined]. *)
Record PartialHeuristics := {
  partial_frameworkStrategies : option (list FrameworkDetectionStrategy);
  partial_dataSourceStrategies : option (list DataSourceDetectionStrategy);
}.

Record PartialRuntimeConfig := {
  partial_reactInspectorMode : jsval;
  partial_maxReactStackFrames : jsval;
  partial_heuristics : option PartialHeuristics;
}.

(** [window.location], when there is a window. *)
Record Location := {
  href : jsstring;
  location_pathname : jsstring;
  search : jsstring;
  hash : jsstring;
}.

End Schema.

(** ** heuristics.ts *)

Module Heuristics.
Import JS Schema.

Definition inferFrameworkFromPath (path : jsstring) : InferredFramework :=
  if includes path (js "/app/") then NextApp
  else if includes path (js "/pages/") then NextPages
  else if includes path (js "react-router") then ReactRouter
  else if includes path (js "remix") then Remix
  else UnknownFramework.

Definition isLayoutLikeFromPath (path : jsstring) : bool :=
  endsWith path (js "/layout.tsx") || endsWith path (js "/layout.jsx")
  || endsWith path (js "/_layout.tsx") || endsWith path (js "/_layout.jsx").

Definition isPageLikeFromPath (path : jsstring) : bool :=
  endsWith path (js "/page.tsx") || endsWith path (js "/page.jsx")
  || endsWith path (js "/index.tsx") || endsWith path (js "/index.jsx").

Definition isUnknownFramework (f : InferredFramework) : bool :=
  match f with UnknownFramework => true | _ => false end.

Definition isPathBased (f : InferredFramework) : bool :=
  match f with NextApp | NextPages => true | _ => false end.

Definition isSome {A} (o : option A) : bool :=
  match o with Some _ => true | None => false end.

(** The three variables the loop over the stack updates. *)
Record StackScan := {
  scan_layoutComponents : list SourceLocation;
  scan_pageComponent : option SourceLocation;
  scan_framework : InferredFramework;
}.

Definition scanFrame (st : StackScan) (frame : ReactComponentFrame)
  : StackScan :=
  match source frame with
  | None => st
  | Some src =>
      let path := fileName src in
      let fw :=
        if isUnknownFramework (scan_framework st)
        then inferFrameworkFromPath path else scan_framework st in
      let layouts :=
        if isLayoutLikeFromPath path
        then scan_layoutComponents st ++ [src] else scan_layoutComponents st in
      let page :=
        match scan_pageComponent st with
        | None => if isPageLikeFromPath path then Some src else None
        | Some p => Some p
        end in
      {| scan_layoutComponents := layouts;
         scan_pageComponent := page;
         scan_framework := fw |}
  end.

Definition scanStack (frames : list ReactComponentFrame) : StackScan :=
  fold_left scanFrame frames
    {| scan_layoutComponents := [];
       scan_pageComponent := None;
       scan_framework := UnknownFramework |}.

(** The regular-expression literal of the route loop, [/^\\d+$/]:
    between the anchors, an escaped backslash (one backslash unit, 92)
    and then one or more units [d] (100). *)
Definition testBackslashDs (seg : jsstring) : bool :=
  match seg with
  | 92 :: 100 :: rest => forallb (Z.eqb 100) rest
  | _ => false
  end.

(** One call of the [forEach] callback: the pattern segments and the
    guessed parameters after segment [seg] at index [idx]. *)
Definition routeSegment
  (acc : list jsstring * list (jsstring * jsstring))
  (entry : nat * jsstring) : list jsstring * list (jsstring * jsstring) :=
  let '(patternSegments, routeParamsGuess) := acc in
  let '(idx, seg) := entry in
  if testBackslashDs seg then
    (patternSegments ++ [js "[id" ++ natToString idx ++ js "]"],
     setProperty routeParamsGuess (js "id" ++ natToString idx) seg)
  else if (2 <? length seg)%nat && bool_decide (seg = toLowerCase seg) then
    (patternSegments ++ [seg], routeParamsGuess)
  else
    (patternSegments ++ [js "[param" ++ natToString idx ++ js "]"],
     setProperty routeParamsGuess (js "param" ++ natToString idx) seg).

Definition pathSegments (pathname : jsstring) : list jsstring :=
  filter (fun s => (0 < length s)%nat) (split_on 47 pathname).

Definition guessRoute (pathname : jsstring)
  : jsstring * list (jsstring * jsstring) :=
  let segments := pathSegments pathname in
  let '(patternSegments, routeParamsGuess) :=
    fold_left routeSegment (imap pair segments) ([], []) in
  (js "/" ++ join (js "/") patternSegments, routeParamsGuess).

Definition nextLikeDetect (input : FrameworkDetectionInput)
  : option FrameworkDetectionResult :=
  match reactSlice input with
  | None => None
  | Some slice =>
      let st := scanStack (stack slice) in
      if isUnknownFramework (scan_framework st)
         && negb (isSome (scan_pageComponent st))
         && (length (scan_layoutComponents st) =? 0)%nat
      then None
      else
        let '(routePatternGuess, routeParamsGuess) :=
          if isPathBased (scan_framework st)
          then let '(pattern, params) := guessRoute (pathname input) in
               (Some pattern, params)
          else (None, []) in
        Some {| framework := scan_framework st;
                routePatternGuess := routePatternGuess;
                routeParamsGuess :=
                  if (0 <? length routeParamsGuess)%nat
                  then Some routeParamsGuess else None;
                pageComponent := scan_pageComponent st;
                layoutComponents := scan_layoutComponents st |}
  end.

Definition nextLikeFrameworkStrategy : FrameworkDetectionStrategy :=
  {| framework_strategy_id := js "next-like";
     detect_framework := nextLikeDetect |}.

Definition unknownFrameworkResult : FrameworkDetectionResult :=
  {| framework := UnknownFramework;
     routePatternGuess := None;
     routeParamsGuess := None;
     pageComponent := None;
     layoutComponents := [] |}.

Definition genericFrameworkStrategy : FrameworkDetectionStrategy :=
  {| framework_strategy_id := js "generic";
     detect_framework := fun _ => Some unknownFrameworkResult |}.

Definition reactQueryHint : DataSourceHint :=
  {| kind := KindReactQuery;
     identifier := None;
     description :=
       Some (js "Props suggest React Query-like async data (data/loading/error).") |}.

Definition swrHint : DataSourceHint :=
  {| kind := KindSwr;
     identifier := None;
     description := Some (js "Props mention SWR, likely SWR-based data.") |}.

Definition reduxHint : DataSourceHint :=
  {| kind := KindRedux;
     identifier := None;
     description := Some (js "Selector-like props hint at Redux selectors.") |}.

Definition unknownHint : DataSourceHint :=
  {| kind := KindUnknown; identifier := None; description := None |}.

(** [input.ownerProps?.highlighted.map((h) => h.name.toLowerCase()) ?? []] *)
Definition lowerNamesOf (input : DataSourceDetectionInput) : list jsstring :=
  match input_ownerProps input with
  | Some props => map (fun h => toLowerCase (name h)) (highlighted props)
  | None => []
  end.

(** [hints.push(h)] under a condition. *)
Definition pushIf {A} (cond : bool) (h : A) (hints : list A) : list A :=
  if cond then hints ++ [h] else hints.

Definition basicDataSourceDetect (input : DataSourceDetectionInput)
  : list DataSourceHint :=
  let lowerNames := lowerNamesOf input in
  let has := fun key => bool_decide (key ∈ lowerNames) in
  let hasData := has (js "data") in
  let hasIsLoading := has (js "isloading") || has (js "loading") in
  let hasError := has (js "error") in
  let hints := pushIf (hasData && hasIsLoading && hasError) reactQueryHint [] in
  let hints :=
    pushIf (existsb (fun p => includes p (js "swr")) lowerNames) swrHint hints in
  let hints :=
    pushIf (existsb (fun p => includes p (js "selector")) lowerNames)
      reduxHint hints in
  if (length hints =? 0)%nat then [unknownHint] else hints.

Definition basicDataSourceStrategy : DataSourceDetectionStrategy :=
  {| data_strategy_id := js "basic-data-props";
     detect_data_sources := basicDataSourceDetect |}.

Definition defaultHeuristics : GrabrHeuristics :=
  {| frameworkStrategies := [nextLikeFrameworkStrategy; genericFrameworkStrategy];
     dataSourceStrategies := [basicDataSourceStrategy] |}.

Definition defaultRuntimeConfig : GrabrRuntimeConfig :=
  {| reactInspectorMode := JString (js "best-effort");
     maxReactStackFrames := JNumber (Finite 8);
     heuristics := defaultHeuristics |}.

(** [a ?? b] on values. *)
Definition nullish (a b : jsval) : jsval :=
  match a with
  | JUndefined | JNull => b
  | _ => a
  end.

Definition mergeRuntimeConfig (partial : option PartialRuntimeConfig)
  : GrabrRuntimeConfig :=
  match partial with
  | None => defaultRuntimeConfig
  | Some partial =>
      let merged :=
        {| frameworkStrategies :=
             default (frameworkStrategies defaultHeuristics)
               (partial_heuristics partial ≫= partial_frameworkStrategies);
           dataSourceStrategies :=
             default (dataSourceStrategies defaultHeuristics)
               (partial_heuristics partial ≫= partial_dataSourceStrategies) |} in
      {| reactInspectorMode :=
           nullish (partial_reactInspectorMode partial)
             (reactInspectorMode defaultRuntimeConfig);
         maxReactStackFrames :=
           nullish (partial_maxReactStackFrames partial)
             (maxReactStackFrames defaultRuntimeConfig);
         heuristics := merged |}
  end.

(** [.find((result) => result !== null)] over the mapped results. *)
Fixpoint findNonNull {A} (results : list (option A)) : option A :=
  match results with
  | [] => None
  | Some r :: _ => Some r
  | None :: rest => findNonNull rest
  end.

Definition buildAppContext (loc : option Location)
  (slice : option ReactTreeSlice) (config : GrabrRuntimeConfig) : AppContext :=
  let url := from_option href [] loc in
  let pathname := from_option location_pathname [] loc in
  let search := from_option search [] loc in
  let hash := from_option hash [] loc in
  let frameworkResult :=
    default unknownFrameworkResult
      (findNonNull
         (map (fun strategy =>
                 detect_framework strategy
                   {| reactSlice := slice; url := url; pathname := pathname |})
              (frameworkStrategies (heuristics config)))) in
  let dataSources :=
    let input := {| input_ownerProps := slice ≫= ownerProps |} in
    let collected :=
      fold_left (fun collected strategy =>
                   collected ++ detect_data_sources strategy input)
        (dataSourceStrategies (heuristics config)) [] in
    if (0 <? length collected)%nat then collected else [unknownHint] in
  {| app_url := url;
     app_pathname := pathname;
     app_search := search;
     app_hash := hash;
     app_framework := framework frameworkResult;
     app_routePatternGuess := routePatternGuess frameworkResult;
     app_routeParamsGuess := routeParamsGuess frameworkResult;
     app_pageComponent := pageComponent frameworkResult;
     app_layoutComponents := layoutComponents frameworkResult;
     dataSources := dataSources |}.

(** The numeric tests of [isFiniteIntegerInRange]. *)
Definition typeofNumber (v : jsval) : bool :=
  match v with JNumber _ => true | _ => false end.

Definition NumberIsFinite (v : jsval) : bool :=
  match v with JNumber (Finite _) => true | _ => false end.

Definition NumberIsInteger (v : jsval) : bool :=
  match v with
  | JNumber (Finite q) => Qnum q mod Zpos (Qden q) =? 0
  | _ => false
  end.

(** [value >= min] and [value <= max] against a number literal; a
    comparison with not-a-number is false. *)
Definition geNumber (v : jsval) (min : Z) : bool :=
  match v with
  | JNumber (Finite q) => Qle_bool (inject_Z min) q
  | JNumber (Infinity negative) => negb negative
  | _ => false
  end.

Definition leNumber (v : jsval) (max : Z) : bool :=
  match v with
  | JNumber (Finite q) => Qle_bool q (inject_Z max)
  | JNumber (Infinity negative) => negative
  | _ => false
  end.

Definition isFiniteIntegerInRange (v : jsval) (min max : Z) : bool :=
  typeofNumber v && NumberIsFinite v && NumberIsInteger v
  && geNumber v min && leNumber v max.

(** [value !== "literal"] *)
Definition notStrictlyString (v : jsval) (literal : jsstring) : bool :=
  match v with
  | JString s => negb (bool_decide (s = literal))
  | _ => true
  end.

(** The two errors of [validateRuntimeConfigOrThrow]; each message ends
    in the offending value, which the error carries here. *)
Inductive ConfigError :=
| InvalidReactInspectorMode (got : jsval)
| InvalidMaxReactStackFrames (got : jsval).

Definition validateRuntimeConfigOrThrow (config : GrabrRuntimeConfig)
  : ConfigError + unit :=
  if notStrictlyString (reactInspectorMode config) (js "best-effort")
     && notStrictlyString (reactInspectorMode config) (js "required")
     && notStrictlyString (reactInspectorMode config) (js "off")
  then inl (InvalidReactInspectorMode (reactInspectorMode config))
  else if negb (isFiniteIntegerInRange (maxReactStackFrames config) 1 64)
  then inl (InvalidMaxReactStackFrames (maxReactStackFrames config))
  else inr tt.

End Heuristics.

(** ** The concurrency-limited mapper of the client module *)

Module Concurrency.
Import JS.

(** How a promise settles. *)
Inductive outcome (A : Type) :=
| Resolved (value : A)
| Rejected (reason : jsstring).
Arguments Resolved {A} value.
Arguments Rejected {A} reason.

(** A call of [runWorker]: suspended at the [await] of the item it
    claimed, returned, or ended by a rejected [await]. *)
Inductive Worker :=
| Awaiting (currentIndex : nat)
| Returned
| Threw (reason : jsstring).

Section MapWithConcurrencyLimit.
Context {TIn TOut St : Type}.

(** [mapper item index]: how the promise of the call settles and what
    the call has done to the state it shares with its caller by then. *)
Variable mapper : TIn -> nat -> St -> outcome TOut * St.
Variable items : list TIn.

(** [results] starts as [new Array(items.length)], all holes. *)
Record Pool := {
  results : list (option TOut);
  nextIndex : nat;
  workers : list Worker;
  shared : St;
}.

(** [results[index] = value]; past the end an assignment grows the
    array, leaving holes in between. *)
Definition arraySet (index : nat) (value : TOut) (array : list (option TOut))
  : list (option TOut) :=
  if (index <? length array)%nat then <[index := Some value]> array
  else array ++ replicate (index - length array) None ++ [Some value].

(** The head of the [while] loop, run until the next [await]: claim
    [nextIndex++] and call the mapper, or leave the loop. *)
Definition loopHead (next : nat) : Worker * nat :=
  if (next <? length items)%nat then (Awaiting next, S next)
  else (Returned, next).

(** [Array.from({ length: workerCount }, () => runWorker())]: the
    workers start one after the other, each up to its first [await]. *)
Fixpoint spawn (workerCount next : nat) : list Worker * nat :=
  match workerCount with
  | O => ([], next)
  | S count =>
      let '(worker, next) := loopHead next in
      let '(others, next) := spawn count next in
      (worker :: others, next)
  end.

Definition start (limit : Z) (s : St) : Pool :=
  let workerCount := Z.to_nat (Z.min limit (Z.of_nat (length items))) in
  let '(ws, next) := spawn workerCount 0%nat in
  {| results := replicate (length items) None;
     nextIndex := next;
     workers := ws;
     shared := s |}.

(** The promise worker [w] awaits settles: the worker stores the value
    and goes round its loop, or ends on the rejection.  The claimed
    index is below [items.length], so the item is there. *)
Definition settle (w : nat) (pool : Pool) : Pool :=
  match workers pool !! w with
  | Some (Awaiting currentIndex) =>
      match items !! currentIndex with
      | Some item =>
          match mapper item currentIndex (shared pool) with
          | (Resolved value, s) =>
              let '(worker, next) := loopHead (nextIndex pool) in
              {| results := arraySet currentIndex value (results pool);
                 nextIndex := next;
                 workers := <[w := worker]> (workers pool);
                 shared := s |}
          | (Rejected reason, s) =>
              {| results := results pool;
                 nextIndex := nextIndex pool;
                 workers := <[w := Threw reason]> (workers pool);
                 shared := s |}
          end
      | None => pool
      end
  | _ => pool
  end.

(** The pools a call passes through: the one it starts in, and the one
    any settlement of a pending promise leads to. *)
Inductive reachable (limit : Z) (s : St) : Pool -> Prop :=
| reachable_start : reachable limit s (start limit s)
| reachable_settle pool w currentIndex :
    reachable limit s pool ->
    workers pool !! w = Some (Awaiting currentIndex) ->
    reachable limit s (settle w pool).

(** The workers whose promise is pending, by position. *)
Fixpoint pendingFrom (w : nat) (ws : list Worker) : list nat :=
  match ws with
  | [] => []
  | Awaiting _ :: rest => w :: pendingFrom (S w) rest
  | _ :: rest => pendingFrom (S w) rest
  end.

Definition pending (pool : Pool) : list nat := pendingFrom 0 (workers pool).

Fixpoint firstThrown (ws : list Worker) : option jsstring :=
  match ws with
  | [] => None
  | Threw reason :: _ => Some reason
  | _ :: rest => firstThrown rest
  end.

(** [await Promise.all(workers)].  Which pending promise settles next is
    not the program's choice: [order step] picks among the pending
    workers at each step.  The result is [None] when the fuel runs out
    with promises still pending.  On a rejection the caller resumes at
    once; workers still running are not followed further. *)
Fixpoint awaitAll (fuel : nat) (order : nat -> nat) (step : nat) (pool : Pool)
  : option (outcome (list (option TOut)) * St) :=
  match firstThrown (workers pool) with
  | Some reason => Some (Rejected reason, shared pool)
  | None =>
      match pending pool !! (order step `mod` length (pending pool))%nat with
      | None => Some (Resolved (results pool), shared pool)
      | Some w =>
          match fuel with
          | O => None
          | S fuel' => awaitAll fuel' order (S step) (settle w pool)
          end
      end
  end.

Definition mapWithConcurrencyLimit (limit : Z) (order : nat -> nat) (s : St)
  : option (outcome (list (option TOut)) * St) :=
  awaitAll (length items) order 0%nat (start limit s).

End MapWithConcurrencyLimit.

Arguments Pool : clear implicits.

End Concurrency.

(** ** What holds of the pool between two settlements *)

Module PoolInvariant.
Import JS Concurrency.

Section Invariant.
Context {TIn TOut St : Type}.
Variable items : list TIn.

(** The value each call resolves to. *)
Variable f : TIn -> nat -> TOut.

(** What the settled calls keep true of the shared state; the number
    counts the calls settled so far. *)
Variable P : nat -> St -> Prop.

(** The calls that have not settled: the items not yet claimed and the
    ones being awaited. *)
Definition remaining (pool : Pool TOut St) : nat :=
  (length items - nextIndex pool) + length (pending pool).

Record PoolInv (pool : Pool TOut St) : Prop := {
  inv_length : length (results pool) = length items;
  inv_next : (nextIndex pool <= length items)%nat;
  inv_awaiting : forall w i,
    workers pool !! w = Some (Awaiting i) -> (i < nextIndex pool)%nat;
  inv_covered : forall i item,
    (i < nextIndex pool)%nat -> items !! i = Some item ->
    results pool !! i = Some (Some (f item i))
    \/ exists w, workers pool !! w = Some (Awaiting i);
  inv_no_throw : firstThrown (workers pool) = None;
  inv_returned : forall w,
    workers pool !! w = Some Returned -> nextIndex pool = length items;
  inv_workers : workers pool = [] -> length items = 0%nat;
  inv_shared : exists k,
    P k (shared pool) /\ (k + remaining pool = length items)%nat;
}.

End Invariant.

Arguments inv_length {TIn TOut St items f P} pool _.
Arguments inv_next {TIn TOut St items f P} pool _.
Arguments inv_awaiting {TIn TOut St items f P} pool _.
Arguments inv_covered {TIn TOut St items f P} pool _.
Arguments inv_no_throw {TIn TOut St items f P} pool _.
Arguments inv_returned {TIn TOut St items f P} pool _.
Arguments inv_workers {TIn TOut St items f P} pool _.
Arguments inv_shared {TIn TOut St items f P} pool _.

End PoolInvariant.

(** ** The controller of the client module *)

Module GrabrController.
Import JS Schema Serializable Dom Concurrency.

Inductive Phase := BuildingContext | Sending | Done | Error.

Record SelectionFinalizeProgress := {
  phase : Phase;
  completed : nat;
  total : nat;
  message : option jsstring;
}.

(** The fields a finalize reads and writes; [currentSession] is a
    session object or [null]. *)
Record Controller := {
  currentSession : jsval;
  currentInstruction : option jsstring;
}.

Section FinalizeSelection.
Context {Element : Type} `{EqDecision Element}.

(** [W] is the state the callbacks act on: the overlay, the console,
    whatever the provider keeps. *)
Context {W : Type}.

(** What a finalize reaches outside the controller: the document, the
    inspector, the active provider, the attached overlay, the clock, the
    location and the random session id, and the order in which the
    inspector's promises settle. *)
Record Surroundings := {
  isElementConnectedToDocument : Element -> bool;
  getElementContext : Element -> outcome jsval;
  sendContext : jsval -> outcome unit;
  onSuccess : option (jsval -> W -> W);
  onError : option (jsval -> jsstring -> W -> W);
  showToast : option (jsstring -> bool -> W -> W);
  consoleWarn : jsstring -> W -> W;
  createdAt : jsstring;
  locationHref : jsstring;
  sessionId : jsstring;
  settlementOrder : nat -> nat;
}.

(** [callback?.(argument)] *)
Definition optionalCall {A} (callback : option (A -> W -> W)) (argument : A)
  (w : W) : W :=
  match callback with
  | Some call => call argument w
  | None => w
  end.

Definition toastIfAttached (env : Surroundings) (text : jsstring)
  (isError : bool) (w : W) : W :=
  match showToast env with
  | Some show => show text isError w
  | None => w
  end.

(** The variables the mapper closes over. *)
Record Capture := {
  capture_completed : nat;
  capture_failed : nat;
  capture_world : W;
}.

(** The mapper passed to [mapWithConcurrencyLimit]: the [try] returns
    the context, the [catch] counts the failure, warns and returns
    [null], the [finally] counts the completion and reports it. *)
Definition captureElement (env : Surroundings)
  (onProgress : option (SelectionFinalizeProgress -> W -> W)) (total : nat)
  (el : Element) (index : nat) (st : Capture)
  : outcome (option jsval) * Capture :=
  let '(returned, failed, w) :=
    match getElementContext env el with
    | Resolved context => (Some context, capture_failed st, capture_world st)
    | Rejected reason =>
        (None, S (capture_failed st), consoleWarn env reason (capture_world st))
    end in
  let completed := S (capture_completed st) in
  (Resolved returned,
   {| capture_completed := completed;
      capture_failed := failed;
      capture_world :=
        optionalCall onProgress
          {| phase := BuildingContext; completed := completed;
             total := total; message := None |} w |}).

(** [contextsOrNull.filter((c) => c !== null)]; [filter] passes over
    the holes of an array. *)
Definition nonNull (contextsOrNull : list (option (option jsval)))
  : list jsval :=
  omap (fun slot => slot ≫= id) contextsOrNull.

Definition sessionSummary (captured failed : nat) : jsstring :=
  if (0 <? failed)%nat
  then js "Session with " ++ natToString captured
       ++ js " element(s) captured; " ++ natToString failed ++ js " failed."
  else js "Session with " ++ natToString captured ++ js " element(s) captured.".

Definition copiedToast (captured : nat) : jsstring :=
  if (captured =? 1)%nat then js "Copied context for 1 element."
  else js "Copied context for " ++ natToString captured ++ js " elements.".

Definition instructionValue (instruction : option jsstring) : jsval :=
  match instruction with
  | Some text => JString text
  | None => JNull
  end.

(** The object literal [session] of [finalizeSelection]. *)
Definition sessionObject (env : Surroundings) (this : Controller)
  (contexts : list jsval) (failed : nat) : jsval :=
  JObject
    [ (js "id", JString (sessionId env));
      (js "createdAt", JString (createdAt env));
      (js "url", JString (locationHref env));
      (js "userInstruction", instructionValue (currentInstruction this));
      (js "summary", JString (sessionSummary (length contexts) failed));
      (js "elements", JArray contexts) ].

(** What the mapper resolves to for an element: its context, or [null]
    when the inspector rejects. *)
Definition capturedContext (env : Surroundings) (el : Element)
  : option jsval :=
  match getElementContext env el with
  | Resolved context => Some context
  | Rejected _ => None
  end.

Definition finalizeSelection (env : Surroundings) (elements : list Element)
  (onProgress : option (SelectionFinalizeProgress -> W -> W))
  (state : Controller * W) : option (outcome unit * (Controller * W)) :=
  let '(this, w) := state in
  let connected :=
    filter (fun el => isElementConnectedToDocument env el = true)
      (dedupeElementsPreserveOrder elements) in
  if (length connected =? 0)%nat then
    Some (Resolved tt,
          (this,
           optionalCall onProgress
             {| phase := Error; completed := 0; total := 0;
                message := Some (js "No valid elements to capture.") |} w))
  else
    let total := length connected in
    let w :=
      optionalCall onProgress
        {| phase := BuildingContext; completed := 0; total := total;
           message := None |} w in
    match mapWithConcurrencyLimit (captureElement env onProgress total)
            connected 2 (settlementOrder env)
            {| capture_completed := 0; capture_failed := 0; capture_world := w |}
    with
    | None => None
    | Some (Rejected reason, st) => Some (Rejected reason, (this, capture_world st))
    | Some (Resolved contextsOrNull, st) =>
        let completed := capture_completed st in
        let failed := capture_failed st in
        let w := capture_world st in
        let contexts := nonNull contextsOrNull in
        if (length contexts =? 0)%nat then
          Some (Resolved tt,
                (this,
                 optionalCall onProgress
                   {| phase := Error; completed := completed; total := total;
                      message :=
                        Some (js "Failed to capture context for all selected elements.") |}
                   w))
        else
          let session := sessionObject env this contexts failed in
          let this :=
            {| currentSession := session;
               currentInstruction := currentInstruction this |} in
          let w :=
            optionalCall onProgress
              {| phase := Sending; completed := total; total := total;
                 message := None |} w in
          match sendContext env session with
          | Resolved _ =>
              let w := optionalCall (onSuccess env) session w in
              let w :=
                optionalCall onProgress
                  {| phase := Done; completed := total; total := total;
                     message := None |} w in
              let w := toastIfAttached env (copiedToast (length contexts)) false w in
              let w :=
                if (0 <? failed)%nat
                then toastIfAttached env
                       (js "Warning: " ++ natToString failed
                        ++ js " element(s) failed to capture.") true w
                else w in
              Some (Resolved tt, (this, w))
          | Rejected reason =>
              let w :=
                match onError env with
                | Some call => call session reason w
                | None => w
                end in
              let w :=
                optionalCall onProgress
                  {| phase := Error; completed := total; total := total;
                     message := Some reason |} w in
              let w := toastIfAttached env reason true w in
              Some (Resolved tt, (this, w))
          end
    end.

End FinalizeSelection.

Arguments Surroundings : clear implicits.
Arguments Capture : clear implicits.

End GrabrController.

(** ** The overlay of the client module *)

Module SelectionOverlay.
Import JS Schema Serializable Dom Concurrency GrabrController.

Section Overlay.
Context {Element : Type} `{EqDecision Element}.

(** [formatElementLabel] and [isElementConnectedToDocument] of dom.ts
    read the document. *)
Variable formatElementLabel : Element -> jsstring.
Variable isElementConnectedToDocument : Element -> bool.

(** The fields of the overlay; a DOM node it owns is kept as what the
    overlay sets on it: the [visible] class of the HUD and of the help,
    the [display] of the highlight, the text of the status line, the
    boxes appended to the root (one for each element drawn) and whether
    the selection listeners are attached. *)
Record Overlay := {
  selecting : bool;
  sending : bool;
  helpVisible : bool;
  hoveredElement : option Element;
  selectedElements : list Element;
  selectionBoxes : list Element;
  listenersAttached : bool;
  highlightDisplayed : bool;
  hudVisible : bool;
  hudHelpVisible : bool;
  hudStatus : jsstring;
  toast : option (jsstring * bool);
}.

Definition clearSelectionBoxes (this : Overlay) : Overlay :=
  {| selecting := selecting this; sending := sending this;
     helpVisible := helpVisible this; hoveredElement := hoveredElement this;
     selectedElements := selectedElements this;
     selectionBoxes := [];
     listenersAttached := listenersAttached this;
     highlightDisplayed := highlightDisplayed this;
     hudVisible := hudVisible this; hudHelpVisible := hudHelpVisible this;
     hudStatus := hudStatus this; toast := toast this |}.

Definition setListeners (attached : bool) (this : Overlay) : Overlay :=
  {| selecting := selecting this; sending := sending this;
     helpVisible := helpVisible this; hoveredElement := hoveredElement this;
     selectedElements := selectedElements this;
     selectionBoxes := selectionBoxes this;
     listenersAttached := attached;
     highlightDisplayed := highlightDisplayed this;
     hudVisible := hudVisible this; hudHelpVisible := hudHelpVisible this;
     hudStatus := hudStatus this; toast := toast this |}.

Definition attachSelectionListeners : Overlay -> Overlay := setListeners true.
Definition detachSelectionListeners : Overlay -> Overlay := setListeners false.

Definition setHudStatus (text : jsstring) (this : Overlay) : Overlay :=
  {| selecting := selecting this; sending := sending this;
     helpVisible := helpVisible this; hoveredElement := hoveredElement this;
     selectedElements := selectedElements this;
     selectionBoxes := selectionBoxes this;
     listenersAttached := listenersAttached this;
     highlightDisplayed := highlightDisplayed this;
     hudVisible := hudVisible this; hudHelpVisible := hudHelpVisible this;
     hudStatus := text; toast := toast this |}.

Definition showToast (text : jsstring) (isError : bool) (this : Overlay)
  : Overlay :=
  {| selecting := selecting this; sending := sending this;
     helpVisible := helpVisible this; hoveredElement := hoveredElement this;
     selectedElements := selectedElements this;
     selectionBoxes := selectionBoxes this;
     listenersAttached := listenersAttached this;
     highlightDisplayed := highlightDisplayed this;
     hudVisible := hudVisible this; hudHelpVisible := hudHelpVisible this;
     hudStatus := hudStatus this; toast := Some (text, isError) |}.

Definition updateHudProgress (progress : SelectionFinalizeProgress)
  (this : Overlay) : Overlay :=
  match phase progress with
  | BuildingContext =>
      setHudStatus
        (js "Capturing context" ++ [ELLIPSIS] ++ js " "
         ++ natToString (completed progress) ++ js "/"
         ++ natToString (total progress)) this
  | Sending => setHudStatus (js "Sending" ++ [ELLIPSIS]) this
  | Done => setHudStatus (js "Done.") this
  | Error =>
      setHudStatus (js "Error: " ++ default (js "undefined") (message progress))
        this
  end.

Definition updateHudState (this : Overlay) : Overlay :=
  if negb (selecting this) then setHudStatus (js "Idle") this
  else
    let count := length (selectedElements this) in
    if sending this then
      setHudStatus
        (if (count =? 1)%nat
         then js "Capturing context" ++ [ELLIPSIS] ++ js " (1 element)"
         else js "Capturing context" ++ [ELLIPSIS] ++ js " ("
              ++ natToString count ++ js " elements)") this
    else
      match selectedElements this with
      | [] =>
          setHudStatus
            match hoveredElement this with
            | Some hovered => js "Hovering: " ++ formatElementLabel hovered
            | None => js "Hover an element to inspect"
            end this
      | [only] =>
          setHudStatus
            (js "Selected: 1 (" ++ formatElementLabel only ++ js ")") this
      | first :: others =>
          setHudStatus
            (js "Selected: " ++ natToString count ++ js " (last: "
             ++ formatElementLabel (List.last others first) ++ js ")") this
      end.

Definition beginSelection (this : Overlay) : Overlay :=
  if sending this then this
  else
    attachSelectionListeners
      (updateHudState
         {| selecting := true; sending := sending this;
            helpVisible := false; hoveredElement := None;
            selectedElements := [];
            selectionBoxes := [];
            listenersAttached := listenersAttached this;
            highlightDisplayed := highlightDisplayed this;
            hudVisible := true; hudHelpVisible := hudHelpVisible this;
            hudStatus := hudStatus this; toast := toast this |}).

Definition cancelSelection (this : Overlay) : Overlay :=
  {| selecting := false; sending := false; helpVisible := false;
     hoveredElement := None;
     selectedElements := [];
     selectionBoxes := [];
     listenersAttached := false;
     highlightDisplayed := false;
     hudVisible := false; hudHelpVisible := false;
     hudStatus := hudStatus this; toast := toast this |}.

(** The first statements of [finalizeSelection]: fall back to the
    hovered element when nothing is selected. *)
Definition withHoveredFallback (this : Overlay) : Overlay :=
  match selectedElements this, hoveredElement this with
  | [], Some hovered =>
      {| selecting := selecting this; sending := sending this;
         helpVisible := helpVisible this; hoveredElement := hoveredElement this;
         selectedElements := [hovered];
         selectionBoxes := selectionBoxes this;
         listenersAttached := listenersAttached this;
         highlightDisplayed := highlightDisplayed this;
         hudVisible := hudVisible this; hudHelpVisible := hudHelpVisible this;
         hudStatus := hudStatus this; toast := toast this |}
  | _, _ => this
  end.

(** From [this.sending = true] to the [try]: the overlay enters the
    sending state. *)
Definition enterSending (this : Overlay) : Overlay :=
  let this :=
    {| selecting := selecting this; sending := true;
       helpVisible := helpVisible this; hoveredElement := hoveredElement this;
       selectedElements := selectedElements this;
       selectionBoxes := selectionBoxes this;
       listenersAttached := listenersAttached this;
       highlightDisplayed := highlightDisplayed this;
       hudVisible := hudVisible this; hudHelpVisible := hudHelpVisible this;
       hudStatus := hudStatus this; toast := toast this |} in
  let this := detachSelectionListeners (updateHudState this) in
  {| selecting := selecting this; sending := sending this;
     helpVisible := helpVisible this; hoveredElement := hoveredElement this;
     selectedElements := selectedElements this;
     selectionBoxes := selectionBoxes this;
     listenersAttached := listenersAttached this;
     highlightDisplayed := false;
     hudVisible := hudVisible this; hudHelpVisible := hudHelpVisible this;
     hudStatus := hudStatus this; toast := toast this |}.

(** The [finally] clause. *)
Definition finallyClause (this : Overlay) : Overlay :=
  let this :=
    {| selecting := false; sending := false; helpVisible := false;
       hoveredElement := hoveredElement this;
       selectedElements := selectedElements this;
       selectionBoxes := selectionBoxes this;
       listenersAttached := listenersAttached this;
       highlightDisplayed := highlightDisplayed this;
       hudVisible := hudVisible this; hudHelpVisible := hudHelpVisible this;
       hudStatus := hudStatus this; toast := toast this |} in
  let this := clearSelectionBoxes this in
  {| selecting := selecting this; sending := sending this;
     helpVisible := helpVisible this; hoveredElement := hoveredElement this;
     selectedElements := selectedElements this;
     selectionBoxes := selectionBoxes this;
     listenersAttached := listenersAttached this;
     highlightDisplayed := highlightDisplayed this;
     hudVisible := false; hudHelpVisible := false;
     hudStatus := hudStatus this; toast := toast this |}.

(** The elements the overlay hands to the controller. *)
Definition connectedSelection (this : Overlay) : list Element :=
  filter (fun el => isElementConnectedToDocument el = true)
    (dedupeElementsPreserveOrder (selectedElements (withHoveredFallback this))).

(** [finalizeSelection].  [controllerFinalize] is the awaited call
    [this.controller.finalizeSelection(connected, progress => ...)]: it
    acts on the controller's state [C] and on the overlay, settles or
    not, and the overlay it leaves is the one the [finally] clause
    runs on. *)
Definition finalizeSelection {C : Type}
  (controllerFinalize :
     list Element -> (SelectionFinalizeProgress -> Overlay -> Overlay) ->
     C * Overlay -> option (outcome unit * (C * Overlay)))
  (state : C * Overlay) : option (outcome unit * (C * Overlay)) :=
  let '(controller, this) := state in
  let this := withHoveredFallback this in
  let connected :=
    filter (fun el => isElementConnectedToDocument el = true)
      (dedupeElementsPreserveOrder (selectedElements this)) in
  if (length connected =? 0)%nat then
    Some (Resolved tt, (controller, cancelSelection this))
  else
    let this := enterSending this in
    match controllerFinalize connected updateHudProgress (controller, this) with
    | None => None
    | Some (settled, (controller, this)) =>
        Some (settled, (controller, finallyClause this))
    end.

(** The state [idle]: not selecting, not sending, no help, no selection
    box, HUD and help hidden. *)
Definition idle (this : Overlay) : Prop :=
  selecting this = false /\ sending this = false /\ helpVisible this = false
  /\ selectionBoxes this = [] /\ hudVisible this = false
  /\ hudHelpVisible this = false.

End Overlay.

Arguments Overlay : clear implicits.

End SelectionOverlay.

(** ** Setting up a client *)

Module Client.
Import JS Schema Heuristics Concurrency GrabrController SelectionOverlay.

(** The argument of [createGrabrClient], as [normalizeInitOptionsArg]
    takes it: nothing, a partial configuration, or init options (of
    which the set-up of the configuration reads [config]). *)
Inductive InitArg :=
| NoArg
| PartialConfigArg (config : PartialRuntimeConfig)
| InitOptionsArg (config : option PartialRuntimeConfig).

Definition normalizeInitOptionsArg (arg : InitArg)
  : option PartialRuntimeConfig :=
  match arg with
  | NoArg => None
  | PartialConfigArg config => Some config
  | InitOptionsArg config => config
  end.

Inductive SetupError :=
| NotInBrowser
| Configuration (error : ConfigError).

(** A client right after set-up: its configuration, the controller with
    no session, the overlay idle. *)
Record GrabrClient (Element : Type) := {
  config : GrabrRuntimeConfig;
  controller : Controller;
  overlay : Overlay Element;
}.
Arguments config {Element} _.
Arguments controller {Element} _.
Arguments overlay {Element} _.

Definition createGrabrClient (Element : Type) (inBrowser : bool)
  (arg : InitArg) : SetupError + GrabrClient Element :=
  if negb inBrowser then inl NotInBrowser
  else
    let options_config := normalizeInitOptionsArg arg in
    let config := mergeRuntimeConfig options_config in
    match validateRuntimeConfigOrThrow config with
    | inl error => inl (Configuration error)
    | inr _ =>
        inr {| config := config;
               controller := {| currentSession := JNull;
                                currentInstruction := None |};
               overlay := {| selecting := false; sending := false;
                             helpVisible := false; hoveredElement := None;
                             selectedElements := [];
                             selectionBoxes := [];
                             listenersAttached := false;
                             highlightDisplayed := false;
                             hudVisible := false; hudHelpVisible := false;
                             hudStatus := js "Idle"; toast := None |} |}
    end.

(** The overlay's finalize with the controller of the same client
    behind it: the overlay is the state the controller's callbacks act
    on, and its toasts are the overlay's. *)
Definition finalizeSelection {Element : Type} `{EqDecision Element}
  (formatElementLabel : Element -> jsstring)
  (env : Surroundings Element (Overlay Element))
  (state : Controller * Overlay Element)
  : option (outcome unit * (Controller * Overlay Element)) :=
  SelectionOverlay.finalizeSelection formatElementLabel
    (GrabrController.isElementConnectedToDocument env)
    (fun connected onProgress =>
       GrabrController.finalizeSelection env connected (Some onProgress))
    state.

End Client.

(** ** prompt.ts *)

Module Prompt.
Import JS Schema.

(** One round of the loop of [promptChecksum]:
    [hash = (hash << 5) - hash + input.charCodeAt(i); hash |= 0]. *)
Definition checksum_round (hash c : Z) : Z :=
  bitor (shl hash 5 - hash + c) 0.

Definition promptChecksum (input : jsstring) : jsstring :=
  let hash := fold_left checksum_round input 0 in
  toStringRadix 16 (Z.abs (ushr hash 0)).

(** How a call completes: it returns a value or throws. *)
Inductive completion (A : Type) :=
| Returns (a : A)
| Throws (error : jsstring).
Arguments Returns {A} a.
Arguments Throws {A} error.

(** *** Conversions and operators on values *)

Section Serializer.

(** [Number::toString] is written out for not-a-number, the infinities
    and the integers of size up to 2^53: each of these is a binary64
    value, and its decimal numeral is the shortest that reads back as
    it.  For every other finite number the result is made of the
    digits of the shortest decimal that reads back as the same binary64
    value, with zeros, a point or an exponent as its size requires;
    that function is a parameter here. *)
Variable shortestDecimal : Q -> jsstring.

Definition integerToString (z : Z) : jsstring :=
  if z <? 0 then js "-" ++ toStringRadix 10 (- z) else toStringRadix 10 z.

Definition numberToString (n : jsnum) : jsstring :=
  match n with
  | NaN => js "NaN"
  | Infinity negative => if negative then js "-Infinity" else js "Infinity"
  | Finite q =>
      let z := Qnum q / Zpos (Qden q) in
      if (Qnum q mod Zpos (Qden q) =? 0) && (Z.abs z <=? 2 ^ 53)
      then integerToString z else shortestDecimal q
  end.

(** [Math.round]: the nearest integer, a tie going up. *)
Definition mathRound (n : jsnum) : jsnum :=
  match n with
  | Finite q => Finite (inject_Z (Qfloor (q + (1 # 2))))
  | other => other
  end.

(** [ToNumber] on the values a record holds where a number is expected;
    the parsing of numeric strings is not modelled, a string or an
    object converts to not-a-number. *)
Definition toNumber (v : jsval) : jsnum :=
  match v with
  | JNumber n => n
  | JNull => Finite 0
  | JBoolean b => Finite (if b then 1 else 0)
  | _ => NaN
  end.

(** [ToString]; an array joins its elements with commas, [null] and
    [undefined] elements giving nothing. *)
Fixpoint ToString (v : jsval) : jsstring :=
  match v with
  | JUndefined => js "undefined"
  | JNull => js "null"
  | JBoolean b => if b then js "true" else js "false"
  | JNumber n => numberToString n
  | JString s => s
  | JArray items =>
      join (js ",")
        (map (fun item =>
                match item with
                | JUndefined | JNull => []
                | _ => ToString item
                end) items)
  | JObject _ => js "[object Object]"
  end.

(** [parts.join(separator)] on an array of values. *)
Definition joinValues (separator : jsstring) (parts : list jsval) : jsstring :=
  join separator
    (map (fun part =>
            match part with
            | JUndefined | JNull => []
            | _ => ToString part
            end) parts).

(** [a ?? b], [v !== null], truthiness, [v === idx], [v > 0]. *)
Definition isNullish (v : jsval) : bool :=
  match v with JUndefined | JNull => true | _ => false end.

Definition nullishOr (a b : jsval) : jsval := if isNullish a then b else a.

Definition notNull (v : jsval) : bool :=
  match v with JNull => false | _ => true end.

Definition truthy (v : jsval) : bool :=
  match v with
  | JUndefined | JNull => false
  | JBoolean b => b
  | JNumber NaN => false
  | JNumber (Infinity _) => true
  | JNumber (Finite q) => negb (Qeq_bool q 0)
  | JString s => negb (length s =? 0)%nat
  | JArray _ | JObject _ => true
  end.

Definition strictlyEqualsIndex (v : jsval) (idx : nat) : bool :=
  match v with
  | JNumber (Finite q) => Qeq_bool q (inject_Z (Z.of_nat idx))
  | _ => false
  end.

Definition greaterThanZero (v : jsval) : bool :=
  match v with
  | JUndefined => false
  | _ =>
      match toNumber v with
      | Finite q => negb (Qle_bool q 0)
      | Infinity negative => negb negative
      | NaN => false
      end
  end.

(** *** JSON.stringify *)

Definition hex4 (c : Z) : jsstring :=
  [digit_unit (c / 4096 mod 16); digit_unit (c / 256 mod 16);
   digit_unit (c / 16 mod 16); digit_unit (c mod 16)].

Definition isHighSurrogate (c : Z) : bool := (55296 <=? c) && (c <=? 56319).
Definition isLowSurrogate (c : Z) : bool := (56320 <=? c) && (c <=? 57343).

(** One code unit that is not part of a surrogate pair. *)
Definition escapeUnit (c : Z) : jsstring :=
  if c =? 8 then js "\b"
  else if c =? 9 then js "\t"
  else if c =? 10 then js "\n"
  else if c =? 12 then js "\f"
  else if c =? 13 then js "\r"
  else if c =? 34 then [92; 34]
  else if c =? 92 then [92; 92]
  else if (c <? 32) || isHighSurrogate c || isLowSurrogate c
       then js "\u" ++ hex4 c
  else [c].

Fixpoint escapeUnits (s : jsstring) : jsstring :=
  match s with
  | [] => []
  | c :: rest =>
      match rest with
      | d :: rest' =>
          if isHighSurrogate c && isLowSurrogate d
          then c :: d :: escapeUnits rest'
          else escapeUnit c ++ escapeUnits rest
      | [] => escapeUnit c
      end
  end.

(** [QuoteJSONString] *)
Definition quote (s : jsstring) : jsstring := [34] ++ escapeUnits s ++ [34].

(** [SerializeJSONProperty] under the replacer of [stringifyForPrompt]:
    the replacer turns [undefined], and [null] when [dropNull], into
    [undefined]; a property whose value serializes to [undefined] is
    left out of its object, and such an element of an array is written
    [null].  [None] is [undefined]. *)
Fixpoint serializeJSONProperty (dropNull : bool) (v : jsval)
  : option jsstring :=
  match v with
  | JUndefined => None
  | JNull => if dropNull then None else Some (js "null")
  | JBoolean b => Some (if b then js "true" else js "false")
  | JNumber n =>
      Some match n with
           | Finite _ => numberToString n
           | _ => js "null"
           end
  | JString s => Some (quote s)
  | JArray items =>
      Some (js "[" ++
            join (js ",")
              (map (fun item =>
                      match serializeJSONProperty dropNull item with
                      | Some text => text
                      | None => js "null"
                      end) items)
            ++ js "]")
  | JObject props =>
      Some (js "{" ++
            join (js ",")
              (omap (fun prop =>
                       match serializeJSONProperty dropNull (snd prop) with
                       | Some text => Some (quote (fst prop) ++ js ":" ++ text)
                       | None => None
                       end) props)
            ++ js "}")
  end.

Definition stringifyForPrompt (value : jsval) (dropNull : bool)
  : option jsstring :=
  serializeJSONProperty dropNull value.

(** *** Computations that push lines and may throw *)

(** A computation over the local array [lines]: the value it returns
    and the lines it has pushed, in order, or the error it throws. *)
Definition Lines (A : Type) : Type := completion (A * list jsstring).

Definition ret {A} (a : A) : Lines A := Returns (a, []).

Definition bind {A B} (m : Lines A) (k : A -> Lines B) : Lines B :=
  match m with
  | Throws error => Throws error
  | Returns (a, pushed) =>
      match k a with
      | Throws error => Throws error
      | Returns (b, more) => Returns (b, pushed ++ more)
      end
  end.

Definition throw {A} (error : jsstring) : Lines A := Throws error.

(** [lines.push(line)] *)
Definition push (line : jsstring) : Lines unit := Returns (tt, [line]).

Notation "x <- m ; k" := (bind m (fun x => k))
  (at level 20, m at level 100, k at level 200, only parsing).
Notation "m ;;; k" := (bind m (fun _ => k))
  (at level 100, k at level 200, only parsing, right associativity).

Definition typeError : jsstring := js "TypeError".

(** [value.key]: reading a property of [undefined] or [null] throws;
    an object gives the property or [undefined]; of an array or a
    string only [length] is read here. *)
Fixpoint lookupProperty (props : list (jsstring * jsval)) (key : jsstring)
  : jsval :=
  match props with
  | [] => JUndefined
  | (k, v) :: rest => if bool_decide (k = key) then v else lookupProperty rest key
  end.

Definition get (value : jsval) (key : string) : Lines jsval :=
  match value with
  | JUndefined | JNull => throw typeError
  | JObject props => ret (lookupProperty props (js key))
  | JArray items =>
      ret (if bool_decide (js key = js "length")
           then JNumber (numberOfNat (length items)) else JUndefined)
  | JString s =>
      ret (if bool_decide (js key = js "length")
           then JNumber (numberOfNat (length s)) else JUndefined)
  | _ => ret JUndefined
  end.

(** [value?.key] *)
Definition getOptional (value : jsval) (key : string) : Lines jsval :=
  if isNullish value then ret JUndefined else get value key.

(** [array.map((item, idx) => ...)]; calling [map] on what is not an
    array throws. *)
Fixpoint mapFrom {A} (f : A -> nat -> Lines jsval) (idx : nat) (items : list A)
  : Lines (list jsval) :=
  match items with
  | [] => ret []
  | item :: rest =>
      mapped <- f item idx ;
      others <- mapFrom f (S idx) rest ;
      ret (mapped :: others)
  end.

Definition arrayMap (array : jsval) (f : jsval -> nat -> Lines jsval)
  : Lines jsval :=
  match array with
  | JArray items => items' <- mapFrom f 0%nat items ; ret (JArray items')
  | _ => throw typeError
  end.

(** *** prompt.ts proper *)

Record LineOptions := {
  dropNull : option bool;
  allowEmpty : option bool;
}.

Definition maybeAddLine (key : string) (value : jsval)
  (options : option LineOptions) : Lines unit :=
  let dropNull := default true (options ≫= dropNull) in
  let allowEmpty := default false (options ≫= allowEmpty) in
  if isNullish value && dropNull then ret tt
  else
    let serialized := stringifyForPrompt value dropNull in
    if negb allowEmpty
       && (bool_decide (serialized = Some (js "{}"))
           || bool_decide (serialized = Some (js "[]")))
    then ret tt
    else push (js key ++ js "=" ++ default (js "undefined") serialized).

Definition formatSourceForPrompt (source : jsval) : Lines jsval :=
  if negb (truthy source) then ret JNull
  else
    fileName <- get source "fileName" ;
    confidence <- get source "confidence" ;
    origin <- get source "origin" ;
    let out :=
      [(js "file", fileName); (js "confidence", confidence);
       (js "origin", origin)] in
    lineNumber <- get source "lineNumber" ;
    let out :=
      if notNull lineNumber then setProperty out (js "line") lineNumber
      else out in
    columnNumber <- get source "columnNumber" ;
    let out :=
      if notNull columnNumber then setProperty out (js "col") columnNumber
      else out in
    ret (JObject out).

Definition roundedToString (v : jsval) : jsval :=
  JString (numberToString (mathRound (toNumber v))).

Definition deriveSelectionId (context : jsval) : Lines jsstring :=
  s <- get context "selection" ;
  identity <- get s "identity" ;
  id <- get identity "id" ;
  dataTestId <- get identity "dataTestId" ;
  tag <- get s "tag" ;
  componentDisplayName <- get s "componentDisplayName" ;
  nearestSource <- get s "nearestSource" ;
  fileName <- getOptional nearestSource "fileName" ;
  boundingBox <- get s "boundingBox" ;
  x <- get boundingBox "x" ;
  y <- get boundingBox "y" ;
  let parts :=
    [ nullishOr id (JString []);
      nullishOr dataTestId (JString []);
      tag;
      nullishOr componentDisplayName (JString []);
      nullishOr fileName (JString []);
      roundedToString x;
      roundedToString y ] in
  ret (js "sel_" ++ promptChecksum (joinValues (js "|") parts)).

Definition formatReactStack (react : jsval) : Lines jsval :=
  stack <- get react "stack" ;
  arrayMap stack (fun frame idx =>
    displayName <- get frame "displayName" ;
    isHost <- get frame "isHost" ;
    source <- get frame "source" ;
    formattedSource <- formatSourceForPrompt source ;
    flags <- get frame "flags" ;
    let formatted :=
      [ (js "idx", JNumber (numberOfNat idx));
        (js "displayName", nullishOr displayName (JString (js "<host>")));
        (js "isHost", isHost);
        (js "source", formattedSource);
        (js "flags", flags) ] in
    ownerIndex <- get react "ownerIndex" ;
    ret (JObject
           (if strictlyEqualsIndex ownerIndex idx
            then setProperty formatted (js "owner") (JBoolean true)
            else formatted))).

Definition formatPropsSnapshot (snapshot : jsval) : Lines jsval :=
  if negb (truthy snapshot) then ret JNull
  else
    totalProps <- get snapshot "totalProps" ;
    highlighted <- get snapshot "highlighted" ;
    highlights <-
      arrayMap highlighted (fun h _ =>
        name <- get h "name" ;
        reason <- get h "reason" ;
        value <- get h "value" ;
        ret (JObject [(js "name", name); (js "reason", reason);
                      (js "value", value)])) ;
    ret (JObject [(js "total", totalProps); (js "highlighted", highlights)]).

Definition formatStateSnapshot (snapshot : jsval) : Lines jsval :=
  if negb (truthy snapshot) then ret JNull
  else
    totalHooks <- get snapshot "totalHooks" ;
    entries <- get snapshot "entries" ;
    ret (JObject [(js "total", totalHooks); (js "entries", entries)]).

Definition formatContextSnapshot (snapshot : jsval) : Lines jsval :=
  if negb (truthy snapshot) then ret JNull
  else
    totalContexts <- get snapshot "totalContexts" ;
    entries <- get snapshot "entries" ;
    ret (JObject [(js "total", totalContexts); (js "entries", entries)]).

Definition formatBehaviorHandlers (handlers : jsval) : Lines jsval :=
  arrayMap handlers (fun h _ =>
    propName <- get h "propName" ;
    inferredKind <- get h "inferredKind" ;
    functionName <- get h "functionName" ;
    declaredOnComponent <- get h "declaredOnComponent" ;
    source <- get h "source" ;
    formattedSource <- formatSourceForPrompt source ;
    inferenceSource <- get h "inferenceSource" ;
    ret (JObject
           [ (js "prop", propName);
             (js "kind", inferredKind);
             (js "fn", nullishOr functionName (JString (js "anonymous")));
             (js "component",
              nullishOr declaredOnComponent (JString (js "unknown")));
             (js "source", formattedSource);
             (js "inference", inferenceSource) ])).

(** The closure [section] of the two renderers. *)
Definition section (name : string) (fn : Lines unit) : Lines unit :=
  push (js "[section:" ++ js name ++ js "]") ;;;
  fn ;;;
  push (js "[end:" ++ js name ++ js "]").

Definition keepNull : option LineOptions :=
  Some {| dropNull := Some false; allowEmpty := None |}.
Definition dropNullOnly : option LineOptions :=
  Some {| dropNull := Some true; allowEmpty := None |}.
Definition mayBeEmpty : option LineOptions :=
  Some {| dropNull := None; allowEmpty := Some true |}.
Definition dropNullNotEmpty : option LineOptions :=
  Some {| dropNull := Some true; allowEmpty := Some false |}.
Definition dropNullMayBeEmpty : option LineOptions :=
  Some {| dropNull := Some true; allowEmpty := Some true |}.

Definition defaultReactDebug : jsval :=
  JObject [ (js "buildType", JString (js "unknown"));
            (js "inspectorStatus", JString (js "no-hook"));
            (js "message", JString (js "React debug info unavailable.")) ].

Definition selectionOpening (selectionId checksum : jsstring) : jsstring :=
  js "<ai_grab_selection v=" ++ quote (js "2") ++ js " sel_id=" ++ [34]
  ++ selectionId ++ [34] ++ js " checksum=" ++ [34] ++ checksum ++ [34]
  ++ js ">".

Definition selectionClosing (selectionId checksum : jsstring) : jsstring :=
  js "<ai_grab_selection_end sel_id=" ++ [34] ++ selectionId ++ [34]
  ++ js " checksum=" ++ [34] ++ checksum ++ [34] ++ js "/>".

(** The body of [renderElementContextPrompt] between the two marker
    lines. *)
Definition elementSections (context : jsval) (selectionId checksum : jsstring)
  : Lines unit :=
  s <- get context "selection" ;
  dom <- get context "dom" ;
  react <- get context "react" ;
  style <- get context "styling" ;
  app <- get context "app" ;
  contextReactDebug <- get context "reactDebug" ;
  let reactDebug := nullishOr contextReactDebug defaultReactDebug in
  section "meta" (
    maybeAddLine "version" (JNumber (Finite 2)) keepNull ;;;
    maybeAddLine "sel_id" (JString selectionId) keepNull ;;;
    maybeAddLine "checksum" (JString checksum) keepNull ;;;
    maybeAddLine "react_available" (JBoolean (notNull react)) None ;;;
    inspectorStatus <- get reactDebug "inspectorStatus" ;
    maybeAddLine "react_inspector_status" inspectorStatus None ;;;
    buildType <- get reactDebug "buildType" ;
    maybeAddLine "react_build" buildType None ;;;
    message <- get reactDebug "message" ;
    maybeAddLine "react_message" message dropNullOnly ;;;
    nearestSource <- get s "nearestSource" ;
    maybeAddLine "source_hint_present" (JBoolean (notNull nearestSource)) None ;;;
    tests <- get context "tests" ;
    testsPresent <-
      (if truthy tests then
         hints <- get tests "hints" ;
         count <- get hints "length" ;
         ret (greaterThanZero count)
       else ret false) ;
    maybeAddLine "tests_present" (JBoolean testsPresent) None) ;;;
  section "selection" (
    tag <- get s "tag" ;
    maybeAddLine "tag" tag keepNull ;;;
    boundingBox <- get s "boundingBox" ;
    x <- get boundingBox "x" ;
    y <- get boundingBox "y" ;
    width <- get boundingBox "width" ;
    height <- get boundingBox "height" ;
    maybeAddLine "bounding_box"
      (JObject [ (js "x", JNumber (mathRound (toNumber x)));
                 (js "y", JNumber (mathRound (toNumber y)));
                 (js "w", JNumber (mathRound (toNumber width)));
                 (js "h", JNumber (mathRound (toNumber height))) ])
      keepNull ;;;
    identity <- get s "identity" ;
    id <- get identity "id" ;
    dataTestId <- get identity "dataTestId" ;
    role <- get identity "role" ;
    classes <- get identity "classes" ;
    maybeAddLine "identity"
      (JObject [ (js "id", id); (js "dataTestId", dataTestId);
                 (js "role", role); (js "classes", classes) ])
      keepNull ;;;
    componentDisplayName <- get s "componentDisplayName" ;
    maybeAddLine "component" componentDisplayName dropNullOnly ;;;
    nearestSource <- get s "nearestSource" ;
    formattedSource <- formatSourceForPrompt nearestSource ;
    maybeAddLine "nearest_source" formattedSource None ;;;
    isLikelyServerComponent <- get s "isLikelyServerComponent" ;
    maybeAddLine "is_server_component" isLikelyServerComponent None) ;;;
  section "dom" (
    snippet <- get dom "snippet" ;
    maybeAddLine "snippet" snippet keepNull ;;;
    parents <- get dom "parents" ;
    maybeAddLine "parents" parents None ;;;
    siblings <- get dom "siblings" ;
    maybeAddLine "siblings" siblings None ;;;
    children <- get dom "children" ;
    maybeAddLine "children" children None ;;;
    selectors <- get dom "selectors" ;
    maybeAddLine "selectors" selectors None) ;;;
  section "react" (
    inspectorStatus <- get reactDebug "inspectorStatus" ;
    buildType <- get reactDebug "buildType" ;
    message <- get reactDebug "message" ;
    maybeAddLine "status"
      (JObject [ (js "available", JBoolean (notNull react));
                 (js "inspectorStatus", inspectorStatus);
                 (js "build", buildType);
                 (js "message", message) ])
      dropNullOnly ;;;
    if notNull react then
      ownerIndex <- get react "ownerIndex" ;
      maybeAddLine "owner_index" ownerIndex keepNull ;;;
      stack <- formatReactStack react ;
      maybeAddLine "stack" stack mayBeEmpty ;;;
      ownerProps <- get react "ownerProps" ;
      props <- formatPropsSnapshot ownerProps ;
      maybeAddLine "owner_props" props mayBeEmpty ;;;
      ownerState <- get react "ownerState" ;
      state <- formatStateSnapshot ownerState ;
      maybeAddLine "owner_state" state mayBeEmpty ;;;
      ownerContexts <- get react "ownerContexts" ;
      contexts <- formatContextSnapshot ownerContexts ;
      maybeAddLine "owner_contexts" contexts mayBeEmpty
    else ret tt) ;;;
  section "styling" (
    layout <- get style "layout" ;
    maybeAddLine "layout" layout dropNullNotEmpty ;;;
    spacing <- get style "spacing" ;
    maybeAddLine "spacing" spacing dropNullNotEmpty ;;;
    size <- get style "size" ;
    maybeAddLine "size" size dropNullNotEmpty ;;;
    typography <- get style "typography" ;
    maybeAddLine "typography" typography dropNullNotEmpty ;;;
    colors <- get style "colors" ;
    maybeAddLine "colors" colors dropNullNotEmpty ;;;
    clickable <- get style "clickable" ;
    maybeAddLine "clickable" clickable keepNull) ;;;
  section "behavior" (
    behavior <- get context "behavior" ;
    inferenceLevel <- get behavior "inferenceLevel" ;
    maybeAddLine "inference_level" inferenceLevel keepNull ;;;
    behavior <- get context "behavior" ;
    handlers <- get behavior "handlers" ;
    formatted <- formatBehaviorHandlers handlers ;
    maybeAddLine "handlers" formatted mayBeEmpty) ;;;
  section "app" (
    url <- get app "url" ;
    pathname <- get app "pathname" ;
    search <- get app "search" ;
    hash <- get app "hash" ;
    maybeAddLine "url"
      (JObject [ (js "full", url); (js "pathname", pathname);
                 (js "search", search); (js "hash", hash) ])
      dropNullOnly ;;;
    framework <- get app "framework" ;
    routePatternGuess <- get app "routePatternGuess" ;
    routeParamsGuess <- get app "routeParamsGuess" ;
    pageComponent <- get app "pageComponent" ;
    formattedPage <- formatSourceForPrompt pageComponent ;
    layoutComponents <- get app "layoutComponents" ;
    formattedLayouts <-
      arrayMap layoutComponents (fun loc _ => formatSourceForPrompt loc) ;
    maybeAddLine "routing"
      (JObject [ (js "framework", framework);
                 (js "routePatternGuess", routePatternGuess);
                 (js "routeParamsGuess", routeParamsGuess);
                 (js "pageComponent", formattedPage);
                 (js "layoutComponents", formattedLayouts) ])
      dropNullMayBeEmpty ;;;
    dataSources <- get app "dataSources" ;
    maybeAddLine "data_sources" dataSources mayBeEmpty) ;;;
  tests <- get context "tests" ;
  if truthy tests then
    section "tests" (
      tests <- get context "tests" ;
      hints <- getOptional tests "hints" ;
      maybeAddLine "hints" (nullishOr hints (JArray [])) mayBeEmpty)
  else ret tt.

(** [promptChecksum(stringifyForPrompt(record, false))]; the checksum of
    [undefined] throws, reading its [length]. *)
Definition recordChecksum (record : jsval) : Lines jsstring :=
  match stringifyForPrompt record false with
  | Some text => ret (promptChecksum text)
  | None => throw typeError
  end.

(** [lines.join("\n")] at the end of a renderer whose [lines] started
    empty. *)
Definition joinLines (m : Lines unit) : completion jsstring :=
  match m with
  | Returns (_, lines) => Returns (join [10] lines)
  | Throws error => Throws error
  end.

Definition elementLines (context : jsval) : Lines unit :=
  selectionId <- deriveSelectionId context ;
  checksum <- recordChecksum context ;
  push (selectionOpening selectionId checksum) ;;;
  elementSections context selectionId checksum ;;;
  push (selectionClosing selectionId checksum).

Definition renderElementContextPrompt (context : jsval)
  : completion jsstring :=
  joinLines (elementLines context).

Definition sessionOpening (id checksum : jsstring) : jsstring :=
  js "<ai_grab_session id=" ++ [34] ++ id ++ [34] ++ js " checksum=" ++ [34]
  ++ checksum ++ [34] ++ js ">".

Definition sessionClosing (id checksum : jsstring) : jsstring :=
  js "<ai_grab_session_end id=" ++ [34] ++ id ++ [34] ++ js " checksum="
  ++ [34] ++ checksum ++ [34] ++ js "/>".

(** The callback of [session.elements.forEach]. *)
Fixpoint forEachElement (idx : nat) (elements : list jsval) : Lines unit :=
  match elements with
  | [] => ret tt
  | ctx :: rest =>
      push (js "[element:" ++ natToString idx ++ js "]") ;;;
      match renderElementContextPrompt ctx with
      | Returns text => push text
      | Throws error => throw error
      end ;;;
      push (js "[end:element:" ++ natToString idx ++ js "]") ;;;
      forEachElement (S idx) rest
  end.

Definition sessionLines (session : jsval) : Lines unit :=
  checksum <- recordChecksum session ;
  id <- get session "id" ;
  push (sessionOpening (ToString id) checksum) ;;;
  section "meta" (
    createdAt <- get session "createdAt" ;
    maybeAddLine "created_at" createdAt keepNull ;;;
    url <- get session "url" ;
    maybeAddLine "url" url keepNull ;;;
    userInstruction <- get session "userInstruction" ;
    maybeAddLine "instruction"
      (nullishOr userInstruction (JString (js "(none)"))) keepNull ;;;
    summary <- get session "summary" ;
    summaryOrDefault <-
      (if isNullish summary then
         elements <- get session "elements" ;
         count <- get elements "length" ;
         ret (JString (js "Session with " ++ ToString count ++ js " elements."))
       else ret summary) ;
    maybeAddLine "summary" summaryOrDefault keepNull ;;;
    elements <- get session "elements" ;
    count <- get elements "length" ;
    maybeAddLine "element_count" count keepNull) ;;;
  section "elements" (
    elements <- get session "elements" ;
    match elements with
    | JArray contexts => forEachElement 0%nat contexts
    | _ => throw typeError
    end) ;;;
  id <- get session "id" ;
  push (sessionClosing (ToString id) checksum).

Definition renderSessionPrompt (session : jsval) : completion jsstring :=
  joinLines (sessionLines session).

(** A computation that reads and returns without pushing a line. *)
Definition pushesNothing {A} (m : Lines A) : Prop :=
  forall a lines, m = Returns (a, lines) -> lines = [].

End Serializer.

End Prompt.

(** ** The rolling hash the specification describes *)

Module ChecksumSpec.
Import JS.

(** [hash := (hash * 31 + charCode)] reduced modulo 2^32, folded from
    the left over the characters. *)
Definition rolling_hash (input : jsstring) : Z :=
  fold_left (fun hash c => (hash * 31 + c) mod 2 ^ 32) input 0.

(** The value of a string of hexadecimal digits. *)
Definition hex_value_of_unit (c : Z) : Z :=
  if c <? 58 then c - 48 else c - 87.

Definition hex_value (s : jsstring) : Z :=
  fold_left (fun acc c => acc * 16 + hex_value_of_unit c) s 0.

End ChecksumSpec.

(** ** Sample records *)

Module Samples.
Import JS Schema.

(** A stack with one frame whose source file sits under [/app/]. *)
Definition appRouterSlice : ReactTreeSlice :=
  {| stack :=
       [ {| displayName := Some (js "UsersPage");
            isHost := false;
            source :=
              Some {| fileName := js "/repo/app/users/page.tsx";
                      lineNumber := None;
                      columnNumber := None;
                      confidence := ConfidenceHigh;
                      origin := OriginBippy |};
            flags := {| flag_isHost := false;
                        flag_isComposite := true;
                        isSuspenseBoundary := None;
                        isErrorBoundary := None;
                        isServerComponent := None;
                        isLayoutLike := None |} |} ];
     ownerIndex := None;
     ownerProps := None;
     ownerState := JNull;
     ownerContexts := JNull |}.

(** Owner props named as in a data-fetching component. *)
Definition propsNamed (names : list jsstring) : PropsSnapshot :=
  {| totalProps := numberOfNat (length names);
     highlighted :=
       map (fun n => {| name := n; value := JNull; reason := js "other" |}) names |}.

(** A slice whose owner has no prop that hints at a data source. *)
Definition plainSlice : ReactTreeSlice :=
  {| stack := [];
     ownerIndex := None;
     ownerProps := Some (propsNamed [js "title"; js "onClick"]);
     ownerState := JNull;
     ownerContexts := JNull |}.

Definition queryInput : DataSourceDetectionInput :=
  {| input_ownerProps :=
       Some (propsNamed [js "data"; js "isLoading"; js "error"]) |}.

Definition swrInput : DataSourceDetectionInput :=
  {| input_ownerProps := Some (propsNamed [js "swrKey"]) |}.

Definition plainInput : DataSourceDetectionInput :=
  {| input_ownerProps := Some (propsNamed [js "title"; js "onClick"]) |}.

(** A partial configuration that sets [maxReactStackFrames] only. *)
Definition framesArg (frames : jsval) : Client.InitArg :=
  Client.PartialConfigArg
    {| partial_reactInspectorMode := JUndefined;
       partial_maxReactStackFrames := frames;
       partial_heuristics := None |}.

(** Elements are numbered; element 0 is detached from the document.
    The progress callback appends to a log. *)
Definition progressLog := list GrabrController.SelectionFinalizeProgress.

Definition logProgress
  : option (GrabrController.SelectionFinalizeProgress -> progressLog -> progressLog) :=
  Some (fun progress log => log ++ [progress]).

Definition noSession : GrabrController.Controller :=
  {| GrabrController.currentSession := JNull;
     GrabrController.currentInstruction := Some (js "Make it blue") |}.

(** An inspector that fails on every element. *)
Definition failingEnv : GrabrController.Surroundings nat progressLog :=
  {| GrabrController.isElementConnectedToDocument := fun el => negb (el =? 0)%nat;
     GrabrController.getElementContext :=
       fun _ => Concurrency.Rejected (js "no fiber");
     GrabrController.sendContext := fun _ => Concurrency.Resolved tt;
     GrabrController.onSuccess := None;
     GrabrController.onError := None;
     GrabrController.showToast := None;
     GrabrController.consoleWarn := fun _ log => log;
     GrabrController.createdAt := js "2024-05-01T10:00:00.000Z";
     GrabrController.locationHref := js "http://localhost:3000/";
     GrabrController.sessionId := js "session-1";
     GrabrController.settlementOrder := fun step => step |}.


(** An overlay in the middle of a selection, help shown, two boxes
    drawn. *)
Definition selectingOverlay : SelectionOverlay.Overlay nat :=
  {| SelectionOverlay.selecting := true;
     SelectionOverlay.sending := false;
     SelectionOverlay.helpVisible := true;
     SelectionOverlay.hoveredElement := Some 2%nat;
     SelectionOverlay.selectedElements := [1; 1; 2]%nat;
     SelectionOverlay.selectionBoxes := [1; 2]%nat;
     SelectionOverlay.listenersAttached := true;
     SelectionOverlay.highlightDisplayed := true;
     SelectionOverlay.hudVisible := true;
     SelectionOverlay.hudHelpVisible := true;
     SelectionOverlay.hudStatus := js "Selected: 3 (last: div)";
     SelectionOverlay.toast := None |}.

(** An element context as the inspector builds it, property by
    property, for a button with no React slice. *)
Definition str (s : string) : jsval := JString (js s).
Definition num (z : Z) : jsval := JNumber (Finite (inject_Z z)).
Definition prop (key : string) (value : jsval) : jsstring * jsval :=
  (js key, value).
Definition obj (props : list (jsstring * jsval)) : jsval := JObject props.

Definition buttonContext : jsval :=
  obj [ prop "version" (num 2);
        prop "selection"
(         obj [ prop "tag" (str "button");
               prop "boundingBox"
(                obj [ prop "x" (JNumber (Finite (21 # 2))); prop "y" (num 20);
                      prop "width" (num 100); prop "height" (num 30) ]);
               prop "identity"
(                obj [ prop "tag" (str "button"); prop "id" (str "save");
                      prop "dataTestId" (JNull); prop "role" (JNull);
                      prop "classes" (JArray [str "btn"; str "primary"]) ]);
               prop "componentDisplayName" (JNull);
               prop "nearestSource" (JNull);
               prop "isLikelyServerComponent" (JNull) ]);
        prop "dom"
(         obj [ prop "snippet" (str "<button>Save</button>");
               prop "parents" (JArray []);
               prop "siblings"
(                obj [ prop "index" (num 0); prop "total" (num 1);
                      prop "previous" (JNull); prop "next" (JNull) ]);
               prop "children"
(                obj [ prop "totalChildren" (num 0); prop "tagCounts" (obj []);
                      prop "samples" (JArray []) ]);
               prop "selectors"
(                obj [ prop "preferred" (str "#save");
                      prop "all" (JArray [str "#save"; str "#save"]) ]) ]);
        prop "react" (JNull);
        prop "reactDebug"
(         obj [ prop "buildType" (str "unknown"); prop "inspectorStatus" (str "no-hook");
               prop "message" (JNull) ]);
        prop "styling"
(         obj [ prop "layout" (obj [prop "display" (str "block"); prop "position" (JNull)]);
               prop "spacing" (obj [prop "margin" (JNull); prop "padding" (JNull)]);
               prop "size" (obj [prop "width" (str "100px"); prop "height" (str "30px")]);
               prop "typography" (obj [prop "fontSize" (str "14px")]);
               prop "colors" (obj [prop "color" (str "rgb(0, 0, 0)")]);
               prop "clickable" (JBoolean true);
               prop "ruleSummaries" (JArray []) ]);
        prop "behavior"
(         obj [ prop "inferenceLevel" (str "none"); prop "handlers" (JArray []) ]);
        prop "app"
(         obj [ prop "url" (str "http://localhost:3000/"); prop "pathname" (str "/");
               prop "search" (JString []); prop "hash" (JString []);
               prop "framework" (str "unknown");
               prop "routePatternGuess" (JNull); prop "routeParamsGuess" (JNull);
               prop "pageComponent" (JNull); prop "layoutComponents" (JArray []);
               prop "dataSources"
(                JArray [ obj [ prop "kind" (str "unknown"); prop "identifier" (JNull);
                               prop "description" (JNull) ] ]) ]) ].

(** A stand-in for the decimal of a number that is not an integer. *)
Definition halves (q : Q) : jsstring :=
  Prompt.integerToString (Qfloor q) ++ js ".5".

Definition buttonSession : jsval :=
  obj [ prop "id" (str "session-1");
        prop "createdAt" (str "2024-05-01T10:00:00.000Z");
        prop "url" (str "http://localhost:3000/");
        prop "userInstruction" (JNull);
        prop "summary" (str "Session with 2 element(s) captured.");
        prop "elements" (JArray [buttonContext; buttonContext]) ].

(** A controller call that rejects and leaves everything as it is. *)
Definition rejectingCall
  (connected : list nat)
  (onProgress :
     GrabrController.SelectionFinalizeProgress ->
     SelectionOverlay.Overlay nat -> SelectionOverlay.Overlay nat)
  (state : unit * SelectionOverlay.Overlay nat)
  : option (Concurrency.outcome unit * (unit * SelectionOverlay.Overlay nat)) :=
  Some (Concurrency.Rejected (js "clipboard denied"), state).

End Samples.

(* ================================================================== *)
(** ** serializable.ts: values as they are at run time *)

Module Values.
Import JS Schema.

(** A JavaScript value, of type [unknown] in the source.  An object is
    given by its own enumerable string-keyed properties, in the order
    of [Object.entries]; a function by its [name], when that is a
    string. *)
Inductive unknown :=
| UUndefined
| UNull
| UBoolean (b : bool)
| UNumber (n : jsnum)
| UString (s : jsstring)
| UBigInt (z : Z)
| USymbol
| UFunction (name : option jsstring)
| UArray (items : list unknown)
| UObject (entries : list (jsstring * unknown)).

(** The array indices among the property keys: the canonical decimal
    numerals up to 2^32 - 2.  An ordinary object lists them first, in
    ascending order, and the other string keys after them in the order
    of their creation. *)
Definition isDigit (c : Z) : bool := (48 <=? c) && (c <=? 57).

Definition decimalValue (s : jsstring) : Z :=
  fold_left (fun acc c => acc * 10 + (c - 48)) s 0.

Definition arrayIndex (key : jsstring) : option Z :=
  match key with
  | [] => None
  | c :: rest =>
      if forallb isDigit key && (negb (c =? 48) || (length rest =? 0)%nat)
         && (decimalValue key <=? 4294967294)
      then Some (decimalValue key) else None
  end.

(** Own properties, as a list in the order of [Object.entries]. *)
Definition hasOwn {A} (key : jsstring) (props : list (jsstring * A)) : bool :=
  existsb (fun p => bool_decide (p.1 = key)) props.

Fixpoint ownProperty {A} (props : list (jsstring * A)) (key : jsstring)
  : option A :=
  match props with
  | [] => None
  | (k, v) :: rest =>
      if bool_decide (k = key) then Some v else ownProperty rest key
  end.

Fixpoint replaceOwn {A} (key : jsstring) (value : A) (props : list (jsstring * A))
  : list (jsstring * A) :=
  match props with
  | [] => []
  | (k, v) :: rest =>
      if bool_decide (k = key) then (k, value) :: rest
      else (k, v) :: replaceOwn key value rest
  end.

Fixpoint insertIndex {A} (n : Z) (key : jsstring) (value : A)
  (props : list (jsstring * A)) : list (jsstring * A) :=
  match props with
  | [] => [(key, value)]
  | (k, v) :: rest =>
      match arrayIndex k with
      | Some m =>
          if m <? n then (k, v) :: insertIndex n key value rest
          else (key, value) :: props
      | None => (key, value) :: props
      end
  end.

(** [out[key] = value] on an ordinary object.  The key [__proto__]
    reaches the setter inherited from [Object.prototype] and creates no
    own property; an own property keeps its place and takes the value;
    a new array index goes among the indices, any other new key to the
    end. *)
Definition assign {A} (props : list (jsstring * A)) (key : jsstring) (value : A)
  : list (jsstring * A) :=
  if bool_decide (key = js "__proto__") then props
  else if hasOwn key props then replaceOwn key value props
  else match arrayIndex key with
       | Some n => insertIndex n key value props
       | None => props ++ [(key, value)]
       end.

Section Loops.

(** The recursive call, at the depth below. *)
Variable convert : unknown -> option jsval.

(** The two loops; [None] is the [null] of the source. *)

Fixpoint arrayLoop (items : list unknown) (i : Z) (out : list jsval)
  : list jsval :=
  match items with
  | [] => out
  | item :: rest =>
      if i <? 5 then
        match convert item with
        | Some converted => arrayLoop rest (i + 1) (out ++ [converted])
        | None => arrayLoop rest (i + 1) out
        end
      else out
  end.

Fixpoint objectLoop (entries : list (jsstring * unknown)) (count : Z)
  (out : list (jsstring * jsval)) : list (jsstring * jsval) :=
  match entries with
  | [] => out
  | (key, v) :: rest =>
      if count >=? 8 then out
      else match convert v with
           | Some converted =>
               objectLoop rest (count + 1) (assign out key converted)
           | None => objectLoop rest count out
           end
  end.

End Loops.

(** [toSerializableValue(value, depth)]; [None] is the [null] returned
    for a value that is left out. *)
Fixpoint toSerializableValue (value : unknown) (depth : Z) {struct value}
  : option jsval :=
  if depth >? 2 then None
  else
    match value with
    | UNull => None
    | UString s => Some (JString s)
    | UNumber n => Some (JNumber n)
    | UBoolean b => Some (JBoolean b)
    | UArray items =>
        Some (JArray
                (arrayLoop (fun v => toSerializableValue v (depth + 1)) items 0 []))
    | UObject entries =>
        Some (JObject
                (objectLoop (fun v => toSerializableValue v (depth + 1))
                   entries 0 []))
    | UUndefined | UBigInt _ | USymbol | UFunction _ => None
    end.

(** A serializable value taken as a run-time value again. *)
Fixpoint embed (v : jsval) : unknown :=
  match v with
  | JUndefined => UUndefined
  | JNull => UNull
  | JBoolean b => UBoolean b
  | JNumber n => UNumber n
  | JString s => UString s
  | JArray items => UArray (map embed items)
  | JObject props => UObject (map (fun p => (p.1, embed p.2)) props)
  end.

(** [fits room v]: [v] has at most [room] levels, at most 5 items in
    an array and 8 properties in an object, and neither [null] nor
    [undefined] anywhere. *)
Fixpoint fits (room : nat) (v : jsval) : bool :=
  match room with
  | O => false
  | S room' =>
      match v with
      | JBoolean _ | JNumber _ | JString _ => true
      | JArray items => (length items <=? 5)%nat && forallb (fits room') items
      | JObject props =>
          (length props <=? 8)%nat && forallb (fun p => fits room' p.2) props
      | JUndefined | JNull => false
      end
  end.

End Values.

(** ** The order of the properties of an object *)

Module ValueShape.
Import JS Schema Values.

Definition keysOf {A} (props : list (jsstring * A)) : list jsstring := map fst props.

(** A key may stand before another in an ordinary object: an array
    index before a greater one and before any other key. *)
Definition before (k1 k2 : jsstring) : Prop :=
  match arrayIndex k1, arrayIndex k2 with
  | Some a, Some b => a < b
  | Some _, None => True
  | None, Some _ => False
  | None, None => True
  end.

Fixpoint inOrder (keys : list jsstring) : Prop :=
  match keys with
  | [] => True
  | key :: rest => Forall (before key) rest /\ inOrder rest
  end.

(** The own properties of an ordinary object that [assign] built. *)
Definition ordered {A} (props : list (jsstring * A)) : Prop :=
  inOrder (keysOf props)
  /\ NoDup (keysOf props)
  /\ js "__proto__" ∉ keysOf props.

(** [fits], with every object [ordered]. *)
Fixpoint stable (room : nat) (v : jsval) : Prop :=
  match room with
  | O => False
  | S room' =>
      match v with
      | JBoolean _ | JNumber _ | JString _ => True
      | JArray items => (length items <= 5)%nat /\ Forall (stable room') items
      | JObject props =>
          (length props <= 8)%nat /\ ordered props
          /\ Forall (fun p => stable room' p.2) props
      | JUndefined | JNull => False
      end
  end.

End ValueShape.

(** ** dom.ts: what is read off an element and its neighbours *)

Module DomSummary.
Import JS Schema Serializable Dom Values.

Record DomNodeSummary := {
  node_tag : jsstring;
  node_id : option jsstring;
  node_dataTestId : option jsstring;
  node_classes : list jsstring;
  node_textSnippet : option jsstring;
}.

Record SiblingSummary := {
  sibling_index : Z;
  sibling_total : Z;
  sibling_previous : option DomNodeSummary;
  sibling_next : option DomNodeSummary;
}.

(** A value of [tagCounts].  [tagCounts[tag] ?? 0] reads the object's
    own property or, for the two lower-case names every object inherits
    from [Object.prototype] ([constructor] and [__proto__]), the
    inherited value, which is not nullish; adding one to that gives the
    text of the inherited value followed by the character 1, and more
    ones each further time. *)
Inductive TagCount :=
| Counted (n : Z)
| InheritedText (ones : nat).

Record ChildSummary := {
  totalChildren : Z;
  tagCounts : list (jsstring * TagCount);
  samples : list DomNodeSummary;
}.

Record Selectors := {
  preferred : jsstring;
  all : list jsstring;
}.

Record DomNeighborhood := {
  dom_snippet : jsstring;
  dom_parents : list DomNodeSummary;
  dom_siblings : SiblingSummary;
  dom_children : ChildSummary;
  dom_selectors : Selectors;
}.

(** The double quote of the template literals. *)
Definition DQUOTE : jsstring := [34].

(** [a ?? b] and [a || b] on [string | null]. *)
Definition nullishOr (a b : option jsstring) : option jsstring :=
  match a with
  | Some s => Some s
  | None => b
  end.

Definition truthyOr (a b : option jsstring) : option jsstring :=
  match a with
  | Some (c :: s) => Some (c :: s)
  | _ => b
  end.

Section Elements.
Context {Element : Type} `{EqDecision Element}.

(** The properties and methods of an [Element] that dom.ts reads. *)
Record ElementApi := {
  tagName : Element -> jsstring;
  elementId : Element -> jsstring;
  className : Element -> jsstring;
  classList : Element -> list jsstring;
  getAttribute : Element -> jsstring -> option jsstring;
  textContent : Element -> option jsstring;
  parentElement : Element -> option Element;
  children : Element -> list Element;
}.

Variable dom : ElementApi.

(** [CSS.escape] *)
Variable cssEscape : jsstring -> jsstring.

Definition getDataTestId (el : Element) : option jsstring :=
  match nullishOr (getAttribute dom el (js "data-testid"))
          (getAttribute dom el (js "data-test-id")) with
  | None => None
  | Some value =>
      let trimmed := trim value in
      if (length trimmed =? 0)%nat then None else Some trimmed
  end.

(** The [while] loop over the siblings, from [parent.firstElementChild]
    on: [index] counts the siblings of the same tag name met before
    [el]. *)
Fixpoint nthOfTypeLoop (el : Element) (siblings : list Element) (index : Z) : Z :=
  match siblings with
  | [] => index
  | sibling :: rest =>
      if bool_decide (sibling = el) then index
      else nthOfTypeLoop el rest
             (if bool_decide (tagName dom sibling = tagName dom el)
              then index + 1 else index)
  end.

(** The decimal text of a non-negative integer. *)
Definition integerText (n : Z) : jsstring := toStringRadix 10 n.

Definition buildPreferredSelector (el : Element) : jsstring :=
  let id := elementId dom el in
  if (0 <? length id)%nat && negb (includes id (js " ")) then
    js "#" ++ cssEscape id
  else
    match getDataTestId el with
    | Some dataTestId =>
        js "[data-testid=" ++ DQUOTE ++ cssEscape dataTestId ++ DQUOTE ++ js "]"
    | None =>
        let classes := filter (fun cls => (0 < length cls)%nat) (classList dom el) in
        let baseTag := toLowerCase (tagName dom el) in
        if (0 <? length classes)%nat then
          baseTag ++ js "." ++ join (js ".") (map cssEscape classes)
        else
          match parentElement dom el with
          | None => baseTag
          | Some parent =>
              let index := nthOfTypeLoop el (children dom parent) 1 in
              baseTag ++ js ":nth-of-type(" ++ integerText index ++ js ")"
          end
    end.

(** The loop of [buildAncestorSelectorPath]; [steps] is what is left of
    [maxDepth], and [segments.unshift] puts a selector in front. *)
Fixpoint ancestorLoop (steps : nat) (current : option Element)
  (segments : list jsstring) : list jsstring :=
  match steps, current with
  | S steps', Some element =>
      ancestorLoop steps' (parentElement dom element)
        (buildPreferredSelector element :: segments)
  | _, _ => segments
  end.

Definition buildAncestorSelectorPath (el : Element) (maxDepth : Z) : jsstring :=
  join (js " > ") (ancestorLoop (Z.to_nat maxDepth) (Some el) []).

Definition summarizeDomNode (el : Element) : DomNodeSummary :=
  {| node_tag := toLowerCase (tagName dom el);
     node_id :=
       if (0 <? length (elementId dom el))%nat then Some (elementId dom el)
       else None;
     node_dataTestId := getDataTestId el;
     node_classes := classList dom el;
     node_textSnippet := summarizeTextContent (textContent dom el) |}.

(** [siblings.indexOf(el)] *)
Fixpoint indexOfFrom (el : Element) (array : list Element) (from : Z) : Z :=
  match array with
  | [] => -1
  | x :: rest =>
      if bool_decide (x = el) then from else indexOfFrom el rest (from + 1)
  end.

Definition indexOf (el : Element) (array : list Element) : Z :=
  indexOfFrom el array 0.

Definition summarizeSiblings (el : Element) : SiblingSummary :=
  match parentElement dom el with
  | None =>
      {| sibling_index := 0; sibling_total := 1;
         sibling_previous := None; sibling_next := None |}
  | Some parent =>
      let siblings := children dom parent in
      let total := Z.of_nat (length siblings) in
      let index := indexOf el siblings in
      {| sibling_index := index;
         sibling_total := total;
         sibling_previous :=
           if 0 <? index
           then summarizeDomNode <$> siblings !! Z.to_nat (index - 1)
           else None;
         sibling_next :=
           if (0 <=? index) && (index <? total - 1)
           then summarizeDomNode <$> siblings !! Z.to_nat (index + 1)
           else None |}
  end.

(** One round of the loop over the children:
    [tagCounts[tag] = (tagCounts[tag] ?? 0) + 1]. *)
Definition readCount (tagCounts : list (jsstring * TagCount)) (tag : jsstring)
  : TagCount :=
  match ownProperty tagCounts tag with
  | Some count => count
  | None =>
      if bool_decide (tag = js "constructor") || bool_decide (tag = js "__proto__")
      then InheritedText 0
      else Counted 0
  end.

Definition plusOne (count : TagCount) : TagCount :=
  match count with
  | Counted n => Counted (n + 1)
  | InheritedText ones => InheritedText (S ones)
  end.

Definition countTag (tagCounts : list (jsstring * TagCount)) (child : Element)
  : list (jsstring * TagCount) :=
  let tag := toLowerCase (tagName dom child) in
  assign tagCounts tag (plusOne (readCount tagCounts tag)).

(** What [tagCounts] holds for a tag when the children in [counted]
    have been counted and none of them has a name inherited from
    [Object.prototype]: their number, or no entry when there is none. *)
Definition countedEntry (counted : list Element) (tag : jsstring)
  : option TagCount :=
  let n := length (filter (fun child => toLowerCase (tagName dom child) = tag)
                     counted) in
  if (n =? 0)%nat then None else Some (Counted (Z.of_nat n)).

Definition summarizeChildren (el : Element) : ChildSummary :=
  let children := children dom el in
  {| totalChildren := Z.of_nat (length children);
     tagCounts := fold_left countTag children [];
     samples :=
       map summarizeDomNode (take (Z.to_nat MAX_CHILD_SAMPLES) children) |}.

(** [attrs.push] under a condition. *)
Definition pushAttr (cond : bool) (attr : jsstring) (attrs : list jsstring)
  : list jsstring :=
  if cond then attrs ++ [attr] else attrs.

Definition serializeElementSnippet (el : Element) : jsstring :=
  let tag := toLowerCase (tagName dom el) in
  let attrs :=
    pushAttr (0 <? length (elementId dom el))%nat
      (js "id=" ++ DQUOTE ++ elementId dom el ++ DQUOTE) [] in
  let className := trim (className dom el) in
  let attrs :=
    pushAttr (0 <? length className)%nat
      (js "class=" ++ DQUOTE ++ truncateText className 40 ++ DQUOTE) attrs in
  let attrs :=
    match getDataTestId el with
    | Some dataTestId =>
        attrs ++ [js "data-testid=" ++ DQUOTE ++ dataTestId ++ DQUOTE]
    | None => attrs
    end in
  let attrString :=
    if (0 <? length attrs)%nat then js " " ++ join (js " ") attrs else [] in
  let text := summarizeTextContent (textContent dom el) in
  js "<" ++ tag ++ attrString ++ js ">" ++ default [] text
  ++ js "</" ++ tag ++ js ">".

(** The loop over the ancestors in [buildDomNeighborhood]; [steps] is
    what is left of [MAX_PARENT_DEPTH]. *)
Fixpoint parentsLoop (steps : nat) (currentParent : option Element)
  (parents : list DomNodeSummary) : list DomNodeSummary :=
  match steps, currentParent with
  | S steps', Some parent =>
      parentsLoop steps' (parentElement dom parent)
        (parents ++ [summarizeDomNode parent])
  | _, _ => parents
  end.

Definition buildDomNeighborhood (el : Element) : DomNeighborhood :=
  let snippet := serializeElementSnippet el in
  let parents :=
    parentsLoop (Z.to_nat MAX_PARENT_DEPTH) (parentElement dom el) [] in
  let siblings := summarizeSiblings el in
  let children := summarizeChildren el in
  let preferred := buildPreferredSelector el in
  let path := buildAncestorSelectorPath el (MAX_PARENT_DEPTH + 1) in
  {| dom_snippet := snippet;
     dom_parents := parents;
     dom_siblings := siblings;
     dom_children := children;
     dom_selectors := {| preferred := preferred; all := [preferred; path] |} |}.

Definition formatElementLabel (el : Element) : jsstring :=
  let tag := toLowerCase (tagName dom el) in
  let id :=
    if (0 <? length (elementId dom el))%nat
       && (0 <? length (trim (elementId dom el)))%nat
    then js "#" ++ trim (elementId dom el) else [] in
  let testId :=
    truthyOr (getAttribute dom el (js "data-testid"))
      (getAttribute dom el (js "data-test-id")) in
  let testIdPart :=
    match testId with
    | Some testId =>
        if (0 <? length testId)%nat && (0 <? length (trim testId))%nat
        then js "[data-testid=" ++ DQUOTE ++ trim testId ++ DQUOTE ++ js "]"
        else []
    | None => []
    end in
  if (0 <? length id)%nat then tag ++ id
  else if (0 <? length testIdPart)%nat then tag ++ testIdPart
  else tag.

End Elements.
End DomSummary.

(** ** Hotkeys of the client module *)

Module Hotkey.
Import JS.

Record HotkeySpec := {
  alt : bool;
  shift : bool;
  ctrl : bool;
  meta : bool;
  key : option jsstring;
  code : option jsstring;
}.

(** The fields of a [KeyboardEvent] that [matchesHotkey] reads. *)
Record KeyboardEvent := {
  altKey : bool;
  shiftKey : bool;
  ctrlKey : bool;
  metaKey : bool;
  event_key : jsstring;
  event_code : jsstring;
}.

Definition DEFAULT_HOTKEY : jsstring := js "Alt+Shift+G".

Definition isAsciiLetter (c : Z) : bool :=
  ((65 <=? c) && (c <=? 90)) || ((97 <=? c) && (c <=? 122)).

(** [/^Key[A-Z]$/i]: the letters of [Key] and one more letter, each in
    either case. *)
Definition testKeyLetter (s : jsstring) : bool :=
  match s with
  | [k; e; y; letter] =>
      bool_decide (foldCase [k; e; y] = js "key") && isAsciiLetter letter
  | _ => false
  end.

(** [/^Digit\\d$/i]: the letters of [Digit], an escaped backslash (one
    backslash unit) and the letter [d], the letters in either case. *)
Definition testDigitBackslashD (s : jsstring) : bool :=
  bool_decide (foldCase s = js "digit\d").

(** [parts.slice(0, -1)] *)
Definition allButLast {A} (parts : list A) : list A :=
  take (length parts - 1) parts.

Definition parseHotkey (spec : jsstring) : option HotkeySpec :=
  let parts :=
    filter (fun p => (0 < length p)%nat) (map trim (split_on 43 spec)) in
  match list.last parts with
  | None => None
  | Some last =>
      let mods := map toLowerCase (allButLast parts) in
      let has := fun name : jsstring => bool_decide (name ∈ mods) in
      let code :=
        if testKeyLetter last || testDigitBackslashD last then Some last
        else None in
      let key :=
        match code with
        | Some _ => None
        | None => Some (toLowerCase last)
        end in
      Some {| alt := has (js "alt") || has (js "option");
              shift := has (js "shift");
              ctrl := has (js "ctrl") || has (js "control");
              meta := has (js "meta") || has (js "cmd") || has (js "command");
              key := key;
              code := code |}
  end.

Definition matchesHotkey (event : KeyboardEvent) (spec : HotkeySpec) : bool :=
  if negb (eqb (altKey event) (alt spec))
     || negb (eqb (shiftKey event) (shift spec))
     || negb (eqb (ctrlKey event) (ctrl spec))
     || negb (eqb (metaKey event) (meta spec))
  then false
  else
    match code spec with
    | Some (c :: rest) => bool_decide (event_code event = c :: rest)
    | _ =>
        match key spec with
        | Some k => bool_decide (toLowerCase (event_key event) = k)
        | None => false
        end
    end.

(** [options.hotkey]: absent, [false], or a string. *)
Inductive HotkeyOption :=
| HotkeyAbsent
| HotkeyFalse
| HotkeyString (spec : jsstring).

(** The constant [hotkey] of [createGrabrClient]. *)
Definition clientHotkey (hotkey : HotkeyOption) : option HotkeySpec :=
  match hotkey with
  | HotkeyFalse => None
  | HotkeyString spec => parseHotkey spec
  | HotkeyAbsent => parseHotkey DEFAULT_HOTKEY
  end.

End Hotkey.

(** ** Agent providers of the controller *)

Module AgentProviders.
Import JS Schema.

(** [Map.prototype.set] and [get] on a [Map] keyed by strings, its
    entries in insertion order. *)
Fixpoint mapSet {V} (entries : list (jsstring * V)) (key : jsstring) (value : V)
  : list (jsstring * V) :=
  match entries with
  | [] => [(key, value)]
  | (k, v) :: rest =>
      if bool_decide (k = key) then (k, value) :: rest
      else (k, v) :: mapSet rest key value
  end.

Fixpoint mapGet {V} (entries : list (jsstring * V)) (key : jsstring) : option V :=
  match entries with
  | [] => None
  | (k, v) :: rest => if bool_decide (k = key) then Some v else mapGet rest key
  end.

Section Registry.
Context {Provider : Type}.

(** [provider.id] *)
Variable providerId : Provider -> jsstring.

(** The two provider fields of a [GrabrController]. *)
Record Providers := {
  providerRegistry : list (jsstring * Provider);
  activeProvider : Provider;
}.

(** What the constructor does with [initialProvider]. *)
Definition initialProviders (initialProvider : Provider) : Providers :=
  {| providerRegistry := mapSet [] (providerId initialProvider) initialProvider;
     activeProvider := initialProvider |}.

Definition registerAgentProvider (provider : Provider) (this : Providers)
  : Providers :=
  {| providerRegistry :=
       mapSet (providerRegistry this) (providerId provider) provider;
     activeProvider := activeProvider this |}.

Definition setActiveAgentProvider (id : jsstring) (this : Providers) : Providers :=
  match mapGet (providerRegistry this) id with
  | Some provider =>
      {| providerRegistry := providerRegistry this; activeProvider := provider |}
  | None => this
  end.

(** The providers of [createGrabrClient]: [options.providers] when it
    has an element, else a new clipboard provider; the first one starts
    the controller, the others are registered, and a non-empty
    [options.activeProviderId] is made active. *)
Definition clientProviders (clipboard : Provider)
  (providers : option (list Provider)) (activeProviderId : option jsstring)
  : Providers :=
  let '(first, others) :=
    match providers with
    | Some (first :: others) => (first, others)
    | _ => (clipboard, [])
    end in
  let controller :=
    fold_left (fun controller provider => registerAgentProvider provider controller)
      others (initialProviders first) in
  match activeProviderId with
  | Some (c :: id) => setActiveAgentProvider (c :: id) controller
  | _ => controller
  end.

End Registry.

Arguments Providers : clear implicits.

End AgentProviders.

(** ** Starting a selection session *)

Module SelectionSession.
Import JS Schema GrabrController SelectionOverlay.

Section Start.
Context {Element : Type} `{EqDecision Element}.
Variable formatElementLabel : Element -> jsstring.

(** [startSelectionSession] of the controller: the state is the
    controller's fields, the attached overlay if any, and the lines
    warned on the console; the argument is a string, or [None] for
    [null] and [undefined]. *)
Definition startSelectionSession (userInstruction : option jsstring)
  (state : Controller * option (Overlay Element) * list jsstring)
  : Controller * option (Overlay Element) * list jsstring :=
  let '(this, overlay, console) := state in
  let trimmed := trim <$> userInstruction in
  let this :=
    {| currentSession := currentSession this;
       currentInstruction :=
         match trimmed with
         | Some (c :: rest) => Some (c :: rest)
         | _ => None
         end |} in
  match overlay with
  | Some overlay =>
      (this, Some (beginSelection formatElementLabel overlay), console)
  | None =>
      (this, None,
       console
       ++ [js "[grabr] startSelectionSession called, but no overlay attached."])
  end.

End Start.
End SelectionSession.

(** ** Selecting elements in the overlay *)

Module OverlaySelection.
Import JS Schema Dom DomSummary GrabrController SelectionOverlay Hotkey.

(** [getBoundingClientRect()] *)
Record DOMRect := {
  rect_left : jsnum;
  rect_top : jsnum;
  rect_width : jsnum;
  rect_height : jsnum;
}.

Definition isFiniteNumber (n : jsnum) : bool :=
  match n with Finite _ => true | _ => false end.

(** [n <= 0]; a comparison with not-a-number is false. *)
Definition leZero (n : jsnum) : bool :=
  match n with
  | Finite q => Qle_bool q 0
  | Infinity negative => negative
  | NaN => false
  end.

Section Selecting.
Context {Element : Type} `{EqDecision Element}.

Variable formatElementLabel : Element -> jsstring.
Variable isElementConnectedToDocument : Element -> bool.
Variable getBoundingClientRect : Element -> DOMRect.

(** [this.root.contains(node)] *)
Variable rootContains : Element -> bool.

(** The fields of a [MouseEvent] that [onClick] reads; [target] is
    [None] when the event target is not an [Element]. *)
Record MouseEvent := {
  button : Z;
  target : option Element;
  mouse_shiftKey : bool;
  mouse_metaKey : bool;
  mouse_ctrlKey : bool;
}.

Definition setSelectedElements (elements : list Element) (this : Overlay Element)
  : Overlay Element :=
  {| selecting := selecting this; sending := sending this;
     helpVisible := helpVisible this; hoveredElement := hoveredElement this;
     selectedElements := elements;
     selectionBoxes := selectionBoxes this;
     listenersAttached := listenersAttached this;
     highlightDisplayed := highlightDisplayed this;
     hudVisible := hudVisible this; hudHelpVisible := hudHelpVisible this;
     hudStatus := hudStatus this; toast := toast this |}.

Definition setSelectionBoxes (boxes : list Element) (this : Overlay Element)
  : Overlay Element :=
  {| selecting := selecting this; sending := sending this;
     helpVisible := helpVisible this; hoveredElement := hoveredElement this;
     selectedElements := selectedElements this;
     selectionBoxes := boxes;
     listenersAttached := listenersAttached this;
     highlightDisplayed := highlightDisplayed this;
     hudVisible := hudVisible this; hudHelpVisible := hudHelpVisible this;
     hudStatus := hudStatus this; toast := toast this |}.

(** The test on the rectangle in [updateSelectionBoxes]: the element is
    passed over when [left] is not finite or a side is [<= 0]. *)
Definition hasBox (el : Element) : bool :=
  let rect := getBoundingClientRect el in
  negb (negb (isFiniteNumber (rect_left rect))
        || leZero (rect_width rect) || leZero (rect_height rect)).

(** One box is appended for each selected element that is connected and
    has a box, in the order of the selection. *)
Definition updateSelectionBoxes (this : Overlay Element) : Overlay Element :=
  let this := clearSelectionBoxes this in
  setSelectionBoxes
    (filter (fun el => isElementConnectedToDocument el && hasBox el = true)
       (selectedElements this))
    this.

Definition toggleSelection (el : Element) (multi : bool) (this : Overlay Element)
  : Overlay Element :=
  let selected :=
    if negb multi then [el]
    else
      let index := indexOf el (selectedElements this) in
      if 0 <=? index then delete (Z.to_nat index) (selectedElements this)
      else selectedElements this ++ [el] in
  let selected :=
    filter (fun el => isElementConnectedToDocument el = true) selected in
  updateHudState formatElementLabel
    (updateSelectionBoxes (setSelectedElements selected this)).

Definition clearSelection (this : Overlay Element) : Overlay Element :=
  updateHudState formatElementLabel
    (updateSelectionBoxes (setSelectedElements [] this)).

Definition undoSelection (this : Overlay Element) : Overlay Element :=
  match selectedElements this with
  | [] => this
  | _ :: _ =>
      updateHudState formatElementLabel
        (updateSelectionBoxes
           (setSelectedElements (removelast (selectedElements this)) this))
  end.

Definition toggleHelp (this : Overlay Element) : Overlay Element :=
  {| selecting := selecting this; sending := sending this;
     helpVisible := negb (helpVisible this);
     hoveredElement := hoveredElement this;
     selectedElements := selectedElements this;
     selectionBoxes := selectionBoxes this;
     listenersAttached := listenersAttached this;
     highlightDisplayed := highlightDisplayed this;
     hudVisible := hudVisible this;
     hudHelpVisible := negb (helpVisible this);
     hudStatus := hudStatus this; toast := toast this |}.

Definition onClick (event : MouseEvent) (this : Overlay Element)
  : Overlay Element :=
  if negb (selecting this) || sending this then this
  else if negb (button event =? 0) then this
  else
    match target event with
    | None => this
    | Some target =>
        if rootContains target then this
        else
          let multi :=
            mouse_shiftKey event || mouse_metaKey event || mouse_ctrlKey event in
          toggleSelection target multi this
    end.

(** The [keydown] listener the constructor installs for a hotkey. *)
Definition globalToggleHandler (hotkey : HotkeySpec) (event : KeyboardEvent)
  (this : Overlay Element) : Overlay Element :=
  if negb (matchesHotkey event hotkey) then this
  else if selecting this || sending this then cancelSelection this
  else beginSelection formatElementLabel this.

(** A selection is tidy when no element is selected twice and every
    box drawn is the box of a selected element, in the order of the
    selection. *)
Definition tidy (this : Overlay Element) : Prop :=
  NoDup (selectedElements this)
  /\ selectionBoxes this `sublist_of` selectedElements this.

End Selecting.
End OverlaySelection.

(** ** Pools in which no call has been rejected *)

Module PoolOutcomes.
Import JS Concurrency PoolInvariant.

Section Unbroken.
Context {TIn TOut St : Type}.
Variable items : list TIn.

(** How the call for an item settles. *)
Variable outcomeOf : TIn -> nat -> outcome TOut.

Definition resolves (item : TIn) (i : nat) : Prop :=
  exists value, outcomeOf item i = Resolved value.

(** What holds of a pool as long as no worker has ended on a rejection:
    every item claimed so far has a call that resolves or is still
    awaited. *)
Record Unbroken (pool : Pool TOut St) : Prop := {
  unbroken_no_throw : firstThrown (workers pool) = None;
  unbroken_next : (nextIndex pool <= length items)%nat;
  unbroken_awaiting : forall w i,
    workers pool !! w = Some (Awaiting i) -> (i < nextIndex pool)%nat;
  unbroken_claimed : forall i item,
    (i < nextIndex pool)%nat -> items !! i = Some item ->
    resolves item i \/ exists w, workers pool !! w = Some (Awaiting i);
  unbroken_returned : forall w,
    workers pool !! w = Some Returned -> nextIndex pool = length items;
  unbroken_workers : workers pool = [] -> length items = 0%nat;
}.

End Unbroken.

Arguments unbroken_no_throw {TIn TOut St items outcomeOf} pool _.
Arguments unbroken_next {TIn TOut St items outcomeOf} pool _.
Arguments unbroken_awaiting {TIn TOut St items outcomeOf} pool _.
Arguments unbroken_claimed {TIn TOut St items outcomeOf} pool _.
Arguments unbroken_returned {TIn TOut St items outcomeOf} pool _.
Arguments unbroken_workers {TIn TOut St items outcomeOf} pool _.

End PoolOutcomes.

(** ** inspector.ts: the engine and its configuration *)

Module Inspector.
Import JS Schema Heuristics.

(** A configuration passed where a [Partial<GrabrRuntimeConfig>] is
    expected: the same object, every property present. *)
Definition asPartial (config : GrabrRuntimeConfig) : PartialRuntimeConfig :=
  {| partial_reactInspectorMode := reactInspectorMode config;
     partial_maxReactStackFrames := maxReactStackFrames config;
     partial_heuristics :=
       Some {| partial_frameworkStrategies :=
                 Some (frameworkStrategies (heuristics config));
               partial_dataSourceStrategies :=
                 Some (dataSourceStrategies (heuristics config)) |} |}.

(** A [DefaultInspectorEngine] is its configuration. *)
Record InspectorEngine := {
  engine_config : GrabrRuntimeConfig;
}.

Definition createInspectorEngine (partialConfig : option PartialRuntimeConfig)
  : InspectorEngine :=
  {| engine_config := mergeRuntimeConfig partialConfig |}.

End Inspector.

(** ** Shapes of route segments *)

Module RouteShape.
Import JS Heuristics.

(** A segment [guessRoute] keeps as it is: not matched by the numeric
    test, longer than two units and equal to its lower-casing. *)
Definition keptSegment (seg : jsstring) : Prop :=
  testBackslashDs seg = false /\ (2 < length seg)%nat /\ seg = toLowerCase seg.

End RouteShape.

(** ** react.ts: snapshots and behaviour *)

Module ReactInspector.
Import JS Schema Values.

Inductive HighlightReason :=
| ReasonText
| ReasonDesign
| ReasonTestId
| ReasonAriaLabel
| ReasonOther.

Definition reasonText (reason : HighlightReason) : jsstring :=
  match reason with
  | ReasonText => js "text"
  | ReasonDesign => js "design"
  | ReasonTestId => js "test-id"
  | ReasonAriaLabel => js "aria-label"
  | ReasonOther => js "other"
  end.

(** [value] is the serializable value of the prop, [None] for [null]. *)
Definition classifyPropHighlight (name : jsstring) (value : option jsval)
  : option HighlightReason :=
  let lower := toLowerCase name in
  let named := fun literal : jsstring => bool_decide (lower = literal) in
  if named (js "label") || named (js "title") || named (js "placeholder")
     || named (js "text") || named (js "children")
  then Some ReasonText
  else if named (js "variant") || named (js "size") || named (js "intent")
          || named (js "tone") || named (js "color") || named (js "kind")
  then Some ReasonDesign
  else if named (js "data-testid") || named (js "testid") then Some ReasonTestId
  else if named (js "aria-label") then Some ReasonAriaLabel
  else
    match value with
    | None => None
    | Some _ => Some ReasonOther
    end.

Definition MAX_REACT_SNAPSHOT_ENTRIES : Z := 12.

Definition limitEntries {T} (entries : list T) (limit : Z) : list T :=
  if limit <? Z.of_nat (length entries) then take (Z.to_nat limit) entries
  else entries.

(** The callback of [snapshotProps] on one prop: what it pushes, if
    anything. *)
Definition highlightProp (prop : jsstring * unknown) : option PropHighlight :=
  let '(propName, next) := prop in
  let serial := toSerializableValue next 0 in
  match classifyPropHighlight propName serial with
  | Some reason =>
      Some {| name := propName;
              value := default JNull serial;
              reason := reasonText reason |}
  | None => None
  end.

(** [snapshotProps(fiber)]; [visited] lists the props in the order in
    which [traverseProps] passes them to the callback. *)
Definition snapshotProps (visited : list (jsstring * unknown)) : PropsSnapshot :=
  {| totalProps := numberOfNat (length visited);
     highlighted :=
       limitEntries (omap highlightProp visited) MAX_REACT_SNAPSHOT_ENTRIES |}.

Record StateSnapshotEntry := {
  hookIndex : nat;
  hookValue : option jsval;
}.

Record StateSnapshot := {
  totalHooks : nat;
  stateEntries : list StateSnapshotEntry;
}.

(** [snapshotState(fiber)]; [visited] lists the hook states in the
    order in which [traverseState] passes them to the callback. *)
Definition snapshotState (visited : list unknown) : StateSnapshot :=
  {| totalHooks := length visited;
     stateEntries :=
       limitEntries
         (imap (fun index next =>
                  {| hookIndex := index;
                     hookValue := toSerializableValue next 0 |})
            visited)
         MAX_REACT_SNAPSHOT_ENTRIES |}.

Record ContextEntry := {
  contextIndex : nat;
  contextValue : option jsval;
}.

Record ContextSnapshot := {
  totalContexts : nat;
  contextEntries : list ContextEntry;
}.

Definition snapshotContexts (visited : list unknown) : ContextSnapshot :=
  {| totalContexts := length visited;
     contextEntries :=
       limitEntries
         (imap (fun index next =>
                  {| contextIndex := index;
                     contextValue := toSerializableValue next 0 |})
            visited)
         MAX_REACT_SNAPSHOT_ENTRIES |}.

Inductive EventKind :=
| Click | Change | Submit | Input | Focus | Blur | Key | Pointer | Other.

Definition eventKindText (kind : EventKind) : jsstring :=
  match kind with
  | Click => js "click"
  | Change => js "change"
  | Submit => js "submit"
  | Input => js "input"
  | Focus => js "focus"
  | Blur => js "blur"
  | Key => js "key"
  | Pointer => js "pointer"
  | Other => js "other"
  end.

Definition EXACT_EVENT_KIND : list (jsstring * EventKind) :=
  [ (js "onclick", Click); (js "onchange", Change); (js "onsubmit", Submit);
    (js "oninput", Input); (js "onfocus", Focus); (js "onblur", Blur) ].

(** [EXACT_EVENT_KIND[lower]] finds an own property of the table or, for
    the lower-case names every object inherits from [Object.prototype]
    ([constructor] and [__proto__]), the inherited value, which is
    truthy and is returned as it is: the result is then no event kind
    ([None]). *)
Definition inferEventKindFromPropName (name : jsstring) : option EventKind :=
  let lower := toLowerCase name in
  match ownProperty EXACT_EVENT_KIND lower with
  | Some exact => Some exact
  | None =>
      if bool_decide (lower = js "constructor")
         || bool_decide (lower = js "__proto__")
      then None
      else if startsWith lower (js "onkey") then Some Key
      else if startsWith lower (js "onpointer") || startsWith lower (js "onmouse")
      then Some Pointer
      else Some Other
  end.

Record EventHandlerInfo := {
  propName : jsstring;
  inferredKind : option EventKind;
  functionName : option jsstring;
  declaredOnComponent : option jsstring;
  handlerSource : option SourceLocation;
  comment : option jsstring;
}.

Inductive BehaviorInferenceLevel := InferenceNone | PropNameOnly.

Record BehaviorContext := {
  inferenceLevel : BehaviorInferenceLevel;
  handlers : list EventHandlerInfo;
}.

(** [array[index]] for a number: an element when the number is an
    integer within the array, [undefined] otherwise. *)
Definition arrayAt {T} (array : list T) (index : jsnum) : option T :=
  match index with
  | Finite q =>
      if (Qnum q mod Zpos (Qden q) =? 0) && (0 <=? Qnum q)
      then array !! Z.to_nat (Qnum q / Zpos (Qden q))
      else None
  | _ => None
  end.

Section Behavior.
Context {Element Fiber : Type}.

(** What [buildBehaviorContext] asks of bippy: the fiber of a host
    element ([None] inside [Some] for [null], [None] for a throw), the
    latest fiber, the fiber stack, and the props [traverseProps] passes
    to its callback, in order. *)
Record Bippy := {
  getFiberFromHostInstance : Element -> option (option Fiber);
  getLatestFiber : Fiber -> Fiber;
  getFiberStack : Fiber -> list Fiber;
  traverseProps : Fiber -> list (jsstring * unknown);
}.

Variable bippy : Bippy.

(** The closure variables [seenNames] and [handlers]. *)
Definition Recorded : Type := list jsstring * list EventHandlerInfo.

(** The callback of [recordHandlersFromFiber] on one prop. *)
Definition recordHandler (declared : option jsstring)
  (source : option SourceLocation) (recorded : Recorded)
  (prop : jsstring * unknown) : Recorded :=
  let '(seenNames, handlers) := recorded in
  let '(name, next) := prop in
  if negb (startsWith name (js "on")) then recorded
  else if bool_decide (name ∈ seenNames) then recorded
  else
    match next with
    | UFunction fnName =>
        let fnName :=
          match fnName with
          | Some (c :: rest) => Some (c :: rest)
          | _ => None
          end in
        let kind := inferEventKindFromPropName name in
        let comment :=
          (fun kind =>
             js "Handler " ++ name ++ js " likely handles "
             ++ eventKindText kind ++ js " events on this element.") <$> kind in
        (seenNames ++ [name],
         handlers
         ++ [ {| propName := name;
                 inferredKind := kind;
                 functionName := fnName;
                 declaredOnComponent := declared;
                 handlerSource := source;
                 comment := comment |} ])
    | _ => recorded
    end.

(** What holds of the handlers recorded so far. *)
Definition wellRecorded (recorded : Recorded) : Prop :=
  map propName (snd recorded) = fst recorded /\ NoDup (fst recorded)
  /\ Forall (fun h =>
               startsWith (propName h) (js "on") = true
               /\ exists kind,
                    inferredKind h = Some kind
                    /\ comment h
                       = Some (js "Handler " ++ propName h ++ js " likely handles "
                               ++ eventKindText kind ++ js " events on this element."))
       (snd recorded).

Definition recordHandlersFromFiber (fiber : option Fiber)
  (declared : option jsstring) (source : option SourceLocation)
  (recorded : Recorded) : Recorded :=
  match fiber with
  | None => recorded
  | Some fiber => fold_left (recordHandler declared source) (traverseProps bippy fiber) recorded
  end.

Definition buildBehaviorContext (element : Element)
  (reactSlice : option ReactTreeSlice) : BehaviorContext :=
  let hostFiber := default None (getFiberFromHostInstance bippy element) in
  let recorded : Recorded := ([], []) in
  let recorded :=
    match hostFiber with
    | None => recorded
    | Some hostFiber =>
        let stackFibers := getFiberStack bippy (getLatestFiber bippy hostFiber) in
        let first := reactSlice ≫= (fun slice => head (stack slice)) in
        let source := first ≫= Schema.source in
        let componentName := first ≫= displayName in
        let recorded :=
          recordHandlersFromFiber (Some hostFiber) componentName source recorded in
        match reactSlice with
        | Some slice =>
            match ownerIndex slice with
            | Some ownerIndex =>
                let ownerFrame := arrayAt (stack slice) ownerIndex in
                let ownerSource := ownerFrame ≫= Schema.source in
                let ownerName := ownerFrame ≫= displayName in
                let ownerCompositeFiber := arrayAt stackFibers ownerIndex in
                recordHandlersFromFiber ownerCompositeFiber ownerName ownerSource
                  recorded
            | None => recorded
            end
        | None => recorded
        end
    end in
  {| inferenceLevel :=
       if (length (snd recorded) =? 0)%nat then InferenceNone else PropNameOnly;
     handlers := snd recorded |}.

End Behavior.

Arguments Bippy : clear implicits.

End ReactInspector.

(** ** The clipboard provider of the client module *)

Module Clipboard.
Import JS Schema Concurrency Prompt.

(** What a [catch] clause receives: an [Error] with its message, or a
    value that is no [Error]. *)
Inductive Thrown :=
| ErrorWith (message : jsstring)
| NotAnError.

(** What copying reaches in the browser: [navigator.clipboard.writeText]
    when there is one, with the rejection of its promise if it rejects;
    whether there is a document with a body; and what
    [document.execCommand("copy")] does, return a boolean or throw.  The
    other calls of the fallback (creating, styling, appending, focusing
    and selecting the [textarea], and removing it) are taken not to
    throw. *)
Record Browser := {
  clipboardWriteText : option (jsstring -> option Thrown);
  documentBody : bool;
  execCommandCopy : jsstring -> Thrown + bool;
}.

(** What an attempt leaves: the boolean returned, the reasons pushed on
    [reasonsOut], and whether the helper [textarea] is still a child of
    the body. *)
Record CopyAttempt := {
  copyReturned : bool;
  reasonsOut : list jsstring;
  textareaInBody : bool;
}.

Definition tryCopyTextToClipboard (browser : Browser) (text : jsstring)
  (reasons : list jsstring) : CopyAttempt :=
  let fallback reasons :=
    if negb (documentBody browser) then
      {| copyReturned := false;
         reasonsOut :=
           reasons ++ [js "document/body not available for execCommand fallback."];
         textareaInBody := false |}
    else
      match execCommandCopy browser text with
      | inr ok =>
          {| copyReturned := ok;
             reasonsOut :=
               if ok then reasons
               else reasons ++ [js "document.execCommand('copy') returned false."];
             textareaInBody := false |}
      | inl (ErrorWith message) =>
          {| copyReturned := false;
             reasonsOut := reasons ++ [js "execCommand fallback failed: " ++ message];
             textareaInBody := true |}
      | inl NotAnError =>
          {| copyReturned := false;
             reasonsOut := reasons ++ [js "execCommand fallback failed"];
             textareaInBody := true |}
      end in
  match clipboardWriteText browser with
  | Some writeText =>
      match writeText text with
      | None =>
          {| copyReturned := true; reasonsOut := reasons; textareaInBody := false |}
      | Some (ErrorWith message) =>
          fallback
            (reasons ++ [js "navigator.clipboard.writeText failed: " ++ message])
      | Some NotAnError =>
          fallback (reasons ++ [js "navigator.clipboard.writeText failed"])
      end
  | None =>
      fallback (reasons ++ [js "navigator.clipboard.writeText not available."])
  end.

(** What [sendContext] leaves: how its promise settles, the text logged
    on the console if any, and the state of the helper [textarea]. *)
Record Sent := {
  settled : outcome unit;
  logged : option jsstring;
  textareaLeft : bool;
}.

Section SendContext.

(** [Number::toString] of the numbers that are no integers, which the
    renderer needs. *)
Variable shortestDecimal : Q -> jsstring.

Definition sendContext (browser : Browser) (session : jsval) : Sent :=
  match renderSessionPrompt shortestDecimal session with
  | Throws error =>
      {| settled := Rejected error; logged := None; textareaLeft := false |}
  | Returns text =>
      let attempt := tryCopyTextToClipboard browser text [] in
      let copyFailureReasons := reasonsOut attempt in
      {| settled :=
           if copyReturned attempt then Resolved tt
           else
             let suffix :=
               if (0 <? length copyFailureReasons)%nat
               then js " Reasons: " ++ join (js " | ") copyFailureReasons
               else [] in
             Rejected (js "Failed to copy session context to clipboard." ++ suffix);
         logged := Some text;
         textareaLeft := textareaInBody attempt |}
  end.

End SendContext.
End Clipboard.

(** ** Sample pages, overlays and browsers *)

Module PageSamples.
Import JS Schema Values DomSummary Hotkey SelectionOverlay OverlaySelection
  Concurrency Clipboard.

(** Props as React hands them over: a handler, a nested array and an
    array-index key among them. *)
Definition cardProps : unknown :=
  UObject
    [ (js "title", UString (js "Save"));
      (js "onClick", UFunction (Some (js "handleClick")));
      (js "items",
       UArray [ UNumber (Finite 1); UUndefined;
                UArray [UObject [(js "deep", UBoolean true)]] ]);
      (js "7", UBoolean false) ].

(** A list with three children; elements are numbered, the list is
    element 0 and has no parent. *)
Definition listPage : ElementApi (Element := nat) :=
  {| tagName := fun el =>
       match el with
       | 0%nat => js "UL"
       | 2%nat => js "SPAN"
       | _ => js "LI"
       end;
     elementId := fun _ => [];
     className := fun _ => [];
     classList := fun _ => [];
     getAttribute := fun _ _ => None;
     textContent := fun el =>
       match el with
       | 0%nat => None
       | _ => Some (js "Item")
       end;
     parentElement := fun el =>
       match el with
       | 0%nat => None
       | _ => Some 0%nat
       end;
     children := fun el =>
       match el with
       | 0%nat => [1; 2; 3]%nat
       | _ => []
       end |}.

(** An overlay with elements 1 and 2 selected and both boxes drawn;
    element 0 is detached from the document. *)
Definition connected (el : nat) : bool := negb (el =? 0)%nat.

Definition labelOf (el : nat) : jsstring := js "li".

Definition boxOf (el : nat) : DOMRect :=
  {| rect_left := Finite 0; rect_top := Finite 0;
     rect_width := Finite 100; rect_height := Finite 20 |}.

Definition outsideRoot (el : nat) : bool := false.

Definition twoSelected : Overlay nat :=
  {| selecting := true;
     sending := false;
     helpVisible := false;
     hoveredElement := Some 2%nat;
     selectedElements := [1; 2]%nat;
     selectionBoxes := [1; 2]%nat;
     listenersAttached := true;
     highlightDisplayed := true;
     hudVisible := true;
     hudHelpVisible := false;
     hudStatus := js "Selected: 2 (last: li)";
     toast := None |}.

(** A mapper that rejects the item at index 1 and counts its calls. *)
Definition rejectsSecond (item : nat) (i : nat) (calls : nat)
  : outcome nat * nat :=
  (if (i =? 1)%nat then Rejected (js "no fiber") else Resolved (item + i)%nat,
   S calls).

Definition secondRejected (item : nat) (i : nat) : outcome nat :=
  if (i =? 1)%nat then Rejected (js "no fiber") else Resolved (item + i)%nat.

(** A browser with no [navigator.clipboard] whose [execCommand] reports
    that nothing was copied. *)
Definition deniedBrowser : Browser :=
  {| clipboardWriteText := None;
     documentBody := true;
     execCommandCopy := fun _ => inr false |}.

End PageSamples.

(** * Lemmas and theorems *)
(* ================================================================== *)

Import JS.

(** ** 32-bit arithmetic *)

Section Int32.

Lemma toInt32_range z : - 2 ^ 31 <= toInt32 z < 2 ^ 31.
Proof.
    unfold toInt32.
    pose proof (Z.mod_pos_bound z (2 ^ 32) ltac:(lia)).
    destruct (Z.ltb_spec (z mod 2 ^ 32) (2 ^ 31)); lia.
Qed.

Lemma toInt32_mod z : toInt32 z mod 2 ^ 32 = z mod 2 ^ 32.
Proof.
    unfold toInt32.
    destruct (Z.ltb_spec (z mod 2 ^ 32) (2 ^ 31)).
    - apply Z.mod_mod; lia.
    - rewrite Zminus_mod, Z.mod_same, Z.sub_0_r by lia.
      rewrite !Z.mod_mod by lia. reflexivity.
Qed.

Lemma toInt32_small z : - 2 ^ 31 <= z < 2 ^ 31 -> toInt32 z = z.
Proof.
    intros Hz. unfold toInt32.
    destruct (Z.ltb_spec (z mod 2 ^ 32) (2 ^ 31)) as [H | H];
      Z.div_mod_to_equations; lia.
Qed.

Lemma bitor_zero z : bitor z 0 = toInt32 z.
Proof. unfold bitor. change (toInt32 0) with 0. apply Z.lor_0_r. Qed.

Lemma shl_mod a n :
    0 <= n < 32 -> shl a n mod 2 ^ 32 = (a * 2 ^ n) mod 2 ^ 32.
Proof.
    intros Hn. unfold shl.
    replace (Z.land n 31) with n.
    2:{ change 31 with (Z.ones 5). rewrite Z.land_ones by lia.
        symmetry. apply Z.mod_small. change (2 ^ 5) with 32. lia. }
    rewrite toInt32_mod, Z.shiftl_mul_pow2 by lia.
    rewrite Zmult_mod, toInt32_mod, <- Zmult_mod. reflexivity.
Qed.

Lemma ushr_zero z : ushr z 0 = z mod 2 ^ 32.
Proof. unfold ushr, toUint32. change (Z.land 0 31) with 0. apply Z.shiftr_0_r. Qed.

End Int32.

(** ** The checksum *)

Section Checksum.
Import Prompt ChecksumSpec.

Lemma checksum_round_mod hash c :
    checksum_round hash c mod 2 ^ 32 = (hash * 31 + c) mod 2 ^ 32.
Proof.
    unfold checksum_round. rewrite bitor_zero, toInt32_mod.
    rewrite Zplus_mod, Zminus_mod, shl_mod by lia.
    rewrite <- Zminus_mod, <- Zplus_mod.
    f_equal. change (2 ^ 5) with 32. lia.
Qed.

Lemma checksum_fold_mod input h h' :
    h mod 2 ^ 32 = h' mod 2 ^ 32 ->
    fold_left checksum_round input h mod 2 ^ 32
    = fold_left (fun hash c => (hash * 31 + c) mod 2 ^ 32) input h' mod 2 ^ 32.
Proof.
    revert h h'. induction input as [| c input IH]; intros h h' Hh; simpl.
    - exact Hh.
    - apply IH. rewrite checksum_round_mod, Z.mod_mod by lia.
      rewrite (Zplus_mod (h * 31)), (Zmult_mod h), Hh.
      rewrite <- Zmult_mod, <- Zplus_mod. reflexivity.
Qed.

Lemma rolling_hash_range input : 0 <= rolling_hash input < 2 ^ 32.
Proof.
    unfold rolling_hash.
    assert (H : forall h, 0 <= h < 2 ^ 32 ->
      0 <= fold_left (fun hash c => (hash * 31 + c) mod 2 ^ 32) input h < 2 ^ 32).
    { induction input as [| c input IH]; intros h Hh; simpl; [exact Hh |].
      apply IH. apply Z.mod_pos_bound. lia. }
    apply H. lia.
Qed.

Lemma promptChecksum_rolling_hash input :
    promptChecksum input = toStringRadix 16 (rolling_hash input).
Proof.
    unfold promptChecksum. f_equal.
    rewrite ushr_zero, (checksum_fold_mod input 0 0) by reflexivity.
    fold (rolling_hash input).
    pose proof (rolling_hash_range input).
    rewrite Z.mod_small by lia. apply Z.abs_eq. lia.
Qed.

(** A value past 32 bits, and the empty string. *)
Example promptChecksum_samples :
  promptChecksum (js "hello world, this is a long string to overflow 32 bits")
  = js "b56bd778"
  /\ promptChecksum [] = js "0".
Proof. split; vm_compute; reflexivity. Qed.

End Checksum.

(** ** Hexadecimal rendering *)

Section Hex.
Import ChecksumSpec.

Lemma hex_value_of_digit d :
    0 <= d < 16 -> hex_value_of_unit (digit_unit d) = d.
Proof.
    intros Hd. unfold hex_value_of_unit, digit_unit.
    destruct (Z.ltb_spec d 10);
      [destruct (Z.ltb_spec (48 + d) 58) | destruct (Z.ltb_spec (87 + d) 58)];
      lia.
Qed.

Lemma digits_loop_value fuel : forall n acc,
    0 <= n < 16 ^ Z.of_nat fuel ->
    fold_left (fun a c => a * 16 + hex_value_of_unit c)
      (digits_loop 16 fuel n acc) 0
    = fold_left (fun a c => a * 16 + hex_value_of_unit c) acc n.
Proof.
    induction fuel as [| fuel IH]; intros n acc Hn.
    - simpl in *. assert (n = 0) by lia. subst n. reflexivity.
    - cbn [digits_loop].
      pose proof (Z.mod_pos_bound n 16 ltac:(lia)) as Hm.
      destruct (Z.eqb_spec (n / 16) 0) as [Hq | Hq].
      + cbn [fold_left]. rewrite hex_value_of_digit by lia.
        f_equal. Z.div_mod_to_equations. lia.
      + rewrite IH.
        * cbn [fold_left]. rewrite hex_value_of_digit by lia.
          f_equal. Z.div_mod_to_equations. lia.
        * rewrite Nat2Z.inj_succ, Z.pow_succ_r in Hn by lia.
          Z.div_mod_to_equations. lia.
Qed.

Lemma hex_value_toString n :
    0 <= n -> hex_value (toStringRadix 16 n) = n.
Proof.
    intros Hn. unfold hex_value, toStringRadix.
    rewrite digits_loop_value; [reflexivity |].
    split; [lia |].
    rewrite Nat2Z.inj_succ, Z2Nat.id by apply Z.log2_nonneg.
    destruct (Z.eq_dec n 0) as [-> | Hnz]; [reflexivity |].
    pose proof (Z.log2_spec n ltac:(lia)) as [_ Hlt].
    eapply Z.lt_le_trans; [exact Hlt |].
    apply Z.pow_le_mono_l. lia.
Qed.

End Hex.

(** ** Trimming and collapsing white space *)

Section WhiteSpace.
Import StringShape.

Lemma dropWhile_starts s : starts_in_space (dropWhile isWhiteSpace s) = false.
Proof.
  induction s as [| c s IH]; simpl; [reflexivity |].
  destruct (isWhiteSpace c) eqn:Hc; [exact IH | simpl; exact Hc].
Qed.

Lemma dropWhile_suffix s : exists pre, s = pre ++ dropWhile isWhiteSpace s.
Proof.
  induction s as [| c s [pre IH]]; simpl.
  - exists []. reflexivity.
  - destruct (isWhiteSpace c).
    + exists (c :: pre). simpl. f_equal. exact IH.
    + exists []. reflexivity.
Qed.

Lemma ends_in_space_snoc s c : ends_in_space (s ++ [c]) = isWhiteSpace c.
Proof. unfold ends_in_space. rewrite rev_app_distr. reflexivity. Qed.

Lemma ends_in_space_rev s : ends_in_space (rev s) = starts_in_space s.
Proof. unfold ends_in_space. rewrite rev_involutive. reflexivity. Qed.

Lemma starts_in_space_app s t :
  s <> [] -> starts_in_space (s ++ t) = starts_in_space s.
Proof. destruct s; [congruence | reflexivity]. Qed.

Lemma trim_edges s :
  starts_in_space (trim s) = false /\ ends_in_space (trim s) = false.
Proof.
  unfold trim.
  set (u := dropWhile isWhiteSpace s).
  pose proof (dropWhile_starts s) as Hu. fold u in Hu.
  destruct (dropWhile_suffix (rev u)) as [pre Hpre].
  set (w := dropWhile isWhiteSpace (rev u)) in *.
  split.
  - destruct w as [| c w'] eqn:Hw; [reflexivity |].
    assert (Hrev : u = rev (c :: w') ++ rev pre).
    { rewrite <- rev_app_distr, <- Hpre, rev_involutive. reflexivity. }
    rewrite Hrev, starts_in_space_app in Hu; [exact Hu |].
    simpl. destruct (rev w'); discriminate.
  - rewrite ends_in_space_rev. apply dropWhile_starts.
Qed.

Lemma replaceRuns_single b s : single_spaces b (replaceRuns b s) = true.
Proof.
  revert b. induction s as [| c s IH]; intros b; simpl; [reflexivity |].
  destruct (isWhiteSpace c) eqn:Hc.
  - destruct b; [apply IH |].
    simpl. change (isWhiteSpace 32) with true. simpl. apply IH.
  - simpl. rewrite Hc. apply IH.
Qed.

Lemma replaceRuns_start s :
  starts_in_space s = false ->
  single_spaces true (replaceWhiteSpaceRuns s) = true.
Proof.
  unfold replaceWhiteSpaceRuns.
  destruct s as [| c s]; simpl; [reflexivity |].
  intros Hc. rewrite Hc. simpl. rewrite Hc. apply replaceRuns_single.
Qed.

Lemma replaceRuns_snoc s c b :
  isWhiteSpace c = false ->
  replaceRuns b (s ++ [c]) = replaceRuns b s ++ [c].
Proof.
  intros Hc. revert b. induction s as [| d s IH]; intros b; simpl.
  - rewrite Hc. reflexivity.
  - destruct (isWhiteSpace d); [destruct b |]; simpl; rewrite IH; reflexivity.
Qed.

Lemma replaceRuns_end s :
  ends_in_space s = false ->
  ends_in_space (replaceWhiteSpaceRuns s) = false.
Proof.
  unfold replaceWhiteSpaceRuns.
  destruct (rev s) as [| c r] eqn:Hr.
  - apply (f_equal (@rev Z)) in Hr. rewrite rev_involutive in Hr.
    subst s. reflexivity.
  - apply (f_equal (@rev Z)) in Hr. rewrite rev_involutive in Hr. simpl in Hr.
    subst s. rewrite ends_in_space_snoc. intros Hc.
    rewrite replaceRuns_snoc by exact Hc. rewrite ends_in_space_snoc. exact Hc.
Qed.

Lemma collapse_collapsed s :
  whitespace_collapsed (replaceWhiteSpaceRuns (trim s)) = true.
Proof.
  destruct (trim_edges s) as [Hs He].
  unfold whitespace_collapsed.
  rewrite replaceRuns_start by exact Hs.
  rewrite replaceRuns_end by exact He. reflexivity.
Qed.

Lemma single_spaces_take b n s :
  single_spaces b s = true -> single_spaces b (take n s) = true.
Proof.
  revert b n. induction s as [| c s IH]; intros b n; destruct n; simpl;
    try reflexivity.
  destruct (isWhiteSpace c).
  - intros H. apply andb_prop in H as [H1 H2]. rewrite H1. simpl.
    apply IH. exact H2.
  - apply IH.
Qed.

Lemma single_spaces_snoc b s c :
  isWhiteSpace c = false ->
  single_spaces b s = true -> single_spaces b (s ++ [c]) = true.
Proof.
  intros Hc. revert b. induction s as [| d s IH]; intros b; simpl.
  - rewrite Hc. reflexivity.
  - destruct (isWhiteSpace d).
    + intros H. apply andb_prop in H as [H1 H2]. rewrite H1. simpl.
      apply IH. exact H2.
    + apply IH.
Qed.

Lemma slice_from_zero s e :
  slice s 0 e = take (Z.to_nat (slice_index (Z.of_nat (length s)) e)) s.
Proof.
  unfold slice.
  assert (H0 : slice_index (Z.of_nat (length s)) 0 = 0).
  { unfold slice_index. simpl. lia. }
  rewrite H0, Z.sub_0_r. reflexivity.
Qed.

End WhiteSpace.

(** ** truncateText and the text snippet *)

Section TruncateText.
Import StringShape Serializable Dom.

Lemma truncateText_short text limit :
  Z.of_nat (length (replaceWhiteSpaceRuns (trim text))) <= limit ->
  truncateText text limit = replaceWhiteSpaceRuns (trim text).
Proof.
  intros H. unfold truncateText.
  destruct (Z.leb_spec (Z.of_nat (length (replaceWhiteSpaceRuns (trim text)))) limit);
    [reflexivity | lia].
Qed.

Lemma truncateText_long text limit :
  0 <= limit < Z.of_nat (length (replaceWhiteSpaceRuns (trim text))) ->
  truncateText text limit
  = take (Z.to_nat limit) (replaceWhiteSpaceRuns (trim text)) ++ [ELLIPSIS].
Proof.
  intros H. unfold truncateText.
  destruct (Z.leb_spec (Z.of_nat (length (replaceWhiteSpaceRuns (trim text)))) limit);
    [lia |].
  rewrite slice_from_zero. unfold slice_index.
  destruct (Z.ltb_spec limit 0); [lia |].
  rewrite Z.min_l by lia. reflexivity.
Qed.

Lemma truncateText_collapsed text limit :
  whitespace_collapsed (truncateText text limit) = true.
Proof.
  pose proof (collapse_collapsed text) as Hc.
  unfold truncateText.
  destruct (Z.of_nat (length (replaceWhiteSpaceRuns (trim text))) <=? limit);
    [exact Hc |].
  rewrite slice_from_zero.
  unfold whitespace_collapsed in *.
  apply andb_prop in Hc as [Hs _].
  rewrite ends_in_space_snoc.
  rewrite single_spaces_snoc; [reflexivity | reflexivity |].
  apply single_spaces_take. exact Hs.
Qed.

Lemma truncateText_length text limit :
  0 <= limit -> Z.of_nat (length (truncateText text limit)) <= limit + 1.
Proof.
  intros Hl.
  destruct (Z.le_gt_cases
              (Z.of_nat (length (replaceWhiteSpaceRuns (trim text)))) limit)
    as [Hle | Hgt].
  - rewrite truncateText_short by exact Hle. lia.
  - rewrite truncateText_long by lia.
    rewrite length_app, length_take. simpl. lia.
Qed.

(** C9, as stated, fails: a text of 81 letters and the limit 80 of the
    text snippet give a result of 81 units, the 80 kept letters and the
    ellipsis; the result is longer than the limit. *)
Lemma truncateText_exceeds_limit :
  ~ (Z.of_nat (length (truncateText (replicate 81 97) 80)) <= 80).
Proof. vm_compute. intros H. apply H. reflexivity. Qed.

(** C9 (amended): for a limit [0 <= L], [truncateText s L] is white-space
    collapsed and has at most [L + 1] units: it is the collapsed text
    itself when that has at most [L] units, and otherwise its first [L]
    units followed by the one-unit ellipsis.  The text snippet of a node
    is therefore white-space collapsed, non-empty and at most 81 units
    long. *)
Theorem truncateText_collapsed_within_limit_plus_one
  (text : jsstring) (limit : Z) (Hlimit : 0 <= limit) :
  let collapsed := replaceWhiteSpaceRuns (trim text) in
  whitespace_collapsed (truncateText text limit) = true
  /\ Z.of_nat (length (truncateText text limit)) <= limit + 1
  /\ (Z.of_nat (length collapsed) <= limit ->
      truncateText text limit = collapsed)
  /\ (limit < Z.of_nat (length collapsed) ->
      truncateText text limit = take (Z.to_nat limit) collapsed ++ [ELLIPSIS])
  /\ (forall snippet, summarizeTextContent (Some text) = Some snippet ->
      whitespace_collapsed snippet = true
      /\ 0 < Z.of_nat (length snippet) <= MAX_TEXT_SNIPPET + 1).
Proof.
  intros collapsed. subst collapsed. repeat split.
  - apply truncateText_collapsed.
  - apply truncateText_length. exact Hlimit.
  - apply truncateText_short.
  - intros Hlt. apply truncateText_long. lia.
  - cbn [summarizeTextContent] in H.
    destruct (length (truncateText text MAX_TEXT_SNIPPET) =? 0)%nat;
      [discriminate |].
    injection H as <-. apply truncateText_collapsed.
  - cbn [summarizeTextContent] in H.
    destruct (Nat.eqb_spec (length (truncateText text MAX_TEXT_SNIPPET)) 0);
      [discriminate |].
    injection H as <-. lia.
  - cbn [summarizeTextContent] in H.
    destruct (length (truncateText text MAX_TEXT_SNIPPET) =? 0)%nat;
      [discriminate |].
    injection H as <-. apply truncateText_length. unfold MAX_TEXT_SNIPPET. lia.
Qed.

Lemma truncateText_collapsed_within_limit_plus_one_witness :
  0 <= 5
  /\ truncateText (js "  hello   wide  world ") 5 = js "hello" ++ [ELLIPSIS]
  /\ whitespace_collapsed (truncateText (js "  hello   wide  world ") 5) = true.
Proof.
  assert (H5 : 0 <= 5) by lia.
  pose proof (truncateText_collapsed_within_limit_plus_one
                (js "  hello   wide  world ") 5 H5) as (Hc & _ & _ & Hlong & _).
  split; [exact H5 |]. split; [| exact Hc].
  rewrite Hlong; [reflexivity | vm_compute; reflexivity].
Defined.

End TruncateText.

(** ** Prefixes and substrings *)

Section Substrings.

Lemma startsWith_spec s pat :
  startsWith s pat = true <-> exists post, s = pat ++ post.
Proof.
  revert s. induction pat as [| p pat IH]; intros s.
  - split; [intros _; exists s; reflexivity | intros _; destruct s; reflexivity].
  - destruct s as [| c s]; simpl.
    + split; [discriminate | intros [post H]; discriminate].
    + rewrite andb_true_iff, Z.eqb_eq, IH. split.
      * intros [-> [post ->]]. exists post. reflexivity.
      * intros [post H]. injection H as -> ->. eauto.
Qed.

Lemma includes_spec s pat :
  includes s pat = true <-> exists pre post, s = pre ++ pat ++ post.
Proof.
  induction s as [| c s IH].
  - cbn [includes]. rewrite orb_false_r, startsWith_spec. split.
    + intros [post H]. exists [], post. exact H.
    + intros (pre & post & H). destruct pre; [eauto | discriminate].
  - cbn [includes]. rewrite orb_true_iff, startsWith_spec, IH. split.
    + intros [[post H] | (pre & post & H)].
      * exists [], post. exact H.
      * exists (c :: pre), post. simpl. f_equal. exact H.
    + intros (pre & post & H). destruct pre as [| d pre].
      * left. eauto.
      * right. injection H as -> ->. eauto.
Qed.

End Substrings.

(** ** Lower-casing *)

Section LowerCase.
Import JS.

Lemma codeUnits_nonempty cp : codeUnits cp <> [].
Proof. unfold codeUnits. destruct (cp <? 65536); discriminate. Qed.

Lemma codePoints_nonempty c s : codePoints (c :: s) <> [].
Proof.
  cbn [codePoints]. destruct s as [| d s]; [discriminate |].
  destruct (isHighSurrogate c && isLowSurrogate d); discriminate.
Qed.

Lemma codePoints_plain c s :
  isHighSurrogate c = false -> codePoints (c :: s) = c :: codePoints s.
Proof.
  intros Hc. cbn [codePoints]. destruct s as [| d s]; [reflexivity |].
  rewrite Hc. reflexivity.
Qed.

Lemma lowerFrom_nonempty preceded cp cps : lowerFrom preceded (cp :: cps) <> [].
Proof.
  cbn [lowerFrom].
  destruct (cp =? 931);
    [destruct (preceded && negb (followedByCased cps)) | destruct (cp =? 304)];
    discriminate.
Qed.

Lemma toLowerCase_nil_iff s : toLowerCase s = [] <-> s = [].
Proof.
  split; [| intros ->; reflexivity].
  destruct s as [| c s]; [reflexivity |]. unfold toLowerCase. intros Hnil.
  pose proof (codePoints_nonempty c s) as Hcps.
  destruct (codePoints (c :: s)) as [| cp cps]; [contradiction |].
  pose proof (lowerFrom_nonempty false cp cps) as Hlow.
  destruct (lowerFrom false (cp :: cps)) as [| l ls]; [contradiction |].
  cbn [flat_map] in Hnil. apply app_eq_nil in Hnil as [Hunits _].
  destruct (codeUnits_nonempty l Hunits).
Qed.

(** What the table of mappings does to a code point. *)
Lemma mappedBy_cases runs cp :
  mappedBy runs cp = cp
  \/ exists first last step delta,
       (first, last, step, delta) ∈ runs
       /\ first <= cp <= last /\ mappedBy runs cp = cp + delta.
Proof.
  induction runs as [| [[[first last] step] delta] runs IH]; [left; reflexivity |].
  cbn [mappedBy].
  destruct ((first <=? cp) && (cp <=? last) && ((cp - first) mod step =? 0)) eqn:Hin.
  - right. exists first, last, step, delta.
    apply andb_true_iff in Hin as [Hin _]. apply andb_true_iff in Hin as [Hlo Hhi].
    apply Z.leb_le in Hlo, Hhi. split; [left | split; [lia | reflexivity]].
  - destruct IH as [Hsame | (f & l & st & d & Hrun & Hcp & Hmap)]; [left; exact Hsame |].
    right. exists f, l, st, d. split; [right; exact Hrun | auto].
Qed.

(** The code points that a table takes to [target] are among those
    [allowed], when the table is checked run by run. *)
Lemma mappedBy_preimage runs (allowed : Z -> bool) cp target :
  forallb (fun run : Z * Z * Z * Z =>
             let '(first, last, step, delta) := run in
             negb ((first <=? target - delta) && (target - delta <=? last))
             || allowed (target - delta)) runs = true ->
  allowed target = true ->
  mappedBy runs cp = target -> allowed cp = true.
Proof.
  intros Hruns Htarget Hmap.
  destruct (mappedBy_cases runs cp)
    as [Hsame | (first & last & step & delta & Hrun & Hcp & Hdelta)].
  - congruence.
  - rewrite forallb_forall in Hruns.
    apply list_elem_of_In in Hrun. specialize (Hruns _ Hrun). cbn in Hruns.
    rewrite Hmap in Hdelta. replace (target - delta) with cp in Hruns by lia.
    destruct (Z.leb_spec first cp); [| lia].
    destruct (Z.leb_spec cp last); [| lia]. exact Hruns.
Qed.

(** A code point beyond the basic plane maps beyond it. *)
Lemma simpleLowercase_astral cp : 65536 <= cp -> 65536 <= simpleLowercase cp.
Proof.
  intros Hcp. unfold simpleLowercase.
  destruct (mappedBy_cases LOWERCASE_MAPPING cp)
    as [-> | (first & last & step & delta & Hrun & Hin & ->)]; [exact Hcp |].
  assert (Hruns : forallb (fun run : Z * Z * Z * Z =>
                             let '(first, last, step, delta) := run in
                             (last <? 65536) || (65536 <=? first + delta))
                    LOWERCASE_MAPPING = true) by (vm_compute; reflexivity).
  rewrite forallb_forall in Hruns. apply list_elem_of_In in Hrun.
  specialize (Hruns _ Hrun). cbn beta iota in Hruns.
  apply orb_true_iff in Hruns as [Hlast | Hfirst];
    [apply Z.ltb_lt in Hlast | apply Z.leb_le in Hfirst]; lia.
Qed.

(** A string whose lower-casing is one ASCII unit is one code point. *)
Lemma toLowerCase_unit s target :
  toLowerCase s = [target] -> target < 128 ->
  exists cp, s = [cp] /\ simpleLowercase cp = target.
Proof.
  intros Hlower Htarget. unfold toLowerCase in Hlower.
  destruct s as [| c s]; [discriminate |].
  pose proof (codePoints_nonempty c s) as Hcps.
  destruct (codePoints (c :: s)) as [| cp cps] eqn:Hpoints; [contradiction |].
  cbn [lowerFrom] in Hlower. rewrite flat_map_app in Hlower.
  assert (Hrest : cps = []).
  { destruct cps as [| cp' cps']; [reflexivity |]. exfalso.
    pose proof (lowerFrom_nonempty
                  (if isCaseIgnorable cp then false else isCased cp) cp' cps') as Hne.
    destruct (lowerFrom _ (cp' :: cps')) as [| l ls]; [contradiction |].
    cbn [flat_map] in Hlower.
    pose proof (codeUnits_nonempty l) as Hl.
    destruct (codeUnits l) as [| u us]; [contradiction |].
    apply (f_equal (@length Z)) in Hlower.
    rewrite !length_app in Hlower. cbn [length] in Hlower.
    destruct (cp =? 931);
      [destruct (false && negb (followedByCased (cp' :: cps')))
      | destruct (cp =? 304)];
      cbn [flat_map length] in Hlower; rewrite ?length_app in Hlower;
      match type of Hlower with
      | context [codeUnits ?x] =>
          pose proof (codeUnits_nonempty x) as Hx;
          destruct (codeUnits x); [contradiction | cbn [length] in Hlower; lia]
      end. }
  subst cps. cbn [lowerFrom flat_map] in Hlower. rewrite app_nil_r in Hlower.
  assert (Hcp : simpleLowercase cp = target /\ cp <> 931 /\ cp <> 304).
  { destruct (Z.eqb_spec cp 931) as [H931 | H931].
    - cbn [andb flat_map app] in Hlower. change (codeUnits 963) with [963] in Hlower.
      injection Hlower as <-. lia.
    - destruct (Z.eqb_spec cp 304) as [H304 | H304].
      + cbn [flat_map app] in Hlower. change (codeUnits 105) with [105] in Hlower.
        change (codeUnits 775) with [775] in Hlower. discriminate.
      + cbn [flat_map app] in Hlower. rewrite app_nil_r in Hlower.
        unfold codeUnits in Hlower.
        destruct (simpleLowercase cp <? 65536); [| discriminate].
        injection Hlower as Hlower. auto. }
  destruct Hcp as (Hmap & _ & _).
  exists cp. split; [| exact Hmap].
  cbn [codePoints] in Hpoints. destruct s as [| d s]; [congruence |]. exfalso.
  destruct (isHighSurrogate c && isLowSurrogate d) eqn:Hpair.
  - injection Hpoints as Hcp _.
    apply andb_true_iff in Hpair as [Hhigh Hlow].
    unfold isHighSurrogate in Hhigh. unfold isLowSurrogate in Hlow.
    apply andb_true_iff in Hhigh as [Hc _]. apply andb_true_iff in Hlow as [Hd _].
    apply Z.leb_le in Hc, Hd.
    pose proof (simpleLowercase_astral cp ltac:(lia)). lia.
  - injection Hpoints as _ Hrest.
    apply (codePoints_nonempty d s). exact Hrest.
Qed.

Lemma toLowerCase_g s :
  toLowerCase s = js "g" <-> s = js "g" \/ s = js "G".
Proof.
  change (js "g") with [103]. change (js "G") with [71]. split.
  - intros Hlower.
    destruct (toLowerCase_unit s 103 Hlower ltac:(lia)) as (cp & -> & Hmap).
    pose proof (mappedBy_preimage LOWERCASE_MAPPING
                  (fun x => (x =? 103) || (x =? 71)) cp 103
                  ltac:(vm_compute; reflexivity) eq_refl Hmap) as Hallowed.
    cbn beta in Hallowed. apply orb_true_iff in Hallowed as [H | H];
      apply Z.eqb_eq in H; subst cp; auto.
  - intros [-> | ->]; vm_compute; reflexivity.
Qed.

(** The lower-casing of a string that starts with [on] starts with
    [on]. *)
Lemma toLowerCase_on rest :
  exists lowered, toLowerCase (js "on" ++ rest) = js "on" ++ lowered.
Proof.
  change (js "on" ++ rest) with (111 :: 110 :: rest). unfold toLowerCase.
  rewrite !codePoints_plain by reflexivity.
  cbn [lowerFrom].
  change (111 =? 931) with false. change (111 =? 304) with false.
  change (110 =? 931) with false. change (110 =? 304) with false.
  cbv iota.
  change (simpleLowercase 111) with 111. change (simpleLowercase 110) with 110.
  cbn [app flat_map]. change (codeUnits 111) with [111].
  change (codeUnits 110) with [110]. cbn [app].
  eexists. reflexivity.
Qed.

(** Below 128 only the capital letters are mapped. *)
Lemma simpleLowercase_ascii c :
  c < 128 -> ~ 65 <= c <= 90 -> simpleLowercase c = c.
Proof.
  intros Hc Hupper. unfold simpleLowercase.
  destruct (mappedBy_cases LOWERCASE_MAPPING c)
    as [-> | (first & last & step & delta & Hrun & Hin & _)]; [reflexivity |].
  exfalso.
  assert (Hruns : forallb (fun run : Z * Z * Z * Z =>
                             let '(first, last, step, delta) := run in
                             (128 <=? first) || ((65 <=? first) && (last <=? 90)))
                    LOWERCASE_MAPPING = true) by (vm_compute; reflexivity).
  rewrite forallb_forall in Hruns. apply list_elem_of_In in Hrun.
  specialize (Hruns _ Hrun). cbn beta iota in Hruns.
  apply orb_true_iff in Hruns as [Hfirst | Hletters].
  - apply Z.leb_le in Hfirst. lia.
  - apply andb_true_iff in Hletters as [Hlo Hhi]. apply Z.leb_le in Hlo, Hhi. lia.
Qed.

(** A string of ASCII units without a capital letter is its own
    lower-casing. *)
Lemma toLowerCase_plain s :
  Forall (fun c => 0 <= c < 128 /\ ~ 65 <= c <= 90) s -> toLowerCase s = s.
Proof.
  unfold toLowerCase. generalize false.
  induction s as [| c s IH]; intros preceded Hplain; [reflexivity |].
  inversion Hplain as [| ? ? [Hc Hupper] Hrest]; subst.
  rewrite codePoints_plain
    by (unfold isHighSurrogate; destruct (Z.leb_spec 55296 c); [lia | reflexivity]).
  cbn [lowerFrom].
  destruct (Z.eqb_spec c 931) as [? | _]; [lia |].
  destruct (Z.eqb_spec c 304) as [? | _]; [lia |].
  rewrite simpleLowercase_ascii by lia.
  cbn [app flat_map]. unfold codeUnits at 1.
  destruct (Z.ltb_spec c 65536); [| lia]. cbn [app].
  f_equal. apply IH. exact Hrest.
Qed.

(** Lower-casing beyond ASCII: an accented capital, the dotted capital
    I, the Kelvin sign, a capital sigma at the end of a word and at the
    start of one, and a letter beyond the basic plane. *)
Example toLowerCase_samples :
  toLowerCase [201] = [233]
  /\ toLowerCase [304] = [105; 775]
  /\ toLowerCase [8490] = [107]
  /\ toLowerCase [927; 916; 927; 931] = [959; 948; 959; 962]
  /\ toLowerCase [931; 927; 934] = [963; 959; 966]
  /\ toLowerCase [55297; 56320] = [55297; 56360].
Proof. repeat split; vm_compute; reflexivity. Qed.

Lemma digits_loop_digits fuel : forall n acc,
  Forall (fun c => 48 <= c <= 57) acc ->
  Forall (fun c => 48 <= c <= 57) (digits_loop 10 fuel n acc).
Proof.
  induction fuel as [| fuel IH]; intros n acc Hacc; [exact Hacc |].
  cbn [digits_loop].
  assert (Hdigit : 48 <= digit_unit (n mod 10) <= 57).
  { pose proof (Z.mod_pos_bound n 10 ltac:(lia)). unfold digit_unit.
    destruct (Z.ltb_spec (n mod 10) 10); lia. }
  destruct (n / 10 =? 0); [constructor; assumption |].
  apply IH. constructor; assumption.
Qed.

Lemma natToString_digits n : Forall (fun c => 48 <= c <= 57) (natToString n).
Proof. apply digits_loop_digits. constructor. Qed.

End LowerCase.

(** ** Framework detection *)

Section FrameworkDetection.
Import Schema Heuristics Samples.

Lemma nextLikeDetect_pathBased slice u p :
  isPathBased (scan_framework (scanStack (stack slice))) = true ->
  nextLikeDetect {| reactSlice := Some slice; url := u; pathname := p |}
  = Some {| framework := scan_framework (scanStack (stack slice));
            routePatternGuess := Some (fst (guessRoute p));
            routeParamsGuess :=
              if (0 <? length (snd (guessRoute p)))%nat
              then Some (snd (guessRoute p)) else None;
            pageComponent := scan_pageComponent (scanStack (stack slice));
            layoutComponents := scan_layoutComponents (scanStack (stack slice)) |}.
Proof.
  intros Hpath. unfold nextLikeDetect. cbn [reactSlice pathname].
  rewrite Hpath.
  destruct (scan_framework (scanStack (stack slice))); try discriminate;
    cbn [isUnknownFramework andb]; destruct (guessRoute p); reflexivity.
Qed.

(** A segment is kept verbatim exactly when the escaped-backslash
    expression does not match it, it is longer than two units and it is
    its own lower-casing. *)
Lemma routeSegment_verbatim pattern params idx seg :
  testBackslashDs seg = false ->
  (2 < length seg)%nat ->
  seg = toLowerCase seg ->
  routeSegment (pattern, params) (idx, seg) = (pattern ++ [seg], params).
Proof.
  intros Hre Hlen Hlow. unfold routeSegment. rewrite Hre.
  destruct (Nat.ltb_spec 2 (length seg)); [| lia].
  rewrite bool_decide_eq_true_2 by exact Hlow. reflexivity.
Qed.

Lemma routeSegment_mixed_case pattern params idx seg :
  testBackslashDs seg = false ->
  seg <> toLowerCase seg ->
  routeSegment (pattern, params) (idx, seg)
  = (pattern ++ [js "[param" ++ natToString idx ++ js "]"],
     setProperty params (js "param" ++ natToString idx) seg).
Proof.
  intros Hre Hlow. unfold routeSegment. rewrite Hre.
  rewrite bool_decide_eq_false_2 by exact Hlow.
  rewrite andb_false_r. reflexivity.
Qed.

(** C3, as stated, fails: with the [next-app] tag active the path
    [/users/editProfile] is not kept verbatim; its second segment is not
    its own lower-casing, so the pattern is [/users/[param1]]. *)
Lemma nextLike_editProfile_not_verbatim :
  nextLikeDetect {| reactSlice := Some appRouterSlice;
                    url := js "http://localhost/users/editProfile";
                    pathname := js "/users/editProfile" |} ≫= routePatternGuess
  = Some (js "/users/[param1]")
  /\ nextLikeDetect {| reactSlice := Some appRouterSlice;
                       url := js "http://localhost/users/editProfile";
                       pathname := js "/users/editProfile" |} ≫= routePatternGuess
     <> Some (js "/users/editProfile").
Proof. split; [vm_compute; reflexivity | vm_compute; discriminate]. Qed.

(** The all-digit segment of [/users/42/edit]: the expression of the
    source asks for a backslash and letters [d], so ["42"] is not taken
    as an id; being two units long it is not kept either. *)
Lemma nextLike_digits_segment :
  nextLikeDetect {| reactSlice := Some appRouterSlice;
                    url := js "http://localhost/users/42/edit";
                    pathname := js "/users/42/edit" |}
  = Some {| framework := NextApp;
            routePatternGuess := Some (js "/users/[param1]/edit");
            routeParamsGuess := Some [(js "param1", js "42")];
            pageComponent := head (stack appRouterSlice) ≫= source;
            layoutComponents := [] |}.
Proof. vm_compute. reflexivity. Qed.

(** What the callback of the route loop pushes for a segment is the
    segment itself exactly when the segment is kept. *)
Lemma routeSegment_pushes pattern params idx seg :
  let pushed :=
    if testBackslashDs seg then js "[id" ++ natToString idx ++ js "]"
    else if (2 <? length seg)%nat && bool_decide (seg = toLowerCase seg) then seg
    else js "[param" ++ natToString idx ++ js "]" in
  fst (routeSegment (pattern, params) (idx, seg)) = pattern ++ [pushed]
  /\ (pushed = seg
      <-> testBackslashDs seg = false /\ (2 < length seg)%nat
          /\ seg = toLowerCase seg).
Proof.
  cbv zeta. unfold routeSegment.
  destruct (testBackslashDs seg) eqn:Hre.
  - split; [reflexivity |]. split; [| intros [? _]; discriminate].
    intros Hseg. exfalso. rewrite <- Hseg in Hre. discriminate.
  - destruct (Nat.ltb_spec 2 (length seg)) as [Hlen | Hlen]; cbn [andb].
    + destruct (decide (seg = toLowerCase seg)) as [Hlow | Hlow].
      * rewrite bool_decide_eq_true_2 by exact Hlow.
        split; [reflexivity | tauto].
      * rewrite bool_decide_eq_false_2 by exact Hlow.
        split; [reflexivity |]. split; [| tauto].
        intros Hseg. exfalso. apply Hlow. rewrite <- Hseg.
        symmetry. apply toLowerCase_plain.
        change (js "[param") with [91; 112; 97; 114; 97; 109].
        change (js "]") with [93].
        apply list.Forall_app. split; [| apply list.Forall_app; split].
        -- repeat (constructor; [lia |]). constructor.
        -- eapply list.Forall_impl; [apply natToString_digits |].
           cbn beta. intros c Hc. lia.
        -- constructor; [lia | constructor].
    + split; [reflexivity |]. split; [| lia].
      intros Hseg. exfalso. rewrite <- Hseg in Hlen.
      rewrite !length_app in Hlen. cbn [length js] in Hlen. cbn in Hlen. lia.
Qed.

(** The pattern segments of a path: one for every segment, the segment
    itself exactly where it is kept. *)
Lemma routeSegments_pattern segments : forall (index : nat -> nat) pattern params,
  exists pushed,
    fst (fold_left routeSegment (imap (fun i seg => (index i, seg)) segments)
           (pattern, params))
    = pattern ++ pushed
    /\ length pushed = length segments
    /\ forall i seg,
         segments !! i = Some seg ->
         (pushed !! i = Some seg
          <-> testBackslashDs seg = false /\ (2 < length seg)%nat
              /\ seg = toLowerCase seg).
Proof.
  induction segments as [| seg segments IH]; intros index pattern params.
  - exists []. cbn. rewrite app_nil_r. split; [reflexivity |].
    split; [reflexivity |]. intros i seg Hi. discriminate.
  - rewrite imap_cons. cbn [fold_left].
    destruct (routeSegment_pushes pattern params (index 0%nat) seg) as [Hfst Hkept].
    cbv zeta in Hfst, Hkept.
    match type of Hfst with _ = _ ++ [?x] => set (first := x) in * end.
    destruct (routeSegment (pattern, params) (index 0%nat, seg))
      as [pattern' params'] eqn:Hstep.
    cbn [fst] in Hfst. subst pattern'.
    change (imap ((fun i seg0 => (index i, seg0)) ∘ S) segments)
      with (imap (fun i seg0 => ((index ∘ S) i, seg0)) segments).
    destruct (IH (index ∘ S) (pattern ++ [first]) params')
      as (pushed & Hfold & Hlen & Hrest).
    exists (first :: pushed). rewrite Hfold, <- app_assoc. split; [reflexivity |].
    split; [cbn [length]; rewrite Hlen; reflexivity |].
    intros [| i] seg' Hi.
    + injection Hi as <-. cbn [lookup list_lookup]. rewrite <- Hkept.
      split; [intros [= H]; exact H | intros ->; reflexivity].
    + apply Hrest. exact Hi.
Qed.

(** A segment of accented capitals is not its own lower-casing and is
    not kept. *)
Example guessRoute_accented_segment :
  guessRoute (js "/docs/" ++ [201; 201; 201])
  = (js "/docs/[param1]", [(js "param1", [201; 201; 201])])
  /\ guessRoute (js "/docs/" ++ [233; 233; 233])
     = (js "/docs/" ++ [233; 233; 233], []).
Proof. split; vm_compute; reflexivity. Qed.

(** C3 (amended): with a path-based framework tag active ([next-app] or
    [next-pages]), the next-like strategy maps [/users/editProfile] to
    the pattern [/users/[param1]] with the guess [{param1:
    "editProfile"}], maps [/users/EditProfile] to [/users/[param1]] with
    [{param1: "EditProfile"}], and keeps [/users/editprofile] verbatim
    with no parameter guess.  In general the pattern of a path is a
    slash followed by one pattern segment for every segment of the
    path, joined by slashes, and a pattern segment is the segment
    itself exactly when the segment is longer than two units, equal to
    its own lower-casing and not matched by the numeric test as it is
    written. *)
Theorem nextLike_route_pattern_guess
  (slice : ReactTreeSlice) (u : jsstring)
  (Hpath : isPathBased (scan_framework (scanStack (stack slice))) = true) :
  let guess p :=
    nextLikeDetect {| reactSlice := Some slice; url := u; pathname := p |} in
  (guess (js "/users/editProfile") ≫= routePatternGuess
   = Some (js "/users/[param1]")
   /\ guess (js "/users/editProfile") ≫= routeParamsGuess
      = Some [(js "param1", js "editProfile")])
  /\ (guess (js "/users/EditProfile") ≫= routePatternGuess
      = Some (js "/users/[param1]")
      /\ guess (js "/users/EditProfile") ≫= routeParamsGuess
         = Some [(js "param1", js "EditProfile")])
  /\ (guess (js "/users/editprofile") ≫= routePatternGuess
      = Some (js "/users/editprofile")
      /\ guess (js "/users/editprofile") ≫= routeParamsGuess = None)
  /\ forall p,
       exists patternSegments,
         guess p ≫= routePatternGuess
         = Some (js "/" ++ join (js "/") patternSegments)
         /\ length patternSegments = length (pathSegments p)
         /\ forall i seg,
              pathSegments p !! i = Some seg ->
              (patternSegments !! i = Some seg
               <-> testBackslashDs seg = false /\ (2 < length seg)%nat
                   /\ seg = toLowerCase seg).
Proof.
  intros guess. subst guess. cbv beta.
  split_and!.
  1-6: (rewrite nextLikeDetect_pathBased by exact Hpath;
        cbn [mbind option_bind routePatternGuess routeParamsGuess];
        vm_compute; reflexivity).
  intros p. rewrite nextLikeDetect_pathBased by exact Hpath.
  cbn [mbind option_bind routePatternGuess]. unfold guessRoute. cbv zeta.
  destruct (routeSegments_pattern (pathSegments p) (fun i => i) [] [])
    as (pushed & Hfold & Hlen & Hkept).
  change (imap pair (pathSegments p))
    with (imap (fun i seg => (i, seg)) (pathSegments p)).
  destruct (fold_left routeSegment _ ([], [])) as [pattern params].
  cbn [fst app] in Hfold. subst pattern. cbn [fst].
  exists pushed. split; [reflexivity | split; [exact Hlen | exact Hkept]].
Qed.

Lemma nextLike_route_pattern_guess_witness :
  isPathBased (scan_framework (scanStack (stack appRouterSlice))) = true
  /\ nextLikeDetect {| reactSlice := Some appRouterSlice;
                       url := js "http://localhost/";
                       pathname := js "/users/EditProfile" |} ≫= routePatternGuess
     = Some (js "/users/[param1]")
  /\ exists patternSegments,
       nextLikeDetect {| reactSlice := Some appRouterSlice;
                         url := js "http://localhost/";
                         pathname := js "/docs/" ++ [201; 201; 201] |}
         ≫= routePatternGuess
       = Some (js "/" ++ join (js "/") patternSegments)
       /\ patternSegments !! 0%nat = Some (js "docs")
       /\ patternSegments !! 1%nat <> Some [201; 201; 201].
Proof.
  assert (H : isPathBased (scan_framework (scanStack (stack appRouterSlice))) = true)
    by reflexivity.
  pose proof (nextLike_route_pattern_guess appRouterSlice (js "http://localhost/") H)
    as (_ & [Hmixed _] & _ & Hrule).
  split; [exact H |]. split; [exact Hmixed |].
  destruct (Hrule (js "/docs/" ++ [201; 201; 201]))
    as (patternSegments & Hpattern & _ & Hkept).
  exists patternSegments. split; [exact Hpattern |]. split.
  - apply (Hkept 0%nat (js "docs")); [vm_compute; reflexivity |].
    split; [reflexivity |]. split; [cbn; lia | vm_compute; reflexivity].
  - intros Hsame. apply (Hkept 1%nat [201; 201; 201]) in Hsame;
      [| vm_compute; reflexivity].
    destruct Hsame as (_ & _ & Hlow). vm_compute in Hlow. discriminate.
Defined.

End FrameworkDetection.

(** ** Data-source detection *)

Section DataSourceDetection.
Import Schema Heuristics Samples.

Lemma elem_of_pushIf {A} (cond : bool) (h x : A) (hints : list A) :
  x ∈ pushIf cond h hints <-> x ∈ hints \/ (cond = true /\ x = h).
Proof.
  unfold pushIf. destruct cond.
  - rewrite elem_of_app, list_elem_of_singleton. intuition.
  - intuition. discriminate.
Qed.

Lemma elem_of_nonempty_or_default {A} (x d : A) (l : list A) :
  x ∈ l -> x ∈ (if (length l =? 0)%nat then [d] else l).
Proof. destruct l; [intros H; inversion H | intros H; exact H]. Qed.

Lemma existsb_includes (names : list jsstring) (pat p pre post : jsstring) :
  p ∈ names -> p = pre ++ pat ++ post ->
  existsb (fun n => includes n pat) names = true.
Proof.
  intros Hin Hp. apply existsb_exists. exists p. split.
  - apply list_elem_of_In. exact Hin.
  - apply includes_spec. eauto.
Qed.

Lemma basicDataSourceDetect_nonempty input : basicDataSourceDetect input <> [].
Proof.
  unfold basicDataSourceDetect.
  match goal with |- (if (length ?l =? 0)%nat then _ else _) <> _ =>
    destruct l; simpl; discriminate end.
Qed.

Lemma basicDataSourceDetect_no_match input :
  (bool_decide (js "data" ∈ lowerNamesOf input)
   && (bool_decide (js "isloading" ∈ lowerNamesOf input)
       || bool_decide (js "loading" ∈ lowerNamesOf input))
   && bool_decide (js "error" ∈ lowerNamesOf input)) = false ->
  existsb (fun p => includes p (js "swr")) (lowerNamesOf input) = false ->
  existsb (fun p => includes p (js "selector")) (lowerNamesOf input) = false ->
  basicDataSourceDetect input = [unknownHint].
Proof.
  intros H1 H2 H3. unfold basicDataSourceDetect.
  rewrite H1, H2, H3. reflexivity.
Qed.

Lemma collected_hints (strategies : list DataSourceDetectionStrategy) input acc :
  fold_left (fun collected strategy =>
               collected ++ detect_data_sources strategy input) strategies acc
  = acc ++ concat (map (fun strategy => detect_data_sources strategy input)
                     strategies).
Proof.
  revert acc. induction strategies as [| s strategies IH]; intros acc; simpl.
  - rewrite app_nil_r. reflexivity.
  - rewrite IH, <- app_assoc. reflexivity.
Qed.

Lemma buildAppContext_dataSources_nonempty loc slice config :
  dataSources (buildAppContext loc slice config) <> [].
Proof.
  unfold buildAppContext. cbn [dataSources].
  match goal with |- (if (0 <? length ?l)%nat then _ else _) <> _ =>
    destruct l; simpl; discriminate end.
Qed.

Lemma buildAppContext_no_hints loc slice config :
  (forall strategy, strategy ∈ dataSourceStrategies (heuristics config) ->
     detect_data_sources strategy {| input_ownerProps := slice ≫= ownerProps |} = []) ->
  dataSources (buildAppContext loc slice config) = [unknownHint].
Proof.
  intros Hnone. unfold buildAppContext. cbn [dataSources].
  rewrite collected_hints. cbn [app].
  assert (Hc : concat (map (fun strategy =>
                  detect_data_sources strategy
                    {| input_ownerProps := slice ≫= ownerProps |})
                (dataSourceStrategies (heuristics config))) = []).
  { induction (dataSourceStrategies (heuristics config)) as [| s l IH];
      [reflexivity |].
    simpl. rewrite Hnone by (left). simpl. apply IH.
    intros s' Hs'. apply Hnone. right. exact Hs'. }
  rewrite Hc. reflexivity.
Qed.

Lemma buildAppContext_default_dataSources loc slice config :
  dataSourceStrategies (heuristics config) = [basicDataSourceStrategy] ->
  dataSources (buildAppContext loc slice config)
  = basicDataSourceDetect {| input_ownerProps := slice ≫= ownerProps |}.
Proof.
  intros Hd. unfold buildAppContext. cbn [dataSources].
  rewrite Hd. cbn [fold_left app detect_data_sources basicDataSourceStrategy].
  pose proof (basicDataSourceDetect_nonempty
                {| input_ownerProps := slice ≫= ownerProps |}) as Hne.
  destruct (basicDataSourceDetect {| input_ownerProps := slice ≫= ownerProps |});
    [congruence | reflexivity].
Qed.

Lemma existsb_mentions (names : list jsstring) (pat : jsstring) :
  existsb (fun n => includes n pat) names = true
  <-> exists p pre post, p ∈ names /\ p = pre ++ pat ++ post.
Proof.
  rewrite existsb_exists. split.
  - intros (p & Hin & Hinc). apply includes_spec in Hinc as (pre & post & ->).
    exists (pre ++ pat ++ post), pre, post.
    split; [apply list_elem_of_In; exact Hin | reflexivity].
  - intros (p & pre & post & Hin & ->). exists (pre ++ pat ++ post).
    split; [apply list_elem_of_In; exact Hin | apply includes_spec; eauto].
Qed.

(** C7: over the lower-cased names of the owner's props, the bundled
    strategy yields the [react-query] hint exactly when the names
    contain [data], one of [isloading]/[loading], and [error]; the [swr]
    hint exactly when some name contains the substring [swr]; the
    [redux] hint exactly when some name contains [selector]; and the
    one [unknown] hint, and nothing else, exactly when none of the
    three holds: it never yields an empty list.  In [buildAppContext]
    the data sources are never empty: with the bundled strategy
    configured they are what it yields for the owner's props, and when
    the configured strategies yield nothing they are the one [unknown]
    hint. *)
Theorem dataSource_hints_never_absent
  (input : DataSourceDetectionInput) (loc : option Location)
  (slice : option ReactTreeSlice) (config : GrabrRuntimeConfig) :
  let names := lowerNamesOf input in
  let hints := basicDataSourceDetect input in
  let triple :=
    js "data" ∈ names
    /\ (js "isloading" ∈ names \/ js "loading" ∈ names)
    /\ js "error" ∈ names in
  let mentions pat := exists p pre post, p ∈ names /\ p = pre ++ pat ++ post in
  let ownerInput := {| input_ownerProps := slice ≫= ownerProps |} in
  let context := buildAppContext loc slice config in
  (reactQueryHint ∈ hints <-> triple)
  /\ (swrHint ∈ hints <-> mentions (js "swr"))
  /\ (reduxHint ∈ hints <-> mentions (js "selector"))
  /\ (kind reactQueryHint = KindReactQuery /\ kind swrHint = KindSwr
      /\ kind reduxHint = KindRedux /\ kind unknownHint = KindUnknown)
  /\ (hints = [unknownHint]
      <-> ~ triple /\ ~ mentions (js "swr") /\ ~ mentions (js "selector"))
  /\ hints <> []
  /\ (dataSourceStrategies (heuristics config)
      = dataSourceStrategies defaultHeuristics ->
      dataSources context = basicDataSourceDetect ownerInput)
  /\ ((forall strategy, strategy ∈ dataSourceStrategies (heuristics config) ->
         detect_data_sources strategy ownerInput = []) ->
      dataSources context = [unknownHint])
  /\ dataSources context <> [].
Proof.
  intros names hints triple mentions ownerInput context.
  assert (Htriple :
    bool_decide (js "data" ∈ names)
    && (bool_decide (js "isloading" ∈ names) || bool_decide (js "loading" ∈ names))
    && bool_decide (js "error" ∈ names) = true <-> triple).
  { unfold triple.
    rewrite !andb_true_iff, orb_true_iff, !bool_decide_eq_true. tauto. }
  pose proof (existsb_mentions names (js "swr")) as Hswr.
  pose proof (existsb_mentions names (js "selector")) as Hselector.
  fold (mentions (js "swr")) in Hswr. fold (mentions (js "selector")) in Hselector.
  assert (Hhints :
    hints
    = let pushed :=
        pushIf (existsb (fun p => includes p (js "selector")) names) reduxHint
          (pushIf (existsb (fun p => includes p (js "swr")) names) swrHint
             (pushIf
                (bool_decide (js "data" ∈ names)
                 && (bool_decide (js "isloading" ∈ names)
                     || bool_decide (js "loading" ∈ names))
                 && bool_decide (js "error" ∈ names)) reactQueryHint [])) in
      if (length pushed =? 0)%nat then [unknownHint] else pushed)
    by reflexivity.
  cbv zeta in Hhints.
  destruct (bool_decide (js "data" ∈ names)
            && (bool_decide (js "isloading" ∈ names)
                || bool_decide (js "loading" ∈ names))
            && bool_decide (js "error" ∈ names)) eqn:H1;
    destruct (existsb (fun p => includes p (js "swr")) names) eqn:H2;
    destruct (existsb (fun p => includes p (js "selector")) names) eqn:H3;
    cbn [pushIf app length Nat.eqb] in Hhints; rewrite Hhints;
    (split_and!;
     [ rewrite <- Htriple, ?elem_of_cons, elem_of_nil;
       split;
         [ intros; try reflexivity; intuition discriminate
         | intros Hb; first [discriminate Hb | auto] ]
     | rewrite <- Hswr, ?elem_of_cons, elem_of_nil;
       split;
         [ intros; try reflexivity; intuition discriminate
         | intros Hb; first [discriminate Hb | auto] ]
     | rewrite <- Hselector, ?elem_of_cons, elem_of_nil;
       split;
         [ intros; try reflexivity; intuition discriminate
         | intros Hb; first [discriminate Hb | auto] ]
     | reflexivity | reflexivity | reflexivity | reflexivity
     | rewrite <- Htriple, <- Hswr, <- Hselector;
       split; [intros Heq; try discriminate Heq; repeat split; discriminate
              | intros (Ha & Hb & Hc); try reflexivity; exfalso; auto]
     | discriminate
     | apply buildAppContext_default_dataSources
     | apply buildAppContext_no_hints
     | apply buildAppContext_dataSources_nonempty ]).
Qed.

Lemma dataSource_hints_never_absent_witness :
  reactQueryHint ∈ basicDataSourceDetect queryInput
  /\ swrHint ∈ basicDataSourceDetect swrInput
  /\ basicDataSourceDetect plainInput = [unknownHint]
  /\ dataSources (buildAppContext None (Some plainSlice) defaultRuntimeConfig)
     = [unknownHint].
Proof.
  assert (Hplain :
    ~ (js "data" ∈ lowerNamesOf plainInput
       /\ (js "isloading" ∈ lowerNamesOf plainInput
           \/ js "loading" ∈ lowerNamesOf plainInput)
       /\ js "error" ∈ lowerNamesOf plainInput)
    /\ ~ (exists p pre post,
            p ∈ lowerNamesOf plainInput /\ p = pre ++ js "swr" ++ post)
    /\ ~ (exists p pre post,
            p ∈ lowerNamesOf plainInput /\ p = pre ++ js "selector" ++ post)).
  { split_and!.
    - intros [Hdata _]. revert Hdata. apply (bool_decide_unpack _).
      vm_compute. exact I.
    - intros Hswr. apply existsb_mentions in Hswr. vm_compute in Hswr. discriminate.
    - intros Hsel. apply existsb_mentions in Hsel. vm_compute in Hsel. discriminate. }
  split_and!.
  - apply (proj1 (dataSource_hints_never_absent queryInput None None
                    defaultRuntimeConfig)).
    split_and!; [| left |]; apply (bool_decide_unpack _); vm_compute; exact I.
  - apply (proj1 (proj2 (dataSource_hints_never_absent swrInput None None
                           defaultRuntimeConfig))).
    exists (js "swrkey"), [], (js "key").
    split; [apply (bool_decide_unpack _); vm_compute; exact I | reflexivity].
  - pose proof (dataSource_hints_never_absent plainInput None None
                  defaultRuntimeConfig)
      as (_ & _ & _ & _ & Hunknown & _).
    apply Hunknown. exact Hplain.
  - pose proof (dataSource_hints_never_absent plainInput None (Some plainSlice)
                  defaultRuntimeConfig)
      as (_ & _ & _ & _ & Hunknown & _ & Hdefault & _).
    rewrite (Hdefault eq_refl). apply Hunknown. exact Hplain.
Defined.

End DataSourceDetection.
(** ** The concurrency-limited mapper *)

Section MapProofs.
Import Concurrency PoolInvariant.
Context {TIn TOut St : Type}.
Variable mapper : TIn -> nat -> St -> outcome TOut * St.
Variable items : list TIn.
Variable f : TIn -> nat -> TOut.
Hypothesis mapper_resolves :
  forall item i s, fst (mapper item i s) = Resolved (f item i).
Variable P : nat -> St -> Prop.
Hypothesis P_step :
  forall k item i s, P k s -> P (S k) (snd (mapper item i s)).

Abbreviation Pool := (Pool TOut St).
Abbreviation settle := (settle mapper items).
Abbreviation loopHead := (loopHead items).

Abbreviation remaining := (remaining items).
Abbreviation PoolInv := (PoolInv items f P).

Lemma loopHead_claim next :
  (next < length items)%nat -> loopHead next = (Awaiting next, S next).
Proof.
  intros H. unfold Concurrency.loopHead.
  destruct (Nat.ltb_spec next (length items)); [reflexivity | lia].
Qed.

Lemma loopHead_leave next :
  (length items <= next)%nat -> loopHead next = (Returned, next).
Proof.
  intros H. unfold Concurrency.loopHead.
  destruct (Nat.ltb_spec next (length items)); [lia | reflexivity].
Qed.

Lemma pendingFrom_lookup ws : forall b w,
  w ∈ pendingFrom b ws ->
  (b <= w)%nat /\ exists i, ws !! (w - b)%nat = Some (Awaiting i).
Proof.
  induction ws as [| x ws IH]; intros b w Hin; simpl in Hin.
  - inversion Hin.
  - assert (Hrest : w ∈ pendingFrom (S b) ws ->
      (b <= w)%nat /\ exists i, (x :: ws) !! (w - b)%nat = Some (Awaiting i)).
    { intros H. apply IH in H as [Hle [i Hi]]. split; [lia |].
      exists i. replace (w - b)%nat with (S (w - S b)) by lia. exact Hi. }
    destruct x as [i | | r]; [| exact (Hrest Hin) | exact (Hrest Hin)].
    apply elem_of_cons in Hin as [-> | Hin]; [| exact (Hrest Hin)].
    split; [lia |]. exists i. rewrite Nat.sub_diag. reflexivity.
Qed.

Lemma pendingFrom_nil ws b :
  pendingFrom b ws = [] -> forall w i, ws !! w <> Some (Awaiting i).
Proof.
  revert b. induction ws as [| x ws IH]; intros b Hnil w i.
  - rewrite lookup_nil. discriminate.
  - destruct x; simpl in Hnil; try discriminate;
      (destruct w as [| w]; simpl; [discriminate | eapply IH; exact Hnil]).
Qed.

Lemma pendingFrom_reclaim ws : forall b w i k,
  ws !! w = Some (Awaiting i) ->
  length (pendingFrom b (<[w := Awaiting k]> ws)) = length (pendingFrom b ws).
Proof.
  induction ws as [| x ws IH]; intros b w i k Hw; [discriminate |].
  destruct w as [| w]; simpl in *.
  - injection Hw as ->. reflexivity.
  - destruct x; simpl; rewrite (IH _ _ _ _ Hw); reflexivity.
Qed.

Lemma pendingFrom_return ws : forall b w i,
  ws !! w = Some (Awaiting i) ->
  S (length (pendingFrom b (<[w := Returned]> ws))) = length (pendingFrom b ws).
Proof.
  induction ws as [| x ws IH]; intros b w i Hw; [discriminate |].
  destruct w as [| w]; simpl in *.
  - injection Hw as ->. reflexivity.
  - destruct x; simpl; rewrite <- (IH _ _ _ Hw); reflexivity.
Qed.

Lemma firstThrown_insert ws : forall w x,
  firstThrown ws = None -> (forall r, x <> Threw r) ->
  firstThrown (<[w := x]> ws) = None.
Proof.
  induction ws as [| y ws IH]; intros w x Hnone Hx; [reflexivity |].
  destruct w as [| w]; simpl.
  - destruct y; try discriminate;
      (destruct x; [exact Hnone | exact Hnone | exfalso; eapply Hx; reflexivity]).
  - destruct y; try discriminate; simpl in *; apply IH; assumption.
Qed.

Lemma firstThrown_none ws :
  firstThrown ws = None -> forall w r, ws !! w <> Some (Threw r).
Proof.
  induction ws as [| y ws IH]; intros Hnone w r.
  - rewrite lookup_nil. discriminate.
  - destruct y; try discriminate; simpl in Hnone;
      (destruct w as [| w]; simpl; [discriminate | apply IH; exact Hnone]).
Qed.


Lemma spawn_spec count : forall next ws next',
  spawn items count next = (ws, next') -> (next <= length items)%nat ->
  (next <= next' <= length items)%nat
  /\ length ws = count
  /\ (forall w i, ws !! w = Some (Awaiting i) -> (next <= i < next')%nat)
  /\ (forall i, (next <= i < next')%nat -> exists w, ws !! w = Some (Awaiting i))
  /\ (forall w, ws !! w = Some Returned -> next' = length items)
  /\ firstThrown ws = None
  /\ (forall b, length (pendingFrom b ws) = (next' - next)%nat).
Proof.
  induction count as [| count IH]; intros next ws next' Hs Hnext.
  - injection Hs as <- <-. split_and!.
    + lia.
    + lia.
    + reflexivity.
    + intros w i. rewrite lookup_nil. discriminate.
    + intros i Hi. lia.
    + intros w. rewrite lookup_nil. discriminate.
    + reflexivity.
    + intros b. simpl. lia.
  - cbn [spawn] in Hs.
    destruct (Nat.lt_ge_cases next (length items)) as [Hlt | Hge].
    + rewrite loopHead_claim in Hs by exact Hlt.
      destruct (spawn items count (S next)) as [others n2] eqn:Hsp.
      injection Hs as <- <-.
      destruct (IH _ _ _ Hsp Hlt) as (Hb & Hlen & Haw & Hcov & Hret & Hthr & Hpend).
      split_and!.
      * lia.
      * lia.
      * simpl. lia.
      * intros w i H. destruct w as [| w]; simpl in H; [injection H as <-; lia |].
        apply Haw in H. lia.
      * intros i Hi. destruct (Nat.eq_dec i next) as [-> | Hne].
        -- exists 0%nat. reflexivity.
        -- destruct (Hcov i ltac:(lia)) as [w Hw]. exists (S w). exact Hw.
      * intros w Hw. destruct w as [| w]; [discriminate |]. eapply Hret. exact Hw.
      * exact Hthr.
      * intros b. simpl. rewrite Hpend. lia.
    + rewrite loopHead_leave in Hs by exact Hge.
      destruct (spawn items count next) as [others n2] eqn:Hsp.
      injection Hs as <- <-.
      destruct (IH _ _ _ Hsp Hnext) as (Hb & Hlen & Haw & Hcov & Hret & Hthr & Hpend).
      split_and!.
      * lia.
      * lia.
      * simpl. lia.
      * intros w i H. destruct w as [| w]; simpl in H; [discriminate |].
        apply Haw in H. lia.
      * intros i Hi. lia.
      * intros w Hw. lia.
      * exact Hthr.
      * intros b. simpl. rewrite Hpend. lia.
Qed.

Lemma start_inv limit s0 :
  1 <= limit -> P 0%nat s0 -> PoolInv (start items limit s0).
Proof.
  intros Hlimit HP. unfold start.
  destruct (spawn items (Z.to_nat (Z.min limit (Z.of_nat (length items)))) 0)
    as [ws next] eqn:Hsp.
  destruct (spawn_spec _ _ _ _ Hsp ltac:(lia))
    as (Hb & Hlen & Haw & Hcov & Hret & Hthr & Hpend).
  constructor; cbn [results nextIndex workers shared].
  - apply length_replicate.
  - lia.
  - intros w i Hw. apply Haw in Hw. lia.
  - intros i item Hi _. right. apply Hcov. lia.
  - exact Hthr.
  - exact Hret.
  - intros ->. simpl in Hlen. lia.
  - exists 0%nat. split; [exact HP |].
    unfold remaining, pending. cbn [nextIndex workers]. rewrite Hpend. lia.
Qed.

Lemma settle_inv pool w i :
  PoolInv pool -> workers pool !! w = Some (Awaiting i) ->
  PoolInv (settle w pool)
  /\ S (remaining (settle w pool)) = remaining pool.
Proof.
  intros Inv Hw.
  pose proof (inv_awaiting _ Inv _ _ Hw) as Hi.
  pose proof (inv_next _ Inv) as Hnext.
  destruct (lookup_lt_is_Some_2 items i ltac:(lia)) as [item Hitem].
  pose proof (lookup_lt_Some _ _ _ Hw) as Hwlen.
  unfold Concurrency.settle. rewrite Hw, Hitem.
  pose proof (mapper_resolves item i (shared pool)) as Hres.
  pose proof (P_step) as Hstep.
  destruct (inv_shared _ Inv) as (k & HPk & Hk).
  specialize (Hstep k item i (shared pool) HPk).
  destruct (mapper item i (shared pool)) as [o s']. simpl in Hres, Hstep.
  subst o.
  assert (Hset : arraySet i (f item i) (results pool)
                 = <[i := Some (f item i)]> (results pool)).
  { unfold arraySet. rewrite (inv_length _ Inv).
    destruct (Nat.ltb_spec i (length items)); [reflexivity | lia]. }
  rewrite Hset.
  destruct (Nat.lt_ge_cases (nextIndex pool) (length items)) as [Hlt | Hge].
  - rewrite loopHead_claim by exact Hlt. split.
    + constructor; cbn [results nextIndex workers shared].
      * rewrite length_insert. apply Inv.
      * lia.
      * intros w' i' Hw'. destruct (Nat.eq_dec w w') as [<- | Hne].
        -- rewrite list_lookup_insert_eq in Hw' by exact Hwlen.
           injection Hw' as <-. lia.
        -- rewrite list_lookup_insert_ne in Hw' by exact Hne.
           apply (inv_awaiting _ Inv) in Hw'. lia.
      * intros j item' Hj Hitem'.
        destruct (Nat.eq_dec j i) as [-> | Hji].
        { left. rewrite list_lookup_insert_eq by (rewrite (inv_length _ Inv); lia).
          congruence. }
        destruct (Nat.eq_dec j (nextIndex pool)) as [-> | Hjn].
        { right. exists w. apply list_lookup_insert_eq. exact Hwlen. }
        destruct (inv_covered _ Inv j item' ltac:(lia) Hitem') as [Hdone | [w' Hw']].
        { left. rewrite list_lookup_insert_ne by congruence. exact Hdone. }
        right. exists w'. rewrite list_lookup_insert_ne; [exact Hw' |].
        intros ->. rewrite Hw in Hw'. congruence.
      * apply firstThrown_insert; [apply Inv | discriminate].
      * intros w' Hw'. destruct (Nat.eq_dec w w') as [<- | Hne].
        -- rewrite list_lookup_insert_eq in Hw' by exact Hwlen. discriminate.
        -- rewrite list_lookup_insert_ne in Hw' by exact Hne.
           apply (inv_returned _ Inv) in Hw'. lia.
      * intros Hnil. apply (f_equal length) in Hnil.
        rewrite length_insert in Hnil. simpl in Hnil. lia.
      * exists (S k). split; [exact Hstep |].
        unfold remaining, pending in *. cbn [nextIndex workers].
        rewrite (pendingFrom_reclaim _ _ _ _ _ Hw).
        pose proof (pendingFrom_return _ 0%nat _ _ Hw). lia.
    + unfold remaining, pending. cbn [nextIndex workers].
      rewrite (pendingFrom_reclaim _ _ _ _ _ Hw).
      pose proof (pendingFrom_return _ 0%nat _ _ Hw). lia.
  - rewrite loopHead_leave by exact Hge. split.
    + constructor; cbn [results nextIndex workers shared].
      * rewrite length_insert. apply Inv.
      * lia.
      * intros w' i' Hw'. destruct (Nat.eq_dec w w') as [<- | Hne].
        -- rewrite list_lookup_insert_eq in Hw' by exact Hwlen. discriminate.
        -- rewrite list_lookup_insert_ne in Hw' by exact Hne.
           apply (inv_awaiting _ Inv) in Hw'. lia.
      * intros j item' Hj Hitem'.
        destruct (Nat.eq_dec j i) as [-> | Hji].
        { left. rewrite list_lookup_insert_eq by (rewrite (inv_length _ Inv); lia).
          congruence. }
        destruct (inv_covered _ Inv j item' ltac:(lia) Hitem') as [Hdone | [w' Hw']].
        { left. rewrite list_lookup_insert_ne by congruence. exact Hdone. }
        right. exists w'. rewrite list_lookup_insert_ne; [exact Hw' |].
        intros ->. rewrite Hw in Hw'. congruence.
      * apply firstThrown_insert; [apply Inv | discriminate].
      * intros w' Hw'. lia.
      * intros Hnil. apply (f_equal length) in Hnil.
        rewrite length_insert in Hnil. simpl in Hnil. lia.
      * exists (S k). split; [exact Hstep |].
        unfold remaining, pending in *. cbn [nextIndex workers].
        pose proof (pendingFrom_return _ 0%nat _ _ Hw). lia.
    + unfold remaining, pending. cbn [nextIndex workers].
      pose proof (pendingFrom_return _ 0%nat _ _ Hw). lia.
Qed.

Lemma settled_results pool :
  PoolInv pool -> pending pool = [] ->
  results pool = imap (fun i item => Some (f item i)) items
  /\ P (length items) (shared pool).
Proof.
  intros Inv Hnone.
  assert (Hidle : forall w i, workers pool !! w <> Some (Awaiting i))
    by (apply (pendingFrom_nil _ 0%nat); exact Hnone).
  assert (Hall : nextIndex pool = length items).
  { destruct (workers pool) as [| x ws] eqn:Hws.
    - pose proof (inv_workers _ Inv Hws). pose proof (inv_next _ Inv). lia.
    - apply (inv_returned _ Inv 0%nat). rewrite Hws. simpl.
      destruct x as [i | | r]; [| reflexivity |].
      + exfalso. apply (Hidle 0%nat i). reflexivity.
      + exfalso. pose proof (inv_no_throw _ Inv) as Hthr.
        rewrite Hws in Hthr. discriminate. }
  split.
  - apply list_eq. intros i. rewrite list_lookup_imap.
    destruct (items !! i) as [item |] eqn:Hitem; simpl.
    + pose proof (lookup_lt_Some _ _ _ Hitem).
      destruct (inv_covered _ Inv i item ltac:(lia) Hitem) as [Hdone | [w Hw]];
        [exact Hdone | exfalso; eapply Hidle; exact Hw].
    + apply lookup_ge_None. rewrite (inv_length _ Inv).
      apply lookup_ge_None. exact Hitem.
  - destruct (inv_shared _ Inv) as (k & HPk & Hk).
    unfold remaining in Hk. rewrite Hnone, Hall in Hk. simpl in Hk.
    replace (length items) with k by lia. exact HPk.
Qed.

(** Whatever the order of the settlements, once no promise is pending
    the results are in place. *)
Lemma reachable_inv limit s0 pool :
  1 <= limit -> P 0%nat s0 ->
  reachable mapper items limit s0 pool -> PoolInv pool.
Proof.
  intros Hlimit HP Hreach. induction Hreach as [| pool w i _ IH Hw].
  - apply start_inv; assumption.
  - apply (settle_inv pool w i IH Hw).
Qed.

Lemma reachable_settled limit s0 pool :
  1 <= limit -> P 0%nat s0 ->
  reachable mapper items limit s0 pool -> pending pool = [] ->
  results pool = imap (fun i item => Some (f item i)) items.
Proof.
  intros Hlimit HP Hreach Hnone.
  apply settled_results; [eapply reachable_inv; eassumption | exact Hnone].
Qed.

Lemma awaitAll_settles order fuel : forall step pool,
  PoolInv pool -> (remaining pool <= fuel)%nat ->
  exists s,
    awaitAll mapper items fuel order step pool
    = Some (Resolved (imap (fun i item => Some (f item i)) items), s)
    /\ P (length items) s.
Proof.
  induction fuel as [| fuel IH]; intros step pool Inv Hfuel.
  - assert (Hnone : pending pool = []).
    { unfold remaining in Hfuel. destruct (pending pool); [reflexivity |].
      simpl in Hfuel. lia. }
    cbn [awaitAll]. rewrite (inv_no_throw _ Inv), Hnone. cbn.
    destruct (settled_results pool Inv Hnone) as [-> HP]. eauto.
  - cbn [awaitAll]. rewrite (inv_no_throw _ Inv).
    destruct (pending pool !! (order step `mod` length (pending pool))%nat)
      as [w |] eqn:Hpick.
    + assert (Hin : w ∈ pending pool) by (eapply list_elem_of_lookup_2; eauto).
      apply pendingFrom_lookup in Hin as [_ [i Hw]].
      rewrite Nat.sub_0_r in Hw.
      destruct (settle_inv pool w i Inv Hw) as [Inv' Hrem].
      apply IH; [exact Inv' | lia].
    + assert (Hnone : pending pool = []).
      { destruct (pending pool) as [| p ps] eqn:Hp; [reflexivity |].
        apply lookup_ge_None in Hpick.
        pose proof (Nat.mod_upper_bound (order step) (length (p :: ps))
                      ltac:(simpl; lia)). lia. }
      destruct (settled_results pool Inv Hnone) as [-> HP]. eauto.
Qed.

Lemma mapWithConcurrencyLimit_settles limit order s0 :
  1 <= limit -> P 0%nat s0 ->
  exists s,
    mapWithConcurrencyLimit mapper items limit order s0
    = Some (Resolved (imap (fun i item => Some (f item i)) items), s)
    /\ P (length items) s.
Proof.
  intros Hlimit HP. unfold mapWithConcurrencyLimit.
  pose proof (start_inv limit s0 Hlimit HP) as Inv.
  apply awaitAll_settles; [exact Inv |].
  destruct (inv_shared _ Inv) as (k & _ & Hk). lia.
Qed.

End MapProofs.
(** C1: for every list of items, every limit [1 <= K], every transform
    (a call on [item, index] that resolves to [f item index], whatever
    it does to the state it shares with the caller) and every order in
    which the pending calls settle, the mapper resolves to a list as
    long as the input whose entry [i] is the result for input [i]. *)
Theorem mapWithConcurrencyLimit_preserves_order
  {TIn TOut St : Type}
  (mapper : TIn -> nat -> St -> Concurrency.outcome TOut * St)
  (items : list TIn) (f : TIn -> nat -> TOut)
  (limit : Z) (order : nat -> nat) (s0 : St)
  (Hlimit : 1 <= limit)
  (Hresult : forall item i s,
     fst (mapper item i s) = Concurrency.Resolved (f item i)) :
  exists output s,
    Concurrency.mapWithConcurrencyLimit mapper items limit order s0
    = Some (Concurrency.Resolved output, s)
    /\ length output = length items
    /\ forall i item,
         items !! i = Some item -> output !! i = Some (Some (f item i)).
Proof.
  destruct (mapWithConcurrencyLimit_settles mapper items f Hresult
              (fun _ _ => True) (fun _ _ _ _ _ => I) limit order s0 Hlimit I)
    as (s & Hrun & _).
  exists (imap (fun i item => Some (f item i)) items), s.
  split; [exact Hrun |]. split; [apply length_imap |].
  intros i item Hitem. rewrite list_lookup_imap, Hitem. reflexivity.
Qed.

Lemma mapWithConcurrencyLimit_preserves_order_witness :
  exists output s,
    Concurrency.mapWithConcurrencyLimit
      (fun (item : nat) (i : nat) (calls : nat) =>
         (Concurrency.Resolved (item + i)%nat, S calls))
      [10; 20; 30]%nat 2 (fun step => (2 * step + 1)%nat) 0%nat
    = Some (Concurrency.Resolved output, s)
    /\ length output = 3%nat
    /\ forall i item,
         [10; 20; 30]%nat !! i = Some item ->
         output !! i = Some (Some (item + i)%nat).
Proof.
  apply (mapWithConcurrencyLimit_preserves_order
           (fun (item : nat) (i : nat) (calls : nat) =>
              (Concurrency.Resolved (item + i)%nat, S calls))
           [10; 20; 30]%nat (fun item i => (item + i)%nat) 2
           (fun step => (2 * step + 1)%nat) 0%nat).
  - lia.
  - intros item i s. reflexivity.
Defined.

(** Three settlement orders of the same call, and a limit of one. *)
Example mapWithConcurrencyLimit_orders :
  let run limit order :=
    Concurrency.mapWithConcurrencyLimit
      (fun (item : nat) (i : nat) (calls : list nat) =>
         (Concurrency.Resolved (item + i)%nat, calls ++ [i]))
      [10; 20; 30; 40]%nat limit order [] in
  run 2 (fun _ => 0%nat)
  = Some (Concurrency.Resolved [Some 10; Some 21; Some 32; Some 43]%nat,
          [0; 2; 3; 1]%nat)
  /\ run 2 (fun _ => 1%nat)
     = Some (Concurrency.Resolved [Some 10; Some 21; Some 32; Some 43]%nat,
             [1; 2; 3; 0]%nat)
  /\ run 4 (fun step => (3 - step)%nat)
     = Some (Concurrency.Resolved [Some 10; Some 21; Some 32; Some 43]%nat,
             [3; 2; 1; 0]%nat)
  /\ run 1 (fun _ => 5%nat)
     = Some (Concurrency.Resolved [Some 10; Some 21; Some 32; Some 43]%nat,
             [0; 1; 2; 3]%nat).
Proof. vm_compute. repeat split. Qed.

(** A transform that rejects makes the whole call reject. *)
Example mapWithConcurrencyLimit_rejects :
  Concurrency.mapWithConcurrencyLimit
    (fun (item : nat) (i : nat) (calls : nat) =>
       (if (item =? 20)%nat then Concurrency.Rejected (js "boom")
        else Concurrency.Resolved item, S calls))
    [10; 20; 30]%nat 2 (fun _ => 0%nat) 0%nat
  = Some (Concurrency.Rejected (js "boom"), 3%nat).
Proof. vm_compute. reflexivity. Qed.
(** ** Collapsing duplicate elements *)

Section Dedupe.
Import Dom.
Context {Element : Type} `{EqDecision Element}.






End Dedupe.

(** ** The controller's finalize *)

Section ControllerFinalize.
Import Schema Dom Concurrency GrabrController.
Context {Element : Type} `{EqDecision Element} {W : Type}.
Variable env : Surroundings Element W.
Variable onProgress : option (SelectionFinalizeProgress -> W -> W).

Abbreviation connectedOf elements :=
  (filter (fun el => isElementConnectedToDocument env el = true)
     (dedupeElementsPreserveOrder elements)).

Lemma captureElement_resolves total el index st :
  fst (captureElement env onProgress total el index st)
  = Resolved (capturedContext env el).
Proof.
  unfold captureElement, capturedContext.
  destruct (getElementContext env el); reflexivity.
Qed.

Lemma captureElement_completed total el index st :
  capture_completed (snd (captureElement env onProgress total el index st))
  = S (capture_completed st).
Proof.
  unfold captureElement. destruct (getElementContext env el); reflexivity.
Qed.

Lemma nonNull_imap (l : list Element) (g : Element -> option jsval) :
  nonNull (imap (fun _ el => Some (g el)) l) = omap g l.
Proof.
  unfold nonNull. induction l as [| x l IH]; [reflexivity |].
  cbn [imap omap list_omap]. cbn [mbind option_bind id].
  change (omap (fun slot : option (option jsval) => slot ≫= id)
            (imap ((fun _ el => Some (g el)) ∘ S) l))
    with (omap (fun slot : option (option jsval) => slot ≫= id)
            (imap (fun _ el => Some (g el)) l)).
  rewrite IH. reflexivity.
Qed.

(** The awaited mapper call always resolves, with every element's
    context or [null] in place and every completion counted. *)
Lemma capture_settles (connected : list Element) w :
  exists st,
    mapWithConcurrencyLimit
      (captureElement env onProgress (length connected)) connected 2
      (settlementOrder env)
      {| capture_completed := 0; capture_failed := 0; capture_world := w |}
    = Some (Resolved (imap (fun _ el => Some (capturedContext env el)) connected),
            st)
    /\ capture_completed st = length connected.
Proof.
  apply (mapWithConcurrencyLimit_settles
           (captureElement env onProgress (length connected)) connected
           (fun el _ => capturedContext env el)
           (fun el i st => captureElement_resolves (length connected) el i st)
           (fun k st => capture_completed st = k)).
  - intros k el i st <-. apply captureElement_completed.
  - lia.
  - reflexivity.
Qed.

Lemma finalizeSelection_nothing_connected elements this w :
  connectedOf elements = [] ->
  finalizeSelection env elements onProgress (this, w)
  = Some (Resolved tt,
          (this,
           optionalCall onProgress
             {| phase := Error; completed := 0; total := 0;
                message := Some (js "No valid elements to capture.") |} w)).
Proof.
  intros Hnone. unfold finalizeSelection. rewrite Hnone. reflexivity.
Qed.

(** What a finalize with connected elements comes to, in terms of the
    state the captures leave. *)
Lemma finalizeSelection_connected elements this w :
  connectedOf elements <> [] ->
  let connected := connectedOf elements in
  let total := length connected in
  let contexts := omap (capturedContext env) connected in
  exists st,
    capture_completed st = total
    /\ finalizeSelection env elements onProgress (this, w)
       = if (length contexts =? 0)%nat then
           Some (Resolved tt,
                 (this,
                  optionalCall onProgress
                    {| phase := Error; completed := total; total := total;
                       message :=
                         Some (js "Failed to capture context for all selected elements.") |}
                    (capture_world st)))
         else
           let session := sessionObject env this contexts (capture_failed st) in
           let this' :=
             {| currentSession := session;
                currentInstruction := currentInstruction this |} in
           let w :=
             optionalCall onProgress
               {| phase := Sending; completed := total; total := total;
                  message := None |} (capture_world st) in
           match sendContext env session with
           | Resolved _ =>
               let w := optionalCall (onSuccess env) session w in
               let w :=
                 optionalCall onProgress
                   {| phase := Done; completed := total; total := total;
                      message := None |} w in
               let w := toastIfAttached env (copiedToast (length contexts)) false w in
               let w :=
                 if (0 <? capture_failed st)%nat
                 then toastIfAttached env
                        (js "Warning: " ++ natToString (capture_failed st)
                         ++ js " element(s) failed to capture.") true w
                 else w in
               Some (Resolved tt, (this', w))
           | Rejected reason =>
               let w :=
                 match onError env with
                 | Some call => call session reason w
                 | None => w
                 end in
               let w :=
                 optionalCall onProgress
                   {| phase := Error; completed := total; total := total;
                      message := Some reason |} w in
               let w := toastIfAttached env reason true w in
               Some (Resolved tt, (this', w))
           end.
Proof.
  intros Hsome connected total contexts.
  unfold finalizeSelection. fold connected.
  destruct (Nat.eqb_spec (length connected) 0) as [Hz | _].
  { exfalso. apply Hsome. apply nil_length_inv. exact Hz. }
  destruct (capture_settles connected
              (optionalCall onProgress
                 {| phase := BuildingContext; completed := 0;
                    total := length connected; message := None |} w))
    as (st & Hrun & Hcount).
  exists st. split; [exact Hcount |].
  rewrite Hrun. rewrite nonNull_imap. fold contexts. fold total.
  rewrite Hcount. fold total. reflexivity.
Qed.

Lemma finalizeSelection_settles elements state :
  exists this' w',
    finalizeSelection env elements onProgress state
    = Some (Resolved tt, (this', w')).
Proof.
  destruct state as [this w].
  destruct (connectedOf elements) as [| el rest] eqn:Hc.
  - rewrite finalizeSelection_nothing_connected by exact Hc. eauto.
  - destruct (finalizeSelection_connected elements this w) as (st & _ & ->).
    { rewrite Hc. discriminate. }
    cbv zeta.
    destruct (length (omap (capturedContext env) (connectedOf elements)) =? 0)%nat;
      [eauto |].
    destruct (sendContext env _); eauto.
Qed.

End ControllerFinalize.

Section ControllerClaims.
Import Schema Dom Concurrency GrabrController.

Lemma omap_all_None {A B} (g : A -> option B) (l : list A) :
  (forall x, x ∈ l -> g x = None) -> omap g l = [].
Proof.
  induction l as [| x l IH]; intros Hall; [reflexivity |].
  cbn [omap list_omap]. rewrite (Hall x) by left.
  apply IH. intros y Hy. apply Hall. right. exact Hy.
Qed.

Lemma length_omap_le {A B} (g : A -> option B) (l : list A) :
  (length (omap g l) <= length l)%nat.
Proof.
  induction l as [| x l IH]; [reflexivity |].
  change (omap g (x :: l))
    with (match g x with Some y => y :: omap g l | None => omap g l end).
  destruct (g x); cbn [length]; lia.
Qed.

(** C4: if no element is left after deduplication and the connected
    filter, the progress callback receives the [error] phase with
    [completed = 0] and [total = 0], and the controller, its current
    session included, is as before.  If elements are left but the
    inspector captures none of them, the callback last receives the
    [error] phase with its message, and again the controller is as
    before: no session is created or stored. *)
Theorem finalizeSelection_whole_batch_failure
  {Element : Type} `{EqDecision Element} {W : Type}
  (env : Surroundings Element W)
  (onProgress : option (SelectionFinalizeProgress -> W -> W))
  (elements : list Element) (this : Controller) (w : W) :
  let connected :=
    filter (fun el => isElementConnectedToDocument env el = true)
      (dedupeElementsPreserveOrder elements) in
  (connected = [] ->
   finalizeSelection env elements onProgress (this, w)
   = Some (Resolved tt,
           (this,
            optionalCall onProgress
              {| phase := Error; completed := 0; total := 0;
                 message := Some (js "No valid elements to capture.") |} w)))
  /\ (connected <> [] ->
      (forall el, el ∈ connected -> capturedContext env el = None) ->
      exists w',
        finalizeSelection env elements onProgress (this, w)
        = Some (Resolved tt,
                (this,
                 optionalCall onProgress
                   {| phase := Error; completed := length connected;
                      total := length connected;
                      message :=
                        Some (js "Failed to capture context for all selected elements.") |}
                   w'))).
Proof.
  intros connected. split.
  - apply finalizeSelection_nothing_connected.
  - intros Hsome Hnone.
    destruct (finalizeSelection_connected env onProgress elements this w Hsome)
      as (st & _ & Hrun).
    cbv zeta in Hrun. fold connected in Hrun.
    rewrite (omap_all_None _ _ Hnone) in Hrun. cbn [length Nat.eqb] in Hrun.
    exists (capture_world st). exact Hrun.
Qed.


End ControllerClaims.

(** ** The overlay's finalize *)

Section OverlayFinalize.
Import Schema Dom Concurrency GrabrController SelectionOverlay.
Context {Element : Type} `{EqDecision Element}.
Variable formatElementLabel : Element -> jsstring.
Variable isConnected : Element -> bool.

Lemma finallyClause_idle (this : Overlay Element) : idle (finallyClause this).
Proof. repeat split. Qed.

Lemma cancelSelection_idle (this : Overlay Element) : idle (cancelSelection this).
Proof. repeat split. Qed.

Lemma enterSending_sending (this : Overlay Element) :
  sending (enterSending formatElementLabel this) = true.
Proof.
  unfold enterSending, updateHudState. cbn [selecting sending].
  destruct (negb (selecting this)); cbn; [reflexivity |].
  destruct (length (selectedElements this) =? 1)%nat; reflexivity.
Qed.

Lemma enterSending_detached (this : Overlay Element) :
  listenersAttached (enterSending formatElementLabel this) = false.
Proof. reflexivity. Qed.

End OverlayFinalize.

Section OverlayClaims.
Import Schema Dom Concurrency GrabrController SelectionOverlay.

(** C5: a finalize that enters the sending state (some selected or
    hovered element is connected) sets [sending] and detaches the
    listeners; when the controller's call settles, resolved or rejected,
    whatever it and the handlers that ran meanwhile did to the overlay,
    the [finally] clause leaves the overlay idle: not selecting, not
    sending, help off, no selection box, HUD and help hidden.  The
    outcome of the call is the outcome of the finalize. *)
Theorem overlay_finalize_returns_to_idle
  {Element : Type} `{EqDecision Element} {C : Type}
  (formatElementLabel : Element -> jsstring) (isConnected : Element -> bool)
  (controllerFinalize :
     list Element ->
     (SelectionFinalizeProgress -> Overlay Element -> Overlay Element) ->
     C * Overlay Element -> option (outcome unit * (C * Overlay Element)))
  (controller : C) (this : Overlay Element)
  (settled : outcome unit) (controller' : C) (after : Overlay Element)
  (Henter : connectedSelection isConnected this <> [])
  (Hsettles :
     controllerFinalize (connectedSelection isConnected this) updateHudProgress
       (controller, enterSending formatElementLabel (withHoveredFallback this))
     = Some (settled, (controller', after))) :
  sending (enterSending formatElementLabel (withHoveredFallback this)) = true
  /\ listenersAttached
       (enterSending formatElementLabel (withHoveredFallback this)) = false
  /\ SelectionOverlay.finalizeSelection formatElementLabel isConnected
       controllerFinalize (controller, this)
     = Some (settled, (controller', finallyClause after))
  /\ idle (finallyClause after).
Proof.
  split_and!.
  - apply enterSending_sending.
  - reflexivity.
  - unfold SelectionOverlay.finalizeSelection.
    unfold connectedSelection in Henter, Hsettles.
    destruct (Nat.eqb_spec
                (length (filter (fun el => isConnected el = true)
                           (dedupeElementsPreserveOrder
                              (selectedElements (withHoveredFallback this))))) 0)
      as [Hz | _].
    { exfalso. apply Henter. apply nil_length_inv. exact Hz. }
    rewrite Hsettles. reflexivity.
  - apply finallyClause_idle.
Qed.

(** With the controller of the client behind it, every finalize of the
    overlay settles and leaves the overlay idle. *)
Lemma client_finalize_ends_idle
  {Element : Type} `{EqDecision Element}
  (formatElementLabel : Element -> jsstring)
  (env : Surroundings Element (Overlay Element))
  (state : Controller * Overlay Element) :
  exists controller' final,
    Client.finalizeSelection formatElementLabel env state
    = Some (Resolved tt, (controller', final))
    /\ idle final.
Proof.
  destruct state as [controller this].
  unfold Client.finalizeSelection, SelectionOverlay.finalizeSelection.
  destruct (length _ =? 0)%nat.
  - eexists _, _. split; [reflexivity | apply cancelSelection_idle].
  - match goal with
    | |- context [GrabrController.finalizeSelection env ?els ?cb ?st] =>
        destruct (finalizeSelection_settles env cb els st) as (c' & o' & ->)
    end.
    eexists _, _. split; [reflexivity | apply finallyClause_idle].
Qed.

End OverlayClaims.

(** ** Validating the configuration *)

Section Configuration.
Import Schema Heuristics Client.

Lemma notStrictlyString_false v literal :
  notStrictlyString v literal = false <-> v = JString literal.
Proof.
  unfold notStrictlyString. destruct v; try (split; discriminate).
  rewrite negb_false_iff, bool_decide_eq_true. split; congruence.
Qed.

Lemma isFiniteIntegerInRange_spec v lo hi :
  isFiniteIntegerInRange v lo hi = true
  <-> exists q z, v = JNumber (Finite q) /\ (q == inject_Z z)%Q /\ lo <= z <= hi.
Proof.
  unfold isFiniteIntegerInRange. split.
  - destruct v as [| | | [| neg | q] | | |]; try discriminate.
    cbn [typeofNumber NumberIsFinite NumberIsInteger geNumber leNumber andb].
    rewrite !andb_true_iff, Z.eqb_eq, !Qle_bool_iff.
    intros [[Hint Hlo] Hhi].
    exists q, (Qnum q / Zpos (Qden q)).
    assert (Hq : (q == inject_Z (Qnum q / Zpos (Qden q)))%Q).
    { unfold Qeq. cbn [Qnum Qden inject_Z].
      rewrite Z.mul_1_r. apply Z.div_exact in Hint; lia. }
    split; [reflexivity |]. split; [exact Hq |].
    rewrite Hq in Hlo, Hhi. rewrite <- !Zle_Qle in Hlo, Hhi. lia.
  - intros (q & z & -> & Hq & Hlo & Hhi).
    cbn [typeofNumber NumberIsFinite NumberIsInteger geNumber leNumber andb].
    rewrite !andb_true_iff, Z.eqb_eq, !Qle_bool_iff.
    split; [split |].
    + unfold Qeq in Hq. cbn [Qnum Qden inject_Z] in Hq.
      rewrite Z.mul_1_r in Hq. rewrite Hq. apply Z.mod_mul. lia.
    + rewrite Hq, <- Zle_Qle. lia.
    + rewrite Hq, <- Zle_Qle. lia.
Qed.

Lemma validateRuntimeConfigOrThrow_ok config :
  validateRuntimeConfigOrThrow config = inr tt
  <-> (reactInspectorMode config = JString (js "best-effort")
       \/ reactInspectorMode config = JString (js "required")
       \/ reactInspectorMode config = JString (js "off"))
      /\ exists q z,
           maxReactStackFrames config = JNumber (Finite q)
           /\ (q == inject_Z z)%Q /\ 1 <= z <= 64.
Proof.
  unfold validateRuntimeConfigOrThrow.
  rewrite <- isFiniteIntegerInRange_spec, <- !notStrictlyString_false.
  destruct (notStrictlyString (reactInspectorMode config) (js "best-effort")),
    (notStrictlyString (reactInspectorMode config) (js "required")),
    (notStrictlyString (reactInspectorMode config) (js "off")),
    (isFiniteIntegerInRange (maxReactStackFrames config) 1 64);
    cbn; intuition congruence.
Qed.

End Configuration.

Section Witnesses.
Import Schema Dom Concurrency GrabrController SelectionOverlay Client Samples Heuristics.

Lemma finalizeSelection_whole_batch_failure_witness :
  GrabrController.finalizeSelection failingEnv [0; 0]%nat logProgress (noSession, [])
  = Some (Resolved tt,
          (noSession,
           [ {| phase := Error; completed := 0; total := 0;
                message := Some (js "No valid elements to capture.") |} ]))
  /\ exists log,
       GrabrController.finalizeSelection failingEnv [1; 2; 1]%nat logProgress
         (noSession, [])
       = Some (Resolved tt,
               (noSession,
                log ++ [ {| phase := Error; completed := 2; total := 2;
                            message :=
                              Some (js "Failed to capture context for all selected elements.") |} ])).
Proof.
  split.
  - apply (finalizeSelection_whole_batch_failure failingEnv logProgress
             [0; 0]%nat noSession []).
    reflexivity.
  - destruct (proj2 (finalizeSelection_whole_batch_failure failingEnv logProgress
                       [1; 2; 1]%nat noSession [])) as [log Hlog].
    + vm_compute. discriminate.
    + intros el _. reflexivity.
    + exists log. exact Hlog.
Defined.


Lemma overlay_finalize_returns_to_idle_witness :
  connectedSelection (fun _ => true) selectingOverlay <> []
  /\ SelectionOverlay.finalizeSelection (fun _ => js "div") (fun _ => true)
       rejectingCall (tt, selectingOverlay)
     = Some (Rejected (js "clipboard denied"),
             (tt, finallyClause
                    (enterSending (fun _ => js "div")
                       (withHoveredFallback selectingOverlay))))
  /\ idle (finallyClause
             (enterSending (fun _ => js "div")
                (withHoveredFallback selectingOverlay))).
Proof.
  assert (Henter : connectedSelection (fun _ : nat => true) selectingOverlay <> [])
    by (vm_compute; discriminate).
  split; [exact Henter |].
  apply (overlay_finalize_returns_to_idle (fun _ => js "div") (fun _ => true)
           rejectingCall tt selectingOverlay (Rejected (js "clipboard denied"))
           tt _ Henter eq_refl).
Defined.

End Witnesses.

Section ConfigurationClaims.
Import Schema Heuristics Client Samples.

(** C6: validation accepts a configuration exactly when its
    [reactInspectorMode] is one of ["best-effort"], ["required"],
    ["off"] and its [maxReactStackFrames] is a finite number with an
    integer value in [1, 64]; [createGrabrClient] validates the merged
    configuration before it builds anything, so a rejected configuration
    is a configuration error of the call itself.  Setting up with
    [maxReactStackFrames] 0 or 65 fails with that error; with 1 or 64 it
    succeeds. *)
Theorem configuration_validated_at_setup
  (Element : Type) (config : GrabrRuntimeConfig) (arg : InitArg) :
  (validateRuntimeConfigOrThrow config = inr tt
   <-> (reactInspectorMode config = JString (js "best-effort")
        \/ reactInspectorMode config = JString (js "required")
        \/ reactInspectorMode config = JString (js "off"))
       /\ exists q z,
            maxReactStackFrames config = JNumber (Finite q)
            /\ (q == inject_Z z)%Q /\ 1 <= z <= 64)
  /\ (forall error,
        validateRuntimeConfigOrThrow
          (mergeRuntimeConfig (normalizeInitOptionsArg arg)) = inl error ->
        createGrabrClient Element true arg = inl (Configuration error))
  /\ (forall client,
        createGrabrClient Element true arg = inr client ->
        Client.config client = mergeRuntimeConfig (normalizeInitOptionsArg arg)
        /\ validateRuntimeConfigOrThrow (Client.config client) = inr tt)
  /\ createGrabrClient Element true (framesArg (JNumber (Finite 0)))
     = inl (Configuration (InvalidMaxReactStackFrames (JNumber (Finite 0))))
  /\ createGrabrClient Element true (framesArg (JNumber (Finite 65)))
     = inl (Configuration (InvalidMaxReactStackFrames (JNumber (Finite 65))))
  /\ (exists client,
        createGrabrClient Element true (framesArg (JNumber (Finite 1)))
        = inr client)
  /\ (exists client,
        createGrabrClient Element true (framesArg (JNumber (Finite 64)))
        = inr client).
Proof.
  split_and!.
  - apply validateRuntimeConfigOrThrow_ok.
  - intros error Herr. unfold createGrabrClient. cbn [negb].
    rewrite Herr. reflexivity.
  - intros client. unfold createGrabrClient. cbn [negb].
    destruct (validateRuntimeConfigOrThrow
                (mergeRuntimeConfig (normalizeInitOptionsArg arg)))
      as [error | []] eqn:Hval; [discriminate |].
    intros Hc. injection Hc as <-. cbn [Client.config]. split; [reflexivity | exact Hval].
  - reflexivity.
  - reflexivity.
  - eexists. reflexivity.
  - eexists. reflexivity.
Qed.

Lemma configuration_validated_at_setup_witness :
  validateRuntimeConfigOrThrow defaultRuntimeConfig = inr tt
  /\ createGrabrClient nat true (framesArg (JNumber (Finite (1 # 2))))
     = inl (Configuration (InvalidMaxReactStackFrames (JNumber (Finite (1 # 2))))).
Proof.
  split.
  - apply (proj1 (configuration_validated_at_setup nat defaultRuntimeConfig NoArg)).
    split; [left; reflexivity |].
    exists 8%Q, 8. split; [reflexivity |]. split; [reflexivity | lia].
  - apply (proj1 (proj2 (configuration_validated_at_setup nat defaultRuntimeConfig
                           (framesArg (JNumber (Finite (1 # 2))))))).
    reflexivity.
Defined.

End ConfigurationClaims.

(** ** The prompt serializer *)

Section PromptSerializer.
Import Schema Prompt ChecksumSpec.
Variable shortestDecimal : Q -> jsstring.

Lemma pushesNothing_ret {A} (a : A) : pushesNothing (ret a).
Proof. intros b lines H. injection H as _ <-. reflexivity. Qed.

Lemma pushesNothing_throw {A} error : pushesNothing (@throw A error).
Proof. intros b lines H. discriminate. Qed.

Lemma pushesNothing_bind {A B} (m : Lines A) (k : A -> Lines B) :
  pushesNothing m -> (forall a, pushesNothing (k a)) -> pushesNothing (bind m k).
Proof.
  intros Hm Hk b lines. unfold bind.
  destruct m as [[a pushed] | error]; [| discriminate].
  destruct (k a) as [[b' more] | error] eqn:Hka; [| discriminate].
  intros H. injection H as _ <-.
  rewrite (Hm a pushed eq_refl), (Hk a b' more Hka). reflexivity.
Qed.

Lemma pushesNothing_get value key : pushesNothing (get value key).
Proof.
  destruct value; cbn [get];
    first [apply pushesNothing_ret | apply pushesNothing_throw].
Qed.

Lemma pushesNothing_getOptional value key :
  pushesNothing (getOptional value key).
Proof.
  unfold getOptional. destruct (isNullish value);
    [apply pushesNothing_ret | apply pushesNothing_get].
Qed.

Lemma pushesNothing_deriveSelectionId context :
  pushesNothing (deriveSelectionId shortestDecimal context).
Proof.
  unfold deriveSelectionId.
  repeat first
    [ apply pushesNothing_ret
    | apply pushesNothing_get
    | apply pushesNothing_getOptional
    | apply pushesNothing_bind; [| intros ?] ].
Qed.

Lemma pushesNothing_recordChecksum record :
  pushesNothing (recordChecksum shortestDecimal record).
Proof.
  unfold recordChecksum. destruct (stringifyForPrompt shortestDecimal record false);
    [apply pushesNothing_ret | apply pushesNothing_throw].
Qed.

Lemma recordChecksum_returns record checksum lines :
  recordChecksum shortestDecimal record = Returns (checksum, lines) ->
  exists json,
    stringifyForPrompt shortestDecimal record false = Some json
    /\ checksum = promptChecksum json.
Proof.
  unfold recordChecksum.
  destruct (stringifyForPrompt shortestDecimal record false) as [json |];
    [| discriminate].
  intros H. injection H as <- _. eauto.
Qed.

(** The lines of an element: the opening marker, the sections, the
    closing marker, both markers carrying the checksum of the record's
    JSON text. *)
Lemma elementLines_markers context lines :
  elementLines shortestDecimal context = Returns (tt, lines) ->
  exists json selectionId body,
    stringifyForPrompt shortestDecimal context false = Some json
    /\ deriveSelectionId shortestDecimal context = Returns (selectionId, [])
    /\ lines = selectionOpening selectionId (promptChecksum json)
               :: body ++ [selectionClosing selectionId (promptChecksum json)].
Proof.
  unfold elementLines, bind at 1.
  destruct (deriveSelectionId shortestDecimal context)
    as [[selectionId l0] | error] eqn:Hid; [| discriminate].
  pose proof (pushesNothing_deriveSelectionId context _ _ Hid) as ->.
  unfold bind at 1.
  destruct (recordChecksum shortestDecimal context)
    as [[checksum l1] | error] eqn:Hsum; [| discriminate].
  pose proof (pushesNothing_recordChecksum context _ _ Hsum) as ->.
  destruct (recordChecksum_returns _ _ _ Hsum) as (json & Hjson & ->).
  unfold bind, push.
  destruct (elementSections shortestDecimal context selectionId
              (promptChecksum json)) as [[[] body] | error]; [| discriminate].
  intros H. injection H as <-.
  exists json, selectionId, body. cbn [app]. auto.
Qed.

Lemma sessionLines_markers session lines :
  sessionLines shortestDecimal session = Returns (tt, lines) ->
  exists json id body,
    stringifyForPrompt shortestDecimal session false = Some json
    /\ get session "id" = Returns (id, [])
    /\ lines = sessionOpening (ToString shortestDecimal id) (promptChecksum json)
               :: body
               ++ [sessionClosing (ToString shortestDecimal id) (promptChecksum json)].
Proof.
  unfold sessionLines, bind at 1.
  destruct (recordChecksum shortestDecimal session)
    as [[checksum l1] | error] eqn:Hsum; [| discriminate].
  pose proof (pushesNothing_recordChecksum session _ _ Hsum) as ->.
  destruct (recordChecksum_returns _ _ _ Hsum) as (json & Hjson & ->).
  unfold bind at 1.
  destruct (get session "id") as [[id l0] | error] eqn:Hid; [| discriminate].
  pose proof (pushesNothing_get session _ _ _ Hid) as ->.
  unfold bind, push.
  match goal with
  | |- context [Prompt.section ?name ?fn] =>
      destruct (Prompt.section name fn) as [[[] meta] | error]; [| discriminate]
  end.
  match goal with
  | |- context [Prompt.section ?name ?fn] =>
      destruct (Prompt.section name fn) as [[[] elements] | error]; [| discriminate]
  end.
  intros H. injection H as <-.
  exists json, id, (meta ++ elements). cbn [app].
  rewrite <- !app_assoc. auto.
Qed.

(** An object's JSON text lists the properties whose value is not
    [undefined]; [null] stays. *)
Lemma stringify_object props :
  stringifyForPrompt shortestDecimal (JObject props) false
  = Some (js "{" ++
          join (js ",")
            (omap (fun prop =>
                     match stringifyForPrompt shortestDecimal (snd prop) false with
                     | Some text => Some (quote (fst prop) ++ js ":" ++ text)
                     | None => None
                     end) props)
          ++ js "}").
Proof. reflexivity. Qed.

Lemma stringify_undefined_omitted before key after :
  stringifyForPrompt shortestDecimal
    (JObject (before ++ (key, JUndefined) :: after)) false
  = stringifyForPrompt shortestDecimal (JObject (before ++ after)) false.
Proof.
  rewrite !stringify_object. do 3 f_equal.
  rewrite !omap_app. reflexivity.
Qed.

Lemma stringify_null_retained before key after :
  stringifyForPrompt shortestDecimal
    (JObject (before ++ (key, JNull) :: after)) false
  = Some (js "{" ++
          join (js ",")
            (omap (fun prop =>
                     match stringifyForPrompt shortestDecimal (snd prop) false with
                     | Some text => Some (quote (fst prop) ++ js ":" ++ text)
                     | None => None
                     end) before
             ++ (quote key ++ js ":null")
             :: omap (fun prop =>
                     match stringifyForPrompt shortestDecimal (snd prop) false with
                     | Some text => Some (quote (fst prop) ++ js ":" ++ text)
                     | None => None
                     end) after)
          ++ js "}").
Proof. rewrite stringify_object, omap_app. reflexivity. Qed.

Lemma render_of_lines (m : Lines unit) lines :
  m = Returns (tt, lines) -> joinLines m = Returns (join [10] lines).
Proof. intros ->. reflexivity. Qed.

Lemma lines_of_render (m : Lines unit) text :
  joinLines m = Returns text ->
  exists lines, m = Returns (tt, lines) /\ text = join [10] lines.
Proof.
  destruct m as [[[] lines] | error]; [| discriminate].
  intros H. injection H as <-. eauto.
Qed.

(** Each element of a session is rendered by the element renderer, and
    its text is the line between the element's two markers. *)
Lemma forEachElement_lines contexts : forall idx lines,
  forEachElement shortestDecimal idx contexts = Returns (tt, lines) ->
  forall i context, contexts !! i = Some context ->
  exists text,
    renderElementContextPrompt shortestDecimal context = Returns text
    /\ lines !! (3 * i)%nat
       = Some (js "[element:" ++ natToString (idx + i) ++ js "]")
    /\ lines !! (3 * i + 1)%nat = Some text.
Proof.
  induction contexts as [| ctx rest IH]; intros idx lines Hrun i context Hi.
  - rewrite lookup_nil in Hi. discriminate.
  - cbn [forEachElement] in Hrun. unfold bind, push in Hrun.
    destruct (renderElementContextPrompt shortestDecimal ctx)
      as [text | error] eqn:Hctx; [| discriminate].
    destruct (forEachElement shortestDecimal (S idx) rest)
      as [[[] more] | error] eqn:Hrest; [| discriminate].
    injection Hrun as <-.
    destruct i as [| i].
    + injection Hi as <-. exists text.
      rewrite Nat.add_0_r. auto.
    + destruct (IH _ _ Hrest i context Hi) as (text' & Hrender & Hopen & Htext).
      exists text'. split; [exact Hrender |].
      replace (3 * S i)%nat with (3 + 3 * i)%nat by lia.
      replace (3 + 3 * i + 1)%nat with (3 + (3 * i + 1))%nat by lia.
      replace (idx + S i)%nat with (S idx + i)%nat by lia.
      cbn [app]. auto.
Qed.

End PromptSerializer.

Section PromptClaims.
Import Schema Prompt ChecksumSpec Samples.

(** C8: the checksum of a string is the unsigned hexadecimal rendering
    of the left fold [hash := (hash * 31 + charCode) mod 2^32] over its
    characters.  The checksum in the opening and closing markers of a
    rendered element, and of a rendered session, is this function at
    the JSON text of the whole record, in which a property whose value
    is [undefined] is left out and a [null] is written. *)
Theorem promptChecksum_of_canonical_json
  (shortestDecimal : Q -> jsstring) (input : jsstring)
  (context session : jsval) :
  (promptChecksum input = toStringRadix 16 (rolling_hash input)
   /\ 0 <= rolling_hash input < 2 ^ 32
   /\ hex_value (promptChecksum input) = rolling_hash input)
  /\ (forall text,
        renderElementContextPrompt shortestDecimal context = Returns text ->
        exists json selectionId body,
          stringifyForPrompt shortestDecimal context false = Some json
          /\ text = join [10]
                      (selectionOpening selectionId (promptChecksum json)
                       :: body
                       ++ [selectionClosing selectionId (promptChecksum json)]))
  /\ (forall text,
        renderSessionPrompt shortestDecimal session = Returns text ->
        exists json id body,
          stringifyForPrompt shortestDecimal session false = Some json
          /\ text = join [10]
                      (sessionOpening id (promptChecksum json)
                       :: body ++ [sessionClosing id (promptChecksum json)]))
  /\ (forall before key after,
        stringifyForPrompt shortestDecimal
          (JObject (before ++ (key, JUndefined) :: after)) false
        = stringifyForPrompt shortestDecimal (JObject (before ++ after)) false)
  /\ (forall key,
        stringifyForPrompt shortestDecimal (JObject [(key, JNull)]) false
        = Some (js "{" ++ quote key ++ js ":null}")).
Proof.
  split_and!.
  - apply promptChecksum_rolling_hash.
  - apply rolling_hash_range.
  - apply rolling_hash_range.
  - rewrite promptChecksum_rolling_hash. apply hex_value_toString.
    apply rolling_hash_range.
  - intros text Hrender.
    apply lines_of_render in Hrender as (lines & Hlines & ->).
    apply elementLines_markers in Hlines as (json & selectionId & body & Hjson & _ & ->).
    eauto.
  - intros text Hrender.
    apply lines_of_render in Hrender as (lines & Hlines & ->).
    apply sessionLines_markers in Hlines as (json & id & body & Hjson & _ & ->).
    eauto.
  - apply stringify_undefined_omitted.
  - intros key. rewrite stringify_object.
    cbn [omap list_omap snd fst stringifyForPrompt serializeJSONProperty join].
    f_equal. rewrite <- !app_assoc. reflexivity.
Qed.

Lemma promptChecksum_of_canonical_json_witness :
  exists json selectionId body,
    stringifyForPrompt halves buttonContext false = Some json
    /\ renderElementContextPrompt halves buttonContext
       = Returns (join [10]
                    (selectionOpening selectionId (promptChecksum json)
                     :: body
                     ++ [selectionClosing selectionId (promptChecksum json)])).
Proof.
  destruct (renderElementContextPrompt halves buttonContext) as [text | error] eqn:Hrender.
  - destruct (proj1 (proj2 (promptChecksum_of_canonical_json halves [] buttonContext
                              buttonSession)) text Hrender)
      as (json & selectionId & body & Hjson & ->).
    exists json, selectionId, body. split; [exact Hjson | reflexivity].
  - exfalso. vm_compute in Hrender. discriminate.
Defined.

(** C2: the element renderer and the session renderer are functions of
    the record alone: they read no clock, counter or earlier output and
    leave the record as it is, so two applications to the same record
    give the same string.  Inside a session every element is rendered by
    the element renderer, so a record that occurs twice in a session
    appears as the same text both times. *)
Theorem serializer_idempotent
  (shortestDecimal : Q -> jsstring) (context session : jsval) :
  (let first := renderElementContextPrompt shortestDecimal context in
   let second := renderElementContextPrompt shortestDecimal context in
   first = second)
  /\ (let first := renderSessionPrompt shortestDecimal session in
      let second := renderSessionPrompt shortestDecimal session in
      first = second)
  /\ (forall contexts idx lines i j,
        forEachElement shortestDecimal idx contexts = Returns (tt, lines) ->
        contexts !! i = Some context -> contexts !! j = Some context ->
        exists text,
          renderElementContextPrompt shortestDecimal context = Returns text
          /\ lines !! (3 * i + 1)%nat = Some text
          /\ lines !! (3 * j + 1)%nat = Some text).
Proof.
  split; [reflexivity |]. split; [reflexivity |].
  intros contexts idx lines i j Hrun Hi Hj.
  destruct (forEachElement_lines shortestDecimal contexts idx lines Hrun i context Hi)
    as (text & Hrender & _ & Htext).
  destruct (forEachElement_lines shortestDecimal contexts idx lines Hrun j context Hj)
    as (text' & Hrender' & _ & Htext').
  exists text. rewrite Hrender in Hrender'. injection Hrender' as <-. auto.
Qed.

Lemma serializer_idempotent_witness :
  exists lines text,
    forEachElement halves 0%nat [buttonContext; buttonContext] = Returns (tt, lines)
    /\ renderElementContextPrompt halves buttonContext = Returns text
    /\ lines !! 1%nat = Some text
    /\ lines !! 4%nat = Some text.
Proof.
  destruct (forEachElement halves 0%nat [buttonContext; buttonContext])
    as [[[] lines] | error] eqn:Hrun.
  - destruct (proj2 (proj2 (serializer_idempotent halves buttonContext buttonSession))
                [buttonContext; buttonContext] 0%nat lines 0%nat 1%nat Hrun
                eq_refl eq_refl)
      as (text & Hrender & H1 & H4).
    exists lines, text. auto.
  - exfalso. vm_compute in Hrun. discriminate.
Defined.

End PromptClaims.

(** ** Serializable values *)

Section SerializableValues.
Import JS Schema Values ValueShape.

Lemma arrayLoop_length convert items : forall i out,
  0 <= i ->
  (length (arrayLoop convert items i out) <= length out + Z.to_nat (5 - i))%nat.
Proof.
  induction items as [| item rest IH]; intros i out Hi; cbn [arrayLoop]; [lia |].
  destruct (Z.ltb_spec i 5); [| lia].
  destruct (convert item).
  - specialize (IH (i + 1) (out ++ [j])). rewrite length_app in IH. cbn in IH. lia.
  - specialize (IH (i + 1) out). lia.
Qed.

Lemma arrayLoop_Forall convert (Q : jsval -> Prop) items : forall i out,
  (forall v c, convert v = Some c -> Q c) ->
  Forall Q out -> Forall Q (arrayLoop convert items i out).
Proof.
  induction items as [| item rest IH]; intros i out Hc Hout; cbn [arrayLoop];
    [exact Hout |].
  destruct (i <? 5); [| exact Hout].
  destruct (convert item) eqn:Hitem.
  - apply IH; [exact Hc |]. apply Forall_app. split; [exact Hout |].
    constructor; [eauto | constructor].
  - apply IH; assumption.
Qed.

Lemma keysOf_replaceOwn {A} key (value : A) props :
  keysOf (replaceOwn key value props) = keysOf props.
Proof.
  induction props as [| [k v] rest IH]; [reflexivity |].
  cbn [replaceOwn]. destruct (bool_decide (k = key)); cbn; [reflexivity |].
  unfold keysOf in IH. rewrite IH. reflexivity.
Qed.

Lemma length_replaceOwn {A} key (value : A) props :
  length (replaceOwn key value props) = length props.
Proof.
  rewrite <- (length_map fst (replaceOwn key value props)).
  fold (keysOf (replaceOwn key value props)).
  rewrite keysOf_replaceOwn. apply length_map.
Qed.

Lemma length_insertIndex {A} n key (value : A) props :
  length (insertIndex n key value props) = S (length props).
Proof.
  induction props as [| [k v] rest IH]; [reflexivity |].
  cbn [insertIndex]. destruct (arrayIndex k) as [m |]; [| reflexivity].
  destruct (m <? n); cbn; [rewrite IH |]; reflexivity.
Qed.

Lemma assign_length {A} props key (value : A) :
  (length (assign props key value) <= S (length props))%nat.
Proof.
  unfold assign. destruct (bool_decide _); [lia |].
  destruct (hasOwn key props); [rewrite length_replaceOwn; lia |].
  destruct (arrayIndex key).
  - rewrite length_insertIndex. lia.
  - rewrite length_app. cbn. lia.
Qed.

Lemma Forall_replaceOwn {A} (Q : A -> Prop) key value props :
  Q value -> Forall (fun p => Q p.2) props ->
  Forall (fun p => Q p.2) (replaceOwn key value props).
Proof.
  intros Hv. induction 1 as [| [k v] rest Hk Hrest IH]; cbn [replaceOwn];
    [constructor |].
  destruct (bool_decide (k = key)); constructor; auto.
Qed.

Lemma Forall_insertIndex {A} (Q : A -> Prop) n key value props :
  Q value -> Forall (fun p => Q p.2) props ->
  Forall (fun p => Q p.2) (insertIndex n key value props).
Proof.
  intros Hv. induction 1 as [| [k v] rest Hk Hrest IH]; cbn [insertIndex].
  - constructor; [exact Hv | constructor].
  - destruct (arrayIndex k) as [m |].
    + destruct (m <? n); constructor; auto.
    + constructor; auto.
Qed.

Lemma assign_Forall {A} (Q : A -> Prop) props key value :
  Q value -> Forall (fun p => Q p.2) props ->
  Forall (fun p => Q p.2) (assign props key value).
Proof.
  intros Hv Hprops. unfold assign. destruct (bool_decide _); [exact Hprops |].
  destruct (hasOwn key props); [apply Forall_replaceOwn; assumption |].
  destruct (arrayIndex key).
  - apply Forall_insertIndex; assumption.
  - apply Forall_app. split; [exact Hprops |]. constructor; [exact Hv | constructor].
Qed.

Lemma objectLoop_length convert entries : forall count out,
  (length (objectLoop convert entries count out)
   <= length out + Z.to_nat (8 - count))%nat.
Proof.
  induction entries as [| [key v] rest IH]; intros count out; cbn [objectLoop];
    [lia |].
  destruct (Z.geb_spec count 8); [lia |].
  destruct (convert v) as [converted |].
  - specialize (IH (count + 1) (assign out key converted)).
    pose proof (assign_length out key converted). lia.
  - specialize (IH count out). lia.
Qed.

Lemma objectLoop_Forall convert (Q : jsval -> Prop) entries : forall count out,
  (forall v c, convert v = Some c -> Q c) ->
  Forall (fun p => Q p.2) out ->
  Forall (fun p => Q p.2) (objectLoop convert entries count out).
Proof.
  induction entries as [| [key v] rest IH]; intros count out Hc Hout;
    cbn [objectLoop]; [exact Hout |].
  destruct (count >=? 8); [exact Hout |].
  destruct (convert v) as [converted |] eqn:Hv.
  - apply IH; [exact Hc |]. apply assign_Forall; eauto.
  - apply IH; assumption.
Qed.

Lemma toSerializableValue_deep value depth :
  2 < depth -> toSerializableValue value depth = None.
Proof.
  intros Hd. destruct value; cbn [toSerializableValue];
    destruct (Z.gtb_spec depth 2); try reflexivity; lia.
Qed.

(** Decimal numerals. *)

Lemma decimalValue_from s : forall acc,
  fold_left (fun a c => a * 10 + (c - 48)) s acc
  = acc * 10 ^ Z.of_nat (length s) + decimalValue s.
Proof.
  unfold decimalValue.
  induction s as [| c rest IH]; intros acc; cbn [fold_left length].
  - rewrite Z.pow_0_r. lia.
  - rewrite IH, (IH (0 * 10 + (c - 48))).
    rewrite Nat2Z.inj_succ, Z.pow_succ_r by lia. ring.
Qed.

Lemma decimalValue_cons c rest :
  decimalValue (c :: rest)
  = (c - 48) * 10 ^ Z.of_nat (length rest) + decimalValue rest.
Proof.
  unfold decimalValue at 1. cbn [fold_left]. rewrite decimalValue_from. ring.
Qed.

Lemma isDigit_range c : isDigit c = true -> 0 <= c - 48 <= 9.
Proof. unfold isDigit. rewrite andb_true_iff, !Z.leb_le. lia. Qed.

Lemma decimalValue_range s :
  forallb isDigit s = true -> 0 <= decimalValue s < 10 ^ Z.of_nat (length s).
Proof.
  induction s as [| c rest IH]; [cbn; lia |].
  cbn [forallb]. rewrite andb_true_iff. intros [Hc Hrest].
  specialize (IH Hrest). apply isDigit_range in Hc.
  rewrite decimalValue_cons. cbn [length].
  rewrite Nat2Z.inj_succ, Z.pow_succ_r by lia. nia.
Qed.

Lemma decimalValue_same_length : forall s t,
  length s = length t ->
  forallb isDigit s = true -> forallb isDigit t = true ->
  decimalValue s = decimalValue t -> s = t.
Proof.
  induction s as [| c s IH]; intros [| d t] Hlen Hs Ht Hv;
    try discriminate; [reflexivity |].
  cbn [forallb] in Hs, Ht. apply andb_true_iff in Hs as [Hc Hs].
  apply andb_true_iff in Ht as [Hd Ht].
  injection Hlen as Hlen.
  rewrite !decimalValue_cons, Hlen in Hv.
  pose proof (decimalValue_range s Hs) as Rs.
  pose proof (decimalValue_range t Ht) as Rt.
  rewrite Hlen in Rs.
  apply isDigit_range in Hc, Hd.
  assert (c = d) by nia. subst d.
  f_equal. apply IH; try assumption. lia.
Qed.

Lemma arrayIndex_canonical key n :
  arrayIndex key = Some n ->
  forallb isDigit key = true
  /\ n = decimalValue key
  /\ (0 < length key)%nat
  /\ (length key = 1%nat \/ 10 ^ (Z.of_nat (length key) - 1) <= n).
Proof.
  unfold arrayIndex. destruct key as [| c rest]; [discriminate |].
  destruct (forallb isDigit (c :: rest)) eqn:Hdigits; [| discriminate].
  cbn [andb].
  destruct (negb (c =? 48) || (length rest =? 0)%nat) eqn:Hlead; [| discriminate].
  cbn [andb]. destruct (decimalValue (c :: rest) <=? 4294967294); [| discriminate].
  intros [= <-]. split; [reflexivity |]. split; [reflexivity |].
  split; [cbn; lia |].
  apply orb_true_iff in Hlead as [Hc | Hlen].
  - right. apply negb_true_iff, Z.eqb_neq in Hc.
    cbn [forallb] in Hdigits. apply andb_true_iff in Hdigits as [Hd Hrest].
    apply isDigit_range in Hd.
    pose proof (decimalValue_range rest Hrest).
    rewrite decimalValue_cons. cbn [length].
    replace (Z.of_nat (S (length rest)) - 1) with (Z.of_nat (length rest)) by lia.
    nia.
  - left. apply Nat.eqb_eq in Hlen. cbn. lia.
Qed.

Lemma arrayIndex_inj k1 k2 n :
  arrayIndex k1 = Some n -> arrayIndex k2 = Some n -> k1 = k2.
Proof.
  intros H1 H2.
  apply arrayIndex_canonical in H1 as (D1 & V1 & P1 & L1).
  apply arrayIndex_canonical in H2 as (D2 & V2 & P2 & L2).
  pose proof (decimalValue_range k1 D1) as R1.
  pose proof (decimalValue_range k2 D2) as R2.
  apply decimalValue_same_length; try assumption; [| congruence].
  rewrite <- V1 in R1. rewrite <- V2 in R2.
  assert (Hmono : forall a b : nat, (a < b)%nat ->
            10 ^ Z.of_nat a <= 10 ^ (Z.of_nat b - 1)).
  { intros a b Hab. apply Z.pow_le_mono_r; lia. }
  destruct (Nat.lt_trichotomy (length k1) (length k2)) as [Hlt | [Heq | Hgt]];
    [| exact Heq |].
  - exfalso. pose proof (Hmono _ _ Hlt).
    destruct L2 as [L2 | L2]; [| lia].
    lia.
  - exfalso. pose proof (Hmono _ _ Hgt).
    destruct L1 as [L1 | L1]; [| lia].
    lia.
Qed.


(** Own properties in enumeration order. *)

Lemma hasOwn_keysOf {A} key (props : list (jsstring * A)) :
  hasOwn key props = true <-> key ∈ keysOf props.
Proof.
  unfold hasOwn, keysOf. induction props as [| [k v] rest IH]; cbn.
  - split; [discriminate | intros H; inversion H].
  - rewrite orb_true_iff, IH, elem_of_cons, bool_decide_eq_true.
    split; intros [-> | H]; auto.
Qed.

Lemma inOrder_app l r : inOrder (l ++ r) -> inOrder l.
Proof.
  induction l as [| k l IH]; [intros _; exact I |].
  cbn. intros [Hk Hl]. split; [| auto].
  apply Forall_app in Hk. tauto.
Qed.

Lemma inOrder_snoc l x : inOrder (l ++ [x]) -> Forall (fun k => before k x) l.
Proof.
  induction l as [| k l IH]; [constructor |].
  cbn. intros [Hk Hl]. constructor; [| auto].
  apply Forall_app in Hk as [_ Hx]. inversion Hx. assumption.
Qed.

Lemma ordered_app {A} (l r : list (jsstring * A)) : ordered (l ++ r) -> ordered l.
Proof.
  unfold ordered, keysOf. rewrite map_app. intros (Ho & Hn & Hp).
  split; [eapply inOrder_app; exact Ho |].
  split; [apply list.NoDup_app in Hn; tauto |].
  intros Hin. apply Hp, elem_of_app. auto.
Qed.

Lemma insertIndex_keys {A} n key (value : A) props k' :
  k' ∈ keysOf (insertIndex n key value props) <-> k' = key \/ k' ∈ keysOf props.
Proof.
  unfold keysOf. induction props as [| [k v] rest IH]; cbn [insertIndex].
  - cbn. rewrite list_elem_of_singleton. split; [auto | intros [H | H]; [auto | inversion H]].
  - destruct (arrayIndex k) as [m |]; [destruct (m <? n) |]; cbn [map fst];
      rewrite ?elem_of_cons, ?IH; cbn [map fst]; rewrite ?elem_of_cons; tauto.
Qed.

Lemma insertIndex_inOrder {A} n key (value : A) props :
  arrayIndex key = Some n -> key ∉ keysOf props ->
  inOrder (keysOf props) -> inOrder (keysOf (insertIndex n key value props)).
Proof.
  intros Hkey. induction props as [| [k v] rest IH]; intros Hnew Hord.
  - cbn. split; [constructor | exact I].
  - cbn [keysOf map fst] in Hnew, Hord. fold (keysOf rest) in Hnew, Hord.
    apply not_elem_of_cons in Hnew as [Hk Hrest].
    destruct Hord as [Hall Hord].
    cbn [insertIndex].
    destruct (arrayIndex k) as [m |] eqn:Hm; [destruct (Z.ltb_spec m n) |].
    + cbn [keysOf map fst]. fold (keysOf (insertIndex n key value rest)).
      split; [| auto].
      apply list.Forall_forall. intros k' Hk'.
      apply insertIndex_keys in Hk' as [-> | Hk'].
      * unfold before. rewrite Hm, Hkey. exact H.
      * rewrite list.Forall_forall in Hall. auto.
    + cbn [keysOf map fst]. fold (keysOf rest).
      assert (n < m).
      { destruct (Z.eq_dec m n) as [-> |]; [| lia].
        exfalso. apply Hk. eapply arrayIndex_inj; eassumption. }
      split; [| split; assumption].
      constructor.
      * unfold before. rewrite Hkey, Hm. assumption.
      * eapply list.Forall_impl; [exact Hall |]. intros k'. unfold before.
        rewrite Hm, Hkey. destruct (arrayIndex k'); [lia | trivial].
    + cbn [keysOf map fst]. fold (keysOf rest).
      split; [| split; assumption].
      constructor.
      * unfold before. rewrite Hkey, Hm. exact I.
      * eapply list.Forall_impl; [exact Hall |]. intros k'. unfold before.
        rewrite Hm, Hkey. destruct (arrayIndex k'); [intros [] | trivial].
Qed.

Lemma insertIndex_NoDup {A} n key (value : A) props :
  key ∉ keysOf props -> NoDup (keysOf props) ->
  NoDup (keysOf (insertIndex n key value props)).
Proof.
  induction props as [| [k v] rest IH]; intros Hnew Hnd.
  - cbn. apply list.NoDup_cons. split; [intros H; inversion H | constructor].
  - cbn [keysOf map fst] in Hnew, Hnd. fold (keysOf rest) in Hnew, Hnd.
    apply not_elem_of_cons in Hnew as [Hk Hrest].
    apply list.NoDup_cons in Hnd as [Hkr Hnd].
    cbn [insertIndex].
    destruct (arrayIndex k) as [m |]; [destruct (m <? n) |];
      cbn [keysOf map fst]; fold (keysOf rest);
      fold (keysOf (insertIndex n key value rest)).
    + apply list.NoDup_cons. split; [| auto].
      rewrite insertIndex_keys. intros [-> | H]; [apply Hk; reflexivity | auto].
    + apply list.NoDup_cons. split.
      * rewrite elem_of_cons. intros [-> | H]; [apply Hk; reflexivity | auto].
      * apply list.NoDup_cons. auto.
    + apply list.NoDup_cons. split.
      * rewrite elem_of_cons. intros [-> | H]; [apply Hk; reflexivity | auto].
      * apply list.NoDup_cons. auto.
Qed.

Lemma inOrder_snoc_intro l x :
  inOrder l -> Forall (fun k => before k x) l -> inOrder (l ++ [x]).
Proof.
  induction l as [| k l IH]; cbn.
  - intros _ _. split; [constructor | exact I].
  - intros [Hk Hl] Hx. inversion Hx; subst. split; [| auto].
    apply Forall_app. split; [exact Hk |]. constructor; [assumption | constructor].
Qed.

Lemma assign_ordered {A} (props : list (jsstring * A)) key value :
  ordered props -> ordered (assign props key value).
Proof.
  intros (Ho & Hn & Hp). unfold assign.
  destruct (bool_decide (key = js "__proto__")) eqn:Hproto; [repeat split; assumption |].
  apply bool_decide_eq_false in Hproto.
  destruct (hasOwn key props) eqn:Hown.
  - unfold ordered. rewrite keysOf_replaceOwn. repeat split; assumption.
  - assert (Hnew : key ∉ keysOf props).
    { rewrite <- hasOwn_keysOf, Hown. discriminate. }
    destruct (arrayIndex key) as [n |] eqn:Hkey.
    + split; [apply insertIndex_inOrder; assumption |].
      split; [apply insertIndex_NoDup; assumption |].
      rewrite insertIndex_keys. intros [H | H]; [congruence | auto].
    + unfold ordered, keysOf. rewrite map_app. cbn [map fst].
      fold (keysOf props). split; [| split].
      * apply inOrder_snoc_intro; [exact Ho |].
        apply list.Forall_forall. intros k Hk. unfold before. rewrite Hkey.
        destruct (arrayIndex k); exact I.
      * apply list.NoDup_app. split; [exact Hn |]. split.
        -- intros k Hk Hin. apply list_elem_of_singleton in Hin. subst. auto.
        -- apply list.NoDup_cons. split; [intros H; inversion H | constructor].
      * rewrite elem_of_app, list_elem_of_singleton. intros [H | H]; [auto | congruence].
Qed.

Lemma insertIndex_last {A} n key (value : A) props :
  Forall (fun k => exists m, arrayIndex k = Some m /\ m < n) (keysOf props) ->
  insertIndex n key value props = props ++ [(key, value)].
Proof.
  induction props as [| [k v] rest IH]; [reflexivity |].
  cbn [keysOf map fst]. fold (keysOf rest). intros Hall.
  inversion Hall as [| ? ? (m & Hm & Hlt) Hrest]; subst.
  cbn [insertIndex]. rewrite Hm.
  destruct (Z.ltb_spec m n); [| lia]. rewrite IH by assumption. reflexivity.
Qed.

Lemma assign_snoc {A} (props : list (jsstring * A)) key value :
  ordered (props ++ [(key, value)]) ->
  assign props key value = props ++ [(key, value)].
Proof.
  unfold ordered, keysOf. rewrite map_app. cbn [map fst]. fold (keysOf props).
  intros (Ho & Hn & Hp).
  unfold assign.
  rewrite bool_decide_eq_false_2.
  2:{ intros ->. apply Hp, elem_of_app. right. apply list_elem_of_singleton. reflexivity. }
  assert (Hnew : key ∉ keysOf props).
  { apply list.NoDup_app in Hn as (_ & Hdisj & _). intros Hin.
    apply (Hdisj key Hin), list_elem_of_singleton. reflexivity. }
  destruct (hasOwn key props) eqn:Hown.
  { exfalso. apply Hnew, hasOwn_keysOf, Hown. }
  destruct (arrayIndex key) as [n |] eqn:Hkey; [| reflexivity].
  apply insertIndex_last.
  apply inOrder_snoc in Ho.
  eapply list.Forall_impl; [exact Ho |]. intros k. unfold before. rewrite Hkey.
  destruct (arrayIndex k) as [m |]; [eauto | intros []].
Qed.

Lemma objectLoop_ordered convert entries : forall count out,
  ordered out -> ordered (objectLoop convert entries count out).
Proof.
  induction entries as [| [key v] rest IH]; intros count out Hout;
    cbn [objectLoop]; [exact Hout |].
  destruct (count >=? 8); [exact Hout |].
  destruct (convert v); [apply IH, assign_ordered, Hout | apply IH, Hout].
Qed.

Lemma ordered_nil {A} : ordered (@nil (jsstring * A)).
Proof. split; [exact I |]. split; [constructor | intros H; inversion H]. Qed.

Lemma toSerializableValue_stable room : forall value depth v,
  depth = 3 - Z.of_nat room ->
  toSerializableValue value depth = Some v -> stable room v.
Proof.
  induction room as [| room IH]; intros value depth v Hd Hv.
  - rewrite toSerializableValue_deep in Hv by lia. discriminate.
  - assert (Hnext : forall x c,
              toSerializableValue x (depth + 1) = Some c -> stable room c).
    { intros x c. apply IH. lia. }
    destruct value; cbn [toSerializableValue] in Hv;
      destruct (depth >? 2); try discriminate; injection Hv as <-;
      cbn [stable]; try exact I.
    + split.
      * pose proof (arrayLoop_length
                      (fun x => toSerializableValue x (depth + 1)) items 0 []).
        cbn in H. lia.
      * apply arrayLoop_Forall; [exact Hnext | constructor].
    + split; [| split].
      * pose proof (objectLoop_length
                      (fun x => toSerializableValue x (depth + 1)) entries 0 []).
        cbn in H. lia.
      * apply objectLoop_ordered, ordered_nil.
      * apply (objectLoop_Forall _ (stable room)); [exact Hnext | constructor].
Qed.

Lemma stable_fits room : forall v, stable room v -> fits room v = true.
Proof.
  induction room as [| room IH]; intros v; [intros [] |].
  destruct v; cbn [stable fits]; try tauto.
  - intros [Hlen Hall]. apply andb_true_intro. split; [apply Nat.leb_le, Hlen |].
    apply forallb_forall, List.Forall_forall.
    eapply list.Forall_impl; [exact Hall | exact IH].
  - intros (Hlen & _ & Hall). apply andb_true_intro.
    split; [apply Nat.leb_le, Hlen |].
    apply forallb_forall, List.Forall_forall.
    eapply list.Forall_impl; [exact Hall |]. intros p. apply IH.
Qed.

Lemma arrayLoop_rebuild convert rest : forall i out,
  Forall (fun x => convert (embed x) = Some x) rest ->
  i = Z.of_nat (length out) -> (length (out ++ rest) <= 5)%nat ->
  arrayLoop convert (map embed rest) i out = out ++ rest.
Proof.
  induction rest as [| x rest IH]; intros i out Hall Hi Hlen; cbn [map arrayLoop].
  - rewrite app_nil_r. reflexivity.
  - inversion Hall as [| ? ? Hx Hrest]; subst.
    rewrite length_app in Hlen. cbn [length] in Hlen.
    destruct (Z.ltb_spec (Z.of_nat (length out)) 5); [| lia].
    rewrite Hx, IH; [rewrite <- app_assoc; reflexivity | assumption | |].
    + rewrite length_app. cbn. lia.
    + rewrite <- app_assoc, length_app. cbn. lia.
Qed.

Lemma objectLoop_rebuild convert rest : forall count out,
  Forall (fun p => convert (embed p.2) = Some p.2) rest ->
  ordered (out ++ rest) ->
  count = Z.of_nat (length out) -> (length (out ++ rest) <= 8)%nat ->
  objectLoop convert (map (fun p => (p.1, embed p.2)) rest) count out
  = out ++ rest.
Proof.
  induction rest as [| [k v] rest IH]; intros count out Hall Hord Hc Hlen;
    cbn [map objectLoop].
  - rewrite app_nil_r. reflexivity.
  - inversion Hall as [| ? ? Hx Hrest]; subst. cbn [fst snd] in *.
    rewrite length_app in Hlen. cbn [length] in Hlen.
    destruct (Z.geb_spec (Z.of_nat (length out)) 8); [lia |].
    rewrite Hx.
    replace (out ++ (k, v) :: rest) with ((out ++ [(k, v)]) ++ rest) in *
      by (rewrite <- app_assoc; reflexivity).
    rewrite assign_snoc by (eapply ordered_app; exact Hord).
    apply IH; try assumption.
    + rewrite length_app. cbn. lia.
    + rewrite !length_app. cbn. lia.
Qed.

Lemma stable_rebuild room : forall v depth,
  depth = 3 - Z.of_nat room -> stable room v ->
  toSerializableValue (embed v) depth = Some v.
Proof.
  induction room as [| room IH]; intros v depth Hd; [intros [] |].
  assert (Hdepth : (depth >? 2) = false) by (destruct (Z.gtb_spec depth 2); [lia | reflexivity]).
  destruct v; cbn [stable embed toSerializableValue]; rewrite ?Hdepth;
    try tauto; try reflexivity.
  - intros [Hlen Hall]. f_equal. f_equal.
    apply (arrayLoop_rebuild _ items 0 []); [| reflexivity | exact Hlen].
    eapply list.Forall_impl; [exact Hall |]. intros x. apply IH. lia.
  - intros (Hlen & Hord & Hall). f_equal. f_equal.
    apply (objectLoop_rebuild _ props 0 []); [| exact Hord | reflexivity | exact Hlen].
    eapply list.Forall_impl; [exact Hall |]. intros p. apply IH. lia.
Qed.

End SerializableValues.

Section SerializableClaims.
Import JS Schema Values ValueShape.

(** X1: what [toSerializableValue] returns at depth [depth] holds no
    [null] and no [undefined] at any level, nests at most [3 - depth]
    levels (the value itself counted), and has at most 5 items in every
    array and at most 8 properties in every object. *)
Theorem toSerializableValue_bounded (value : unknown) (depth : Z) (v : jsval)
  (Hv : toSerializableValue value depth = Some v) :
  fits (Z.to_nat (3 - depth)) v = true.
Proof.
  destruct (Z.gtb_spec depth 2) as [Hdeep | Hd].
  - rewrite toSerializableValue_deep in Hv by lia. discriminate.
  - apply stable_fits.
    apply (toSerializableValue_stable _ value depth); [lia | exact Hv].
Qed.

(** X2: converting again, at the same depth, what [toSerializableValue]
    returned gives the same value back, the order of the properties
    included. *)
Theorem toSerializableValue_idempotent (value : unknown) (depth : Z) (v : jsval)
  (Hv : toSerializableValue value depth = Some v) :
  toSerializableValue (embed v) depth = Some v.
Proof.
  destruct (Z.gtb_spec depth 2) as [Hdeep | Hd].
  - rewrite toSerializableValue_deep in Hv by lia. discriminate.
  - apply (stable_rebuild (Z.to_nat (3 - depth))); [lia |].
    apply (toSerializableValue_stable _ value depth); [lia | exact Hv].
Qed.

End SerializableClaims.

Section SerializableWitnesses.
Import JS Schema Values ValueShape.
Import PageSamples.

Lemma toSerializableValue_bounded_witness :
  exists v, toSerializableValue cardProps 0 = Some v /\ fits 3 v = true.
Proof.
  eexists. split; [vm_compute; reflexivity |].
  apply (toSerializableValue_bounded cardProps 0). vm_compute. reflexivity.
Defined.

Lemma toSerializableValue_idempotent_witness :
  exists v,
    toSerializableValue cardProps 0 = Some v
    /\ toSerializableValue (embed v) 0 = Some v.
Proof.
  eexists. split; [vm_compute; reflexivity |].
  apply (toSerializableValue_idempotent cardProps 0). vm_compute. reflexivity.
Defined.

End SerializableWitnesses.

(** ** The DOM neighbourhood *)

Section DomLemmas.
Import JS Schema Serializable Dom StringShape Values DomSummary.
Context {Element : Type} `{EqDecision Element}.
Variable dom : ElementApi (Element := Element).
Variable cssEscape : jsstring -> jsstring.

Lemma getDataTestId_value el t :
  getDataTestId dom el = Some t ->
  exists value,
    nullishOr (getAttribute dom el (js "data-testid"))
      (getAttribute dom el (js "data-test-id")) = Some value
    /\ t = trim value /\ t <> [].
Proof.
  unfold getDataTestId.
  destruct (nullishOr _ _) as [value |]; [| discriminate].
  cbv zeta. destruct (trim value) as [| c rest] eqn:Htrim; cbn; [discriminate |].
  intros [= <-]. exists value. split; [reflexivity |]. split; [congruence | discriminate].
Qed.

Lemma join_snoc sep pre x :
  join sep (pre ++ [x]) = match pre with [] => x | _ => join sep pre ++ sep ++ x end.
Proof.
  induction pre as [| p pre IH]; [reflexivity |].
  destruct pre as [| q pre]; [reflexivity |].
  change (join sep ((p :: q :: pre) ++ [x]))
    with (p ++ sep ++ join sep ((q :: pre) ++ [x])).
  rewrite IH. change (join sep (p :: q :: pre)) with (p ++ sep ++ join sep (q :: pre)).
  rewrite <- !app_assoc. reflexivity.
Qed.

Lemma endsWith_app pre x : endsWith (pre ++ x) x = true.
Proof.
  unfold endsWith. rewrite rev_app_distr. apply startsWith_spec. eauto.
Qed.

Lemma endsWith_join_snoc sep pre x : endsWith (join sep (pre ++ [x])) x = true.
Proof.
  rewrite join_snoc. destruct pre.
  - apply (endsWith_app [] x).
  - rewrite app_assoc. apply endsWith_app.
Qed.

Lemma ancestorLoop_app steps : forall current segments,
  ancestorLoop dom cssEscape steps current segments
  = ancestorLoop dom cssEscape steps current [] ++ segments.
Proof.
  induction steps as [| steps IH]; intros current segments; [reflexivity |].
  destruct current as [element |]; [| reflexivity].
  cbn [ancestorLoop]. rewrite IH.
  rewrite (IH _ [buildPreferredSelector dom cssEscape element]).
  rewrite <- app_assoc. reflexivity.
Qed.

Lemma ancestorLoop_first steps el :
  ancestorLoop dom cssEscape (S steps) (Some el) []
  = ancestorLoop dom cssEscape steps (parentElement dom el) []
    ++ [buildPreferredSelector dom cssEscape el].
Proof. cbn [ancestorLoop]. apply ancestorLoop_app. Qed.

Lemma parentsLoop_length steps : forall current parents,
  (length (parentsLoop dom steps current parents) <= steps + length parents)%nat.
Proof.
  induction steps as [| steps IH]; intros current parents; [cbn; lia |].
  destruct current as [parent |]; [| cbn; lia].
  cbn [parentsLoop]. specialize (IH (parentElement dom parent)
    (parents ++ [summarizeDomNode dom parent])).
  rewrite length_app in IH. cbn [length] in IH. lia.
Qed.

Lemma parentsLoop_app steps : forall current parents,
  parentsLoop dom steps current parents
  = parents ++ parentsLoop dom steps current [].
Proof.
  induction steps as [| steps IH]; intros current parents;
    [cbn; rewrite app_nil_r; reflexivity |].
  destruct current as [parent |]; [| cbn; rewrite app_nil_r; reflexivity].
  cbn [parentsLoop]. rewrite IH.
  rewrite (IH _ ([] ++ [summarizeDomNode dom parent])).
  rewrite <- app_assoc. reflexivity.
Qed.

Lemma parentsLoop_first steps parent :
  parentsLoop dom (S steps) (Some parent) []
  = summarizeDomNode dom parent
    :: parentsLoop dom steps (parentElement dom parent) [].
Proof. cbn [parentsLoop]. rewrite parentsLoop_app. reflexivity. Qed.

Lemma nthOfTypeLoop_found el before after : forall index,
  el ∉ before ->
  nthOfTypeLoop dom el (before ++ el :: after) index
  = index
    + Z.of_nat (length (filter (fun sibling => tagName dom sibling = tagName dom el)
                          before)).
Proof.
  induction before as [| sibling before IH]; intros index Hnew.
  - cbn. rewrite bool_decide_eq_true_2 by reflexivity. lia.
  - apply not_elem_of_cons in Hnew as [Hne Hnew].
    cbn [app nthOfTypeLoop].
    rewrite bool_decide_eq_false_2 by congruence.
    rewrite IH by assumption. rewrite filter_cons.
    destruct (decide (tagName dom sibling = tagName dom el)) as [Htag | Htag].
    + rewrite bool_decide_eq_true_2 by assumption. cbn [length]. lia.
    + rewrite bool_decide_eq_false_2 by assumption. lia.
Qed.

Lemma indexOfFrom_found (el : Element) before after : forall from,
  el ∉ before ->
  indexOfFrom el (before ++ el :: after) from = from + Z.of_nat (length before).
Proof.
  induction before as [| x before IH]; intros from Hnew.
  - cbn. rewrite bool_decide_eq_true_2 by reflexivity. lia.
  - apply not_elem_of_cons in Hnew as [Hne Hnew].
    cbn [app indexOfFrom]. rewrite bool_decide_eq_false_2 by congruence.
    rewrite IH by assumption. cbn [length]. lia.
Qed.

Lemma indexOfFrom_absent (el : Element) array : forall from,
  el ∉ array -> indexOfFrom el array from = -1.
Proof.
  induction array as [| x array IH]; intros from Hnew; [reflexivity |].
  apply not_elem_of_cons in Hnew as [Hne Hnew].
  cbn [indexOfFrom]. rewrite bool_decide_eq_false_2 by congruence.
  apply IH. assumption.
Qed.

Lemma ownProperty_replaceOwn {A} (props : list (jsstring * A)) key value key' :
  hasOwn key props = true ->
  ownProperty (replaceOwn key value props) key'
  = if bool_decide (key' = key) then Some value else ownProperty props key'.
Proof.
  induction props as [| [k v] rest IH]; [discriminate |].
  cbn [hasOwn existsb fst replaceOwn]. fold (hasOwn key rest).
  destruct (decide (k = key)) as [-> | Hk].
  - intros _. rewrite !bool_decide_eq_true_2 by reflexivity.
    cbn [ownProperty]. destruct (decide (key = key')) as [-> | Hne].
    + rewrite !bool_decide_eq_true_2 by reflexivity. reflexivity.
    + rewrite !bool_decide_eq_false_2 by congruence. reflexivity.
  - rewrite !bool_decide_eq_false_2 by assumption. cbn [orb]. intros Hown.
    cbn [ownProperty]. destruct (decide (k = key')) as [-> | Hne].
    + rewrite bool_decide_eq_true_2 by reflexivity.
      rewrite bool_decide_eq_false_2 by congruence. reflexivity.
    + rewrite bool_decide_eq_false_2 by assumption. apply IH, Hown.
Qed.

Lemma ownProperty_insertIndex {A} (props : list (jsstring * A)) n key value key' :
  hasOwn key props = false ->
  ownProperty (insertIndex n key value props) key'
  = if bool_decide (key' = key) then Some value else ownProperty props key'.
Proof.
  induction props as [| [k v] rest IH].
  - intros _. cbn. destruct (decide (key = key')) as [-> | Hne].
    + rewrite !bool_decide_eq_true_2 by reflexivity. reflexivity.
    + rewrite !bool_decide_eq_false_2 by congruence. reflexivity.
  - cbn [hasOwn existsb fst]. fold (hasOwn key rest).
    destruct (decide (k = key)) as [-> | Hk];
      [rewrite bool_decide_eq_true_2 by reflexivity; discriminate |].
    rewrite bool_decide_eq_false_2 by assumption. cbn [orb]. intros Hown.
    assert (Hfront :
      ownProperty ((key, value) :: (k, v) :: rest) key'
      = if bool_decide (key' = key) then Some value
        else ownProperty ((k, v) :: rest) key').
    { cbn [ownProperty]. destruct (decide (key = key')) as [-> | Hne].
      - rewrite !bool_decide_eq_true_2 by reflexivity. reflexivity.
      - rewrite (bool_decide_eq_false_2 (key = key')) by assumption.
        rewrite (bool_decide_eq_false_2 (key' = key)) by congruence. reflexivity. }
    cbn [insertIndex]. destruct (arrayIndex k) as [m |]; [| exact Hfront].
    destruct (m <? n); [| exact Hfront].
    cbn [ownProperty]. rewrite IH by assumption.
    destruct (decide (k = key')) as [-> | Hne].
    + rewrite bool_decide_eq_true_2 by reflexivity.
      rewrite bool_decide_eq_false_2 by congruence. reflexivity.
    + rewrite bool_decide_eq_false_2 by assumption. reflexivity.
Qed.

Lemma ownProperty_snoc {A} (props : list (jsstring * A)) key value key' :
  hasOwn key props = false ->
  ownProperty (props ++ [(key, value)]) key'
  = if bool_decide (key' = key) then Some value else ownProperty props key'.
Proof.
  induction props as [| [k v] rest IH].
  - intros _. cbn. destruct (decide (key = key')) as [-> | Hne].
    + rewrite !bool_decide_eq_true_2 by reflexivity. reflexivity.
    + rewrite !bool_decide_eq_false_2 by congruence. reflexivity.
  - cbn [hasOwn existsb fst]. fold (hasOwn key rest).
    destruct (decide (k = key)) as [-> | Hk];
      [rewrite bool_decide_eq_true_2 by reflexivity; discriminate |].
    rewrite bool_decide_eq_false_2 by assumption. cbn [orb]. intros Hown.
    cbn [app ownProperty]. rewrite IH by assumption.
    destruct (decide (k = key')) as [-> | Hne].
    + rewrite bool_decide_eq_true_2 by reflexivity.
      rewrite bool_decide_eq_false_2 by congruence. reflexivity.
    + rewrite bool_decide_eq_false_2 by assumption. reflexivity.
Qed.

(** Reading a property back after an assignment. *)
Lemma ownProperty_assign {A} (props : list (jsstring * A)) key value key' :
  key <> js "__proto__" ->
  ownProperty (assign props key value) key'
  = if bool_decide (key' = key) then Some value else ownProperty props key'.
Proof.
  intros Hproto. unfold assign. rewrite bool_decide_eq_false_2 by assumption.
  destruct (hasOwn key props) eqn:Hown.
  - apply ownProperty_replaceOwn, Hown.
  - destruct (arrayIndex key).
    + apply ownProperty_insertIndex, Hown.
    + apply ownProperty_snoc, Hown.
Qed.

Lemma countTag_loop rest : forall counted tagCounts,
  (forall child, child ∈ rest ->
     toLowerCase (tagName dom child) <> js "constructor"
     /\ toLowerCase (tagName dom child) <> js "__proto__") ->
  (forall tag, ownProperty tagCounts tag = countedEntry dom counted tag) ->
  forall tag,
    ownProperty (fold_left (countTag dom) rest tagCounts) tag
    = countedEntry dom (counted ++ rest) tag.
Proof.
  induction rest as [| child rest IH]; intros counted tagCounts Hplain Hinv tag.
  - rewrite app_nil_r. apply Hinv.
  - cbn [fold_left].
    replace (counted ++ child :: rest) with ((counted ++ [child]) ++ rest)
      by (rewrite <- app_assoc; reflexivity).
    apply IH.
    + intros c Hc. apply Hplain. apply elem_of_cons. auto.
    + clear tag. intros tag.
      destruct (Hplain child) as [Hctor Hproto]; [apply elem_of_cons; auto |].
      unfold countTag. rewrite ownProperty_assign by assumption.
      unfold readCount. rewrite !Hinv.
      rewrite (bool_decide_eq_false_2 _ Hctor), (bool_decide_eq_false_2 _ Hproto).
      cbn [orb].
      unfold countedEntry. rewrite !list.filter_app, !length_app, !filter_cons, !filter_nil.
      destruct (decide (tag = toLowerCase (tagName dom child))) as [-> | Hne].
      * rewrite bool_decide_eq_true_2 by reflexivity.
        rewrite decide_True by reflexivity. cbn [length].
        set (n := length (filter _ counted)).
        replace ((n + 1 =? 0)%nat) with false by (symmetry; apply Nat.eqb_neq; lia).
        destruct (Nat.eqb_spec n 0) as [-> | Hn]; cbn [plusOne]; f_equal; f_equal; lia.
      * rewrite bool_decide_eq_false_2 by assumption.
        rewrite decide_False by congruence. cbn [length].
        rewrite !Nat.add_0_r. reflexivity.
Qed.

End DomLemmas.

Section DomClaims.
Import JS Schema Serializable Dom StringShape Values DomSummary.
Context {Element : Type} `{EqDecision Element}.

(** X3: [getDataTestId] returns [null] or a non-empty string with no
    white space at either end: the trimmed value of [data-testid], or
    of [data-test-id] when [data-testid] is absent.  A blank
    [data-testid] gives [null] whatever [data-test-id] holds, and so
    do two absent attributes. *)
Theorem getDataTestId_never_blank
  (dom : ElementApi (Element := Element)) (el : Element) :
  (forall t, getDataTestId dom el = Some t ->
     t <> [] /\ starts_in_space t = false /\ ends_in_space t = false
     /\ exists value,
          t = trim value
          /\ (getAttribute dom el (js "data-testid") = Some value
              \/ (getAttribute dom el (js "data-testid") = None
                  /\ getAttribute dom el (js "data-test-id") = Some value)))
  /\ (forall value,
        getAttribute dom el (js "data-testid") = Some value ->
        trim value = [] -> getDataTestId dom el = None)
  /\ (getAttribute dom el (js "data-testid") = None ->
      getAttribute dom el (js "data-test-id") = None ->
      getDataTestId dom el = None).
Proof.
  split_and!.
  - intros t Ht. apply getDataTestId_value in Ht as (value & Hvalue & -> & Hne).
    split; [exact Hne |]. pose proof (trim_edges value) as [Hs He].
    split; [exact Hs |]. split; [exact He |].
    exists value. split; [reflexivity |].
    destruct (getAttribute dom el (js "data-testid")) as [v |]; cbn in Hvalue.
    + left. exact Hvalue.
    + right. split; [reflexivity | exact Hvalue].
  - intros value Hattr Hblank. unfold getDataTestId. rewrite Hattr. cbn [nullishOr].
    cbv zeta. rewrite Hblank. reflexivity.
  - intros Ha Hb. unfold getDataTestId. rewrite Ha, Hb. reflexivity.
Qed.

(** X4: the label of an element is its lower-case tag followed by
    [#id] (the id trimmed) when the id is not blank; otherwise by
    the test id [t] in a [data-testid] attribute selector when
    [getDataTestId] gives [t]; and it is the
    bare tag when the id is blank and both test-id attributes are
    absent. *)
Theorem formatElementLabel_prefers_id_then_test_id
  (dom : ElementApi (Element := Element)) (el : Element) :
  let tag := toLowerCase (tagName dom el) in
  (trim (elementId dom el) <> [] ->
   formatElementLabel dom el = tag ++ js "#" ++ trim (elementId dom el))
  /\ (trim (elementId dom el) = [] ->
      forall t, getDataTestId dom el = Some t ->
      formatElementLabel dom el
      = tag ++ js "[data-testid=" ++ DQUOTE ++ t ++ DQUOTE ++ js "]")
  /\ (trim (elementId dom el) = [] ->
      getAttribute dom el (js "data-testid") = None ->
      getAttribute dom el (js "data-test-id") = None ->
      formatElementLabel dom el = tag).
Proof.
  intros tag. unfold formatElementLabel. fold tag. split_and!.
  - intros Hid.
    destruct (elementId dom el) as [| c rest] eqn:Heq; [contradiction |].
    destruct (trim (c :: rest)) as [| d rest'] eqn:Htrim; [contradiction |].
    reflexivity.
  - intros Hid t Ht. rewrite Hid.
    replace ((0 <? length (elementId dom el))%nat && (0 <? length (@nil Z))%nat)
      with false by (rewrite andb_false_r; reflexivity).
    apply getDataTestId_value in Ht as (value & Hvalue & -> & Hne).
    assert (Hnonempty : exists c rest, value = c :: rest).
    { destruct value as [| c rest]; [contradiction | eauto]. }
    destruct Hnonempty as (c & rest & ->).
    assert (Hpick : truthyOr (getAttribute dom el (js "data-testid"))
                      (getAttribute dom el (js "data-test-id")) = Some (c :: rest)).
    { destruct (getAttribute dom el (js "data-testid")) as [v |]; cbn in Hvalue.
      - injection Hvalue as ->. reflexivity.
      - cbn. exact Hvalue. }
    rewrite Hpick.
    destruct (trim (c :: rest)) as [| d rest'] eqn:Htrim; [contradiction |].
    reflexivity.
  - intros Hid Ha Hb. rewrite Hid, Ha, Hb.
    rewrite andb_false_r. reflexivity.
Qed.

(** X5: for an element whose id is empty or holds a space, with no
    test id and no non-empty class, and with a parent, the preferred
    selector is [tag:nth-of-type(n)], where [n] is one more than the
    number of children of the parent that come before the element and
    have its tag name. *)
Theorem buildPreferredSelector_nth_of_type
  (dom : ElementApi (Element := Element)) (cssEscape : jsstring -> jsstring)
  (el parent : Element) (before after : list Element)
  (Hid : (0 <? length (elementId dom el))%nat
         && negb (includes (elementId dom el) (js " ")) = false)
  (Htest : getDataTestId dom el = None)
  (Hclasses : forall cls, cls ∈ classList dom el -> cls = [])
  (Hparent : parentElement dom el = Some parent)
  (Hchildren : children dom parent = before ++ el :: after)
  (Hfirst : el ∉ before) :
  buildPreferredSelector dom cssEscape el
  = toLowerCase (tagName dom el) ++ js ":nth-of-type("
    ++ integerText
         (1 + Z.of_nat
                (length (filter (fun sibling => tagName dom sibling = tagName dom el)
                           before)))
    ++ js ")".
Proof.
  unfold buildPreferredSelector. cbv zeta. rewrite Hid, Htest.
  match goal with
  | |- context [length (filter ?P (classList dom el))] =>
      assert (Hnone : filter P (classList dom el) = [])
  end.
  { induction (classList dom el) as [| cls rest IH]; [reflexivity |].
    rewrite filter_cons.
    rewrite (Hclasses cls) by (apply elem_of_cons; auto).
    rewrite decide_False by (cbn; lia).
    apply IH. intros c Hc. apply Hclasses, elem_of_cons. auto. }
  rewrite Hnone. cbn [length Nat.ltb Nat.leb]. rewrite Hparent, Hchildren.
  rewrite nthOfTypeLoop_found by assumption. reflexivity.
Qed.

(** X6: in a DOM neighbourhood [selectors.all] is the preferred
    selector followed by the ancestor path, and the path ends with the
    preferred selector; at most 4 parents are summarized, the nearest
    first; an element without parent has the preferred selector as its
    path and no parents. *)
Theorem buildDomNeighborhood_selectors
  (dom : ElementApi (Element := Element)) (cssEscape : jsstring -> jsstring)
  (el : Element) :
  let neighborhood := buildDomNeighborhood dom cssEscape el in
  let path := buildAncestorSelectorPath dom cssEscape el (MAX_PARENT_DEPTH + 1) in
  all (dom_selectors neighborhood)
  = [buildPreferredSelector dom cssEscape el; path]
  /\ preferred (dom_selectors neighborhood) = buildPreferredSelector dom cssEscape el
  /\ endsWith path (buildPreferredSelector dom cssEscape el) = true
  /\ (length (dom_parents neighborhood) <= 4)%nat
  /\ head (dom_parents neighborhood)
     = summarizeDomNode dom <$> parentElement dom el
  /\ (parentElement dom el = None ->
      path = buildPreferredSelector dom cssEscape el
      /\ dom_parents neighborhood = []).
Proof.
  cbv zeta. split_and!.
  - reflexivity.
  - reflexivity.
  - unfold buildAncestorSelectorPath.
    change (Z.to_nat (MAX_PARENT_DEPTH + 1)) with 5%nat.
    rewrite ancestorLoop_first. apply endsWith_join_snoc.
  - cbn [buildDomNeighborhood dom_parents].
    pose proof (parentsLoop_length dom (Z.to_nat MAX_PARENT_DEPTH)
                  (parentElement dom el) []) as Hlen.
    change (Z.to_nat MAX_PARENT_DEPTH) with 4%nat in *. cbn [length] in Hlen. lia.
  - cbn [buildDomNeighborhood dom_parents].
    change (Z.to_nat MAX_PARENT_DEPTH) with 4%nat.
    destruct (parentElement dom el) as [parent |]; [| reflexivity].
    rewrite parentsLoop_first. reflexivity.
  - intros Hroot. split.
    + unfold buildAncestorSelectorPath.
      change (Z.to_nat (MAX_PARENT_DEPTH + 1)) with 5%nat.
      rewrite ancestorLoop_first, Hroot. reflexivity.
    + cbn [buildDomNeighborhood dom_parents]. rewrite Hroot. reflexivity.
Qed.

(** X7: for an element with a parent, [index] is the position of the
    element among the children of the parent, [total] their number,
    and [previous] and [next] summarize the children next to it ([null]
    at either end).  Were the element not among the children, [index]
    would be -1 and both neighbours [null]. *)
Theorem summarizeSiblings_adjacent
  (dom : ElementApi (Element := Element)) (el parent : Element)
  (Hparent : parentElement dom el = Some parent) :
  (forall before after,
     children dom parent = before ++ el :: after -> el ∉ before ->
     summarizeSiblings dom el
     = {| sibling_index := Z.of_nat (length before);
          sibling_total := Z.of_nat (length before + 1 + length after);
          sibling_previous := summarizeDomNode dom <$> list.last before;
          sibling_next := summarizeDomNode dom <$> head after |})
  /\ (el ∉ children dom parent ->
      summarizeSiblings dom el
      = {| sibling_index := -1;
           sibling_total := Z.of_nat (length (children dom parent));
           sibling_previous := None;
           sibling_next := None |}).
Proof.
  split.
  - intros before after Hchildren Hfirst.
    unfold summarizeSiblings. rewrite Hparent, Hchildren. cbv zeta.
    unfold indexOf. rewrite indexOfFrom_found by assumption.
    rewrite Z.add_0_l. f_equal.
    + rewrite length_app. cbn [length]. f_equal. lia.
    + clear Hchildren Hfirst.
      induction before as [| b before' _] using rev_ind; [reflexivity |].
      rewrite length_app. cbn [length].
      destruct (Z.ltb_spec 0 (Z.of_nat (length before' + 1))); [| lia].
      rewrite last_snoc.
      replace (Z.to_nat (Z.of_nat (length before' + 1) - 1)) with (length before')
        by lia.
      rewrite <- app_assoc. rewrite lookup_app_r by lia.
      rewrite Nat.sub_diag. reflexivity.
    + rewrite length_app. cbn [length].
      destruct (Z.leb_spec 0 (Z.of_nat (length before))); [| lia]. cbn [andb].
      replace (Z.to_nat (Z.of_nat (length before) + 1)) with (S (length before)) by lia.
      rewrite lookup_app_r by lia.
      replace (S (length before) - length before)%nat with 1%nat by lia.
      destruct after as [| a after'].
      * cbn [length]. destruct (Z.ltb_spec (Z.of_nat (length before))
                                  (Z.of_nat (length before + 1) - 1)); [lia |].
        reflexivity.
      * cbn [length]. destruct (Z.ltb_spec (Z.of_nat (length before))
                                  (Z.of_nat (length before + S (S (length after'))) - 1));
          [| lia].
        reflexivity.
  - intros Habsent. unfold summarizeSiblings. rewrite Hparent. cbv zeta.
    unfold indexOf. rewrite indexOfFrom_absent by assumption. reflexivity.
Qed.

(** X8: when no child has the lower-case tag [constructor] or
    [__proto__], [tagCounts] holds for every tag the number of children
    with that lower-case tag and no entry for a tag that does not
    occur; [totalChildren] is the number of children and [samples]
    summarizes the first five of them. *)
Theorem summarizeChildren_counts
  (dom : ElementApi (Element := Element)) (el : Element)
  (Hplain : forall child, child ∈ children dom el ->
     toLowerCase (tagName dom child) <> js "constructor"
     /\ toLowerCase (tagName dom child) <> js "__proto__") :
  let summary := summarizeChildren dom el in
  totalChildren summary = Z.of_nat (length (children dom el))
  /\ (forall tag,
        ownProperty (tagCounts summary) tag
        = countedEntry dom (children dom el) tag)
  /\ samples summary = map (summarizeDomNode dom) (take 5 (children dom el))
  /\ length (samples summary) = Nat.min 5 (length (children dom el)).
Proof.
  cbv zeta. split_and!.
  - reflexivity.
  - intros tag. cbn [summarizeChildren tagCounts].
    apply (countTag_loop dom (children dom el) [] []); [exact Hplain |].
    intros t. reflexivity.
  - reflexivity.
  - cbn [summarizeChildren samples]. rewrite length_map, length_take.
    change (Z.to_nat MAX_CHILD_SAMPLES) with 5%nat. reflexivity.
Qed.

End DomClaims.

Section DomWitnesses.
Import JS Schema Serializable Dom StringShape Values DomSummary.
Import PageSamples.

Lemma buildPreferredSelector_nth_of_type_witness :
  buildPreferredSelector listPage (fun s => s) 3%nat = js "li:nth-of-type(2)".
Proof.
  apply (buildPreferredSelector_nth_of_type listPage (fun s => s) 3%nat 0%nat
           [1; 2]%nat []).
  - reflexivity.
  - reflexivity.
  - intros cls Hcls. cbn in Hcls. apply elem_of_nil in Hcls. destruct Hcls.
  - reflexivity.
  - reflexivity.
  - intros Hin. apply elem_of_cons in Hin as [Hin | Hin]; [discriminate |].
    apply elem_of_cons in Hin as [Hin | Hin]; [discriminate |].
    apply elem_of_nil in Hin. exact Hin.
Defined.

Lemma summarizeSiblings_adjacent_witness :
  summarizeSiblings listPage 2%nat
  = {| sibling_index := 1;
       sibling_total := 3;
       sibling_previous := Some (summarizeDomNode listPage 1%nat);
       sibling_next := Some (summarizeDomNode listPage 3%nat) |}.
Proof.
  apply (proj1 (summarizeSiblings_adjacent listPage 2%nat 0%nat eq_refl)
           [1]%nat [3]%nat).
  - reflexivity.
  - intros Hin. apply elem_of_cons in Hin as [Hin | Hin]; [discriminate |].
    apply elem_of_nil in Hin. exact Hin.
Defined.

Lemma summarizeChildren_counts_witness :
  totalChildren (summarizeChildren listPage 0%nat) = 3
  /\ ownProperty (tagCounts (summarizeChildren listPage 0%nat)) (js "li")
     = Some (Counted 2)
  /\ ownProperty (tagCounts (summarizeChildren listPage 0%nat)) (js "div")
     = None.
Proof.
  assert (Hplain : forall child, child ∈ children listPage 0%nat ->
            toLowerCase (tagName listPage child) <> js "constructor"
            /\ toLowerCase (tagName listPage child) <> js "__proto__").
  { intros child Hin. cbn in Hin.
    repeat (apply elem_of_cons in Hin as [-> | Hin]);
      [| | | apply elem_of_nil in Hin; destruct Hin];
      split; intros Heq; vm_compute in Heq; discriminate. }
  pose proof (summarizeChildren_counts listPage 0%nat Hplain) as Hcounts.
  cbv zeta in Hcounts.
  split_and!;
    [ exact (proj1 Hcounts)
    | exact (proj1 (proj2 Hcounts) (js "li"))
    | exact (proj1 (proj2 Hcounts) (js "div")) ].
Defined.

End DomWitnesses.

(** ** Hotkeys *)

Section HotkeyLemmas.
Import JS StringShape Hotkey.

Lemma dropWhile_nil_iff (p : Z -> bool) s :
  dropWhile p s = [] <-> forallb p s = true.
Proof.
  induction s as [| c s IH]; cbn; [tauto |].
  destruct (p c); cbn; [exact IH |]. split; discriminate.
Qed.

Lemma forallb_rev {A} (p : A -> bool) l : forallb p (rev l) = forallb p l.
Proof.
  induction l as [| x l IH]; [reflexivity |].
  cbn. rewrite forallb_app, IH. cbn. rewrite andb_true_r. apply andb_comm.
Qed.

Lemma dropWhile_blank s :
  forallb isWhiteSpace (dropWhile isWhiteSpace s) = true ->
  forallb isWhiteSpace s = true.
Proof.
  induction s as [| c s IH]; cbn; [tauto |].
  destruct (isWhiteSpace c) eqn:Hc; cbn; [exact IH |].
  rewrite Hc. discriminate.
Qed.

Lemma trim_nil_iff s : trim s = [] <-> forallb isWhiteSpace s = true.
Proof.
  unfold trim. split.
  - intros Hnil. apply (f_equal (@rev Z)) in Hnil.
    rewrite rev_involutive in Hnil. cbn in Hnil.
    apply dropWhile_nil_iff in Hnil. rewrite forallb_rev in Hnil.
    apply dropWhile_blank, Hnil.
  - intros Hblank. apply dropWhile_nil_iff in Hblank. rewrite Hblank. reflexivity.
Qed.

Lemma split_on_nonempty sep s : split_on sep s <> [].
Proof.
  destruct s as [| c s]; cbn; [discriminate |].
  destruct (c =? sep); [discriminate |].
  destruct (split_on sep s); discriminate.
Qed.

Lemma split_on_blank sep s :
  Forall (fun piece => forallb isWhiteSpace piece = true) (split_on sep s)
  <-> forallb (fun c => isWhiteSpace c || (c =? sep)) s = true.
Proof.
  induction s as [| c s IH]; cbn [split_on forallb].
  - split; [reflexivity | intros _; constructor; [reflexivity | constructor]].
  - destruct (Z.eqb_spec c sep) as [-> | Hne].
    + rewrite orb_true_r. cbn [andb]. rewrite <- IH.
      rewrite list.Forall_cons. cbn. tauto.
    + rewrite orb_false_r. rewrite andb_true_iff, <- IH.
      pose proof (split_on_nonempty sep s) as Hsome.
      destruct (split_on sep s) as [| piece pieces]; [contradiction |].
      rewrite !list.Forall_cons. cbn [forallb]. rewrite andb_true_iff. tauto.
Qed.

Lemma parts_nil pieces :
  filter (fun p : jsstring => (0 < length p)%nat) (map trim pieces) = []
  <-> Forall (fun piece => forallb isWhiteSpace piece = true) pieces.
Proof.
  induction pieces as [| piece pieces IH]; cbn [map].
  - rewrite filter_nil. split; [constructor | reflexivity].
  - rewrite filter_cons, list.Forall_cons, <- IH, <- trim_nil_iff.
    destruct (trim piece) as [| c rest] eqn:Htrim.
    + rewrite decide_False by (cbn; lia). tauto.
    + rewrite decide_True by (cbn; lia). split; [discriminate |].
      intros [Hc _]. discriminate.
Qed.

Lemma parseHotkey_none spec :
  parseHotkey spec = None
  <-> forallb (fun c => isWhiteSpace c || (c =? 43)) spec = true.
Proof.
  rewrite <- split_on_blank, <- parts_nil. unfold parseHotkey. cbv zeta.
  destruct (filter _ (map trim (split_on 43 spec))) as [| p parts] eqn:Hparts
    using rev_ind.
  - cbn. tauto.
  - rewrite last_snoc. split; [discriminate |].
    intros Hnil. destruct parts; discriminate.
Qed.

(** A key beyond ASCII is stored lower-cased and matches the event of
    either case. *)
Example parseHotkey_accented_key :
  parseHotkey (js "alt+" ++ [201])
  = Some {| alt := true; shift := false; ctrl := false; meta := false;
            key := Some [233]; code := None |}
  /\ forall c,
       c = 201 \/ c = 233 ->
       matchesHotkey
         {| altKey := true; shiftKey := false; ctrlKey := false;
            metaKey := false; event_key := [c]; event_code := js "KeyE" |}
         {| alt := true; shift := false; ctrl := false; meta := false;
            key := Some [233]; code := None |} = true.
Proof.
  split; [vm_compute; reflexivity |].
  intros c [-> | ->]; vm_compute; reflexivity.
Qed.

Lemma last_elem_of {A} (l : list A) x : list.last l = Some x -> x ∈ l.
Proof.
  induction l as [| y l IH] using rev_ind; [discriminate |].
  rewrite last_snoc. intros [= ->]. apply elem_of_app. right.
  apply list_elem_of_singleton. reflexivity.
Qed.

Lemma matchesHotkey_modifiers event spec :
  matchesHotkey event spec = true ->
  altKey event = alt spec /\ shiftKey event = shift spec
  /\ ctrlKey event = ctrl spec /\ metaKey event = meta spec.
Proof.
  unfold matchesHotkey.
  destruct (altKey event), (alt spec), (shiftKey event), (shift spec),
    (ctrlKey event), (ctrl spec), (metaKey event), (meta spec);
    cbn; try discriminate; auto.
Qed.

Lemma matchesHotkey_same_modifiers event spec :
  altKey event = alt spec -> shiftKey event = shift spec ->
  ctrlKey event = ctrl spec -> metaKey event = meta spec ->
  matchesHotkey event spec
  = match code spec with
    | Some (c :: rest) => bool_decide (event_code event = c :: rest)
    | _ =>
        match key spec with
        | Some k => bool_decide (toLowerCase (event_key event) = k)
        | None => false
        end
    end.
Proof.
  unfold matchesHotkey. intros -> -> -> ->.
  rewrite !eqb_reflx. reflexivity.
Qed.

End HotkeyLemmas.

Section HotkeyClaims.
Import JS StringShape Hotkey.

(** X9: a client has no hotkey exactly when [options.hotkey] is
    [false] or a string of nothing but white space and plus signs (the
    empty string is one); an absent option gives a hotkey. *)
Theorem clientHotkey_disabled (hotkey : HotkeyOption) :
  clientHotkey hotkey = None
  <-> hotkey = HotkeyFalse
      \/ exists spec,
           hotkey = HotkeyString spec
           /\ forallb (fun c => isWhiteSpace c || (c =? 43)) spec = true.
Proof.
  destruct hotkey as [| | spec]; cbn [clientHotkey].
  - split; [vm_compute; discriminate |].
    intros [H | (spec & H & _)]; discriminate.
  - split; [auto | reflexivity].
  - rewrite parseHotkey_none. split.
    + intros Hblank. right. exists spec. auto.
    + intros [H | (spec' & [= <-] & Hblank)]; [discriminate | exact Hblank].
Qed.

(** X10: with no [hotkey] option the client listens for Alt+Shift+G: a
    key event matches exactly when Alt and Shift are down, Ctrl and
    Meta are not, and [event.key] is [g] or [G]. *)
Theorem default_hotkey_matches (event : KeyboardEvent) :
  exists spec,
    clientHotkey HotkeyAbsent = Some spec
    /\ (matchesHotkey event spec = true
        <-> altKey event = true /\ shiftKey event = true
            /\ ctrlKey event = false /\ metaKey event = false
            /\ (event_key event = js "g" \/ event_key event = js "G")).
Proof.
  eexists. split; [vm_compute; reflexivity |].
  split.
  - intros Hmatch. pose proof (matchesHotkey_modifiers _ _ Hmatch) as (Ha & Hs & Hc & Hm).
    cbn in Ha, Hs, Hc, Hm. repeat (split; [assumption |]).
    rewrite matchesHotkey_same_modifiers in Hmatch by assumption.
    cbn in Hmatch. apply bool_decide_eq_true in Hmatch.
    apply toLowerCase_g. exact Hmatch.
  - intros (Ha & Hs & Hc & Hm & Hkey).
    rewrite matchesHotkey_same_modifiers by assumption.
    cbn. apply bool_decide_eq_true, toLowerCase_g, Hkey.
Qed.

(** X11: a parsed hotkey has a code or a key, never both: either a
    non-empty [code] and no [key], and then it matches only events with
    that [event.code]; or no [code] and a non-empty [key], the
    lower-casing of the last part of the specification that is not
    blank, and then it matches only events whose lower-cased
    [event.key] is that key. *)
Theorem parseHotkey_key_or_code (spec : jsstring) (hotkey : HotkeySpec)
  (Hparsed : parseHotkey spec = Some hotkey) :
  let parts :=
    filter (fun p => (0 < length p)%nat) (map trim (split_on 43 spec)) in
  (exists c,
     code hotkey = Some c /\ c <> [] /\ key hotkey = None
     /\ list.last parts = Some c
     /\ forall event, matchesHotkey event hotkey = true -> event_code event = c)
  \/ (exists k last,
        key hotkey = Some k /\ k <> [] /\ code hotkey = None
        /\ list.last parts = Some last /\ k = toLowerCase last
        /\ forall event,
             matchesHotkey event hotkey = true ->
             toLowerCase (event_key event) = k).
Proof.
  cbv zeta. unfold parseHotkey in Hparsed. cbv zeta in Hparsed.
  destruct (list.last _) as [last |] eqn:Hlast; [| discriminate].
  assert (Hnonempty : last <> []).
  { apply last_elem_of, list_elem_of_filter in Hlast as [Hlen _].
    destruct last; [cbn in Hlen; lia | discriminate]. }
  destruct (testKeyLetter last || testDigitBackslashD last) eqn:Hcode;
    injection Hparsed as <-; cbn [code key].
  - left. exists last. repeat (split; [auto |]).
    intros event Hmatch.
    pose proof (matchesHotkey_modifiers _ _ Hmatch) as (Ha & Hs & Hc & Hm).
    rewrite matchesHotkey_same_modifiers in Hmatch by assumption.
    cbn [code key] in Hmatch. destruct last as [| c rest]; [contradiction |].
    apply bool_decide_eq_true in Hmatch. exact Hmatch.
  - right. exists (toLowerCase last), last. split; [reflexivity |].
    split; [intros Hnil; apply (proj1 (toLowerCase_nil_iff _)) in Hnil; contradiction |].
    repeat (split; [reflexivity |]).
    intros event Hmatch.
    pose proof (matchesHotkey_modifiers _ _ Hmatch) as (Ha & Hs & Hc & Hm).
    rewrite matchesHotkey_same_modifiers in Hmatch by assumption.
    cbn [code key] in Hmatch. apply bool_decide_eq_true in Hmatch. exact Hmatch.
Qed.

End HotkeyClaims.

Section HotkeyWitnesses.
Import JS StringShape Hotkey.

Lemma parseHotkey_key_or_code_witness :
  parseHotkey (js "Shift+" ++ [201])
  = Some {| alt := false; shift := true; ctrl := false; meta := false;
            key := Some [233]; code := None |}
  /\ forall event,
       matchesHotkey event
         {| alt := false; shift := true; ctrl := false; meta := false;
            key := Some [233]; code := None |} = true ->
       toLowerCase (event_key event) = [233].
Proof.
  split; [vm_compute; reflexivity |].
  destruct (parseHotkey_key_or_code (js "Shift+" ++ [201])
              {| alt := false; shift := true; ctrl := false; meta := false;
                 key := Some [233]; code := None |}
              ltac:(vm_compute; reflexivity))
    as [(c & Hcode & _) | (k & last & Hkey & _ & _ & _ & _ & Hmatch)].
  - discriminate Hcode.
  - injection Hkey as <-. exact Hmatch.
Defined.

End HotkeyWitnesses.

(** ** Providers, sessions and the selection of the overlay *)

Section ProviderLemmas.
Import JS Schema StringShape Dom DomSummary GrabrController SelectionOverlay Hotkey.
Import AgentProviders SelectionSession OverlaySelection.
Context {Provider : Type}.
Variable providerId : Provider -> jsstring.

Lemma mapGet_mapSet {V} (entries : list (jsstring * V)) key value key' :
  mapGet (mapSet entries key value) key'
  = if bool_decide (key' = key) then Some value else mapGet entries key'.
Proof.
  induction entries as [| [k v] rest IH]; cbn [mapSet mapGet].
  - destruct (decide (key = key')) as [-> | Hne].
    + rewrite !bool_decide_eq_true_2 by reflexivity. reflexivity.
    + rewrite !bool_decide_eq_false_2 by congruence. reflexivity.
  - destruct (decide (k = key)) as [-> | Hk].
    + rewrite bool_decide_eq_true_2 by reflexivity. cbn [mapGet].
      destruct (decide (key = key')) as [-> | Hne].
      * rewrite !bool_decide_eq_true_2 by reflexivity. reflexivity.
      * rewrite !bool_decide_eq_false_2 by congruence. reflexivity.
    + rewrite bool_decide_eq_false_2 by assumption. cbn [mapGet]. rewrite IH.
      destruct (decide (k = key')) as [-> | Hne].
      * rewrite bool_decide_eq_true_2 by reflexivity.
        rewrite bool_decide_eq_false_2 by congruence. reflexivity.
      * rewrite bool_decide_eq_false_2 by assumption. reflexivity.
Qed.

Lemma registered_providers others : forall (this : Providers Provider) id,
  let registered :=
    fold_left (fun controller provider =>
                 registerAgentProvider providerId provider controller)
      others this in
  activeProvider registered = activeProvider this
  /\ mapGet (providerRegistry registered) id
     = match list.last (filter (fun p => providerId p = id) others) with
       | Some provider => Some provider
       | None => mapGet (providerRegistry this) id
       end.
Proof.
  induction others as [| provider others IH] using rev_ind; intros this id;
    cbv zeta.
  - split; reflexivity.
  - rewrite fold_left_app. cbn [fold_left].
    destruct (IH this id) as [Hactive Hget]. cbv zeta in Hactive, Hget.
    split; [exact Hactive |].
    cbn [registerAgentProvider providerRegistry]. rewrite mapGet_mapSet.
    rewrite list.filter_app, filter_cons, filter_nil.
    destruct (decide (providerId provider = id)) as [<- | Hne].
    + rewrite bool_decide_eq_true_2 by reflexivity. rewrite last_snoc. reflexivity.
    + rewrite bool_decide_eq_false_2 by congruence. rewrite app_nil_r. exact Hget.
Qed.

End ProviderLemmas.

Section OverlayLemmas.
Import JS Schema StringShape Dom DomSummary GrabrController SelectionOverlay Hotkey.
Import AgentProviders SelectionSession OverlaySelection.
Context {Element : Type} `{EqDecision Element}.
Variable formatElementLabel : Element -> jsstring.
Variable isElementConnectedToDocument : Element -> bool.
Variable getBoundingClientRect : Element -> DOMRect.
Variable rootContains : Element -> bool.

Lemma updateHudState_selection (this : Overlay Element) :
  selectedElements (updateHudState formatElementLabel this) = selectedElements this
  /\ selectionBoxes (updateHudState formatElementLabel this) = selectionBoxes this
  /\ selecting (updateHudState formatElementLabel this) = selecting this
  /\ sending (updateHudState formatElementLabel this) = sending this.
Proof.
  unfold updateHudState.
  destruct (selecting this) eqn:Hsel; cbn [negb];
    [| repeat split; cbn; auto].
  destruct (sending this) eqn:Hsend; [repeat split; cbn; auto |].
  destruct (selectedElements this) as [| first [| second rest]] eqn:Hsel';
    repeat split; cbn; auto.
Qed.

Lemma first_occurrence (el : Element) array :
  el ∈ array ->
  exists before after, array = before ++ el :: after /\ el ∉ before.
Proof.
  induction array as [| x array IH]; [intros Hin; inversion Hin |].
  destruct (decide (x = el)) as [-> | Hne].
  - intros _. exists [], array. split; [reflexivity | intros Hin; inversion Hin].
  - intros Hin. apply elem_of_cons in Hin as [-> | Hin]; [contradiction |].
    destruct (IH Hin) as (before & after & -> & Hnew).
    exists (x :: before), after. split; [reflexivity |].
    apply not_elem_of_cons. auto.
Qed.

(** What [toggleSelection] makes of the selection in multi-select mode,
    before the disconnected elements are filtered out. *)
Lemma toggled_list (el : Element) selected :
  ((el ∈ selected) /\
   exists before after,
     selected = before ++ el :: after /\ (el ∉ before)
     /\ (if 0 <=? indexOf el selected
         then delete (Z.to_nat (indexOf el selected)) selected
         else selected ++ [el]) = before ++ after)
  \/ ((el ∉ selected) /\
      (if 0 <=? indexOf el selected
       then delete (Z.to_nat (indexOf el selected)) selected
       else selected ++ [el]) = selected ++ [el]).
Proof.
  destruct (decide (el ∈ selected)) as [Hin | Hout].
  - left. split; [exact Hin |].
    destruct (first_occurrence el selected Hin) as (before & after & -> & Hnew).
    exists before, after. split; [reflexivity |]. split; [exact Hnew |].
    unfold indexOf. rewrite indexOfFrom_found by assumption.
    destruct (Z.leb_spec 0 (0 + Z.of_nat (length before))); [| lia].
    replace (Z.to_nat (0 + Z.of_nat (length before))) with (length before) by lia.
    apply delete_middle.
  - right. split; [exact Hout |].
    unfold indexOf. rewrite indexOfFrom_absent by assumption. reflexivity.
Qed.

Lemma toggleSelection_selected (el : Element) multi (this : Overlay Element) :
  selectedElements
    (toggleSelection formatElementLabel isElementConnectedToDocument
       getBoundingClientRect el multi this)
  = filter (fun x => isElementConnectedToDocument x = true)
      (if negb multi then [el]
       else if 0 <=? indexOf el (selectedElements this)
            then delete (Z.to_nat (indexOf el (selectedElements this)))
                   (selectedElements this)
            else selectedElements this ++ [el]).
Proof.
  unfold toggleSelection. cbv zeta.
  rewrite (proj1 (updateHudState_selection _)). reflexivity.
Qed.

Lemma tidy_redrawn (elements : list Element) (this : Overlay Element) :
  NoDup elements ->
  tidy (updateHudState formatElementLabel
          (updateSelectionBoxes isElementConnectedToDocument getBoundingClientRect
             (setSelectedElements elements this))).
Proof.
  intros Hnd. unfold tidy.
  destruct (updateHudState_selection
              (updateSelectionBoxes isElementConnectedToDocument
                 getBoundingClientRect (setSelectedElements elements this)))
    as (-> & -> & _).
  split; [exact Hnd | apply sublist_filter].
Qed.

End OverlayLemmas.

Section ClientClaims.
Import JS Schema StringShape Dom DomSummary GrabrController SelectionOverlay Hotkey.
Import AgentProviders SelectionSession OverlaySelection.

(** X12: the provider [createGrabrClient] leaves active is the first of
    [options.providers], or the clipboard provider when none is given;
    unless a non-empty [activeProviderId] is the id of a given
    provider, and then it is the last given provider with that id. *)
Theorem clientProviders_active
  {Provider : Type} (providerId : Provider -> jsstring)
  (clipboard : Provider) (providers : option (list Provider))
  (activeProviderId : option jsstring) :
  let given :=
    match providers with
    | Some (first :: others) => first :: others
    | _ => [clipboard]
    end in
  let first := default clipboard (head given) in
  activeProvider (clientProviders providerId clipboard providers activeProviderId)
  = match activeProviderId with
    | Some (c :: id) =>
        default first
          (list.last (filter (fun p => providerId p = c :: id) given))
    | _ => first
    end.
Proof.
  cbv zeta. unfold clientProviders.
  set (pair := match providers with
               | Some (first :: others) => (first, others)
               | _ => (clipboard, [])
               end).
  assert (Hgiven : match providers with
                   | Some (first :: others) => first :: others
                   | _ => [clipboard]
                   end = pair.1 :: pair.2).
  { subst pair. destruct providers as [[| first others] |]; reflexivity. }
  rewrite Hgiven. destruct pair as [first others]. cbn [fst snd head default].
  pose proof (registered_providers providerId others (initialProviders providerId first))
    as Hreg. cbv zeta in Hreg.
  destruct activeProviderId as [[| c id] |]; try apply (Hreg []).
  unfold setActiveAgentProvider.
  destruct (Hreg (c :: id)) as [Hactive Hget]. rewrite Hget.
  rewrite filter_cons.
  cbn [initialProviders providerRegistry mapSet mapGet].
  destruct (decide (providerId first = c :: id)) as [Hfirst | Hfirst].
  - rewrite bool_decide_eq_true_2 by assumption.
    destruct (filter _ others) as [| p ps] eqn:Hothers using rev_ind.
    + reflexivity.
    + rewrite app_comm_cons, !last_snoc. reflexivity.
  - rewrite bool_decide_eq_false_2 by assumption.
    destruct (list.last (filter _ others)); [reflexivity | exact Hactive].
Qed.

(** X13: registering a provider leaves the active provider as it is;
    activating the id of a provider just registered makes that
    provider active; activating an id that is not registered changes
    nothing. *)
Theorem registered_provider_can_be_activated
  {Provider : Type} (providerId : Provider -> jsstring)
  (provider : Provider) (this : Providers Provider) :
  activeProvider
    (setActiveAgentProvider (providerId provider)
       (registerAgentProvider providerId provider this)) = provider
  /\ activeProvider (registerAgentProvider providerId provider this)
     = activeProvider this
  /\ (forall id, mapGet (providerRegistry this) id = None ->
        setActiveAgentProvider id this = this).
Proof.
  split_and!.
  - unfold setActiveAgentProvider. cbn [registerAgentProvider providerRegistry].
    rewrite mapGet_mapSet, bool_decide_eq_true_2 by reflexivity. reflexivity.
  - reflexivity.
  - intros id Hnone. unfold setActiveAgentProvider. rewrite Hnone. reflexivity.
Qed.

(** X14: [startSelectionSession] leaves the current session as it is
    and stores the trimmed instruction, which is never blank: [null] is
    stored for an absent or blank instruction.  It begins a selection
    on the attached overlay; with no overlay it warns once on the
    console and otherwise logs nothing. *)
Theorem startSelectionSession_instruction
  {Element : Type} `{EqDecision Element}
  (formatElementLabel : Element -> jsstring)
  (userInstruction : option jsstring)
  (this : Controller) (overlay : option (Overlay Element))
  (console : list jsstring) :
  let '(this', overlay', console') :=
    startSelectionSession formatElementLabel userInstruction
      (this, overlay, console) in
  currentSession this' = currentSession this
  /\ (currentInstruction this' = None
      \/ exists text,
           userInstruction = Some text
           /\ currentInstruction this' = Some (trim text)
           /\ trim text <> []
           /\ starts_in_space (trim text) = false
           /\ ends_in_space (trim text) = false)
  /\ (forall text, userInstruction = Some text -> trim text = [] ->
        currentInstruction this' = None)
  /\ (userInstruction = None -> currentInstruction this' = None)
  /\ overlay' = beginSelection formatElementLabel <$> overlay
  /\ (overlay = None -> exists warning, console' = console ++ [warning])
  /\ (overlay <> None -> console' = console).
Proof.
  unfold startSelectionSession.
  assert (Hinstruction :
    match trim <$> userInstruction with
    | Some (c :: rest) => Some (c :: rest)
    | _ => None
    end = None
    \/ exists text,
         userInstruction = Some text
         /\ match trim <$> userInstruction with
            | Some (c :: rest) => Some (c :: rest)
            | _ => None
            end = Some (trim text)
         /\ trim text <> []
         /\ starts_in_space (trim text) = false
         /\ ends_in_space (trim text) = false).
  { destruct userInstruction as [text |]; [| left; reflexivity].
    cbn [fmap option_fmap option_map].
    destruct (trim text) as [| c rest] eqn:Htrim; [left; reflexivity |].
    right. exists text. rewrite Htrim. split; [reflexivity |].
    split; [reflexivity |]. split; [discriminate |].
    rewrite <- Htrim. apply trim_edges. }
  assert (Hblank : forall text, userInstruction = Some text -> trim text = [] ->
            match trim <$> userInstruction with
            | Some (c :: rest) => Some (c :: rest)
            | _ => None
            end = None).
  { intros text -> Hnil. cbn. rewrite Hnil. reflexivity. }
  assert (Habsent : userInstruction = None ->
            match trim <$> userInstruction with
            | Some (c :: rest) => Some (c :: rest)
            | _ => None
            end = None).
  { intros ->. reflexivity. }
  destruct overlay as [overlay |]; cbn [currentSession currentInstruction];
    (split; [reflexivity |]); (split; [exact Hinstruction |]);
    (split; [exact Hblank |]); (split; [exact Habsent |]);
    (split; [reflexivity |]); split.
  - discriminate.
  - reflexivity.
  - intros _. eexists. reflexivity.
  - intros Hsome. contradiction.
Qed.

Section OverlayClaims2.
Context {Element : Type} `{EqDecision Element}.
Variable formatElementLabel : Element -> jsstring.
Variable isElementConnectedToDocument : Element -> bool.
Variable getBoundingClientRect : Element -> DOMRect.
Variable rootContains : Element -> bool.

Local Abbreviation onClick :=
  (onClick formatElementLabel isElementConnectedToDocument getBoundingClientRect
     rootContains).
Local Abbreviation toggleSelection :=
  (toggleSelection formatElementLabel isElementConnectedToDocument
     getBoundingClientRect).
Local Abbreviation undoSelection :=
  (undoSelection formatElementLabel isElementConnectedToDocument
     getBoundingClientRect).
Local Abbreviation clearSelection :=
  (clearSelection formatElementLabel isElementConnectedToDocument
     getBoundingClientRect).

(** X15: in an overlay in which no element is selected twice and the
    boxes drawn belong to selected elements, in the order of the
    selection, this is still so after a click, an undo, a clear, a
    toggle of the help and a press of the global hotkey; and after
    [toggleSelection] every selected element is connected to the
    document. *)
Theorem selection_stays_tidy (this : Overlay Element) (Htidy : tidy this) :
  (forall event, tidy (onClick event this))
  /\ tidy (undoSelection this)
  /\ tidy (clearSelection this)
  /\ tidy (toggleHelp this)
  /\ (forall hotkey event,
        tidy (globalToggleHandler formatElementLabel hotkey event this))
  /\ (forall el multi x,
        x ∈ selectedElements (toggleSelection el multi this) ->
        isElementConnectedToDocument x = true).
Proof.
  destruct Htidy as [Hnd Hboxes].
  assert (Hempty : forall that : Overlay Element,
            selectedElements that = [] -> selectionBoxes that = [] -> tidy that).
  { intros that Hs Hb. unfold tidy. rewrite Hs, Hb. split; constructor. }
  split_and!.
  - intros event. unfold OverlaySelection.onClick.
    destruct (negb (selecting this) || sending this); [split; assumption |].
    destruct (negb (button event =? 0)); [split; assumption |].
    destruct (target event) as [el |]; [| split; assumption].
    destruct (rootContains el); [split; assumption |].
    unfold OverlaySelection.toggleSelection. cbv zeta.
    apply tidy_redrawn. apply list.NoDup_filter.
    destruct (mouse_shiftKey event || mouse_metaKey event || mouse_ctrlKey event);
      cbn [negb].
    + destruct (toggled_list el (selectedElements this))
        as [(_ & before & after & Hsplit & _ & ->) | (Hout & ->)].
      * rewrite Hsplit in Hnd. apply list.NoDup_app in Hnd as (Hb & Hdisj & Ha).
        apply list.NoDup_cons in Ha as [_ Ha].
        apply list.NoDup_app. split; [exact Hb |]. split; [| exact Ha].
        intros x Hx Hy. apply (Hdisj x Hx). apply elem_of_cons. auto.
      * apply list.NoDup_app. split; [exact Hnd |]. split.
        -- intros x Hx Hy. apply list_elem_of_singleton in Hy. subst. contradiction.
        -- apply list.NoDup_cons. split; [intros Hin; inversion Hin | constructor].
    + apply list.NoDup_cons. split; [intros Hin; inversion Hin | constructor].
  - unfold OverlaySelection.undoSelection.
    destruct (selectedElements this) as [| first rest] eqn:Hsel;
      [unfold tidy; rewrite Hsel; split; assumption |].
    apply tidy_redrawn. rewrite removelast_firstn_len.
    eapply sublist_NoDup; [exact Hnd | apply sublist_take].
  - apply tidy_redrawn. constructor.
  - split; assumption.
  - intros hotkey event. unfold globalToggleHandler.
    destruct (negb (matchesHotkey event hotkey)); [split; assumption |].
    destruct (selecting this || sending this); [apply Hempty; reflexivity |].
    unfold beginSelection. destruct (sending this); [split; assumption |].
    apply Hempty; reflexivity.
  - intros el multi x. rewrite toggleSelection_selected.
    rewrite list_elem_of_filter. tauto.
Qed.

(** X16: with no element selected twice, a plain toggle selects the
    element alone (nothing when it is detached); a multi toggle
    removes the element when it was selected and adds it when it was
    not, and keeps of the others those still connected to the
    document. *)
Theorem toggleSelection_membership (this : Overlay Element)
  (Hnd : NoDup (selectedElements this)) (el : Element) :
  selectedElements (toggleSelection el false this)
  = (if isElementConnectedToDocument el then [el] else [])
  /\ forall x,
       x ∈ selectedElements (toggleSelection el true this)
       <-> isElementConnectedToDocument x = true
           /\ ((x ∈ selectedElements this /\ x <> el)
               \/ (x = el /\ el ∉ selectedElements this)).
Proof.
  split.
  - rewrite toggleSelection_selected. cbn [negb]. rewrite filter_cons, filter_nil.
    destruct (isElementConnectedToDocument el).
    + rewrite decide_True by reflexivity. reflexivity.
    + rewrite decide_False by discriminate. reflexivity.
  - intros x. rewrite toggleSelection_selected. cbn [negb].
    rewrite list_elem_of_filter.
    destruct (toggled_list el (selectedElements this))
      as [(Hin & before & after & Hsplit & Hnew & ->) | (Hout & ->)].
    + rewrite Hsplit in Hnd. apply list.NoDup_app in Hnd as (_ & _ & Hnd).
      apply list.NoDup_cons in Hnd as [Hafter _].
      rewrite Hsplit, !elem_of_app, elem_of_cons.
      assert (Hx1 : forall y, y ∈ before -> y <> el) by (intros y Hy ->; contradiction).
      assert (Hx2 : forall y, y ∈ after -> y <> el) by (intros y Hy ->; contradiction).
      split.
      * intros [Hc [Hx | Hx]]; (split; [exact Hc |]); left; split; auto.
      * intros [Hc Hcases]. split; [exact Hc |].
        destruct Hcases as [[Hx Hne] | [-> Hout]].
        -- destruct Hx as [Hx | [Hx | Hx]]; [left; exact Hx | congruence | right; exact Hx].
        -- exfalso. apply Hout. rewrite ?Hsplit, ?elem_of_app, ?elem_of_cons. auto.
    + rewrite elem_of_app, list_elem_of_singleton. split.
      * intros [Hc [Hx | ->]]; (split; [exact Hc |]).
        -- left. split; [exact Hx | intros ->; contradiction].
        -- right. split; [reflexivity | exact Hout].
      * intros [Hc [[Hx _] | [-> _]]]; split; auto.
Qed.

(** X17: adding a connected element that was not selected, by a multi
    toggle, to a selection of connected elements appends it, and an
    undo then gives the earlier selection back. *)
Theorem undoSelection_after_adding (this : Overlay Element) (el : Element)
  (Hnew : el ∉ selectedElements this)
  (Hel : isElementConnectedToDocument el = true)
  (Hconnected : forall x, x ∈ selectedElements this ->
                  isElementConnectedToDocument x = true) :
  selectedElements (toggleSelection el true this) = selectedElements this ++ [el]
  /\ selectedElements (undoSelection (toggleSelection el true this))
     = selectedElements this.
Proof.
  assert (Hadded : selectedElements (toggleSelection el true this)
                   = selectedElements this ++ [el]).
  { rewrite toggleSelection_selected. cbn [negb].
    destruct (toggled_list el (selectedElements this))
      as [(Hin & _) | (_ & ->)]; [contradiction |].
    rewrite list.filter_app, filter_cons, filter_nil.
    rewrite decide_True by assumption. f_equal.
    induction (selectedElements this) as [| x rest IH]; [reflexivity |].
    rewrite filter_cons, decide_True by (apply Hconnected, elem_of_cons; auto).
    f_equal. apply IH.
    - intros Hin. apply Hnew, elem_of_cons. auto.
    - intros y Hy. apply Hconnected, elem_of_cons. auto. }
  split; [exact Hadded |].
  unfold OverlaySelection.undoSelection. rewrite Hadded.
  destruct (selectedElements this ++ [el]) as [| first rest] eqn:Hlist.
  { destruct (selectedElements this); discriminate. }
  rewrite (proj1 (updateHudState_selection _ _)).
  cbn [updateSelectionBoxes clearSelectionBoxes setSelectionBoxes
       setSelectedElements selectedElements].
  rewrite <- Hlist. apply removelast_last.
Qed.

(** X18: the hotkey listener leaves the overlay as it is on a key
    event that does not match; on a match it begins a selection when
    the overlay is neither selecting nor sending (HUD shown, listeners
    attached, nothing selected or hovered), and cancels otherwise
    (overlay idle, listeners detached, nothing selected or hovered). *)
Theorem globalToggleHandler_toggles
  (hotkey : HotkeySpec) (event : KeyboardEvent) (this : Overlay Element) :
  let after := globalToggleHandler formatElementLabel hotkey event this in
  (matchesHotkey event hotkey = false -> after = this)
  /\ (matchesHotkey event hotkey = true ->
      selecting this = false -> sending this = false ->
      selecting after = true /\ sending after = false
      /\ hudVisible after = true /\ listenersAttached after = true
      /\ selectedElements after = [] /\ selectionBoxes after = []
      /\ hoveredElement after = None
      /\ hudStatus after = js "Hover an element to inspect")
  /\ (matchesHotkey event hotkey = true ->
      selecting this = true \/ sending this = true ->
      idle after /\ listenersAttached after = false
      /\ selectedElements after = [] /\ hoveredElement after = None).
Proof.
  cbv zeta. unfold globalToggleHandler. split_and!.
  - intros ->. reflexivity.
  - intros -> Hsel Hsend. rewrite Hsel, Hsend. cbn [negb orb].
    unfold beginSelection. rewrite Hsend. repeat split.
  - intros -> Hbusy. cbn [negb].
    replace (selecting this || sending this) with true
      by (destruct Hbusy as [-> | ->]; [reflexivity | rewrite orb_true_r; reflexivity]).
    repeat split.
Qed.

End OverlayClaims2.

End ClientClaims.

Section OverlayWitnesses.
Import JS Schema StringShape Dom DomSummary GrabrController SelectionOverlay Hotkey.
Import AgentProviders SelectionSession OverlaySelection.
Import PageSamples.

Lemma twoSelected_tidy : tidy twoSelected.
Proof.
  split; [| reflexivity].
  apply (bool_decide_unpack _). vm_compute. exact I.
Qed.

Lemma selection_stays_tidy_witness :
  tidy (undoSelection labelOf connected boxOf twoSelected)
  /\ tidy (clearSelection labelOf connected boxOf twoSelected)
  /\ tidy (toggleHelp twoSelected).
Proof.
  pose proof (selection_stays_tidy labelOf connected boxOf outsideRoot twoSelected
                twoSelected_tidy)
    as (_ & Hundo & Hclear & Hhelp & _).
  split_and!; assumption.
Defined.

Lemma toggleSelection_membership_witness :
  selectedElements (toggleSelection labelOf connected boxOf 3%nat false twoSelected)
  = [3]%nat.
Proof.
  apply (toggleSelection_membership labelOf connected boxOf twoSelected).
  apply (bool_decide_unpack _). vm_compute. exact I.
Defined.

Lemma undoSelection_after_adding_witness :
  selectedElements (toggleSelection labelOf connected boxOf 3%nat true twoSelected)
  = [1; 2; 3]%nat
  /\ selectedElements
       (undoSelection labelOf connected boxOf
          (toggleSelection labelOf connected boxOf 3%nat true twoSelected))
     = [1; 2]%nat.
Proof.
  apply (undoSelection_after_adding labelOf connected boxOf twoSelected 3%nat).
  - apply (bool_decide_unpack _). vm_compute. exact I.
  - reflexivity.
  - intros x Hx. cbn in Hx.
    repeat (apply elem_of_cons in Hx as [-> | Hx]);
      [reflexivity | reflexivity | apply elem_of_nil in Hx; destruct Hx].
Defined.

End OverlayWitnesses.

(** ** The worker pool at its edges *)

Section PoolBounds.
Import JS Concurrency PoolInvariant PoolOutcomes.
Context {TIn TOut St : Type}.
Variable mapper : TIn -> nat -> St -> outcome TOut * St.
Variable items : list TIn.

Lemma pendingFrom_length ws : forall b,
  (length (pendingFrom b ws) <= length ws)%nat.
Proof.
  induction ws as [| x ws IH]; intros b; [reflexivity |].
  destruct x; cbn [pendingFrom length]; specialize (IH (S b)); lia.
Qed.

Lemma settle_workers_length w (pool : Pool TOut St) :
  length (workers (settle mapper items w pool)) = length (workers pool).
Proof.
  unfold settle. destruct (workers pool !! w) as [[i | | r] |]; try reflexivity.
  destruct (items !! i) as [item |]; [| reflexivity].
  destruct (mapper item i (shared pool)) as [[value | reason] s].
  - destruct (loopHead items (nextIndex pool)) as [worker next].
    cbn [workers]. apply length_insert.
  - cbn [workers]. apply length_insert.
Qed.

Lemma start_workers_length limit (s : St) :
  length (workers (start (TOut := TOut) items limit s))
  = Z.to_nat (Z.min limit (Z.of_nat (length items))).
Proof.
  unfold start.
  destruct (spawn items (Z.to_nat (Z.min limit (Z.of_nat (length items)))) 0)
    as [ws next] eqn:Hspawn.
  cbn [workers].
  destruct (spawn_spec items _ _ _ _ Hspawn ltac:(lia)) as (_ & Hlen & _).
  exact Hlen.
Qed.

Lemma reachable_workers_length limit s pool :
  reachable mapper items limit s pool ->
  length (workers pool) = Z.to_nat (Z.min limit (Z.of_nat (length items))).
Proof.
  induction 1 as [| pool w i _ IH _].
  - apply start_workers_length.
  - rewrite settle_workers_length. exact IH.
Qed.

Lemma firstThrown_thrown ws : forall w reason,
  firstThrown ws = None -> (w < length ws)%nat ->
  firstThrown (<[w := Threw reason]> ws) = Some reason.
Proof.
  induction ws as [| x ws IH]; intros w reason Hnone Hw; [cbn in Hw; lia |].
  destruct w as [| w]; cbn.
  - reflexivity.
  - destruct x; try discriminate; cbn in Hnone |- *;
      apply IH; [assumption | cbn in Hw; lia | assumption | cbn in Hw; lia].
Qed.

End PoolBounds.

Section PoolRejection.
Import JS Concurrency PoolInvariant PoolOutcomes.
Context {TIn TOut St : Type}.
Variable mapper : TIn -> nat -> St -> outcome TOut * St.
Variable items : list TIn.
Variable outcomeOf : TIn -> nat -> outcome TOut.
Hypothesis mapper_outcome :
  forall item i s, fst (mapper item i s) = outcomeOf item i.

Abbreviation Unbroken := (Unbroken items outcomeOf).
Abbreviation remaining := (remaining items).

Lemma start_unbroken limit (s : St) :
  1 <= limit -> Unbroken (start items limit s).
Proof.
  intros Hlimit. unfold start.
  destruct (spawn items (Z.to_nat (Z.min limit (Z.of_nat (length items)))) 0)
    as [ws next] eqn:Hspawn.
  destruct (spawn_spec items _ _ _ _ Hspawn ltac:(lia))
    as (Hb & Hlen & Haw & Hcov & Hret & Hthr & Hpend).
  constructor; cbn [nextIndex workers].
  - exact Hthr.
  - lia.
  - intros w i Hw. apply Haw in Hw. lia.
  - intros i item Hi _. right. apply Hcov. lia.
  - exact Hret.
  - intros ->. cbn in Hlen. lia.
Qed.

Lemma settle_unbroken (pool : Pool TOut St) w i item :
  Unbroken pool -> workers pool !! w = Some (Awaiting i) ->
  items !! i = Some item ->
  match outcomeOf item i with
  | Resolved _ =>
      Unbroken (settle mapper items w pool)
      /\ S (remaining (settle mapper items w pool)) = remaining pool
  | Rejected reason =>
      firstThrown (workers (settle mapper items w pool)) = Some reason
  end.
Proof.
  intros Inv Hw Hitem.
  pose proof (unbroken_awaiting _ Inv _ _ Hw) as Hi.
  pose proof (unbroken_next _ Inv) as Hnext.
  pose proof (lookup_lt_Some _ _ _ Hw) as Hwlen.
  unfold settle. rewrite Hw, Hitem.
  pose proof (mapper_outcome item i (shared pool)) as Hout.
  destruct (mapper item i (shared pool)) as [o s']. cbn [fst] in Hout. subst o.
  destruct (outcomeOf item i) as [value | reason] eqn:Houtcome.
  2:{ cbn [workers]. apply firstThrown_thrown; [apply Inv | exact Hwlen]. }
  assert (Hclaimed : forall j item',
            (j < nextIndex pool)%nat -> items !! j = Some item' ->
            forall worker,
            resolves outcomeOf item' j
            \/ exists w', <[w := worker]> (workers pool) !! w' = Some (Awaiting j)).
  { intros j item' Hj Hitem' worker.
    destruct (Nat.eq_dec j i) as [-> | Hji].
    { left. exists value. congruence. }
    destruct (unbroken_claimed _ Inv j item' Hj Hitem') as [Hdone | [w' Hw']];
      [left; exact Hdone |].
    right. exists w'. rewrite list_lookup_insert_ne; [exact Hw' |].
    intros ->. rewrite Hw in Hw'. congruence. }
  destruct (Nat.lt_ge_cases (nextIndex pool) (length items)) as [Hlt | Hge].
  - rewrite loopHead_claim by exact Hlt. split.
    + constructor; cbn [nextIndex workers].
      * apply firstThrown_insert; [apply Inv | discriminate].
      * lia.
      * intros w' i' Hw'. destruct (Nat.eq_dec w w') as [<- | Hne].
        -- rewrite list_lookup_insert_eq in Hw' by exact Hwlen.
           injection Hw' as <-. lia.
        -- rewrite list_lookup_insert_ne in Hw' by exact Hne.
           apply (unbroken_awaiting _ Inv) in Hw'. lia.
      * intros j item' Hj Hitem'.
        destruct (Nat.eq_dec j (nextIndex pool)) as [-> | Hjn].
        { right. exists w. apply list_lookup_insert_eq. exact Hwlen. }
        apply Hclaimed; [lia | assumption].
      * intros w' Hw'. destruct (Nat.eq_dec w w') as [<- | Hne].
        -- rewrite list_lookup_insert_eq in Hw' by exact Hwlen. discriminate.
        -- rewrite list_lookup_insert_ne in Hw' by exact Hne.
           apply (unbroken_returned _ Inv) in Hw'. lia.
      * intros Hnil. apply (f_equal length) in Hnil.
        rewrite length_insert in Hnil. cbn in Hnil. lia.
    + unfold PoolInvariant.remaining, pending. cbn [nextIndex workers].
      rewrite (pendingFrom_reclaim _ _ _ _ _ Hw).
      pose proof (pendingFrom_return _ 0%nat _ _ Hw). lia.
  - rewrite loopHead_leave by exact Hge. split.
    + constructor; cbn [nextIndex workers].
      * apply firstThrown_insert; [apply Inv | discriminate].
      * lia.
      * intros w' i' Hw'. destruct (Nat.eq_dec w w') as [<- | Hne].
        -- rewrite list_lookup_insert_eq in Hw' by exact Hwlen. discriminate.
        -- rewrite list_lookup_insert_ne in Hw' by exact Hne.
           apply (unbroken_awaiting _ Inv) in Hw'. lia.
      * intros j item' Hj Hitem'. apply Hclaimed; assumption.
      * intros w' Hw'. lia.
      * intros Hnil. apply (f_equal length) in Hnil.
        rewrite length_insert in Hnil. cbn in Hnil. lia.
    + unfold PoolInvariant.remaining, pending. cbn [nextIndex workers].
      pose proof (pendingFrom_return _ 0%nat _ _ Hw). lia.
Qed.

Lemma unbroken_settled (pool : Pool TOut St) :
  Unbroken pool -> pending pool = [] ->
  forall i item, items !! i = Some item -> resolves outcomeOf item i.
Proof.
  intros Inv Hnone i item Hitem.
  assert (Hidle : forall w j, workers pool !! w <> Some (Awaiting j))
    by (apply (pendingFrom_nil _ 0%nat); exact Hnone).
  assert (Hall : nextIndex pool = length items).
  { destruct (workers pool) as [| x ws] eqn:Hws.
    - pose proof (unbroken_workers _ Inv Hws). pose proof (unbroken_next _ Inv). lia.
    - apply (unbroken_returned _ Inv 0%nat). rewrite Hws. cbn.
      destruct x as [j | | r]; [| reflexivity |].
      + exfalso. apply (Hidle 0%nat j). reflexivity.
      + exfalso. pose proof (unbroken_no_throw _ Inv) as Hthr.
        rewrite Hws in Hthr. discriminate. }
  pose proof (lookup_lt_Some _ _ _ Hitem).
  destruct (unbroken_claimed _ Inv i item ltac:(lia) Hitem) as [Hdone | [w Hw]];
    [exact Hdone | exfalso; eapply Hidle; exact Hw].
Qed.

Lemma awaitAll_thrown fuel order step (pool : Pool TOut St) reason :
  firstThrown (workers pool) = Some reason ->
  awaitAll mapper items fuel order step pool
  = Some (Rejected reason, shared pool).
Proof. intros Hthrown. destruct fuel; cbn [awaitAll]; rewrite Hthrown; reflexivity. Qed.

Lemma awaitAll_rejects order fuel : forall step (pool : Pool TOut St),
  Unbroken pool -> (remaining pool <= fuel)%nat ->
  (exists k item reason,
     items !! k = Some item /\ outcomeOf item k = Rejected reason) ->
  exists reason s k item,
    awaitAll mapper items fuel order step pool = Some (Rejected reason, s)
    /\ items !! k = Some item /\ outcomeOf item k = Rejected reason.
Proof.
  induction fuel as [| fuel IH]; intros step pool Inv Hfuel Hbad.
  - exfalso.
    assert (Hnone : pending pool = []).
    { unfold PoolInvariant.remaining in Hfuel. destruct (pending pool); [reflexivity |].
      cbn in Hfuel. lia. }
    destruct Hbad as (k & item & reason & Hitem & Hrej).
    destruct (unbroken_settled pool Inv Hnone k item Hitem) as [value Hres].
    congruence.
  - cbn [awaitAll]. rewrite (unbroken_no_throw _ Inv).
    destruct (pending pool !! (order step `mod` length (pending pool))%nat)
      as [w |] eqn:Hpick.
    + assert (Hin : w ∈ pending pool) by (eapply list_elem_of_lookup_2; eauto).
      apply pendingFrom_lookup in Hin as [_ [i Hw]].
      rewrite Nat.sub_0_r in Hw.
      pose proof (unbroken_awaiting _ Inv _ _ Hw) as Hi.
      pose proof (unbroken_next _ Inv) as Hnext.
      destruct (lookup_lt_is_Some_2 items i ltac:(lia)) as [item Hitem].
      pose proof (settle_unbroken pool w i item Inv Hw Hitem) as Hsettle.
      destruct (outcomeOf item i) as [value | reason] eqn:Houtcome.
      * destruct Hsettle as [Inv' Hrem]. apply IH; [exact Inv' | lia | exact Hbad].
      * exists reason, (shared (settle mapper items w pool)), i, item.
        split; [apply awaitAll_thrown; exact Hsettle | auto].
    + exfalso.
      assert (Hnone : pending pool = []).
      { destruct (pending pool) as [| p ps] eqn:Hp; [reflexivity |].
        apply lookup_ge_None in Hpick.
        pose proof (Nat.mod_upper_bound (order step) (length (p :: ps))
                      ltac:(cbn; lia)). lia. }
      destruct Hbad as (k & item & reason & Hitem & Hrej).
      destruct (unbroken_settled pool Inv Hnone k item Hitem) as [value Hres].
      congruence.
Qed.

End PoolRejection.

Section PoolClaims.
Import JS Concurrency PoolInvariant PoolOutcomes.

(** X19: with a limit of zero or less, or with no items, no worker
    starts: the mapper is never called (the shared state is as it was)
    and the call resolves to [new Array(items.length)] as it was
    created, every slot a hole. *)
Theorem mapWithConcurrencyLimit_no_workers
  {TIn TOut St : Type}
  (mapper : TIn -> nat -> St -> outcome TOut * St)
  (items : list TIn) (limit : Z) (order : nat -> nat) (s : St)
  (Hnone : limit <= 0 \/ items = []) :
  mapWithConcurrencyLimit mapper items limit order s
  = Some (Resolved (replicate (length items) None), s).
Proof.
  unfold mapWithConcurrencyLimit, start.
  replace (Z.to_nat (Z.min limit (Z.of_nat (length items)))) with 0%nat
    by (destruct Hnone as [Hlimit | ->]; [lia | cbn; lia]).
  cbn [spawn]. destruct (length items); reflexivity.
Qed.

(** X20: at every point of a call the number of mapper promises that
    are pending is at most the limit (none for a limit below zero) and
    at most the number of items, and the number of workers is the one
    the call started with, [min(limit, items.length)]. *)
Theorem mapWithConcurrencyLimit_in_flight
  {TIn TOut St : Type}
  (mapper : TIn -> nat -> St -> outcome TOut * St)
  (items : list TIn) (limit : Z) (s : St) (pool : Pool TOut St)
  (Hreach : reachable mapper items limit s pool) :
  (Z.of_nat (length (pending pool)) <= Z.max 0 limit)
  /\ (length (pending pool) <= length items)%nat
  /\ length (workers pool) = Z.to_nat (Z.min limit (Z.of_nat (length items))).
Proof.
  pose proof (reachable_workers_length mapper items limit s pool Hreach) as Hlen.
  pose proof (pendingFrom_length (workers pool) 0) as Hpending.
  fold (pending pool) in Hpending.
  split_and!; [lia | lia | exact Hlen].
Qed.

(** X21: when the mapper rejects for some item and the limit is at
    least one, the call rejects, in whatever order the promises
    settle, and its reason is the reason of an item for which the
    mapper rejects: no partial result is returned. *)
Theorem mapWithConcurrencyLimit_rejects_as_a_whole
  {TIn TOut St : Type}
  (mapper : TIn -> nat -> St -> outcome TOut * St)
  (items : list TIn) (outcomeOf : TIn -> nat -> outcome TOut)
  (limit : Z) (order : nat -> nat) (s0 : St)
  (Hlimit : 1 <= limit)
  (Houtcome : forall item i s, fst (mapper item i s) = outcomeOf item i)
  (Hrejecting : exists k item reason,
     items !! k = Some item /\ outcomeOf item k = Rejected reason) :
  exists reason s k item,
    mapWithConcurrencyLimit mapper items limit order s0
    = Some (Rejected reason, s)
    /\ items !! k = Some item /\ outcomeOf item k = Rejected reason.
Proof.
  unfold mapWithConcurrencyLimit.
  pose proof (start_unbroken items outcomeOf limit s0 Hlimit) as Inv.
  apply (awaitAll_rejects mapper items outcomeOf Houtcome); [exact Inv | | exact Hrejecting].
  unfold PoolInvariant.remaining, pending, start.
  destruct (spawn items (Z.to_nat (Z.min limit (Z.of_nat (length items)))) 0)
    as [ws next] eqn:Hspawn.
  destruct (spawn_spec items _ _ _ _ Hspawn ltac:(lia)) as (Hb & _ & _ & _ & _ & _ & Hpend).
  cbn [nextIndex workers]. rewrite Hpend. lia.
Qed.

End PoolClaims.

Section PoolWitnesses.
Import JS Concurrency PoolInvariant PoolOutcomes.
Import PageSamples.

Lemma mapWithConcurrencyLimit_no_workers_witness :
  mapWithConcurrencyLimit rejectsSecond [10; 20; 30]%nat 0 (fun step => step) 0%nat
  = Some (Resolved [None; None; None], 0%nat).
Proof.
  apply (mapWithConcurrencyLimit_no_workers rejectsSecond [10; 20; 30]%nat 0).
  left. lia.
Defined.

Lemma mapWithConcurrencyLimit_in_flight_witness :
  let pool := settle rejectsSecond [10; 20; 30]%nat 0%nat
                (start [10; 20; 30]%nat 2 0%nat) in
  (Z.of_nat (length (pending pool)) <= Z.max 0 2)
  /\ (length (pending pool) <= 3)%nat
  /\ length (workers pool) = 2%nat.
Proof.
  apply (mapWithConcurrencyLimit_in_flight rejectsSecond [10; 20; 30]%nat 2 0%nat).
  apply (reachable_settle _ _ _ _ _ 0%nat 0%nat).
  - apply reachable_start.
  - reflexivity.
Defined.

Lemma mapWithConcurrencyLimit_rejects_as_a_whole_witness :
  exists reason s k item,
    mapWithConcurrencyLimit rejectsSecond [10; 20; 30]%nat 2
      (fun step => step) 0%nat
    = Some (Rejected reason, s)
    /\ [10; 20; 30]%nat !! k = Some item
    /\ secondRejected item k = Rejected reason.
Proof.
  apply (mapWithConcurrencyLimit_rejects_as_a_whole rejectsSecond [10; 20; 30]%nat
           secondRejected 2 (fun step => step) 0%nat).
  - lia.
  - intros item i s. reflexivity.
  - exists 1%nat, 20%nat, (js "no fiber"). split; reflexivity.
Defined.

End PoolWitnesses.

(** ** Framework detection and the app context *)

Section HeuristicsLemmas.
Import JS Schema Heuristics Inspector RouteShape.

Lemma scanFrame_fold frames : forall st,
  let sources := omap source frames in
  let scanned := fold_left scanFrame frames st in
  scan_layoutComponents scanned
  = scan_layoutComponents st
    ++ filter (fun src => isLayoutLikeFromPath (fileName src) = true) sources
  /\ scan_pageComponent scanned
     = match scan_pageComponent st with
       | Some page => Some page
       | None =>
           head (filter (fun src => isPageLikeFromPath (fileName src) = true) sources)
       end
  /\ scan_framework scanned
     = if isUnknownFramework (scan_framework st)
       then default UnknownFramework
              (head (filter (fun fw => isUnknownFramework fw = false)
                       (map (fun src => inferFrameworkFromPath (fileName src))
                          sources)))
       else scan_framework st.
Proof.
  induction frames as [| frame frames IH]; intros st; cbv zeta.
  - cbn. rewrite app_nil_r. split_and!.
    + reflexivity.
    + destruct (scan_pageComponent st); reflexivity.
    + destruct (scan_framework st); reflexivity.
  - cbn [fold_left]. destruct (IH (scanFrame st frame)) as (Hl & Hp & Hf).
    cbv zeta in Hl, Hp, Hf. rewrite Hl, Hp, Hf. clear Hl Hp Hf IH.
    change (omap source (frame :: frames))
      with (match source frame with
            | Some src => src :: omap source frames
            | None => omap source frames
            end).
    unfold scanFrame. destruct (source frame) as [src |];
      [| split_and!; reflexivity].
    cbn [scan_layoutComponents scan_pageComponent scan_framework].
    cbn [map]. rewrite !filter_cons. split_and!.
    + destruct (isLayoutLikeFromPath (fileName src)).
      * rewrite decide_True by reflexivity. rewrite <- app_assoc. reflexivity.
      * rewrite decide_False by discriminate. reflexivity.
    + destruct (scan_pageComponent st) as [page |]; [reflexivity |].
      destruct (isPageLikeFromPath (fileName src)).
      * rewrite decide_True by reflexivity. reflexivity.
      * rewrite decide_False by discriminate. reflexivity.
    + destruct (isUnknownFramework (scan_framework st)) eqn:Hst.
      * destruct (isUnknownFramework (inferFrameworkFromPath (fileName src))) eqn:Hsrc.
        -- rewrite decide_False by discriminate. reflexivity.
        -- rewrite decide_True by reflexivity. reflexivity.
      * rewrite Hst. reflexivity.
Qed.

Lemma filter_nil_iff {A} (Q : A -> Prop) `{forall x, Decision (Q x)} (l : list A) :
  filter Q l = [] <-> forall x, x ∈ l -> ~ Q x.
Proof.
  induction l as [| y l IH].
  - split; [| reflexivity]. intros _ x Hx. inversion Hx.
  - rewrite filter_cons. destruct (decide (Q y)) as [Hy | Hy].
    + split; [discriminate |]. intros Hall. exfalso.
      apply (Hall y); [apply elem_of_cons; auto | exact Hy].
    + rewrite IH. split.
      * intros Hall x Hx. apply elem_of_cons in Hx as [-> | Hx]; auto.
      * intros Hall x Hx. apply Hall, elem_of_cons. auto.
Qed.

Lemma elem_of_setProperty {A} (props : list (jsstring * A)) key value k v :
  (k, v) ∈ setProperty props key value ->
  (k, v) ∈ props \/ (k = key /\ v = value).
Proof.
  induction props as [| [k0 v0] rest IH]; cbn [setProperty].
  - intros Hin. apply list_elem_of_singleton in Hin. injection Hin as -> ->. auto.
  - destruct (decide (k0 = key)) as [-> | Hne].
    + rewrite bool_decide_eq_true_2 by reflexivity.
      rewrite !elem_of_cons. intros [[= -> ->] | Hin]; auto.
    + rewrite bool_decide_eq_false_2 by assumption.
      rewrite !elem_of_cons. intros [Heq | Hin]; [auto |].
      destruct (IH Hin); auto.
Qed.

Lemma routeSegment_values acc entry k v :
  (k, v) ∈ snd (routeSegment acc entry) ->
  (k, v) ∈ snd acc \/ v = snd entry.
Proof.
  destruct acc as [pattern params], entry as [idx seg]. unfold routeSegment.
  destruct (testBackslashDs seg).
  - cbn [snd]. intros Hin. apply elem_of_setProperty in Hin as [Hin | [_ ->]]; auto.
  - destruct ((2 <? length seg)%nat && bool_decide (seg = toLowerCase seg)).
    + cbn [snd]. auto.
    + cbn [snd]. intros Hin. apply elem_of_setProperty in Hin as [Hin | [_ ->]]; auto.
Qed.

Lemma routeSegments_values entries : forall acc k v,
  (k, v) ∈ snd (fold_left routeSegment entries acc) ->
  (k, v) ∈ snd acc \/ exists entry, entry ∈ entries /\ v = snd entry.
Proof.
  induction entries as [| entry entries IH]; intros acc k v; cbn [fold_left];
    [auto |].
  intros Hin. apply IH in Hin as [Hin | (e & He & ->)].
  - apply routeSegment_values in Hin as [Hin | ->]; [auto |].
    right. exists entry. split; [apply elem_of_cons; auto | reflexivity].
  - right. exists e. split; [apply elem_of_cons; auto | reflexivity].
Qed.

Lemma routeSegments_kept segments : forall (index : nat -> nat) pattern params,
  Forall keptSegment segments ->
  fold_left routeSegment (imap (fun i seg => (index i, seg)) segments)
    (pattern, params)
  = (pattern ++ segments, params).
Proof.
  induction segments as [| seg segments IH]; intros index pattern params Hkept.
  - cbn. rewrite app_nil_r. reflexivity.
  - inversion Hkept as [| ? ? (Hd & Hlen & Hlow) Hrest]; subst.
    rewrite imap_cons. cbn [fold_left].
    rewrite routeSegment_verbatim by assumption.
    change (imap ((fun i seg0 => (index i, seg0)) ∘ S) segments)
      with (imap (fun i seg0 => ((index ∘ S) i, seg0)) segments).
    rewrite IH by assumption. rewrite <- app_assoc. reflexivity.
Qed.

Lemma split_on_plain sep piece :
  sep ∉ piece -> split_on sep piece = [piece].
Proof.
  induction piece as [| c piece IH]; [reflexivity |].
  intros Hnew. apply not_elem_of_cons in Hnew as [Hc Hnew].
  cbn [split_on]. destruct (Z.eqb_spec c sep); [congruence |].
  rewrite IH by assumption. reflexivity.
Qed.

Lemma split_on_app sep piece s :
  sep ∉ piece -> split_on sep (piece ++ sep :: s) = piece :: split_on sep s.
Proof.
  induction piece as [| c piece IH]; intros Hnew.
  - cbn [app split_on]. rewrite Z.eqb_refl. reflexivity.
  - apply not_elem_of_cons in Hnew as [Hc Hnew].
    cbn [app split_on]. destruct (Z.eqb_spec c sep); [congruence |].
    rewrite IH by assumption. reflexivity.
Qed.

Lemma split_on_join sep pieces :
  pieces <> [] -> Forall (fun piece => sep ∉ piece) pieces ->
  split_on sep (join [sep] pieces) = pieces.
Proof.
  induction pieces as [| piece pieces IH]; [contradiction |].
  intros _ Hplain. inversion Hplain as [| ? ? Hpiece Hrest]; subst.
  destruct pieces as [| next pieces].
  - cbn [join]. apply split_on_plain, Hpiece.
  - change (join [sep] (piece :: next :: pieces))
      with (piece ++ sep :: join [sep] (next :: pieces)).
    rewrite split_on_app by assumption. rewrite IH; [reflexivity | discriminate | assumption].
Qed.

End HeuristicsLemmas.

Section HeuristicsClaims.
Import JS Schema Heuristics Inspector RouteShape.

(** X22: the loop of the next-like strategy over the stack passes
    over frames without source and gathers, in stack order, every
    source whose file looks like a layout; the page component is the
    first source whose file looks like a page; the framework is the
    first one other than [unknown] that a source file name gives, and
    [unknown] when there is none. *)
Theorem scanStack_reads_sources (frames : list ReactComponentFrame) :
  let sources := omap source frames in
  scan_layoutComponents (scanStack frames)
  = filter (fun src => isLayoutLikeFromPath (fileName src) = true) sources
  /\ scan_pageComponent (scanStack frames)
     = head (filter (fun src => isPageLikeFromPath (fileName src) = true) sources)
  /\ scan_framework (scanStack frames)
     = default UnknownFramework
         (head (filter (fun fw => isUnknownFramework fw = false)
                  (map (fun src => inferFrameworkFromPath (fileName src)) sources))).
Proof. apply (scanFrame_fold frames). Qed.

(** X23: the next-like strategy returns [null] exactly when there is
    no React slice, or no source of a frame of the slice gives a
    framework, looks like a layout or looks like a page. *)
Theorem nextLikeDetect_null (input : FrameworkDetectionInput) :
  nextLikeDetect input = None
  <-> reactSlice input = None
      \/ exists slice,
           reactSlice input = Some slice
           /\ forall src, src ∈ omap source (stack slice) ->
                inferFrameworkFromPath (fileName src) = UnknownFramework
                /\ isLayoutLikeFromPath (fileName src) = false
                /\ isPageLikeFromPath (fileName src) = false.
Proof.
  unfold nextLikeDetect. destruct (reactSlice input) as [slice |]; [| tauto].
  destruct (scanFrame_fold (stack slice)
              {| scan_layoutComponents := []; scan_pageComponent := None;
                 scan_framework := UnknownFramework |}) as (Hl & Hp & Hf).
  cbv zeta in Hl, Hp, Hf. fold (scanStack (stack slice)) in Hl, Hp, Hf.
  cbn [scan_layoutComponents scan_pageComponent scan_framework
       isUnknownFramework app] in Hl, Hp, Hf.
  set (sources := omap source (stack slice)) in *.
  assert (Hnothing :
    isUnknownFramework (scan_framework (scanStack (stack slice)))
    && negb (isSome (scan_pageComponent (scanStack (stack slice))))
    && (length (scan_layoutComponents (scanStack (stack slice))) =? 0)%nat = true
    <-> forall src, src ∈ sources ->
          inferFrameworkFromPath (fileName src) = UnknownFramework
          /\ isLayoutLikeFromPath (fileName src) = false
          /\ isPageLikeFromPath (fileName src) = false).
  { rewrite Hl, Hp, Hf.
    set (known := filter (fun fw => isUnknownFramework fw = false)
                    (map (fun src => inferFrameworkFromPath (fileName src)) sources)).
    set (pages := filter (fun src => isPageLikeFromPath (fileName src) = true) sources).
    set (layouts := filter (fun src => isLayoutLikeFromPath (fileName src) = true)
                      sources).
    assert (Hknown : isUnknownFramework (default UnknownFramework (head known)) = true
                     <-> known = []).
    { destruct known as [| fw fws] eqn:Hfilter; [split; reflexivity |].
      assert (Hin : fw ∈ known) by (rewrite Hfilter; apply elem_of_cons; auto).
      apply list_elem_of_filter in Hin as [Hfw _]. cbn.
      split; [congruence | discriminate]. }
    assert (Hpages : negb (isSome (head pages)) = true <-> pages = []).
    { destruct pages; cbn; split; (reflexivity || discriminate). }
    assert (Hlayouts : (length layouts =? 0)%nat = true <-> layouts = []).
    { destruct layouts; cbn; split; (reflexivity || discriminate). }
    rewrite !andb_true_iff, Hknown, Hpages, Hlayouts.
    subst known pages layouts. rewrite !filter_nil_iff. split.
    - intros [[Hfw Hpage] Hlayout] src Hsrc. split_and!.
      + specialize (Hfw (inferFrameworkFromPath (fileName src))).
        assert (Hin : inferFrameworkFromPath (fileName src)
                      ∈ map (fun s => inferFrameworkFromPath (fileName s)) sources)
          by (apply (list_elem_of_fmap_2
                       (fun s => inferFrameworkFromPath (fileName s))); exact Hsrc).
        apply Hfw in Hin.
        destruct (inferFrameworkFromPath (fileName src)); try reflexivity;
          exfalso; apply Hin; reflexivity.
      + apply not_true_is_false, Hlayout, Hsrc.
      + apply not_true_is_false, Hpage, Hsrc.
    - intros Hall. split_and!.
      + intros fw Hin. apply list_elem_of_fmap in Hin as (src & -> & Hsrc).
        destruct (Hall src Hsrc) as (-> & _). discriminate.
      + intros src Hsrc. destruct (Hall src Hsrc) as (_ & _ & ->). discriminate.
      + intros src Hsrc. destruct (Hall src Hsrc) as (_ & -> & _). discriminate. }
  destruct (isUnknownFramework (scan_framework (scanStack (stack slice)))
            && negb (isSome (scan_pageComponent (scanStack (stack slice))))
            && (length (scan_layoutComponents (scanStack (stack slice))) =? 0)%nat).
  - split; [| reflexivity]. intros _. right. exists slice.
    split; [reflexivity | apply Hnothing; reflexivity].
  - split.
    + destruct (isPathBased _); [destruct (guessRoute _) |]; discriminate.
    + intros [Hnone | (slice' & [= <-] & Hall)]; [discriminate |].
      apply Hnothing in Hall. discriminate.
Qed.

(** X24: every value of the guessed route parameters is a segment of
    the path.  When every segment is kept (longer than two units, equal
    to its lower-casing and not matched by the numeric test) the
    pattern is the segments joined by slashes behind a slash and no
    parameter is guessed; so a path made of a slash and such segments
    joined by slashes is its own pattern. *)
Theorem guessRoute_segments (pathname : jsstring) :
  (forall k v, (k, v) ∈ snd (guessRoute pathname) -> v ∈ pathSegments pathname)
  /\ (Forall keptSegment (pathSegments pathname) ->
      guessRoute pathname
      = (js "/" ++ join (js "/") (pathSegments pathname), []))
  /\ (forall segments,
        Forall keptSegment segments -> Forall (fun seg => 47 ∉ seg) segments ->
        pathname = js "/" ++ join (js "/") segments ->
        guessRoute pathname = (pathname, [])).
Proof.
  assert (Hkept : forall p, Forall keptSegment (pathSegments p) ->
            guessRoute p = (js "/" ++ join (js "/") (pathSegments p), [])).
  { intros p Hall. unfold guessRoute. cbv zeta.
    change (imap pair (pathSegments p))
      with (imap (fun i seg => (id i, seg)) (pathSegments p)).
    rewrite routeSegments_kept by assumption. reflexivity. }
  split_and!.
  - intros k v Hin. unfold guessRoute in Hin. cbv zeta in Hin.
    destruct (fold_left routeSegment (imap pair (pathSegments pathname)) ([], []))
      as [pattern params] eqn:Hfold.
    cbn [snd] in Hin.
    assert (Hin' : (k, v) ∈ snd (fold_left routeSegment
                                  (imap pair (pathSegments pathname)) ([], [])))
      by (rewrite Hfold; exact Hin).
    apply routeSegments_values in Hin' as [Hnil | (entry & Hentry & ->)];
      [inversion Hnil |].
    apply list_elem_of_lookup in Hentry as [i Hi].
    rewrite list_lookup_imap in Hi.
    destruct (pathSegments pathname !! i) as [seg |] eqn:Hseg; [| discriminate].
    injection Hi as <-. cbn [snd]. eapply list_elem_of_lookup_2. exact Hseg.
  - apply Hkept.
  - intros segments Hall Hplain ->.
    assert (Hsegments : pathSegments (js "/" ++ join (js "/") segments) = segments).
    { unfold pathSegments. change (js "/") with [47].
      destruct segments as [| seg segments].
      - reflexivity.
      - change ([47] ++ join [47] (seg :: segments))
          with ([] ++ 47 :: join [47] (seg :: segments)).
        rewrite split_on_app by (intros Hin; inversion Hin).
        rewrite split_on_join by (assumption || discriminate).
        rewrite filter_cons, decide_False by (cbn; lia).
        clear Hplain. induction Hall as [| s rest (_ & Hlen & _) _ IH]; [reflexivity |].
        rewrite filter_cons, decide_True by lia. f_equal. exact IH. }
    rewrite Hkept by (rewrite Hsegments; exact Hall).
    rewrite Hsegments. reflexivity.
Qed.

(** X25: when every framework strategy returns [null] the app
    context has the framework [unknown] and no route guess, page or
    layout.  With the default strategies its framework fields are those
    of the next-like strategy, or those of the [unknown] result when
    that strategy returns [null].  With no React slice and the default
    configuration the context is the location's fields, the [unknown]
    framework and the one [unknown] data-source hint. *)
Theorem buildAppContext_framework_fallback
  (loc : option Location) (slice : option ReactTreeSlice)
  (config : GrabrRuntimeConfig) :
  let input :=
    {| reactSlice := slice;
       url := from_option href [] loc;
       pathname := from_option location_pathname [] loc |} in
  let context := buildAppContext loc slice config in
  ((forall strategy, strategy ∈ frameworkStrategies (heuristics config) ->
      detect_framework strategy input = None) ->
   app_framework context = UnknownFramework
   /\ app_routePatternGuess context = None
   /\ app_routeParamsGuess context = None
   /\ app_pageComponent context = None
   /\ app_layoutComponents context = [])
  /\ (frameworkStrategies (heuristics config)
      = frameworkStrategies defaultHeuristics ->
      let result := default unknownFrameworkResult (nextLikeDetect input) in
      app_framework context = framework result
      /\ app_routePatternGuess context = routePatternGuess result
      /\ app_routeParamsGuess context = routeParamsGuess result
      /\ app_pageComponent context = pageComponent result
      /\ app_layoutComponents context = layoutComponents result)
  /\ buildAppContext loc None defaultRuntimeConfig
     = {| app_url := from_option href [] loc;
          app_pathname := from_option location_pathname [] loc;
          app_search := from_option search [] loc;
          app_hash := from_option hash [] loc;
          app_framework := UnknownFramework;
          app_routePatternGuess := None;
          app_routeParamsGuess := None;
          app_pageComponent := None;
          app_layoutComponents := [];
          dataSources := [unknownHint] |}.
Proof.
  cbv zeta. split_and!.
  - intros Hnone.
    assert (Hfind : findNonNull
              (map (fun strategy =>
                      detect_framework strategy
                        {| reactSlice := slice;
                           url := from_option href [] loc;
                           pathname := from_option location_pathname [] loc |})
                 (frameworkStrategies (heuristics config))) = None).
    { induction (frameworkStrategies (heuristics config)) as [| strategy rest IH];
        [reflexivity |].
      cbn [map findNonNull]. rewrite Hnone by (apply elem_of_cons; auto).
      apply IH. intros s Hs. apply Hnone, elem_of_cons. auto. }
    unfold buildAppContext. cbv zeta.
    cbn [app_framework app_routePatternGuess app_routeParamsGuess
         app_pageComponent app_layoutComponents].
    rewrite Hfind. repeat split.
  - intros Hdefault. unfold buildAppContext. cbv zeta.
    cbn [app_framework app_routePatternGuess app_routeParamsGuess
         app_pageComponent app_layoutComponents].
    rewrite Hdefault.
    cbn [defaultHeuristics frameworkStrategies map findNonNull detect_framework
         nextLikeFrameworkStrategy genericFrameworkStrategy].
    destruct (nextLikeDetect _); repeat split.
  - reflexivity.
Qed.

(** X26: merging a merged configuration gives it back: the engine
    that [createGrabrClient] creates from its merged configuration has
    that very configuration.  A merged configuration has neither a
    [null] nor an [undefined] [reactInspectorMode] or
    [maxReactStackFrames], and an engine created without argument has
    the default configuration. *)
Theorem createInspectorEngine_keeps_merged_config
  (partial : option PartialRuntimeConfig) :
  let config := mergeRuntimeConfig partial in
  engine_config (createInspectorEngine (Some (asPartial config))) = config
  /\ reactInspectorMode config <> JUndefined
  /\ reactInspectorMode config <> JNull
  /\ maxReactStackFrames config <> JUndefined
  /\ maxReactStackFrames config <> JNull
  /\ engine_config (createInspectorEngine None) = defaultRuntimeConfig.
Proof.
  cbv zeta.
  assert (Hnullish : forall a b,
            b <> JUndefined -> b <> JNull ->
            nullish a b <> JUndefined /\ nullish a b <> JNull
            /\ nullish (nullish a b) b = nullish a b).
  { intros a b Hu Hn.
    destruct a; cbn; repeat split; try congruence;
      destruct b; cbn; congruence. }
  destruct partial as [partial |]; cbn [mergeRuntimeConfig].
  - destruct (Hnullish (partial_reactInspectorMode partial)
                (reactInspectorMode defaultRuntimeConfig)) as (M1 & M2 & M3);
      [discriminate | discriminate |].
    destruct (Hnullish (partial_maxReactStackFrames partial)
                (maxReactStackFrames defaultRuntimeConfig)) as (F1 & F2 & F3);
      [discriminate | discriminate |].
    cbn [reactInspectorMode maxReactStackFrames].
    split_and!; try assumption; [| reflexivity].
    unfold createInspectorEngine, asPartial.
    cbn [engine_config mergeRuntimeConfig partial_reactInspectorMode
         partial_maxReactStackFrames partial_heuristics reactInspectorMode
         maxReactStackFrames heuristics frameworkStrategies dataSourceStrategies
         mbind option_bind partial_frameworkStrategies partial_dataSourceStrategies
         default].
    rewrite M3, F3. reflexivity.
  - split_and!; try discriminate; reflexivity.
Qed.

End HeuristicsClaims.

(** ** React snapshots and behaviour *)

Section ReactLemmas.
Import JS Schema Values ValueShape ReactInspector.

Lemma limitEntries_take {T} (entries : list T) :
  limitEntries entries MAX_REACT_SNAPSHOT_ENTRIES = take 12 entries.
Proof.
  unfold limitEntries, MAX_REACT_SNAPSHOT_ENTRIES.
  destruct (Z.ltb_spec 12 (Z.of_nat (length entries))); [reflexivity |].
  symmetry. apply take_ge. lia.
Qed.

Lemma elem_of_omap_highlight (visited : list (jsstring * unknown)) h :
  h ∈ omap highlightProp visited ->
  exists next reason,
    (name h, next) ∈ visited
    /\ classifyPropHighlight (name h) (toSerializableValue next 0) = Some reason
    /\ value h = default JNull (toSerializableValue next 0)
    /\ Schema.reason h = reasonText reason.
Proof.
  intros Hin. apply list_elem_of_omap in Hin as ([propName next] & Hin & Hh).
  unfold highlightProp in Hh.
  destruct (classifyPropHighlight propName (toSerializableValue next 0))
    as [reason |] eqn:Hclass; [| discriminate].
  injection Hh as <-. cbn [name value Schema.reason].
  exists next, reason. auto.
Qed.

Lemma classify_null name reason :
  classifyPropHighlight name None = Some reason -> reason <> ReasonOther.
Proof.
  unfold classifyPropHighlight. cbv zeta.
  repeat match goal with
         | |- (if ?c then _ else _) = _ -> _ => destruct c
         end; intros [= <-]; discriminate.
Qed.

Lemma classify_value name v :
  classifyPropHighlight name (Some v) <> None.
Proof.
  unfold classifyPropHighlight. cbv zeta.
  repeat match goal with
         | |- (if ?c then _ else _) <> _ => destruct c
         end; discriminate.
Qed.

Lemma reasonText_other reason :
  reason <> ReasonOther -> reasonText reason <> js "other".
Proof. destruct reason; intros Hne; try contradiction; vm_compute; discriminate. Qed.

Lemma inferEventKind_on name :
  startsWith name (js "on") = true -> inferEventKindFromPropName name <> None.
Proof.
  intros Hstart. apply startsWith_spec in Hstart as [rest ->].
  unfold inferEventKindFromPropName. cbv zeta.
  destruct (ownProperty EXACT_EVENT_KIND _); [discriminate |].
  destruct (toLowerCase_on rest) as [lowered ->].
  change (js "on" ++ lowered) with (111 :: 110 :: lowered).
  rewrite !bool_decide_eq_false_2 by (vm_compute; discriminate).
  cbn [orb].
  destruct (startsWith _ (js "onkey")); [discriminate |].
  destruct (startsWith _ (js "onpointer") || startsWith _ (js "onmouse"));
    discriminate.
Qed.

Lemma recordHandler_inv declared source recorded prop :
  wellRecorded recorded ->
  wellRecorded (recordHandler declared source recorded prop).
Proof.
  unfold wellRecorded. destruct recorded as [seen handlers], prop as [name next].
  cbn [fst snd]. intros (Hnames & Hnd & Hon). unfold recordHandler.
  destruct (startsWith name (js "on")) eqn:Hstart; cbn [negb]; [| auto].
  destruct (bool_decide (name ∈ seen)) eqn:Hseen; [auto |].
  apply bool_decide_eq_false in Hseen.
  destruct next; auto. cbn [fst snd].
  split_and!.
  - rewrite map_app, Hnames. reflexivity.
  - apply list.NoDup_app. split; [exact Hnd |]. split.
    + intros x Hx Hy. apply list_elem_of_singleton in Hy. subst. contradiction.
    + apply list.NoDup_cons. split; [intros Hin; inversion Hin | constructor].
  - apply Forall_app. split; [exact Hon |]. constructor; [| constructor].
    cbn [propName inferredKind comment]. split; [exact Hstart |].
    destruct (inferEventKindFromPropName name) as [kind |] eqn:Hkind.
    + exists kind. split; reflexivity.
    + exfalso. apply (inferEventKind_on name Hstart Hkind).
Qed.

Lemma recordHandlersFromFiber_inv {Element Fiber : Type}
  (bippy : Bippy Element Fiber) fiber declared source recorded :
  wellRecorded recorded ->
  wellRecorded (recordHandlersFromFiber bippy fiber declared source recorded).
Proof.
  unfold recordHandlersFromFiber. destruct fiber as [fiber |]; [| auto].
  generalize (traverseProps bippy fiber). intros props. revert recorded.
  induction props as [| prop props IH]; intros recorded Hrec; [exact Hrec |].
  cbn [fold_left]. apply IH, recordHandler_inv, Hrec.
Qed.

End ReactLemmas.

Section ReactClaims.
Import JS Schema Values ValueShape ReactInspector.

(** X27: [totalProps] counts every prop visited; the highlighted
    props are the first 12 of those the callback keeps, in the order
    of the visit; each is a visited prop with its serializable value
    (within the bounds of depth 0), or with [null] when the value
    cannot be serialized, and then its reason is not [other]; a prop
    whose value can be serialized is always kept. *)
Theorem snapshotProps_highlights (visited : list (jsstring * unknown)) :
  let snapshot := snapshotProps visited in
  totalProps snapshot = numberOfNat (length visited)
  /\ highlighted snapshot = take 12 (omap highlightProp visited)
  /\ (length (highlighted snapshot) <= 12)%nat
  /\ (length (highlighted snapshot) <= length visited)%nat
  /\ (forall h, h ∈ highlighted snapshot ->
        exists next,
          (name h, next) ∈ visited
          /\ ((toSerializableValue next 0 = Some (value h)
               /\ fits 3 (value h) = true)
              \/ (toSerializableValue next 0 = None /\ value h = JNull
                  /\ reason h <> js "other")))
  /\ (forall propName next v,
        toSerializableValue next 0 = Some v ->
        highlightProp (propName, next) <> None).
Proof.
  cbv zeta. unfold snapshotProps. cbn [totalProps highlighted].
  rewrite limitEntries_take. split_and!.
  - reflexivity.
  - reflexivity.
  - rewrite length_take. lia.
  - rewrite length_take. pose proof (length_omap_le highlightProp visited). lia.
  - intros h Hin. apply list.elem_of_take in Hin as (i & Hi & _).
    apply list_elem_of_lookup_2, elem_of_omap_highlight in Hi
      as (next & reason & Hvisited & Hclass & Hvalue & Hreason).
    exists next. split; [exact Hvisited |].
    destruct (toSerializableValue next 0) as [v |] eqn:Hserial.
    + left. cbn in Hvalue. subst v. split; [reflexivity |].
      apply stable_fits.
      apply (toSerializableValue_stable 3 next 0); [reflexivity | exact Hserial].
    + right. split; [reflexivity |]. split; [exact Hvalue |].
      rewrite Hreason. apply reasonText_other. eapply classify_null. exact Hclass.
  - intros propName next v Hserial. unfold highlightProp. rewrite Hserial.
    pose proof (classify_value propName v) as Hsome.
    destruct (classifyPropHighlight propName (Some v)); [discriminate | contradiction].
Qed.

(** X28: the state and context snapshots count every hook state and
    context visited, keep the first 12 of them, and the entry at
    position [i] has the index [i] and the serializable value of the
    [i]-th value visited. *)
Theorem snapshots_number_their_entries (hooks contexts : list unknown) :
  let state := snapshotState hooks in
  let context := snapshotContexts contexts in
  totalHooks state = length hooks
  /\ length (stateEntries state) = Nat.min 12 (length hooks)
  /\ (forall i entry, stateEntries state !! i = Some entry ->
        hookIndex entry = i
        /\ exists next,
             hooks !! i = Some next
             /\ hookValue entry = toSerializableValue next 0)
  /\ totalContexts context = length contexts
  /\ length (contextEntries context) = Nat.min 12 (length contexts)
  /\ (forall i entry, contextEntries context !! i = Some entry ->
        contextIndex entry = i
        /\ exists next,
             contexts !! i = Some next
             /\ contextValue entry = toSerializableValue next 0).
Proof.
  cbv zeta. unfold snapshotState, snapshotContexts.
  cbn [totalHooks stateEntries totalContexts contextEntries].
  rewrite !limitEntries_take, !length_take, !length_imap. split_and!; try reflexivity.
  - intros i entry Hentry. apply lookup_take_Some in Hentry as [Hentry _].
    apply list_lookup_imap_Some in Hentry as (next & Hnext & ->).
    split; [reflexivity |]. exists next. auto.
  - intros i entry Hentry. apply lookup_take_Some in Hentry as [Hentry _].
    apply list_lookup_imap_Some in Hentry as (next & Hnext & ->).
    split; [reflexivity |]. exists next. auto.
Qed.

(** X29: the handlers of a behaviour context have pairwise distinct
    prop names; each name starts with [on], each handler has an event
    kind and the comment built from its name and that kind; the
    inference level is [none] exactly when there is no handler; and
    there is none when the lookup of the host fiber throws or gives
    [null]. *)
Theorem buildBehaviorContext_handlers
  {Element Fiber : Type} (bippy : Bippy Element Fiber)
  (element : Element) (reactSlice : option ReactTreeSlice) :
  let context := buildBehaviorContext bippy element reactSlice in
  NoDup (map propName (handlers context))
  /\ (forall h, h ∈ handlers context ->
        startsWith (propName h) (js "on") = true
        /\ exists kind,
             inferredKind h = Some kind
             /\ comment h
                = Some (js "Handler " ++ propName h ++ js " likely handles "
                        ++ eventKindText kind ++ js " events on this element."))
  /\ (inferenceLevel context = InferenceNone <-> handlers context = [])
  /\ (getFiberFromHostInstance bippy element = None
      \/ getFiberFromHostInstance bippy element = Some None ->
      handlers context = []).
Proof.
  cbv zeta.
  assert (Hshape : exists recorded,
            wellRecorded recorded
            /\ buildBehaviorContext bippy element reactSlice
               = {| inferenceLevel :=
                      if (length (snd recorded) =? 0)%nat then InferenceNone
                      else PropNameOnly;
                    handlers := snd recorded |}
            /\ (getFiberFromHostInstance bippy element = None
                \/ getFiberFromHostInstance bippy element = Some None ->
                snd recorded = [])).
  { assert (Hempty : wellRecorded ([], [])).
    { split; [reflexivity |]. split; constructor. }
    unfold buildBehaviorContext. cbv zeta.
    destruct (getFiberFromHostInstance bippy element) as [[hostFiber |] |];
      cbn [default].
    - eexists. split; [| split; [reflexivity |]].
      + destruct reactSlice as [slice |].
        * destruct (ownerIndex slice).
          -- apply recordHandlersFromFiber_inv, recordHandlersFromFiber_inv, Hempty.
          -- apply recordHandlersFromFiber_inv, Hempty.
        * apply recordHandlersFromFiber_inv, Hempty.
      + intros [Hnone | Hnone]; discriminate.
    - exists ([], []). split; [exact Hempty |]. split; reflexivity.
    - exists ([], []). split; [exact Hempty |]. split; reflexivity. }
  destruct Hshape as (recorded & (Hnames & Hnd & Hall) & -> & Hnone).
  cbn [handlers inferenceLevel]. split_and!.
  - rewrite Hnames. exact Hnd.
  - intros h Hin. rewrite list.Forall_forall in Hall. apply Hall, Hin.
  - destruct (snd recorded); cbn; split; (reflexivity || discriminate).
  - exact Hnone.
Qed.

End ReactClaims.

(** ** The clipboard provider *)

Section ClipboardProofs.
Import JS Schema Concurrency Prompt Clipboard.

Lemma failure_prefix :
  js "Failed to copy session context to clipboard." ++ js " Reasons: "
  = js "Failed to copy session context to clipboard. Reasons: ".
Proof. vm_compute. reflexivity. Qed.

(** A failed attempt pushes one reason for each of the two mechanisms; a
    successful one pushes at most the reason of the first. *)
Lemma tryCopyTextToClipboard_reasons (browser : Browser) (text : jsstring)
  (reasons : list jsstring) :
  let attempt := tryCopyTextToClipboard browser text reasons in
  if copyReturned attempt
  then reasonsOut attempt = reasons
       \/ exists first, reasonsOut attempt = reasons ++ [first]
  else exists first second, reasonsOut attempt = reasons ++ [first; second].
Proof.
  cbv zeta. unfold tryCopyTextToClipboard.
  destruct browser as [writeText body exec]; cbn [clipboardWriteText documentBody execCommandCopy].
  destruct writeText as [writeText |];
    [destruct (writeText text) as [[message |] |] |];
    destruct body; cbn [negb copyReturned reasonsOut];
    try (destruct (exec text) as [[message' |] | []]; cbn [copyReturned reasonsOut]);
    rewrite <- ?app_assoc; cbn [app];
    first [ left; reflexivity
          | right; eexists; reflexivity
          | eexists; eexists; reflexivity ].
Qed.

Lemma tryCopyTextToClipboard_returned (browser : Browser) (text : jsstring)
  (reasons : list jsstring) :
  copyReturned (tryCopyTextToClipboard browser text reasons) = true
  <-> (exists writeText,
         clipboardWriteText browser = Some writeText /\ writeText text = None)
      \/ (documentBody browser = true /\ execCommandCopy browser text = inr true).
Proof.
  unfold tryCopyTextToClipboard.
  destruct browser as [writeText body exec]; cbn [clipboardWriteText documentBody execCommandCopy].
  destruct writeText as [writeText |];
    [destruct (writeText text) as [[message |] |] eqn:Hwrite |];
    destruct body; cbn [negb copyReturned];
    try (destruct (exec text) as [[message' |] | []] eqn:Hexec; cbn [copyReturned]);
    (split;
     [ try discriminate; intros _;
       first [ right; split; reflexivity
             | left; eexists; split; [reflexivity | assumption] ]
     | try reflexivity;
       intros [(w & Hsome & Hw) | [Hbody Hcopy]];
       try discriminate; congruence ]).
Qed.

Lemma tryCopyTextToClipboard_textarea (browser : Browser) (text : jsstring)
  (reasons : list jsstring) :
  textareaInBody (tryCopyTextToClipboard browser text reasons) = true
  <-> ~ (exists writeText,
           clipboardWriteText browser = Some writeText /\ writeText text = None)
      /\ documentBody browser = true
      /\ exists thrown, execCommandCopy browser text = inl thrown.
Proof.
  unfold tryCopyTextToClipboard.
  destruct browser as [writeText body exec]; cbn [clipboardWriteText documentBody execCommandCopy].
  destruct writeText as [writeText |];
    [destruct (writeText text) as [[message |] |] eqn:Hwrite |];
    destruct body; cbn [negb textareaInBody];
    try (destruct (exec text) as [[message' |] | []] eqn:Hexec; cbn [textareaInBody]);
    (split;
     [ first
         [ discriminate
         | intros _;
           split; [intros (w & Hsome & Hw); congruence |];
           split; [reflexivity | eexists; reflexivity] ]
     | first
         [ reflexivity
         | intros (Hdirect & Hbody & thrown & Hthrown);
           first
             [ discriminate
             | exfalso; apply Hdirect; eexists; split; [reflexivity | assumption] ] ] ]).
Qed.

End ClipboardProofs.

Section ClipboardClaims.
Import JS Schema Concurrency Prompt Clipboard.

(** X30: when the session prompt renders, the clipboard provider logs
    it whatever happens next; [sendContext] resolves exactly when
    [navigator.clipboard.writeText] succeeds or, a document body being
    there, [execCommand] returns [true]; otherwise it rejects with the
    failure message followed by exactly two reasons joined by a bar.
    The helper [textarea] is left in the body exactly when
    [execCommand] is reached and throws. *)
Theorem sendContext_copies_or_names_two_reasons
  (shortestDecimal : Q -> jsstring) (browser : Browser) (session : jsval)
  (text : jsstring)
  (Hrendered : renderSessionPrompt shortestDecimal session = Returns text) :
  let sent := sendContext shortestDecimal browser session in
  let direct :=
    exists writeText,
      clipboardWriteText browser = Some writeText /\ writeText text = None in
  let fallback :=
    documentBody browser = true /\ execCommandCopy browser text = inr true in
  logged sent = Some text
  /\ (settled sent = Resolved tt <-> direct \/ fallback)
  /\ (settled sent <> Resolved tt ->
      exists first second,
        settled sent
        = Rejected (js "Failed to copy session context to clipboard. Reasons: "
                    ++ first ++ js " | " ++ second))
  /\ (textareaLeft sent = true <->
      ~ direct /\ documentBody browser = true
      /\ exists thrown, execCommandCopy browser text = inl thrown).
Proof.
  cbv zeta. unfold sendContext. rewrite Hrendered. cbv zeta.
  cbn [logged settled textareaLeft].
  pose proof (tryCopyTextToClipboard_reasons browser text []) as Hreasons.
  pose proof (tryCopyTextToClipboard_returned browser text []) as Hreturned.
  pose proof (tryCopyTextToClipboard_textarea browser text []) as Htextarea.
  cbv zeta in Hreasons.
  destruct (copyReturned (tryCopyTextToClipboard browser text [])) eqn:Hcopied.
  - split_and!; [reflexivity | | | exact Htextarea].
    + split; [intros _; apply Hreturned; reflexivity | reflexivity].
    + intros Hne. exfalso. apply Hne. reflexivity.
  - destruct Hreasons as (first & second & ->). cbn [app length Nat.ltb Nat.leb join].
    split_and!; [reflexivity | | | exact Htextarea].
    + split; [discriminate | intros H; apply Hreturned in H; discriminate].
    + intros _. exists first, second. rewrite <- failure_prefix, <- app_assoc. reflexivity.
Qed.

End ClipboardClaims.

Section ClipboardWitnesses.
Import JS Schema Concurrency Prompt Clipboard.
Import Samples PageSamples.

Lemma sendContext_copies_or_names_two_reasons_witness :
  exists text first second,
    renderSessionPrompt halves buttonSession = Returns text
    /\ logged (sendContext halves deniedBrowser buttonSession) = Some text
    /\ settled (sendContext halves deniedBrowser buttonSession)
       = Rejected (js "Failed to copy session context to clipboard. Reasons: "
                   ++ first ++ js " | " ++ second).
Proof.
  destruct (renderSessionPrompt halves buttonSession) as [text | error] eqn:Hrendered.
  - destruct (sendContext_copies_or_names_two_reasons halves deniedBrowser
                buttonSession text Hrendered)
      as (Hlogged & Hcopied & Hreasons & _).
    destruct Hreasons as (first & second & Hsettled).
    + intros Hresolved. apply Hcopied in Hresolved.
      destruct Hresolved as [(writeText & Hnone & _) | [_ Hcopy]]; discriminate.
    + exists text, first, second. split_and!; [reflexivity | exact Hlogged | exact Hsettled].
  - exfalso. vm_compute in Hrendered. discriminate.
Defined.

End ClipboardWitnesses.
